(** * The multisplitter layout tree of KDDockWidgets

    A shallow embedding of [src/private/multisplitter/Item_p.h] and
    [src/private/multisplitter/Item.cpp]: the value classes, the item tree,
    the sizing algorithms ([calculateSqueezes], [shrinkNeighbours],
    [growItem]), the separator derivation, insertion at the root, separator
    moves and the (de)serialization through variant maps.

    Conventions.
    - A C++ [int] is a [Z]. Signed overflow is undefined behaviour in C++, so
      the model describes the executions in which no [int] overflows.
    - A [double] is a primitive binary64 float ([PrimFloat]), so that
      [percentageWithinParent] is computed exactly as the program does.
    - A pointer to an [Item] is the address of the object, a [Z] kept in the
      object itself ([item_ptr]).
    - [Q_ASSERT] is compiled out in release builds: the model continues after
      a failed assertion the way the release build does, and stops with a
      [Fault] where the C++ behaviour is undefined (null dereference,
      out-of-range [QVector] access).
    - An [Item] object is a node of the tree, held by one container. Where
      the program goes on to list, in a second container, an object that
      the tree already holds further down, one object would be reached
      through two parents; the model stops there with the fault
      [ListedTwice].
    - Signals that only notify the host ([geometryChanged], [itemsChanged],
      ...) and the geometry published to guest widgets are outputs and are
      left out; warnings of the mutating entry points are recorded. *)

From Stdlib Require Import ZArith List Bool Lia String Ascii DecimalString.
From Stdlib Require Import Floats.PrimFloat Floats.FloatOps Floats.SpecFloat.
From Stdlib Require Import Numbers.Cyclic.Int63.Uint63.
Import ListNotations.
Local Open Scope Z_scope.

(** ** Data *)

Module Types.

(** [Qt::Orientation] is an enum over [int] ([Qt::Horizontal = 0x1],
    [Qt::Vertical = 0x2]); deserialization casts any [int] to it, and the
    code only ever tests [o == Qt::Vertical] and [o == Qt::Horizontal]. *)
Definition Orientation := Z.
Definition Horizontal : Orientation := 1.
Definition Vertical : Orientation := 2.

Inductive Location :=
| Location_None
| Location_OnLeft
| Location_OnTop
| Location_OnRight
| Location_OnBottom.

Inductive AddingOption :=
| AddingOption_None
| AddingOption_StartHidden.

Inductive Side := Side1 | Side2.

Inductive GrowthStrategy := BothSidesEqually | Side1Only | Side2Only.

Inductive ChildrenResizeStrategy :=
| Percentage
| Side1SeparatorMove
| Side2SeparatorMove.

Inductive NeighbourSqueezeStrategy :=
| AllNeighbours
| ImmediateNeighboursFirst.

Inductive DefaultSizeMode :=
| ItemSize
| Fair
| FairButFloor
| SizePolicy
| NoSizing. (* DefaultSizeMode::None *)

Record QPoint := mkQPoint { px : Z; py : Z }.
Record QSize := mkQSize { wd : Z; ht : Z }.

(** A [QRect] keeps its top-left and bottom-right corners; its width is
    [x2 - x1 + 1], so the default rectangle [(0,0,-1,-1)] has size 0x0. *)
Record QRect := mkQRect { x1 : Z; y1 : Z; x2 : Z; y2 : Z }.

Record SizingInfo := mkSizingInfo {
  geometry : QRect;
  minSize : QSize;
  maxSize : QSize;
  percentageWithinParent : float;
  isBeingInserted : bool }.

(** [ItemContainer::LengthOnSide] *)
Record LengthOnSide := mkLengthOnSide { los_length : Z; los_minLength : Z }.

(** What the layout reads from a guest (a [GuestInterface] and its
    [asWidget()]): the widget's address, which is the serialized [guestId],
    its object name, minimum size, minimum size hint and geometry at the time
    of the call. The widget belongs to the host. *)
Record Guest := mkGuest {
  guest_widget : Z;
  widget_objectName : string;
  widget_minimumWidth : Z;
  widget_minimumHeight : Z;
  widget_minimumSizeHint : QSize;
  widget_geometry : QRect }.

(** Modelled from the spec: [Separator_p.h] is not among the sources. A
    separator is a value owned by its container: an orientation (given by
    [init]), a position along the container's axis in root coordinates, the
    opposite-axis position and the opposite-axis length (both given by
    [setGeometry(pos, pos2, length)]); its thickness is the process-wide
    [Item::separatorThickness]. *)
Record Separator := mkSeparator {
  sep_orientation : Orientation;
  sep_position : Z;
  sep_pos2 : Z;
  sep_length : Z }.

(** The members of [class Item] that the layout reads or writes.
    [m_refCount] only serves [ref()]/[unref()] and is left out. *)
Record ItemData := mkItemData {
  item_ptr : Z;
  m_sizingInfo : SizingInfo;
  m_parent : option Z;
  m_isVisible : bool;
  m_hostWidget : option Z;
  m_guest : option Guest;
  objectName : string }.

(** The members [class ItemContainer] adds ([m_isResizing] is never read). *)
Record ContainerData := mkContainerData {
  m_orientation : Orientation;
  m_separators : list Separator;
  m_blockUpdatePercentages : bool;
  m_isDeserializing : bool;
  m_convertingItemToContainer : bool;
  m_checkSanityScheduled : bool }.

(** An item is a leaf or a container that owns its children in order
    ([m_children]). *)
#[local] Unset Elimination Schemes.
Inductive Item :=
| Leaf (d : ItemData)
| Container (d : ItemData) (c : ContainerData) (m_children : list Item).

(** [QVariant], restricted to the alternatives the serializer writes. A
    [QVariantMap] is kept as an association list. *)
Inductive QVariant :=
| VInvalid
| VBool (b : bool)
| VInt (z : Z)
| VString (s : string)
| VMap (m : list (string * QVariant))
| VList (l : list QVariant).
#[local] Set Elimination Schemes.

(** How a call can leave the modelled semantics. *)
Inductive Fault :=
| OutOfFuel
| NullDereference
| IndexOutOfRange
| ListedTwice.

(** A computation that may fault and that records the [qWarning]s of the
    path taken. *)
Definition Exec (A : Type) : Type := (Fault + A * list string)%type.

End Types.
Export Types.

(** ** Qt value classes *)

Module QPoint.
Definition add (p q : QPoint) : QPoint := mkQPoint (px p + px q) (py p + py q).
Definition sub (p q : QPoint) : QPoint := mkQPoint (px p - px q) (py p - py q).
Definition origin : QPoint := mkQPoint 0 0.
End QPoint.

Module QSize.
Definition add (a b : QSize) : QSize := mkQSize (wd a + wd b) (ht a + ht b).
Definition sub (a b : QSize) : QSize := mkQSize (wd a - wd b) (ht a - ht b).
Definition expandedTo (a b : QSize) : QSize :=
  mkQSize (Z.max (wd a) (wd b)) (Z.max (ht a) (ht b)).
Definition isNull (a : QSize) : bool := (wd a =? 0) && (ht a =? 0).
Definition eqb (a b : QSize) : bool := (wd a =? wd b) && (ht a =? ht b).
End QSize.

Module QRect.
(** [QRect()] *)
Definition null : QRect := mkQRect 0 0 (-1) (-1).
(** [QRect(x, y, w, h)] *)
Definition make (x y w h : Z) : QRect := mkQRect x y (x + w - 1) (y + h - 1).
Definition x (r : QRect) : Z := x1 r.
Definition y (r : QRect) : Z := y1 r.
Definition width (r : QRect) : Z := x2 r - x1 r + 1.
Definition height (r : QRect) : Z := y2 r - y1 r + 1.
Definition right (r : QRect) : Z := x2 r.
Definition bottom (r : QRect) : Z := y2 r.
Definition size (r : QRect) : QSize := mkQSize (width r) (height r).
Definition topLeft (r : QRect) : QPoint := mkQPoint (x1 r) (y1 r).
Definition setWidth (w : Z) (r : QRect) : QRect :=
  mkQRect (x1 r) (y1 r) (x1 r + w - 1) (y2 r).
Definition setHeight (h : Z) (r : QRect) : QRect :=
  mkQRect (x1 r) (y1 r) (x2 r) (y1 r + h - 1).
Definition setSize (s : QSize) (r : QRect) : QRect :=
  mkQRect (x1 r) (y1 r) (x1 r + wd s - 1) (y1 r + ht s - 1).
Definition setLeft (p : Z) (r : QRect) : QRect := mkQRect p (y1 r) (x2 r) (y2 r).
Definition setTop (p : Z) (r : QRect) : QRect := mkQRect (x1 r) p (x2 r) (y2 r).
Definition setRight (p : Z) (r : QRect) : QRect := mkQRect (x1 r) (y1 r) p (y2 r).
Definition setBottom (p : Z) (r : QRect) : QRect := mkQRect (x1 r) (y1 r) (x2 r) p.
Definition moveLeft (p : Z) (r : QRect) : QRect :=
  mkQRect p (y1 r) (x2 r + (p - x1 r)) (y2 r).
Definition moveTop (p : Z) (r : QRect) : QRect :=
  mkQRect (x1 r) p (x2 r) (y2 r + (p - y1 r)).
Definition moveTopLeft (p : QPoint) (r : QRect) : QRect :=
  moveTop (py p) (moveLeft (px p) r).
Definition adjust (dx1 dy1 dx2 dy2 : Z) (r : QRect) : QRect :=
  mkQRect (x1 r + dx1) (y1 r + dy1) (x2 r + dx2) (y2 r + dy2).
Definition isNull (r : QRect) : bool :=
  (x2 r =? x1 r - 1) && (y2 r =? y1 r - 1).
Definition isEmpty (r : QRect) : bool := (x2 r <? x1 r) || (y2 r <? y1 r).
Definition eqb (a b : QRect) : bool :=
  (x1 a =? x1 b) && (y1 a =? y1 b) && (x2 a =? x2 b) && (y2 a =? y2 b).
(** [QRect::contains(const QRect &, proper = false)] *)
Definition contains (a r : QRect) : bool :=
  if isNull a || isNull r then false
  else
    let l1 := if x2 a - x1 a + 1 <? 0 then x2 a else x1 a in
    let r1 := if x2 a - x1 a + 1 <? 0 then x1 a else x2 a in
    let l2 := if x2 r - x1 r + 1 <? 0 then x2 r else x1 r in
    let r2 := if x2 r - x1 r + 1 <? 0 then x1 r else x2 r in
    if (l2 <? l1) || (r1 <? r2) then false
    else
      let t1 := if y2 a - y1 a + 1 <? 0 then y2 a else y1 a in
      let b1 := if y2 a - y1 a + 1 <? 0 then y1 a else y2 a in
      let t2 := if y2 r - y1 r + 1 <? 0 then y2 r else y1 r in
      let b2 := if y2 r - y1 r + 1 <? 0 then y1 r else y2 r in
      negb ((t2 <? t1) || (b1 <? b2)).
End QRect.

(** ** Constants and free functions of namespace [Layouting] *)

Module Layouting.
Definition KDDOCKWIDGETS_MIN_WIDTH : Z := 80.
Definition KDDOCKWIDGETS_MIN_HEIGHT : Z := 90.
Definition KDDOCKWIDGETS_MAX_WIDTH : Z := 16777215.
Definition KDDOCKWIDGETS_MAX_HEIGHT : Z := 16777215.

(** [Item::separatorThickness] and [Item::hardcodedMinimumSize] *)
Definition separatorThickness : Z := 5.
Definition hardcodedMinimumSize : QSize :=
  mkQSize KDDOCKWIDGETS_MIN_WIDTH KDDOCKWIDGETS_MIN_HEIGHT.

Definition isVerticalO (o : Orientation) : bool := o =? Vertical.
Definition isHorizontalO (o : Orientation) : bool := o =? Horizontal.

Definition oppositeOrientation (o : Orientation) : Orientation :=
  if isVerticalO o then Horizontal else Vertical.

Definition pos (p : QPoint) (o : Orientation) : Z :=
  if isVerticalO o then py p else px p.

Definition length (sz : QSize) (o : Orientation) : Z :=
  if isVerticalO o then ht sz else wd sz.

Definition locationIsVertical (loc : Location) : bool :=
  match loc with
  | Location_OnTop | Location_OnBottom => true
  | _ => false
  end.

Definition locationIsSide1 (loc : Location) : bool :=
  match loc with
  | Location_OnLeft | Location_OnTop => true
  | _ => false
  end.

Definition adjustedRect (r : QRect) (o : Orientation) (p1 p2 : Z) : QRect :=
  if isVerticalO o then QRect.adjust 0 p1 0 p2 r else QRect.adjust p1 0 p2 0 r.

Definition orientationForLocation (loc : Location) : Orientation :=
  match loc with
  | Location_OnLeft | Location_OnRight => Horizontal
  | Location_None | Location_OnTop | Location_OnBottom => Vertical
  end.

Definition sideForLocation (loc : Location) : Side :=
  match loc with
  | Location_OnLeft | Location_OnTop => Side1
  | Location_OnRight | Location_OnBottom => Side2
  | Location_None => Side1
  end.

(** [qBound(min, val, max)] is [qMax(min, qMin(max, val))]. *)
Definition qBound (lo v hi : Z) : Z := Z.max lo (Z.min hi v).
End Layouting.

(** ** [struct SizingInfo] *)

Module SizingInfo.
(** The default member initializers of the struct. *)
Definition default : SizingInfo :=
  mkSizingInfo QRect.null
    (mkQSize Layouting.KDDOCKWIDGETS_MIN_WIDTH Layouting.KDDOCKWIDGETS_MIN_HEIGHT)
    (mkQSize Layouting.KDDOCKWIDGETS_MAX_WIDTH Layouting.KDDOCKWIDGETS_MAX_HEIGHT)
    0%float false.

Definition withGeometry (g : QRect) (s : SizingInfo) : SizingInfo :=
  mkSizingInfo g (minSize s) (maxSize s) (percentageWithinParent s) (isBeingInserted s).
Definition withMinSize (m : QSize) (s : SizingInfo) : SizingInfo :=
  mkSizingInfo (geometry s) m (maxSize s) (percentageWithinParent s) (isBeingInserted s).
Definition withPercentage (p : float) (s : SizingInfo) : SizingInfo :=
  mkSizingInfo (geometry s) (minSize s) (maxSize s) p (isBeingInserted s).
Definition withBeingInserted (b : bool) (s : SizingInfo) : SizingInfo :=
  mkSizingInfo (geometry s) (minSize s) (maxSize s) (percentageWithinParent s) b.

Definition size (s : SizingInfo) : QSize := QRect.size (geometry s).
Definition setSize (sz : QSize) (s : SizingInfo) : SizingInfo :=
  withGeometry (QRect.setSize sz (geometry s)) s.
Definition length (s : SizingInfo) (o : Orientation) : Z :=
  Layouting.length (size s) o.
Definition minLength (s : SizingInfo) (o : Orientation) : Z :=
  Layouting.length (minSize s) o.
Definition availableLength (s : SizingInfo) (o : Orientation) : Z :=
  Z.max 0 (length s o - minLength s o).
Definition missingLength (s : SizingInfo) (o : Orientation) : Z :=
  Z.max 0 (minLength s o - length s o).
Definition pos (s : SizingInfo) : QPoint := QRect.topLeft (geometry s).
Definition position (s : SizingInfo) (o : Orientation) : Z :=
  Layouting.pos (pos s) o.
Definition edge (s : SizingInfo) (o : Orientation) : Z :=
  if Layouting.isVerticalO o then QRect.bottom (geometry s)
  else QRect.right (geometry s).
Definition setLength (l : Z) (o : Orientation) (s : SizingInfo) : SizingInfo :=
  if Layouting.isVerticalO o then withGeometry (QRect.setHeight l (geometry s)) s
  else withGeometry (QRect.setWidth l (geometry s)) s.
Definition incrementLength (byAmount : Z) (o : Orientation) (s : SizingInfo)
  : SizingInfo :=
  setLength (length s o + byAmount) o s.
Definition setOppositeLength (l : Z) (o : Orientation) (s : SizingInfo)
  : SizingInfo :=
  setLength l (Layouting.oppositeOrientation o) s.
Definition setPos (p : Z) (o : Orientation) (s : SizingInfo) : SizingInfo :=
  if Layouting.isVerticalO o then withGeometry (QRect.moveTop p (geometry s)) s
  else withGeometry (QRect.moveLeft p (geometry s)) s.
Definition isNull (s : SizingInfo) : bool := QRect.isNull (geometry s).
Definition setGeometry (geo : QRect) (s : SizingInfo) : SizingInfo :=
  withGeometry geo s.
End SizingInfo.

Module LengthOnSide.
Definition empty : LengthOnSide := mkLengthOnSide 0 0.
Definition available (l : LengthOnSide) : Z :=
  Z.max 0 (los_length l - los_minLength l).
Definition missing (l : LengthOnSide) : Z :=
  Z.max 0 (los_minLength l - los_length l).
End LengthOnSide.

(** ** The execution monad *)

Module Exec.
Definition ret {A} (a : A) : Exec A := inr (a, []).
Definition fault {A} (f : Fault) : Exec A := inl f.
Definition warn (msg : string) : Exec unit := inr (tt, [msg]).
(** Several warnings, in order. *)
Definition warnAll (msgs : list string) : Exec unit := inr (tt, msgs).
Definition bind {A B} (m : Exec A) (k : A -> Exec B) : Exec B :=
  match m with
  | inl f => inl f
  | inr (a, w) =>
      match k a with
      | inl f => inl f
      | inr (b, w') => inr (b, w ++ w')
      end
  end.
(** The value of a finished computation. *)
Definition value {A} (m : Exec A) : option A :=
  match m with
  | inl _ => None
  | inr (a, _) => Some a
  end.
Definition warnings {A} (m : Exec A) : list string :=
  match m with
  | inl _ => []
  | inr (_, w) => w
  end.
(** A loop over a vector, in order. *)
Fixpoint mapM {A B} (f : A -> Exec B) (l : list A) : Exec (list B) :=
  match l with
  | [] => ret []
  | a :: l' => bind (f a) (fun b => bind (mapM f l') (fun bs => ret (b :: bs)))
  end.
End Exec.

Declare Scope exec_scope.
Delimit Scope exec_scope with exec.
Notation "x <- m ;; k" := (Exec.bind m (fun x => k))
  (at level 61, m at next level, right associativity) : exec_scope.
Notation "m ;;; k" := (Exec.bind m (fun _ => k))
  (at level 61, right associativity) : exec_scope.
Local Open Scope exec_scope.

(** ** List helpers for [QVector] *)

Module QVector.
(** [v[i] = f(v[i])] for an index in range. *)
Fixpoint update {A} (i : nat) (f : A -> A) (v : list A) : list A :=
  match v, i with
  | [], _ => []
  | a :: v', O => f a :: v'
  | a :: v', S i' => a :: update i' f v'
  end.
(** [v.insert(i, a)] for [0 <= i <= size]. *)
Fixpoint insert {A} (i : nat) (a : A) (v : list A) : list A :=
  match i, v with
  | O, _ => a :: v
  | S i', [] => [a]
  | S i', b :: v' => b :: insert i' a v'
  end.
(** [v.at(i)] for an [int] index: out of range is undefined. *)
Definition at_ {A} (v : list A) (i : Z) : option A :=
  if i <? 0 then None else nth_error v (Z.to_nat i).
Definition sum (v : list Z) : Z := fold_right Z.add 0 v.
Definition count {A} (v : list A) : Z := Z.of_nat (List.length v).
End QVector.

(** ** [double] arithmetic used by the layout *)

Module Double.
(** [double(n)] for an [int] [n]: exact. *)
Definition ofInt (n : Z) : float :=
  if n <? 0 then PrimFloat.opp (PrimFloat.of_uint63 (Uint63.of_Z (- n)))
  else PrimFloat.of_uint63 (Uint63.of_Z n).
(** [int(d)]: truncation toward zero (the conversion is undefined for a NaN
    or an infinity; they give 0 here). *)
Definition toInt (d : float) : Z :=
  match Prim2SF d with
  | S754_finite s m e =>
      let mag := if 0 <=? e then Z.shiftl (Zpos m) e else Z.shiftr (Zpos m) (- e) in
      if s then - mag else mag
  | _ => 0
  end.
(** [(1.0 * length) / usable], the percentage of a child within its parent *)
Definition ratio (len usable : Z) : float :=
  PrimFloat.div (PrimFloat.mul 1%float (ofInt len)) (ofInt usable).
(** [qFuzzyCompare(double, double)] *)
Definition qFuzzyCompare (p1 p2 : float) : bool :=
  PrimFloat.leb
    (PrimFloat.mul (PrimFloat.abs (PrimFloat.sub p1 p2)) 1000000000000%float)
    (if PrimFloat.ltb (PrimFloat.abs p1) (PrimFloat.abs p2)
     then PrimFloat.abs p1 else PrimFloat.abs p2).
(** [qFuzzyIsNull(double)]: [qAbs(d) <= 0.000000000001], the literal being
    the binary64 value [0x1.19799812dea11p-40]. *)
Definition qFuzzyIsNull (d : float) : bool :=
  PrimFloat.leb (PrimFloat.abs d) 0x1.19799812dea11p-40%float.
End Double.

(** ** [class Item]: queries and the setters that touch one object *)

Module Item.
Definition data (it : Item) : ItemData :=
  match it with
  | Leaf d => d
  | Container d _ _ => d
  end.
Definition setData (d : ItemData) (it : Item) : Item :=
  match it with
  | Leaf _ => Leaf d
  | Container _ c cs => Container d c cs
  end.
Definition ptr (it : Item) : Z := item_ptr (data it).
Definition sizingInfo (it : Item) : SizingInfo := m_sizingInfo (data it).
Definition withSizingInfo (s : SizingInfo) (it : Item) : Item :=
  let d := data it in
  setData (mkItemData (item_ptr d) s (m_parent d) (m_isVisible d)
             (m_hostWidget d) (m_guest d) (objectName d)) it.
Definition withParent (p : option Z) (it : Item) : Item :=
  let d := data it in
  setData (mkItemData (item_ptr d) (m_sizingInfo d) p (m_isVisible d)
             (m_hostWidget d) (m_guest d) (objectName d)) it.
Definition withIsVisible (v : bool) (it : Item) : Item :=
  let d := data it in
  setData (mkItemData (item_ptr d) (m_sizingInfo d) (m_parent d) v
             (m_hostWidget d) (m_guest d) (objectName d)) it.
Definition withHostWidget (h : option Z) (it : Item) : Item :=
  let d := data it in
  setData (mkItemData (item_ptr d) (m_sizingInfo d) (m_parent d) (m_isVisible d)
             h (m_guest d) (objectName d)) it.
Definition withGuest (g : option Guest) (it : Item) : Item :=
  let d := data it in
  setData (mkItemData (item_ptr d) (m_sizingInfo d) (m_parent d) (m_isVisible d)
             (m_hostWidget d) g (objectName d)) it.
Definition setObjectName (n : string) (it : Item) : Item :=
  let d := data it in
  setData (mkItemData (item_ptr d) (m_sizingInfo d) (m_parent d) (m_isVisible d)
             (m_hostWidget d) (m_guest d) n) it.

(** [m_sizingInfo.percentageWithinParent = p] *)
Definition setPercentage (p : float) (it : Item) : Item :=
  withSizingInfo (SizingInfo.withPercentage p (m_sizingInfo (data it))) it.

Definition isContainer (it : Item) : bool :=
  match it with
  | Leaf _ => false
  | Container _ _ _ => true
  end.
Definition parentContainer (it : Item) : option Z := m_parent (data it).
Definition hostWidget (it : Item) : option Z := m_hostWidget (data it).
Definition guest (it : Item) : option Guest := m_guest (data it).
Definition isBeingInserted (it : Item) : bool :=
  Types.isBeingInserted (sizingInfo it).

Definition x (it : Item) : Z := QRect.x (geometry (sizingInfo it)).
Definition y (it : Item) : Z := QRect.y (geometry (sizingInfo it)).
Definition width (it : Item) : Z := QRect.width (geometry (sizingInfo it)).
Definition height (it : Item) : Z := QRect.height (geometry (sizingInfo it)).
Definition size (it : Item) : QSize := QRect.size (geometry (sizingInfo it)).
Definition pos (it : Item) : QPoint := QRect.topLeft (geometry (sizingInfo it)).
Definition position (it : Item) (o : Orientation) : Z :=
  if Layouting.isVerticalO o then y it else x it.
Definition geometry (it : Item) : QRect :=
  if isBeingInserted it then QRect.null else Types.geometry (sizingInfo it).
Definition rect (it : Item) : QRect := QRect.make 0 0 (width it) (height it).
Definition length (it : Item) (o : Orientation) : Z :=
  Layouting.length (size it) o.

(** [isVisible] is virtual: a container is visible when one of its children
    is ([ItemContainer::hasVisibleChildren]). *)
Fixpoint isVisible (excludeBeingInserted : bool) (it : Item) : bool :=
  match it with
  | Leaf d =>
      m_isVisible d
      && negb (excludeBeingInserted && Types.isBeingInserted (m_sizingInfo d))
  | Container _ _ cs => existsb (isVisible excludeBeingInserted) cs
  end.

(** One step of the loop of [ItemContainer::minSize] over a child that is
    visible or being inserted. *)
Definition minSizeStep (vertical : bool) (acc : Z * Z * Z) (childMin : QSize)
  : Z * Z * Z :=
  let '(minW, minH, numVisible) := acc in
  if vertical
  then (Z.max minW (wd childMin), minH + ht childMin, numVisible + 1)
  else (minW + wd childMin, Z.max minH (ht childMin), numVisible + 1).

(** [minSize] is virtual: a leaf answers its stored minimum, a container
    computes it from its children. *)
Fixpoint minSize (it : Item) : QSize :=
  match it with
  | Leaf d => Types.minSize (m_sizingInfo d)
  | Container _ c cs =>
      let vertical := Layouting.isVerticalO (m_orientation c) in
      let counted :=
        map (fun item =>
               (isVisible false item || isBeingInserted item, minSize item)) cs in
      let '(minW, minH, numVisible) :=
        fold_left (fun (acc : Z * Z * Z) (e : bool * QSize) =>
                     if fst e then minSizeStep vertical acc (snd e) else acc)
          counted (0, 0, 0) in
      let separatorWaste :=
        Z.max 0 ((numVisible - 1) * Layouting.separatorThickness) in
      if vertical then mkQSize minW (minH + separatorWaste)
      else mkQSize (minW + separatorWaste) minH
  end.

Definition maxSize (it : Item) : QSize := Types.maxSize (sizingInfo it).
Definition minLength (it : Item) (o : Orientation) : Z :=
  Layouting.length (minSize it) o.
Definition availableLength (it : Item) (o : Orientation) : Z :=
  length it o - minLength it o.
Definition missingSize (it : Item) : QSize :=
  let missing := QSize.sub (minSize it) (size it) in
  mkQSize (Z.max (wd missing) 0) (Z.max (ht missing) 0).
Definition isPlaceholder (it : Item) : bool := negb (isVisible false it).
Definition visibleCount_recursive_leaf (it : Item) : Z :=
  if isVisible false it then 1 else 0.

(** [widgetMinSize] of Item_p.h *)
Definition widgetMinSize (w : Guest) : QSize :=
  let minW := if widget_minimumWidth w >? 0 then widget_minimumWidth w
              else wd (widget_minimumSizeHint w) in
  let minH := if widget_minimumHeight w >? 0 then widget_minimumHeight w
              else ht (widget_minimumSizeHint w) in
  QSize.expandedTo (mkQSize minW minH) Layouting.hardcodedMinimumSize.

(** [setGeometry]: stores the rectangle (the checks only warn or assert). *)
Definition setGeometry (rect : QRect) (it : Item) : Item :=
  withSizingInfo (SizingInfo.withGeometry rect (sizingInfo it)) it.
Definition setSize (sz : QSize) (it : Item) : Item :=
  setGeometry (QRect.setSize sz (Types.geometry (sizingInfo it))) it.
Definition setPos (p : QPoint) (it : Item) : Item :=
  setGeometry (QRect.moveTopLeft p (Types.geometry (sizingInfo it))) it.
(** [Item::setLength] *)
Definition setLength (len : Z) (o : Orientation) (it : Item) : Item :=
  if Layouting.isVerticalO o
  then setSize (mkQSize (Z.max (width it) (wd Layouting.hardcodedMinimumSize)) len) it
  else setSize (mkQSize len (Z.max (height it) (ht Layouting.hardcodedMinimumSize))) it.

Definition updateObjectName (it : Item) : Item :=
  if isContainer it then it
  else
    match guest it with
    | Some w =>
        setObjectName
          (if String.eqb (widget_objectName w) EmptyString then "widget"%string
           else widget_objectName w) it
    | None =>
        if negb (isVisible false it) then setObjectName "hidden"%string it
        else setObjectName "null"%string it
    end.

(** [setIsVisible] is virtual and does nothing on a container. *)
Definition setIsVisible (is_ : bool) (it : Item) : Item :=
  match it with
  | Leaf _ => updateObjectName (withIsVisible is_ it)
  | Container _ _ _ => it
  end.

(** [mapToRoot(QPoint)]: [ancestors] is the chain of parent containers of
    [this], the parent first and the root last; [this] is the root when the
    chain is empty. *)
Fixpoint mapToRoot (this : Item) (ancestors : list Item) (p : QPoint) : QPoint :=
  match ancestors with
  | [] => p
  | parent :: up => QPoint.add p (mapToRoot parent up (pos this))
  end.
(** [mapToRoot(int, Qt::Orientation)] *)
Definition mapToRoot1 (this : Item) (ancestors : list Item) (p : Z)
  (o : Orientation) : Z :=
  if Layouting.isVerticalO o then py (mapToRoot this ancestors (mkQPoint 0 p))
  else px (mapToRoot this ancestors (mkQPoint p 0)).
(** [mapFromRoot(QPoint)]: the loop walks from [this] up to and including the
    root. *)
Fixpoint mapFromRoot (this : Item) (ancestors : list Item) (p : QPoint) : QPoint :=
  match ancestors with
  | [] => QPoint.sub p (pos this)
  | parent :: up => mapFromRoot parent up (QPoint.sub p (pos this))
  end.
Definition mapFromRoot1 (this : Item) (ancestors : list Item) (p : Z)
  (o : Orientation) : Z :=
  if Layouting.isVerticalO o then py (mapFromRoot this ancestors (mkQPoint 0 p))
  else px (mapFromRoot this ancestors (mkQPoint p 0)).
(** [root()] *)
Definition root (this : Item) (ancestors : list Item) : Item :=
  last ancestors this.

(** The number of container levels of a tree, which bounds the depth of the
    recursive calls over it. *)
Fixpoint levels (it : Item) : nat :=
  match it with
  | Leaf _ => O
  | Container _ _ cs => S (list_max (map levels cs))
  end.
End Item.

(** ** [class ItemContainer]: queries *)

Module ItemContainer.
(** The default member initializers of a new container. *)
Definition defaultData : ContainerData :=
  mkContainerData Vertical [] false false false false.

Definition m_children (this : Item) : list Item :=
  match this with
  | Leaf _ => []
  | Container _ _ cs => cs
  end.
Definition cdata (this : Item) : ContainerData :=
  match this with
  | Leaf _ => defaultData
  | Container _ c _ => c
  end.
Definition withChildren (cs : list Item) (this : Item) : Item :=
  match this with
  | Leaf d => Leaf d
  | Container d c _ => Container d c cs
  end.
Definition withCData (c : ContainerData) (this : Item) : Item :=
  match this with
  | Leaf d => Leaf d
  | Container d _ cs => Container d c cs
  end.
Definition withOrientation (o : Orientation) (this : Item) : Item :=
  let c := cdata this in
  withCData (mkContainerData o (m_separators c) (m_blockUpdatePercentages c)
               (m_isDeserializing c) (m_convertingItemToContainer c)
               (m_checkSanityScheduled c)) this.
Definition withSeparators (s : list Separator) (this : Item) : Item :=
  let c := cdata this in
  withCData (mkContainerData (m_orientation c) s (m_blockUpdatePercentages c)
               (m_isDeserializing c) (m_convertingItemToContainer c)
               (m_checkSanityScheduled c)) this.
Definition withBlockUpdatePercentages (b : bool) (this : Item) : Item :=
  let c := cdata this in
  withCData (mkContainerData (m_orientation c) (m_separators c) b
               (m_isDeserializing c) (m_convertingItemToContainer c)
               (m_checkSanityScheduled c)) this.
Definition withIsDeserializing (b : bool) (this : Item) : Item :=
  let c := cdata this in
  withCData (mkContainerData (m_orientation c) (m_separators c)
               (m_blockUpdatePercentages c) b (m_convertingItemToContainer c)
               (m_checkSanityScheduled c)) this.
Definition withCheckSanityScheduled (b : bool) (this : Item) : Item :=
  let c := cdata this in
  withCData (mkContainerData (m_orientation c) (m_separators c)
               (m_blockUpdatePercentages c) (m_isDeserializing c)
               (m_convertingItemToContainer c) b) this.

Definition orientation (this : Item) : Orientation := m_orientation (cdata this).
Definition separators (this : Item) : list Separator := m_separators (cdata this).
Definition isVertical (this : Item) : bool := Layouting.isVerticalO (orientation this).
Definition isHorizontal (this : Item) : bool :=
  Layouting.isHorizontalO (orientation this).
Definition hasOrientation (this : Item) : bool := isVertical this || isHorizontal this.

Definition numChildren (this : Item) : Z := QVector.count (m_children this).
Definition numVisibleChildren (this : Item) : Z :=
  QVector.count (filter (Item.isVisible false) (m_children this)).
Definition hasChildren (this : Item) : bool :=
  negb (QVector.count (m_children this) =? 0).
Definition isEmpty (this : Item) : bool := QVector.count (m_children this) =? 0.
Definition hasVisibleChildren (excludeBeingInserted : bool) (this : Item) : bool :=
  existsb (Item.isVisible excludeBeingInserted) (m_children this).
(** The test of the loop of [visibleChildren(includeBeingInserted)]. *)
Definition isListedVisible (includeBeingInserted : bool) (item : Item) : bool :=
  if includeBeingInserted
  then Item.isVisible false item || Item.isBeingInserted item
  else Item.isVisible false item && negb (Item.isBeingInserted item).
Definition visibleChildren (includeBeingInserted : bool) (this : Item) : list Item :=
  filter (isListedVisible includeBeingInserted) (m_children this).
(** [QVector<Item*>::indexOf]: the first position of a pointer. *)
Fixpoint indexOf (items : list Item) (item : Z) : option nat :=
  match items with
  | [] => None
  | it :: rest =>
      if Item.ptr it =? item then Some O
      else option_map S (indexOf rest item)
  end.
Definition length (this : Item) : Z :=
  if isVertical this then Item.height this else Item.width this.
Definition oppositeLength (this : Item) : Z :=
  if isVertical this then Item.width this else Item.height this.
Definition rect (this : Item) : QRect :=
  QRect.moveTopLeft QPoint.origin (Types.geometry (Item.sizingInfo this)).
Definition usableLength (this : Item) : Z :=
  let children := visibleChildren false this in
  let numVisibleChildren := QVector.count children in
  if QVector.count children <=? 1
  then Layouting.length (Item.size this) (orientation this)
  else
    let separatorWaste := Layouting.separatorThickness * (numVisibleChildren - 1) in
    length this - separatorWaste.
Definition hasSingleVisibleItem (this : Item) : bool := numVisibleChildren this =? 1.
Definition contains (this : Item) (item : Z) : bool :=
  existsb (fun it => Item.ptr it =? item) (m_children this).
Fixpoint contains_recursive (this : Item) (item : Z) : bool :=
  match this with
  | Leaf _ => false
  | Container _ _ cs =>
      existsb (fun it => (Item.ptr it =? item) || contains_recursive it item) cs
  end.
Definition hasOrientationFor (this : Item) (loc : Location) : bool :=
  if QVector.count (m_children this) <=? 1 then true
  else orientation this =? Layouting.orientationForLocation loc.
Definition availableSize (this : Item) : QSize :=
  QSize.sub (Item.size this) (Item.minSize this).
Definition availableLength (this : Item) : Z :=
  if isVertical this then ht (availableSize this) else wd (availableSize this).

Definition lengthOnSide (sizes : list SizingInfo) (fromIndex : Z) (side : Side)
  (o : Orientation) : LengthOnSide :=
  if fromIndex <? 0 then LengthOnSide.empty
  else
    let count := QVector.count sizes in
    if fromIndex >=? count then LengthOnSide.empty
    else
      let range :=
        match side with
        | Side1 => firstn (S (Z.to_nat fromIndex)) sizes
        | Side2 => skipn (Z.to_nat fromIndex) sizes
        end in
      fold_left
        (fun (result : LengthOnSide) (size : SizingInfo) =>
           mkLengthOnSide (los_length result + SizingInfo.length size o)
             (los_minLength result + SizingInfo.minLength size o))
        range LengthOnSide.empty.

(** The children of [children] on one side of position [index]. *)
Definition neighbours {A} (children : list A) (index : nat) (side : Side) : list A :=
  match side with
  | Side1 => firstn index children
  | Side2 => skipn (S index) children
  end.

Definition neighboursLengthFor (this : Item) (item : Z) (side : Side)
  (o : Orientation) : Z :=
  let children := visibleChildren false this in
  match indexOf children item with
  | None => 0
  | Some index =>
      if o =? orientation this
      then fold_left (fun acc child => acc + Item.length child (orientation this))
             (neighbours children index side) 0
      else 0
  end.

Definition neighboursMinLengthFor (this : Item) (item : Z) (side : Side)
  (o : Orientation) : Z :=
  let children := visibleChildren false this in
  match indexOf children item with
  | None => 0
  | Some index =>
      if o =? orientation this
      then fold_left (fun acc child => acc + Item.minLength child (orientation this))
             (neighbours children index side) 0
      else 0
  end.

Definition availableOnSide (this : Item) (child : Z) (side : Side) : Z :=
  let length := neighboursLengthFor this child side (orientation this) in
  let min := neighboursMinLengthFor this child side (orientation this) in
  length - min.

(** [availableOnSide_recursive]: climbs the chain of parents. *)
Fixpoint availableOnSide_recursive (this : Item) (ancestors : list Item)
  (child : Z) (side : Side) (o : Orientation) : Z :=
  match ancestors with
  | [] => if o =? orientation this then availableOnSide this child side else 0
  | parent :: up =>
      if o =? orientation this
      then availableOnSide this child side
           + availableOnSide_recursive parent up (Item.ptr this) side o
      else availableOnSide_recursive parent up (Item.ptr this) side o
  end.

Definition childPercentages (this : Item) : list float :=
  map (fun item => percentageWithinParent (Item.sizingInfo item))
    (filter (fun item => Item.isVisible false item && negb (Item.isBeingInserted item))
       (m_children this)).

(** [sizes(ignoreBeingInserted)]: besides returning the sizing of the listed
    children it refreshes the stored minimum size of those that are
    containers. *)
Definition sizes (ignoreBeingInserted : bool) (this : Item) : Item * list SizingInfo :=
  let refresh (item : Item) : Item :=
    if isListedVisible ignoreBeingInserted item && Item.isContainer item
    then Item.withSizingInfo
           (SizingInfo.withMinSize (Item.minSize item) (Item.sizingInfo item)) item
    else item in
  let children := map refresh (m_children this) in
  (withChildren children this,
   map Item.sizingInfo (filter (isListedVisible ignoreBeingInserted) children)).

Fixpoint separatorAt (separators : list Separator) (p : Z) : option Separator :=
  match separators with
  | [] => None
  | separator :: rest =>
      if sep_position separator =? p then Some separator else separatorAt rest p
  end.

(** The loop of [requiredSeparatorPositions]. *)
Fixpoint requiredSeparatorPositionsLoop (this : Item) (ancestors : list Item)
  (numSeparators : Z) (children : list Item) (positions : list Z) : list Z :=
  match children with
  | [] => positions
  | item :: rest =>
      if QVector.count positions =? numSeparators then positions
      else if Item.isVisible false item
      then
        let localPos := SizingInfo.edge (Item.sizingInfo item) (orientation this) + 1 in
        requiredSeparatorPositionsLoop this ancestors numSeparators rest
          (positions ++ [Item.mapToRoot1 this ancestors localPos (orientation this)])
      else requiredSeparatorPositionsLoop this ancestors numSeparators rest positions
  end.
Definition requiredSeparatorPositions (this : Item) (ancestors : list Item) : list Z :=
  let numSeparators := Z.max 0 (numVisibleChildren this - 1) in
  requiredSeparatorPositionsLoop this ancestors numSeparators (m_children this) [].

(** *** The sizing algorithms, on a working copy of the children's sizing *)

(** What [calculateSqueezes] returns: the squeezes, or the branch that
    asserts because no donor is left (a release build then returns an empty
    vector). [SqueezesUnfinished] is the model running out of loop fuel; it
    never happens (see [calculateSqueezes_AllNeighbours_total]). *)
Inductive SqueezeResult :=
| Squeezes (squeezes : list Z)
| NoDonorsLeft
| SqueezesUnfinished.

(** The [for] loop inside the [while] of the [AllNeighbours] strategy: one
    pass over the donors, which stops when nothing is missing any more. *)
Fixpoint squeezeRound (toTake : Z) (availabilities squeezes : list Z) (missing : Z)
  : list Z * list Z * Z :=
  match availabilities, squeezes with
  | available :: av, squeeze :: sq =>
      if available =? 0
      then
        let '(av', sq', missing') := squeezeRound toTake av sq missing in
        (available :: av', squeeze :: sq', missing')
      else
        let took := Z.min missing (Z.min toTake available) in
        if missing - took =? 0
        then ((available - took) :: av, (squeeze + took) :: sq, missing - took)
        else
          let '(av', sq', missing') := squeezeRound toTake av sq (missing - took) in
          ((available - took) :: av', (squeeze + took) :: sq', missing')
  | _, _ => (availabilities, squeezes, missing)
  end.

(** [std::count_if(..., num > 0)] *)
Definition numDonors (availabilities : list Z) : Z :=
  QVector.count (filter (fun num => num >? 0) availabilities).

(** The amount asked from each donor in one pass. *)
Definition toTakeFor (missing donors : Z) : Z :=
  let toTake := missing ÷ donors in
  if toTake =? 0 then missing else toTake.

(** The [while (missing > 0)] loop of the [AllNeighbours] strategy. *)
Fixpoint squeezeAllNeighbours (fuel : nat) (availabilities squeezes : list Z)
  (missing : Z) : SqueezeResult :=
  if missing >? 0
  then
    match fuel with
    | O => SqueezesUnfinished
    | S fuel' =>
        let donors := numDonors availabilities in
        if donors =? 0 then NoDonorsLeft
        else
          let '(av, sq, missing') :=
            squeezeRound (toTakeFor missing donors) availabilities squeezes missing in
          squeezeAllNeighbours fuel' av sq missing'
    end
  else Squeezes squeezes.

(** The loop of the [ImmediateNeighboursFirst] strategy over the loop
    counters [counters]; it answers the squeezes and what is still missing. *)
Fixpoint squeezeImmediate (reversed : bool) (count : nat) (counters : list nat)
  (availabilities squeezes : list Z) (missing : Z) : list Z * Z :=
  match counters with
  | [] => (squeezes, missing)
  | i :: rest =>
      let index := if reversed then (count - 1 - i)%nat else i in
      let available := nth index availabilities 0 in
      let '(squeezes', missing') :=
        if available >? 0
        then
          let took := Z.min missing available in
          (QVector.update index (fun s => s + took) squeezes, missing - took)
        else (squeezes, missing) in
      if missing' =? 0 then (squeezes', missing')
      else squeezeImmediate reversed count rest availabilities squeezes' missing'
  end.

(** [calculateSqueezes(begin, end, needed, strategy, reversed)]; [range] is
    the part of the vector between the two iterators. Every pass of the
    [AllNeighbours] loop takes at least 1, so [needed] passes are enough. *)
Definition calculateSqueezes (this : Item) (range : list SizingInfo) (needed : Z)
  (strategy : NeighbourSqueezeStrategy) (reversed : bool) : SqueezeResult :=
  let availabilities :=
    map (fun it => SizingInfo.availableLength it (orientation this)) range in
  let count := List.length availabilities in
  let squeezes := repeat 0 count in
  match strategy with
  | AllNeighbours =>
      squeezeAllNeighbours (Z.to_nat needed) availabilities squeezes needed
  | ImmediateNeighboursFirst =>
      Squeezes (fst (squeezeImmediate reversed count (seq 0 count)
                       availabilities squeezes needed))
  end.

(** The squeezes as a caller reads them. *)
Definition squeezesOf (r : SqueezeResult) : Exec (list Z) :=
  match r with
  | Squeezes squeezes => Exec.ret squeezes
  | NoDonorsLeft => Exec.ret []
  | SqueezesUnfinished => Exec.fault OutOfFuel
  end.

(** [sizes[offset + i]] shrinks by [squeezes[i]], for every [i]. *)
Fixpoint applySqueezes (o : Orientation) (side : Side) (offset : nat)
  (squeezes : list Z) (sizes : list SizingInfo) : list SizingInfo :=
  match squeezes with
  | [] => sizes
  | squeeze :: rest =>
      let shrink (sizing : SizingInfo) : SizingInfo :=
        match side with
        | Side1 =>
            SizingInfo.setSize
              (QRect.size (Layouting.adjustedRect (geometry sizing) o 0 (- squeeze)))
              sizing
        | Side2 =>
            SizingInfo.setSize
              (QRect.size (Layouting.adjustedRect (geometry sizing) o squeeze 0))
              sizing
        end in
      applySqueezes o side (S offset) rest (QVector.update offset shrink sizes)
  end.

Definition shrinkNeighbours (this : Item) (index : nat) (sizes : list SizingInfo)
  (side1Amount side2Amount : Z) (strategy : NeighbourSqueezeStrategy)
  : Exec (list SizingInfo) :=
  sizes1 <-
    (if side1Amount >? 0
     then
       let reversed :=
         match strategy with
         | ImmediateNeighboursFirst => true
         | AllNeighbours => false
         end in
       squeezes <-
         squeezesOf (calculateSqueezes this (firstn index sizes) side1Amount
                       strategy reversed) ;;
       Exec.ret (applySqueezes (orientation this) Side1 0 squeezes sizes)
     else Exec.ret sizes) ;;
  if side2Amount >? 0
  then
    squeezes <-
      squeezesOf (calculateSqueezes this (skipn (S index) sizes1) side2Amount
                    strategy false) ;;
    Exec.ret (applySqueezes (orientation this) Side2 (S index) squeezes sizes1)
  else Exec.ret sizes1.

(** The [while (toSteal > 0)] loop of [growItem] for
    [GrowthStrategy::BothSidesEqually]; it answers
    [(side1Growth, side2Growth)], or nothing when the fuel runs out. *)
Fixpoint growBothSides (fuel : nat) (toSteal available1 available2 : Z)
  (side1Growth side2Growth : Z) : option (Z * Z) :=
  if toSteal >? 0
  then
    if available1 =? 0 then Some (side1Growth, side2Growth + toSteal)
    else if available2 =? 0 then Some (side1Growth + toSteal, side2Growth)
    else
      match fuel with
      | O => None
      | S fuel' =>
          let toTake := Z.max 1 (toSteal ÷ 2) in
          let took1 := Z.min toTake available1 in
          if toSteal - took1 =? 0
          then Some (side1Growth + took1, side2Growth)
          else
            let took2 := Z.min toTake available2 in
            growBothSides fuel' (toSteal - took1 - took2) (available1 - took1)
              (available2 - took2) (side1Growth + took1) (side2Growth + took2)
      end
  else Some (side1Growth, side2Growth).

(** How much [growItem] takes from each side: [None] when it returns before
    calling [shrinkNeighbours]. Every pass of the loop takes at least 1 from
    side 1, so [toSteal] passes are enough. *)
Definition growthFor (growthStrategy : GrowthStrategy) (count : Z)
  (missing toSteal available1 available2 : Z) : Exec (option (Z * Z)) :=
  match growthStrategy with
  | BothSidesEqually =>
      if count =? 1 then Exec.ret None
      else
        match growBothSides (Z.to_nat toSteal) toSteal available1 available2 0 0 with
        | Some growth => Exec.ret (Some growth)
        | None => Exec.fault OutOfFuel
        end
  | Side1Only => Exec.ret (Some (missing, 0))
  | Side2Only => Exec.ret (Some (0, missing))
  end.

(** Step #1 of [growItem]: the item at [index] grows by [missing] and takes
    the opposite length of the container. *)
Definition growOwnLength (this : Item) (index : nat) (missing : Z)
  (sizes : list SizingInfo) : list SizingInfo :=
  QVector.update index
    (fun sizingInfo =>
       SizingInfo.setOppositeLength (oppositeLength this) (orientation this)
         (SizingInfo.setLength
            (SizingInfo.length sizingInfo (orientation this) + missing)
            (orientation this) sizingInfo))
    sizes.

(** The amount [growItem] steals from the neighbours. *)
Definition toStealFor (missing : Z) (accountForNewSeparator : bool) : Z :=
  if accountForNewSeparator then missing + Layouting.separatorThickness
  else missing.

(** [growItem(int index, SizingInfo::List &sizes, int missing, ...)] *)
Definition growItem (this : Item) (index : Z) (sizes : list SizingInfo) (missing : Z)
  (growthStrategy : GrowthStrategy)
  (neighbourSqueezeStrategy : NeighbourSqueezeStrategy)
  (accountForNewSeparator : bool) : Exec (list SizingInfo) :=
  let toSteal := toStealFor missing accountForNewSeparator in
  if toSteal =? 0 then Exec.ret sizes
  else
    match QVector.at_ sizes index with
    | None => Exec.fault IndexOutOfRange
    | Some _ =>
        let i := Z.to_nat index in
        let o := orientation this in
        let sizes1 := growOwnLength this i missing sizes in
        let side1Length := lengthOnSide sizes1 (index - 1) Side1 o in
        let side2Length := lengthOnSide sizes1 (index + 1) Side2 o in
        growth <-
          growthFor growthStrategy (QVector.count sizes1) missing toSteal
            (LengthOnSide.available side1Length)
            (LengthOnSide.available side2Length) ;;
        match growth with
        | None =>
            Exec.ret (QVector.update i (SizingInfo.incrementLength missing o) sizes1)
        | Some (side1Growth, side2Growth) =>
            shrinkNeighbours this i sizes1 side1Growth side2Growth
              neighbourSqueezeStrategy
        end
    end.

(** [positionItems(SizingInfo::List &sizes)] *)
Fixpoint positionItemsFrom (this : Item) (nextPos : Z) (sizes : list SizingInfo)
  : list SizingInfo :=
  match sizes with
  | [] => []
  | sizing :: rest =>
      if isBeingInserted sizing
      then sizing :: positionItemsFrom this (nextPos + Layouting.separatorThickness) rest
      else
        let oppositeOrientation := Layouting.oppositeOrientation (orientation this) in
        let oppositeLength := Layouting.length (Item.size this) oppositeOrientation in
        let sizing1 := SizingInfo.setLength oppositeLength oppositeOrientation sizing in
        let sizing2 := SizingInfo.setPos 0 oppositeOrientation sizing1 in
        let sizing3 := SizingInfo.setPos nextPos (orientation this) sizing2 in
        sizing3
        :: positionItemsFrom this
             (nextPos + SizingInfo.length sizing3 (orientation this)
              + Layouting.separatorThickness) rest
  end.
Definition positionItemsSizes (this : Item) (sizes : list SizingInfo)
  : list SizingInfo :=
  positionItemsFrom this 0 sizes.


(** *** Separators and percentages *)

(** [updateChildPercentages()]: the loop over [m_children], with its warning
    about a percentage that is null or above 1. *)
Definition updateChildPercentages (this : Item) : Exec Item :=
  if m_blockUpdatePercentages (cdata this) then Exec.ret this
  else
    let usable := usableLength this in
    children <-
      Exec.mapM
        (fun item =>
           if Item.isVisible false item && negb (Item.isBeingInserted item)
           then
             let p := Double.ratio (Item.length item (orientation this)) usable in
             (if Double.qFuzzyIsNull p || PrimFloat.ltb 1%float p
              then Exec.warn "Invalid percentage"
              else Exec.ret tt) ;;;
             Exec.ret (Item.setPercentage p item)
           else Exec.ret (Item.setPercentage 0%float item))
        (m_children this) ;;
    Exec.ret (withChildren children this).

(** [separator->setGeometry(pos, pos2, length)] *)
Definition Separator_setGeometry (pos pos2 len : Z) (separator : Separator)
  : Separator :=
  mkSeparator (sep_orientation separator) pos pos2 len.
(** [Separator::createSeparator(hostWidget())] followed by
    [init(this, m_orientation)] *)
Definition Separator_create (o : Orientation) : Separator := mkSeparator o 0 0 0.

(** [m_separators.removeOne(separator)] for the separator that
    [separatorAt(p)] found. *)
Fixpoint removeSeparatorAt (separators : list Separator) (p : Z) : list Separator :=
  match separators with
  | [] => []
  | separator :: rest =>
      if sep_position separator =? p then rest
      else separator :: removeSeparatorAt rest p
  end.

(** The loop of [updateSeparators] that reuses the separators found at a
    wanted position and creates the others. *)
Fixpoint reconcileSeparators (o : Orientation) (positions : list Z)
  (current : list Separator) : list Separator :=
  match positions with
  | [] => []
  | position :: rest =>
      match separatorAt current position with
      | Some separator =>
          separator :: reconcileSeparators o rest (removeSeparatorAt current position)
      | None => Separator_create o :: reconcileSeparators o rest current
      end
  end.

(** The last loop of [updateSeparators]: [m_separators.at(i)] gets
    [positions[i]]. *)
Fixpoint placeSeparators (positions : list Z) (pos2 len : Z)
  (separators : list Separator) : Exec (list Separator) :=
  match positions, separators with
  | [], _ => Exec.ret separators
  | _ :: _, [] => Exec.fault IndexOutOfRange
  | position :: ps, separator :: ss =>
      rest <- placeSeparators ps pos2 len ss ;;
      Exec.ret (Separator_setGeometry position pos2 len separator :: rest)
  end.

Definition updateSeparators (ancestors : list Item) (this : Item) : Exec Item :=
  match Item.hostWidget this with
  | None => Exec.ret this
  | Some _ =>
      let positions := requiredSeparatorPositions this ancestors in
      let requiredNumSeparators := QVector.count positions in
      let numSeparatorsChanged :=
        negb (requiredNumSeparators =? QVector.count (separators this)) in
      let current :=
        if numSeparatorsChanged
        then reconcileSeparators (orientation this) positions (separators this)
        else separators this in
      let pos2 :=
        if isVertical this then px (Item.mapToRoot this ancestors QPoint.origin)
        else py (Item.mapToRoot this ancestors QPoint.origin) in
      placed <- placeSeparators positions pos2 (oppositeLength this) current ;;
      updateChildPercentages (withSeparators placed this)
  end.

(** [updateSeparators_recursive()]; every level of the tree uses one unit of
    [fuel]. *)
Fixpoint updateSeparators_recursive (fuel : nat) (ancestors : list Item)
  (this : Item) : Exec Item :=
  match fuel with
  | O => Exec.fault OutOfFuel
  | S fuel' =>
      this1 <- updateSeparators ancestors this ;;
      children <-
        Exec.mapM
          (fun item =>
             if isListedVisible false item && Item.isContainer item
             then updateSeparators_recursive fuel' (this1 :: ancestors) item
             else Exec.ret item)
          (m_children this1) ;;
      Exec.ret (withChildren children this1)
  end.

(** [deleteSeparators_recursive()] *)
Fixpoint deleteSeparators_recursive (this : Item) : Item :=
  match this with
  | Leaf d => Leaf d
  | Container d c cs =>
      withSeparators [] (Container d c (map deleteSeparators_recursive cs))
  end.


(** *** Resizing *)

(** The [Percentage] branch of [resizeChildren]: the loop over the children's
    sizing, with the percentages that [childPercentages()] answered. *)
Fixpoint resizeByPercentage (this : Item) (lengthChanged : bool)
  (totalNewLength remaining : Z) (childSizes : list SizingInfo)
  (percentages : list float) : Exec (list SizingInfo) :=
  match childSizes with
  | [] => Exec.ret []
  | itemSize :: rest =>
      match percentages with
      | [] => Exec.fault IndexOutOfRange
      | childPercentage :: ps =>
          let isLast := match rest with [] => true | _ :: _ => false end in
          let newItemLength :=
            if lengthChanged
            then
              if isLast then remaining
              else Double.toInt
                     (PrimFloat.mul childPercentage (Double.ofInt totalNewLength))
            else SizingInfo.length itemSize (orientation this) in
          if newItemLength <=? 0
          then
            Exec.warn "Invalid resize newItemLength" ;;;
            Exec.ret (itemSize :: rest)
          else
            let itemSize' :=
              if isVertical this
              then SizingInfo.setSize (mkQSize (Item.width this) newItemLength) itemSize
              else SizingInfo.setSize (mkQSize newItemLength (Item.height this)) itemSize in
            rest' <-
              resizeByPercentage this lengthChanged totalNewLength
                (remaining - newItemLength) rest ps ;;
            Exec.ret (itemSize' :: rest')
      end
  end.

(** The loop of the two [SeparatorMove] branches of [resizeChildren], over
    the children in the order they are visited. *)
Fixpoint resizeBySeparatorMove (o : Orientation) (isGrowing : bool) (remaining : Z)
  (visited : list SizingInfo) : list SizingInfo :=
  match visited with
  | [] => []
  | size :: rest =>
      if isGrowing
      then SizingInfo.incrementLength remaining o size :: rest
      else
        let availableToGive := SizingInfo.availableLength size o in
        let took := Z.min availableToGive remaining in
        let size' := SizingInfo.incrementLength (- took) o size in
        if remaining - took =? 0 then size' :: rest
        else size' :: resizeBySeparatorMove o isGrowing (remaining - took) rest
  end.

(** [resizeChildren(oldSize, newSize, childSizes, strategy)] *)
Definition resizeChildren (this : Item) (oldSize newSize : QSize)
  (childSizes : list SizingInfo) (strategy : ChildrenResizeStrategy)
  : Exec (list SizingInfo) :=
  let widthChanged := negb (wd oldSize =? wd newSize) in
  let heightChanged := negb (ht oldSize =? ht newSize) in
  let lengthChanged :=
    (isVertical this && heightChanged) || (isHorizontal this && widthChanged) in
  let totalNewLength := usableLength this in
  match strategy with
  | Percentage =>
      resizeByPercentage this lengthChanged totalNewLength totalNewLength
        childSizes (childPercentages this)
  | Side1SeparatorMove | Side2SeparatorMove =>
      let remaining0 := Layouting.length (QSize.sub newSize oldSize) (orientation this) in
      let isGrowing := remaining0 >? 0 in
      let remaining := Z.abs remaining0 in
      let isSide1SeparatorMove :=
        match strategy with
        | Side1SeparatorMove => true
        | _ => false
        end in
      let resizeHeadFirst :=
        if isGrowing && isSide1SeparatorMove then true
        else if isGrowing && negb isSide1SeparatorMove then false
        else if negb isGrowing && isSide1SeparatorMove then false
        else true in
      if resizeHeadFirst
      then Exec.ret (resizeBySeparatorMove (orientation this) isGrowing remaining childSizes)
      else
        Exec.ret
          (rev (resizeBySeparatorMove (orientation this) isGrowing remaining
                  (rev childSizes)))
  end.

(** Step #2 of [setSize_recursive]: every child below its minimum grows. *)
Fixpoint fixMissing (this : Item) (counters : list nat) (childSizes : list SizingInfo)
  : Exec (list SizingInfo) :=
  match counters with
  | [] => Exec.ret childSizes
  | i :: rest =>
      match nth_error childSizes i with
      | None => Exec.fault IndexOutOfRange
      | Some size =>
          let missing := SizingInfo.missingLength size (orientation this) in
          childSizes' <-
            (if missing >? 0
             then growItem this (Z.of_nat i) childSizes missing BothSidesEqually
                    AllNeighbours false
             else Exec.ret childSizes) ;;
          fixMissing this rest childSizes'
      end
  end.

(** A loop [for (i < count) { items.at(i)...; sizes[i]... }] over the
    children listed by [visibleChildren()]: [body] is applied to each listed
    child with its entry of [sizes]. *)
Fixpoint forEachVisible (body : SizingInfo -> Item -> Exec Item)
  (children : list Item) (sizes : list SizingInfo) : Exec (list Item) :=
  match children with
  | [] => Exec.ret []
  | item :: rest =>
      if isListedVisible false item
      then
        match sizes with
        | [] => Exec.fault IndexOutOfRange
        | sizing :: sizes' =>
            item' <- body sizing item ;;
            rest' <- forEachVisible body rest sizes' ;;
            Exec.ret (item' :: rest')
        end
      else
        rest' <- forEachVisible body rest sizes ;;
        Exec.ret (item :: rest')
  end.

Section Resize.
(** The virtual call [child->setSize_recursive(size, strategy)] on a child
    whose chain of parents is given, and the fuel for
    [updateSeparators_recursive]. *)
Variable fuel : nat.
Variable setSize_recursive_child :
  list Item -> QSize -> ChildrenResizeStrategy -> Item -> Exec Item.

(** [setLength_recursive] is virtual: [Item::setLength] on a leaf; a
    container resizes itself by percentage. *)
Definition setLength_recursive_child (ancestors : list Item) (len : Z)
  (o : Orientation) (item : Item) : Exec Item :=
  match item with
  | Leaf _ => Exec.ret (Item.setLength len o item)
  | Container _ _ _ =>
      let sz := Item.size item in
      let sz' := if Layouting.isVerticalO o then mkQSize (wd sz) len
                 else mkQSize len (ht sz) in
      setSize_recursive_child ancestors sz' Percentage item
  end.

Definition applyPositions (ancestors : list Item) (this : Item)
  (sizes : list SizingInfo) : Exec Item :=
  children <-
    forEachVisible
      (fun sizing item =>
         if isBeingInserted sizing then Exec.ret item
         else
           let oppositeOrientation := Layouting.oppositeOrientation (orientation this) in
           item1 <-
             setLength_recursive_child (this :: ancestors)
               (SizingInfo.length sizing oppositeOrientation) oppositeOrientation item ;;
           Exec.ret (Item.setPos (QRect.topLeft (geometry sizing)) item1))
      (m_children this) sizes ;;
  Exec.ret (withChildren children this).

(** [positionItems()] *)
Definition positionItems (ancestors : list Item) (this : Item) : Exec Item :=
  let '(this1, sizes) := sizes false this in
  let sizes' := positionItemsSizes this1 sizes in
  this2 <- applyPositions ancestors this1 sizes' ;;
  updateSeparators_recursive fuel ancestors this2.

Definition applyGeometries (ancestors : list Item) (this : Item)
  (sizes : list SizingInfo) (strategy : ChildrenResizeStrategy) : Exec Item :=
  children <-
    forEachVisible
      (fun sizing item =>
         setSize_recursive_child (this :: ancestors) (QRect.size (geometry sizing))
           strategy item)
      (m_children this) sizes ;;
  positionItems ancestors (withChildren children this).

(** [ItemContainer::setSize_recursive]; the scoped rollback of
    [m_blockUpdatePercentages] restores the flag on every return. *)
Definition setSize_recursive_container (ancestors : list Item) (newSize : QSize)
  (strategy : ChildrenResizeStrategy) (this : Item) : Exec Item :=
  let block := m_blockUpdatePercentages (cdata this) in
  let this0 := withBlockUpdatePercentages true this in
  let minSize := Item.minSize this0 in
  if (wd newSize <? wd minSize) || (ht newSize <? ht minSize)
  then
    Exec.warn "New size doesn't respect size constraints" ;;;
    Exec.ret (withBlockUpdatePercentages block this0)
  else if QSize.eqb newSize (Item.size this0)
  then Exec.ret (withBlockUpdatePercentages block this0)
  else
    let oldSize := Item.size this0 in
    let this1 := Item.setSize newSize this0 in
    let count := List.length (visibleChildren false this1) in
    let '(this2, childSizes) := sizes false this1 in
    childSizes1 <- resizeChildren this2 oldSize newSize childSizes strategy ;;
    let childSizes2 := positionItemsSizes this2 childSizes1 in
    childSizes3 <- fixMissing this2 (seq 0 count) childSizes2 ;;
    this3 <- applyGeometries ancestors this2 childSizes3 strategy ;;
    Exec.ret (withBlockUpdatePercentages block this3).
End Resize.

(** [setSize_recursive] is virtual: [Item::setSize_recursive] on a leaf. Every
    level of the tree uses one unit of [fuel]. *)
Fixpoint setSize_recursive (fuel : nat) (ancestors : list Item) (newSize : QSize)
  (strategy : ChildrenResizeStrategy) (this : Item) : Exec Item :=
  match this with
  | Leaf _ => Exec.ret (Item.setSize newSize this)
  | Container _ _ _ =>
      match fuel with
      | O => Exec.fault OutOfFuel
      | S fuel' =>
          setSize_recursive_container (S fuel') (setSize_recursive fuel') ancestors
            newSize strategy this
      end
  end.

Definition setLength_recursive (fuel : nat) (ancestors : list Item) (len : Z)
  (o : Orientation) (item : Item) : Exec Item :=
  setLength_recursive_child (setSize_recursive fuel) ancestors len o item.

(** [setGeometry_recursive] is virtual: [setGeometry] on a leaf. *)
Definition setGeometry_recursive (fuel : nat) (ancestors : list Item) (rect : QRect)
  (item : Item) : Exec Item :=
  match item with
  | Leaf _ => Exec.ret (Item.setGeometry rect item)
  | Container _ _ _ =>
      setSize_recursive fuel ancestors (QRect.size rect)  Percentage
        (Item.setPos (QRect.topLeft rect) item)
  end.

(** [growItem(Item *, int amount, ...)] *)
Definition growItemPtr (fuel : nat) (ancestors : list Item) (this : Item) (item : Z)
  (amount : Z) (growthStrategy : GrowthStrategy)
  (neighbourSqueezeStrategy : NeighbourSqueezeStrategy)
  (accountForNewSeparator : bool) (childResizeStrategy : ChildrenResizeStrategy)
  : Exec Item :=
  let items := visibleChildren false this in
  let index :=
    match indexOf items item with
    | Some i => Z.of_nat i
    | None => -1
    end in
  let '(this1, sizes) := sizes false this in
  sizes' <-
    growItem this1 index sizes amount growthStrategy neighbourSqueezeStrategy
      accountForNewSeparator ;;
  applyGeometries fuel (setSize_recursive fuel) ancestors this1 sizes'
    childResizeStrategy.


(** *** Insertion into the root container

    The functions of this part are the methods called on the root
    ([isRoot()] holds, the chain of parents is empty): [restoreChild] and
    [updateSizeConstraints] then never reach a parent. *)

(** [Private::defaultLengthFor(item, mode)] (the warning of [SizePolicy] is
    not recorded). *)
Definition defaultLengthFor (q : Item) (item : Item) (mode : DefaultSizeMode) : Z :=
  let bounded (result : Z) : Z := Z.max (Item.minLength item (orientation q)) result in
  let fair : Z :=
    let numVisibleChildren := numVisibleChildren q + 1 in
    let usableLength :=
      length q - Layouting.separatorThickness * (numVisibleChildren - 1) in
    usableLength ÷ numVisibleChildren in
  match mode with
  | NoSizing => bounded 0
  | Fair => bounded fair
  | FairButFloor => bounded (Z.min (bounded fair) (Item.length item (orientation q)))
  | ItemSize => bounded (Item.length item (orientation q))
  | SizePolicy => bounded 0
  end.

(** A call on the child object [item] of [this]: the first child with that
    address is replaced by what [f] makes of it. *)
Fixpoint modifyFirst (item : Z) (f : Item -> Exec Item) (children : list Item)
  : Exec (list Item) :=
  match children with
  | [] => Exec.ret []
  | child :: rest =>
      if Item.ptr child =? item
      then
        child' <- f child ;;
        Exec.ret (child' :: rest)
      else
        rest' <- modifyFirst item f rest ;;
        Exec.ret (child :: rest')
  end.
Definition modifyChild (this : Item) (item : Z) (f : Item -> Exec Item) : Exec Item :=
  children <- modifyFirst item f (m_children this) ;;
  Exec.ret (withChildren children this).
Definition child (this : Item) (item : Z) : option Item :=
  find (fun it => Item.ptr it =? item) (m_children this).

(** [Item::setHostWidget] *)
Definition Item_setHostWidget (host : option Z) (it : Item) : Item :=
  Item.withHostWidget host it.

(** [setHostWidget] is virtual: a container also rebuilds the separators
    below it. *)
Fixpoint setHostWidget (fuel : nat) (ancestors : list Item) (host : option Z)
  (item : Item) : Exec Item :=
  match item with
  | Leaf _ => Exec.ret (Item_setHostWidget host item)
  | Container _ _ _ =>
      match fuel with
      | O => Exec.fault OutOfFuel
      | S fuel' =>
          let this1 := deleteSeparators_recursive (Item_setHostWidget host item) in
          children <-
            Exec.mapM (setHostWidget fuel' (this1 :: ancestors) host)
              (m_children this1) ;;
          updateSeparators_recursive (S fuel') ancestors (withChildren children this1)
      end
  end.

(** [item->setParentContainer(parent)] for a non-null [parent] whose chain
    of parents is [parentAncestors]. *)
Definition setParentContainer (fuel : nat) (parent : Item)
  (parentAncestors : list Item) (item : Item) : Exec Item :=
  match Item.parentContainer item with
  | Some old =>
      if old =? Item.ptr parent then Exec.ret item
      else
        setHostWidget fuel (parent :: parentAncestors) (Item.hostWidget parent)
          (Item.withParent (Some (Item.ptr parent)) item)
  | None =>
      let ceasingToBeRoot := true in
      let item1 :=
        if Item.isContainer item && ceasingToBeRoot
           && negb (hasVisibleChildren false item)
        then Item.setGeometry QRect.null item
        else item in
      setHostWidget fuel (parent :: parentAncestors) (Item.hostWidget parent)
        (Item.withParent (Some (Item.ptr parent)) item1)
  end.

(** [setOrientation(o)] *)
Definition setOrientation (fuel : nat) (ancestors : list Item) (o : Orientation)
  (this : Item) : Exec Item :=
  if o =? orientation this then Exec.ret this
  else updateSeparators_recursive fuel ancestors (withOrientation o this).

(** [setChildren(children, o)] *)
Definition setChildren (fuel : nat) (ancestors : list Item) (children : list Item)
  (o : Orientation) (this : Item) : Exec Item :=
  let this1 := withChildren children this in
  children' <- Exec.mapM (setParentContainer fuel this1 ancestors) children ;;
  setOrientation fuel ancestors o (withChildren children' this1).

(** [item->setBeingInserted(is)] for a child of the root [this]: the flag
    trickles up to [this], which has no parent. *)
Definition setBeingInserted (this : Item) (item : Z) (is_ : bool) : Exec Item :=
  this1 <-
    modifyChild this item
      (fun it =>
         Exec.ret (Item.withSizingInfo
                     (SizingInfo.withBeingInserted is_ (Item.sizingInfo it)) it)) ;;
  if is_
  then
    if negb (hasVisibleChildren false this1)
    then Exec.ret (Item.withSizingInfo
                     (SizingInfo.withBeingInserted true (Item.sizingInfo this1)) this1)
    else Exec.ret this1
  else Exec.ret (Item.withSizingInfo
                   (SizingInfo.withBeingInserted false (Item.sizingInfo this1)) this1).

(** [updateSizeConstraints()] on the root. *)
Definition updateSizeConstraints (fuel : nat) (this : Item) : Exec Item :=
  let missingSize := Item.missingSize this in
  if negb (QSize.isNull missingSize)
  then setSize_recursive fuel [] (QSize.add (Item.size this) missingSize) Percentage this
  else Exec.ret this.

(** [restoreChild(item, neighbourSqueezeStrategy)] on the root: the branch
    that first restores a hidden container inside its parent needs a parent
    and is never taken. *)
Definition restoreChild (fuel : nat) (this : Item) (item : Z)
  (neighbourSqueezeStrategy : NeighbourSqueezeStrategy) : Exec Item :=
  this1 <- modifyChild this item (fun it => Exec.ret (Item.setIsVisible true it)) ;;
  this2 <- setBeingInserted this1 item true ;;
  this3 <- updateSizeConstraints fuel this2 ;;
  this4 <- setBeingInserted this3 item false ;;
  if numVisibleChildren this4 =? 1
  then
    this5 <- modifyChild this4 item (setGeometry_recursive fuel [this4] (rect this4)) ;;
    updateSeparators_recursive fuel [] this5
  else
    let available :=
      availableOnSide this4 item Side1 + availableOnSide this4 item Side2
      - Layouting.separatorThickness in
    let max := available in
    match child this4 item with
    | None => Exec.fault NullDereference
    | Some it =>
        let min := Item.minLength it (orientation this4) in
        let proposed := Layouting.length (Item.size it) (orientation this4) in
        let newLength := Layouting.qBound min proposed max in
        this5 <-
          modifyChild this4 item
            (fun it =>
               Exec.ret
                 (Item.withSizingInfo
                    (SizingInfo.withGeometry
                       (if isVertical this4
                        then QRect.setHeight 0 (geometry (Item.sizingInfo it))
                        else QRect.setWidth 0 (geometry (Item.sizingInfo it)))
                       (Item.sizingInfo it)) it)) ;;
        this6 <-
          growItemPtr fuel [] this5 item newLength BothSidesEqually
            neighbourSqueezeStrategy true Percentage ;;
        updateSeparators_recursive fuel [] this6
    end.

(** [insertItem(Item *item, int index, DefaultSizeMode)] on the root; an item
    being inserted has no parents of its own to map through. *)
Definition insertItemAt (fuel : nat) (this : Item) (item : Item) (index : nat)
  (defaultSizeMode : DefaultSizeMode) : Exec Item :=
  item1 <-
    match defaultSizeMode with
    | NoSizing => Exec.ret item
    | _ =>
        let suggestedLength := defaultLengthFor this item defaultSizeMode in
        setLength_recursive fuel [] suggestedLength (orientation this) item
    end ;;
  let this1 := withChildren (QVector.insert index item1 (m_children this)) this in
  this2 <- modifyChild this1 (Item.ptr item1) (setParentContainer fuel this1 []) ;;
  match child this2 (Item.ptr item1) with
  | None => Exec.fault NullDereference
  | Some it =>
      if negb (m_convertingItemToContainer (cdata this2)) && Item.isVisible false it
      then restoreChild fuel this2 (Item.ptr item1) AllNeighbours
      else Exec.ret this2
  end.

(** [new ItemContainer(hostWidget, parent)] at the address [address]. *)
Definition newContainer (address : Z) (hostWidget : option Z) (parent : option Z)
  : Item :=
  Container
    (mkItemData address SizingInfo.default parent false hostWidget None EmptyString)
    defaultData [].

(** [scheduleCheckSanity()]: the check itself runs later, from the event
    loop. *)
Definition scheduleCheckSanity (this : Item) : Item :=
  if m_checkSanityScheduled (cdata this) then this
  else withCheckSanityScheduled true this.

(** [insertItem(Item *item, Location, DefaultSizeMode, AddingOption)] on the
    root. [address] is where the allocator puts the container that an
    orthogonal insertion creates; the recursive call uses one unit of
    [fuel]. The guard is [contains(item)]; an item that it lets through
    although the tree holds it further down would be listed by two
    containers, which is the fault [ListedTwice]. *)
Fixpoint insertItem (fuel : nat) (address : Z) (this : Item) (item : Item)
  (loc : Location) (defaultSizeMode : DefaultSizeMode)
  (addingOption : AddingOption) : Exec Item :=
  if contains this (Item.ptr item)
  then
    Exec.warn "Item already exists" ;;;
    Exec.ret this
  else if contains_recursive this (Item.ptr item)
  then Exec.fault ListedTwice
  else
    let startHidden :=
      match addingOption with
      | AddingOption_StartHidden => true
      | AddingOption_None => false
      end in
    let item1 := Item.setIsVisible (negb startHidden) item in
    let locOrientation := Layouting.orientationForLocation loc in
    this' <-
      (if hasOrientationFor this loc
       then
         let this1 :=
           if QVector.count (m_children this) =? 1
           then withOrientation locOrientation this
           else this in
         let index :=
           if Layouting.locationIsSide1 loc then O
           else List.length (m_children this1) in
         insertItemAt fuel this1 item1 index defaultSizeMode
       else
         match fuel with
         | O => Exec.fault OutOfFuel
         | S fuel' =>
             let container :=
               Item.setGeometry (rect this)
                 (newContainer address (Item.hostWidget this) (Some (Item.ptr this))) in
             container1 <-
               setChildren fuel [this] (m_children this) (orientation this) container ;;
             let this1 := withChildren [] this in
             this2 <-
               setOrientation fuel []
                 (Layouting.oppositeOrientation (orientation this1)) this1 ;;
             this3 <- insertItemAt fuel this2 container1 O NoSizing ;;
             this4 <-
               insertItem fuel' address this3 item1 loc defaultSizeMode addingOption ;;
             modifyChild this4 address
               (fun c =>
                  if negb (hasVisibleChildren false c)
                  then Exec.ret (Item.setGeometry QRect.null c)
                  else Exec.ret c)
         end) ;;
    this'' <- updateSeparators_recursive fuel [] this' ;;
    Exec.ret (scheduleCheckSanity this'').


(** *** Moving a separator

    A container of the tree is named by the path of child indices from the
    root ([Item::pathFromRoot]); a [Separator *] is named by its position in
    [m_separators] of the container that owns it, and by nothing when the
    container does not own it. *)

(** The container at [path] below [this], with its chain of parents. *)
Fixpoint locate (this : Item) (ancestors : list Item) (path : list nat)
  : option (Item * list Item) :=
  match path with
  | [] => Some (this, ancestors)
  | i :: rest =>
      match nth_error (m_children this) i with
      | None => None
      | Some c => locate c (this :: ancestors) rest
      end
  end.

(** The tree in which the item at [path] is [new]. *)
Fixpoint replaceAt (path : list nat) (new : Item) (this : Item) : Item :=
  match path with
  | [] => new
  | i :: rest => withChildren (QVector.update i (replaceAt rest new) (m_children this)) this
  end.

(** [m_separators.indexOf(separator)] *)
Definition indexOfSeparator (this : Item) (separator : option nat) : Z :=
  match separator with
  | Some i => if (i <? List.length (separators this))%nat then Z.of_nat i else -1
  | None => -1
  end.

Definition separatorPosition (this : Item) (separatorIndex : Z) : Exec Z :=
  match QVector.at_ (separators this) separatorIndex with
  | Some separator => Exec.ret (sep_position separator)
  | None => Exec.fault IndexOutOfRange
  end.

Definition minPosForSeparator_global (this : Item) (ancestors : list Item)
  (separator : option nat) : Exec Z :=
  let separatorIndex := indexOfSeparator this separator in
  let children := visibleChildren false this in
  match QVector.at_ children (separatorIndex + 1) with
  | None => Exec.fault IndexOutOfRange
  | Some item =>
      let available1 :=
        availableOnSide_recursive this ancestors (Item.ptr item) Side1 (orientation this) in
      position <- separatorPosition this separatorIndex ;;
      Exec.ret (position - available1)
  end.

Definition maxPosForSeparator_global (this : Item) (ancestors : list Item)
  (separator : option nat) : Exec Z :=
  let separatorIndex := indexOfSeparator this separator in
  let children := visibleChildren false this in
  match QVector.at_ children separatorIndex with
  | None => Exec.fault IndexOutOfRange
  | Some item =>
      let available2 :=
        availableOnSide_recursive this ancestors (Item.ptr item) Side2 (orientation this) in
      position <- separatorPosition this separatorIndex ;;
      Exec.ret (position + available2)
  end.

(** [neighbourSeparator(item, side, orientation)]: the separator found is
    answered as the number of levels between [this] and its owner, and its
    index there; [None] is [nullptr]. *)
Fixpoint neighbourSeparator (this : Item) (ancestors : list Item) (item : Z)
  (side : Side) (o : Orientation) : option (nat * nat) :=
  let children := visibleChildren false this in
  match indexOf children item with
  | None => None
  | Some itemIndex =>
      if negb (o =? orientation this)
      then
        match ancestors with
        | [] => None
        | parent :: up =>
            option_map (fun found => (S (fst found), snd found))
              (neighbourSeparator parent up (Item.ptr this) side o)
        end
      else
        let separatorIndex :=
          match side with
          | Side1 => Z.of_nat itemIndex - 1
          | Side2 => Z.of_nat itemIndex
          end in
        if (separatorIndex <? 0) || (separatorIndex >=? QVector.count (separators this))
        then None
        else Some (O, Z.to_nat separatorIndex)
  end.

(** [requestSeparatorMove(separator, delta)] on the container at [path] of
    the tree [root]; it answers the tree after the move. A move handed to a
    container further up uses one unit of [hops]. *)
Fixpoint requestSeparatorMove (hops fuel : nat) (root : Item) (path : list nat)
  (separator : option nat) (delta : Z) : Exec Item :=
  match locate root [] path with
  | None => Exec.fault NullDereference
  | Some (this, ancestors) =>
      let separatorIndex := indexOfSeparator this separator in
      if separatorIndex =? -1
      then
        Exec.warn "Unknown separator" ;;;
        Exec.ret root
      else if delta =? 0 then Exec.ret root
      else
        min <- minPosForSeparator_global this ancestors separator ;;
        pos <- separatorPosition this separatorIndex ;;
        max <- maxPosForSeparator_global this ancestors separator ;;
        if (pos + delta <? min) || (pos + delta >? max)
        then
          Exec.warn "Separator would have gone out of bounds" ;;;
          Exec.ret root
        else
          let moveDirection := if delta <? 0 then Side1 else Side2 in
          let children := visibleChildren false this in
          if QVector.count children <=? separatorIndex
          then
            Exec.warn "Not enough children for separator index" ;;;
            Exec.ret root
          else
            let remainingToTake := Z.abs delta in
            moved <-
              match moveDirection with
              | Side1 =>
                  match QVector.at_ (m_children this) (separatorIndex + 1) with
                  | None => Exec.fault IndexOutOfRange
                  | Some side2Neighbour =>
                      let available1 :=
                        availableOnSide this (Item.ptr side2Neighbour) Side1 in
                      let tookLocally := Z.min available1 remainingToTake in
                      this' <-
                        (if negb (tookLocally =? 0)
                         then growItemPtr fuel ancestors this (Item.ptr side2Neighbour)
                                tookLocally Side1Only ImmediateNeighboursFirst false
                                Side1SeparatorMove
                         else Exec.ret this) ;;
                      Exec.ret (this', tookLocally)
                  end
              | Side2 =>
                  match QVector.at_ (m_children this) separatorIndex with
                  | None => Exec.fault IndexOutOfRange
                  | Some side1Neighbour =>
                      let available2 :=
                        availableOnSide this (Item.ptr side1Neighbour) Side2 in
                      let tookLocally := Z.min available2 remainingToTake in
                      this' <-
                        (if negb (tookLocally =? 0)
                         then growItemPtr fuel ancestors this (Item.ptr side1Neighbour)
                                tookLocally Side2Only ImmediateNeighboursFirst false
                                Side2SeparatorMove
                         else Exec.ret this) ;;
                      Exec.ret (this', tookLocally)
                  end
              end ;;
            let root' := replaceAt path (fst moved) root in
            let remainingToTake' := remainingToTake - snd moved in
            if remainingToTake' >? 0
            then
              match locate root' [] path with
              | Some (this', parent :: up) =>
                  match neighbourSeparator parent up (Item.ptr this') moveDirection
                          (orientation this') with
                  | None => Exec.fault NullDereference
                  | Some (levels, nextSeparator) =>
                      let remainingDelta :=
                        match moveDirection with
                        | Side1 => - remainingToTake'
                        | Side2 => remainingToTake'
                        end in
                      match hops with
                      | O => Exec.fault OutOfFuel
                      | S hops' =>
                          requestSeparatorMove hops' fuel root'
                            (firstn (List.length path - 1 - levels) path)
                            (Some nextSeparator) remainingDelta
                      end
                  end
              | _ =>
                  Exec.warn "Not enough space to move separator" ;;;
                  Exec.ret root'
              end
            else Exec.ret root'
  end.


(** *** The sanity check

    [checkSanity()] as a verdict: the checks that read the guest widgets and
    the separator widgets' host are left out (they read host state), and so
    are its two writes ([m_checkSanityScheduled], and the separator update on
    the way out of a failed percentage check). *)

(** [Item::checkSanity()] *)
Definition Item_checkSanity (this : Item) (ancestors : list Item) : bool :=
  match this, ancestors with
  | Leaf _, [] => true
  | _, _ =>
      negb ((wd (Item.minSize this) >? Item.width this)
            || (ht (Item.minSize this) >? Item.height this))
  end.

(** The first loop of [ItemContainer::checkSanity]: the visible children
    follow one another along the orientation. *)
Fixpoint checkPositions (o : Orientation) (expectedPos : Z) (children : list Item)
  : bool :=
  match children with
  | [] => true
  | item :: rest =>
      if negb (Item.isVisible false item) then checkPositions o expectedPos rest
      else
        let pos := Layouting.pos (Item.pos item) o in
        if negb (expectedPos =? pos) then false
        else
          checkPositions o
            (pos + Layouting.length (Item.size item) o + Layouting.separatorThickness)
            rest
  end.

(** Modelled from the spec: the size of a separator's geometry, a strip of
    thickness [separatorThickness] across its container. *)
Definition Separator_size (separator : Separator) : QSize :=
  if Layouting.isVerticalO (sep_orientation separator)
  then mkQSize (sep_length separator) Layouting.separatorThickness
  else mkQSize Layouting.separatorThickness (sep_length separator).

(** The loop of [ItemContainer::checkSanity] over the separators. *)
Fixpoint checkSeparators (this : Item) (ancestors : list Item) (i : nat)
  (separators : list Separator) (visibleChildren : list Item) : bool :=
  match separators with
  | [] => true
  | separator :: rest =>
      match nth_error visibleChildren i with
      | None => false
      | Some item =>
          let o := orientation this in
          let expectedSeparatorPos :=
            Item.mapToRoot1 this ancestors (SizingInfo.edge (Item.sizingInfo item) o + 1) o in
          let expectedSeparatorSize :=
            if isVertical this
            then mkQSize (Item.width this) Layouting.separatorThickness
            else mkQSize Layouting.separatorThickness (Item.height this) in
          let pos2 :=
            Layouting.pos (Item.mapToRoot this ancestors QPoint.origin)
              (Layouting.oppositeOrientation o) in
          let bounds :=
            match minPosForSeparator_global this ancestors (Some i),
                  maxPosForSeparator_global this ancestors (Some i) with
            | inr (separatorMinPos, _), inr (separatorMaxPos, _) =>
                let separatorPos := sep_position separator in
                negb ((separatorPos <? separatorMinPos)
                      || (separatorPos >? separatorMaxPos)
                      || (separatorMinPos <=? 0) || (separatorMaxPos <=? 0))
            | _, _ => false
            end in
          (sep_position separator =? expectedSeparatorPos)
          && QSize.eqb (Separator_size separator) expectedSeparatorSize
          && (sep_pos2 separator =? pos2)
          && bounds
          && checkSeparators this ancestors (S i) rest visibleChildren
      end
  end.

(** [checkSanity()] is virtual. *)
Fixpoint checkSanity (ancestors : list Item) (this : Item) : bool :=
  match this with
  | Leaf _ => Item_checkSanity this ancestors
  | Container _ _ cs =>
      match Item.hostWidget this with
      | None => true
      | Some _ =>
          let o := orientation this in
          let isRoot := match ancestors with [] => true | _ :: _ => false end in
          let h1 := Layouting.length (Item.size this) (Layouting.oppositeOrientation o) in
          let visibleChildren := visibleChildren false this in
          let isEmptyRoot := isRoot && (QVector.count visibleChildren =? 0) in
          let occupied :=
            fold_left (fun acc item => acc + Item.length item o) visibleChildren
              (Z.max 0 (Layouting.separatorThickness
                        * (QVector.count visibleChildren - 1))) in
          let totalPercentage :=
            fold_left PrimFloat.add (childPercentages this) 0%float in
          let expectedPercentage :=
            if QVector.count visibleChildren =? 0 then 0%float else 1%float in
          Item_checkSanity this ancestors
          && negb ((numChildren this =? 0) && negb isRoot)
          && hasOrientation this
          && checkPositions o 0 cs
          && forallb
               (fun item =>
                  match Item.parentContainer item with
                  | Some parent => parent =? Item.ptr this
                  | None => false
                  end
                  && (if Item.isVisible false item
                      then
                        (h1 =? Layouting.length (Item.size item)
                                 (Layouting.oppositeOrientation o))
                        && QRect.contains (rect this) (Item.geometry item)
                      else true)
                  && checkSanity (this :: ancestors) item)
               cs
          && (isEmptyRoot
              || ((occupied =? length this)
                  && Double.qFuzzyCompare totalPercentage expectedPercentage))
          && (QVector.count (separators this)
              =? Z.max 0 (QVector.count visibleChildren - 1))
          && checkSeparators this ancestors 0 (separators this) visibleChildren
      end
  end.


End ItemContainer.

(** ** Serialization through [QVariantMap] *)

Module QVariantMap.
Definition t : Type := list (string * QVariant).
Definition empty : t := [].
(** [map.insert(key, value)] and [map[key] = value] *)
Fixpoint insert (key : string) (v : QVariant) (m : t) : t :=
  match m with
  | [] => [(key, v)]
  | (k, w) :: rest =>
      if String.eqb k key then (k, v) :: rest else (k, w) :: insert key v rest
  end.
(** [map.value(key)] and [map[key]] on a constant map: an invalid variant
    when the key is absent. *)
Fixpoint value (key : string) (m : t) : QVariant :=
  match m with
  | [] => VInvalid
  | (k, w) :: rest => if String.eqb k key then w else value key rest
  end.
End QVariantMap.

(** The conversions of [QVariant], on the alternatives the serializer writes
    for the key that is read; any other alternative converts to the default
    value. *)
Module QVariant.
Definition toInt (v : QVariant) : Z :=
  match v with
  | VInt z => z
  | VBool b => if b then 1 else 0
  | _ => 0
  end.
Definition toBool (v : QVariant) : bool :=
  match v with
  | VBool b => b
  | VInt z => negb (z =? 0)
  | _ => false
  end.
Definition toString (v : QVariant) : string :=
  match v with
  | VString s => s
  | _ => EmptyString
  end.
Definition toMap (v : QVariant) : QVariantMap.t :=
  match v with
  | VMap m => m
  | _ => []
  end.
Definition toList (v : QVariant) : list QVariant :=
  match v with
  | VList l => l
  | _ => []
  end.
(** [QString::number(qint64)] *)
Definition number (n : Z) : string := NilZero.string_of_int (Z.to_int n).
End QVariant.

Module Serialization.
Definition sizeToMap (sz : QSize) : QVariantMap.t :=
  QVariantMap.insert "height" (VInt (ht sz))
    (QVariantMap.insert "width" (VInt (wd sz)) QVariantMap.empty).

Definition rectToMap (rect : QRect) : QVariantMap.t :=
  QVariantMap.insert "height" (VInt (QRect.height rect))
    (QVariantMap.insert "width" (VInt (QRect.width rect))
       (QVariantMap.insert "y" (VInt (QRect.y rect))
          (QVariantMap.insert "x" (VInt (QRect.x rect)) QVariantMap.empty))).

Definition mapToSize (map : QVariantMap.t) : QSize :=
  mkQSize (QVariant.toInt (QVariantMap.value "width" map))
    (QVariant.toInt (QVariantMap.value "height" map)).

Definition mapToRect (map : QVariantMap.t) : QRect :=
  QRect.make (QVariant.toInt (QVariantMap.value "x" map))
    (QVariant.toInt (QVariantMap.value "y" map))
    (QVariant.toInt (QVariantMap.value "width" map))
    (QVariant.toInt (QVariantMap.value "height" map)).

(** [SizingInfo::toVariantMap] *)
Definition SizingInfo_toVariantMap (s : SizingInfo) : QVariantMap.t :=
  QVariantMap.insert "maxSize" (VMap (sizeToMap (maxSize s)))
    (QVariantMap.insert "minSize" (VMap (sizeToMap (minSize s)))
       (QVariantMap.insert "geometry" (VMap (rectToMap (geometry s)))
          QVariantMap.empty)).

(** [SizingInfo::fromVariantMap]: the other fields are reset. *)
Definition SizingInfo_fromVariantMap (map : QVariantMap.t) : SizingInfo :=
  mkSizingInfo
    (mapToRect (QVariant.toMap (QVariantMap.value "geometry" map)))
    (mapToSize (QVariant.toMap (QVariantMap.value "minSize" map)))
    (mapToSize (QVariant.toMap (QVariantMap.value "maxSize" map)))
    (percentageWithinParent SizingInfo.default)
    (isBeingInserted SizingInfo.default).

(** [Item::toVariantMap] *)
Definition Item_toVariantMap (it : Item) : QVariantMap.t :=
  let result :=
    QVariantMap.insert "objectName" (VString (objectName (Item.data it)))
      (QVariantMap.insert "isContainer" (VBool (Item.isContainer it))
         (QVariantMap.insert "isVisible" (VBool (m_isVisible (Item.data it)))
            (QVariantMap.insert "sizingInfo"
               (VMap (SizingInfo_toVariantMap (Item.sizingInfo it)))
               QVariantMap.empty))) in
  match Item.guest it with
  | Some g =>
      QVariantMap.insert "guestId" (VString (QVariant.number (guest_widget g))) result
  | None => result
  end.

(** [toVariantMap] is virtual: a container adds its children and its
    orientation. *)
Fixpoint toVariantMap (it : Item) : QVariantMap.t :=
  match it with
  | Leaf _ => Item_toVariantMap it
  | Container _ c cs =>
      QVariantMap.insert "orientation" (VInt (m_orientation c))
        (QVariantMap.insert "children"
           (VList (map (fun child => VMap (toVariantMap child)) cs))
           (Item_toVariantMap it))
  end.

(** [Item::setMinSize] while the parent, if any, is deserializing: its
    [onChildMinSizeChanged] returns at once. *)
Definition setMinSize (fuel : nat) (ancestors : list Item) (sz : QSize) (it : Item)
  : Exec Item :=
  if QSize.eqb sz (minSize (Item.sizingInfo it)) then Exec.ret it
  else
    let it1 := Item.withSizingInfo (SizingInfo.withMinSize sz (Item.sizingInfo it)) it in
    ItemContainer.setSize_recursive fuel ancestors
      (QSize.expandedTo (Item.size it1) sz) Percentage it1.

(** [Item::setGuest(guest)] for a non-null guest, in the same situation. *)
Definition setGuest (fuel : nat) (ancestors : list Item) (guest : Guest) (it : Item)
  : Exec Item :=
  let it1 := Item.withGuest (Some guest) it in
  it2 <- setMinSize fuel ancestors (Item.widgetMinSize guest) it1 ;;
  let it3 :=
    if QRect.isEmpty (geometry (Item.sizingInfo it2))
    then
      let widgetGeo :=
        QRect.setSize
          (QSize.expandedTo (QRect.size (widget_geometry guest))
             Layouting.hardcodedMinimumSize)
          (widget_geometry guest) in
      Item.setGeometry
        (QRect.moveTopLeft (Item.mapFromRoot it2 ancestors (QRect.topLeft widgetGeo))
           widgetGeo) it2
    else it2 in
  Exec.ret (Item.updateObjectName it3).

(** [Item::fillFromVariantMap(map, widgets)] *)
Definition Item_fillFromVariantMap (fuel : nat) (ancestors : list Item)
  (widgets : string -> option Guest) (map : QVariantMap.t) (it : Item) : Exec Item :=
  let it1 :=
    Item.withSizingInfo
      (SizingInfo_fromVariantMap (QVariant.toMap (QVariantMap.value "sizingInfo" map)))
      it in
  let it2 := Item.withIsVisible (QVariant.toBool (QVariantMap.value "isVisible" map)) it1 in
  let it3 := Item.setObjectName (QVariant.toString (QVariantMap.value "objectName" map)) it2 in
  let guestId := QVariant.toString (QVariantMap.value "guestId" map) in
  if String.eqb guestId EmptyString then Exec.ret it3
  else
    match widgets guestId with
    | Some guest => setGuest fuel ancestors guest it3
    | None =>
        match Item.hostWidget it3 with
        | Some _ =>
            Exec.warn "Couldn't find frame to restore for" ;;;
            Exec.ret it3
        | None => Exec.ret it3
        end
    end.

(** [new Item(hostWidget, parent)] at the address [address] *)
Definition newItem (address : Z) (hostWidget : option Z) (parent : option Z) : Item :=
  Leaf (mkItemData address SizingInfo.default parent false hostWidget None EmptyString).

(** [updateChildPercentages_recursive()] *)
Fixpoint updateChildPercentages_recursive (fuel : nat) (this : Item) : Exec Item :=
  match fuel with
  | O => Exec.fault OutOfFuel
  | S fuel' =>
      this1 <- ItemContainer.updateChildPercentages this ;;
      children <-
        Exec.mapM
          (fun item =>
             if Item.isContainer item
             then updateChildPercentages_recursive fuel' item
             else Exec.ret item)
          (ItemContainer.m_children this1) ;;
      Exec.ret (ItemContainer.withChildren children this1)
  end.

(** The body of the loop of [ItemContainer::fillFromVariantMap] over
    [childrenV]: [this'] is the container so far, [next] the next free
    address, and [fill] the virtual call [child->fillFromVariantMap]. *)
Definition fillChild
  (fill : list Item -> Z -> QVariantMap.t -> Item -> Exec (Item * Z))
  (ancestors : list Item) (acc : Exec (Item * Z)) (childV : QVariant)
  : Exec (Item * Z) :=
  state <- acc ;;
  let '(this', next) := state in
  let childMap := QVariant.toMap childV in
  let isContainer := QVariant.toBool (QVariantMap.value "isContainer" childMap) in
  let fresh :=
    if isContainer
    then ItemContainer.newContainer next (Item.hostWidget this') (Some (Item.ptr this'))
    else newItem next (Item.hostWidget this') (Some (Item.ptr this')) in
  made <- fill (this' :: ancestors) (next + 1) childMap fresh ;;
  Exec.ret
    (ItemContainer.withChildren (ItemContainer.m_children this' ++ [fst made]) this',
     snd made).

(** [updateWidgets_recursive()]: the geometry it publishes to the guests is
    an output; what is kept is its warning for every visible leaf that has
    no guest, in the order of the loop. *)
Fixpoint updateWidgets_recursive (this : Item) : list string :=
  match this with
  | Leaf _ => []
  | Container _ _ cs =>
      flat_map
        (fun item =>
           match item with
           | Container _ _ _ => updateWidgets_recursive item
           | Leaf d =>
               if m_isVisible d
               then
                 match m_guest d with
                 | Some _ => []
                 | None => ["visible item doesn't have a guest"%string]
                 end
               else []
           end)
        cs
  end.

(** What the root does once its children are filled: it recomputes the
    percentages and, with a host widget, the separators, and it updates the
    widgets. *)
Definition finishRoot (fuel : nat) (this : Item) : Exec Item :=
  this' <- updateChildPercentages_recursive fuel this ;;
  match Item.hostWidget this' with
  | Some _ =>
      this'' <- ItemContainer.updateSeparators_recursive fuel [] this' ;;
      Exec.warnAll (updateWidgets_recursive this'') ;;;
      Exec.ret this''
  | None => Exec.ret this'
  end.

(** [fillFromVariantMap] is virtual. A container creates its children at the
    addresses [address], [address + 1], ... that the allocator hands out, and
    the answer carries the next free address. Every level of the map uses one
    unit of [fuel]. *)
Fixpoint fillFromVariantMap (fuel : nat) (ancestors : list Item)
  (widgets : string -> option Guest) (address : Z) (map : QVariantMap.t)
  (this : Item) : Exec (Item * Z) :=
  match this with
  | Leaf _ =>
      it <- Item_fillFromVariantMap fuel ancestors widgets map this ;;
      Exec.ret (it, address)
  | Container _ _ _ =>
      match fuel with
      | O => Exec.fault OutOfFuel
      | S fuel' =>
          let deserializing := m_isDeserializing (ItemContainer.cdata this) in
          let this0 := ItemContainer.withIsDeserializing true this in
          this1 <- Item_fillFromVariantMap fuel ancestors widgets map this0 ;;
          let childrenV := QVariant.toList (QVariantMap.value "children" map) in
          let this2 :=
            ItemContainer.withOrientation
              (QVariant.toInt (QVariantMap.value "orientation" map)) this1 in
          filled <-
            fold_left
              (fillChild
                 (fun childAncestors childAddress childMap child =>
                    fillFromVariantMap fuel' childAncestors widgets childAddress
                      childMap child)
                 ancestors)
              childrenV (Exec.ret (this2, address)) ;;
          let '(this3, next) := filled in
          this4 <-
            match ancestors with
            | [] => finishRoot fuel this3
            | _ :: _ => Exec.ret this3
            end ;;
          Exec.ret (ItemContainer.withIsDeserializing deserializing this4, next)
      end
  end.
End Serialization.

(** ** The rules of [AllNeighbours] and [BothSidesEqually] as the
    specification words them

    "per-donor take = max(1, missing/num_donors), bounded by each donor's
    availability": the loop of [calculateSqueezes] with that amount, kept
    apart to compare it with the loop of the source; then the iterations of
    both rules as relations between what is asked for and what is taken, to
    compare with what the loops of the source compute. *)

Module SpecWords.
Definition toTakeFor (missing donors : Z) : Z := Z.max 1 (missing ÷ donors).

Fixpoint squeezeAllNeighbours (fuel : nat) (availabilities squeezes : list Z)
  (missing : Z) : ItemContainer.SqueezeResult :=
  if missing >? 0
  then
    match fuel with
    | O => ItemContainer.SqueezesUnfinished
    | S fuel' =>
        let donors := ItemContainer.numDonors availabilities in
        if donors =? 0 then ItemContainer.NoDonorsLeft
        else
          let '(av, sq, missing') :=
            ItemContainer.squeezeRound (toTakeFor missing donors) availabilities
              squeezes missing in
          squeezeAllNeighbours fuel' av sq missing'
    end
  else ItemContainer.Squeezes squeezes.






(** Modelled from the spec: "iteratively take max(1, remaining/2) from each
    side, bounded by each side's available capacity; if one side is exhausted,
    the other absorbs the remainder". [TakenInTurns remaining available1
    available2 side1 side2] says that sharing out [remaining] between two
    sides with [available1] and [available2] takes [side1] from the first and
    [side2] from the second. Side 1 takes first in each turn, and the turn
    ends there when nothing remains. *)
Inductive TakenInTurns : Z -> Z -> Z -> Z -> Z -> Prop :=
| turns_done (remaining available1 available2 : Z) :
    remaining <= 0 ->
    TakenInTurns remaining available1 available2 0 0
| turns_side1_exhausted (remaining available2 : Z) :
    0 < remaining ->
    TakenInTurns remaining 0 available2 0 remaining
| turns_side2_exhausted (remaining available1 : Z) :
    0 < remaining -> available1 <> 0 ->
    TakenInTurns remaining available1 0 remaining 0
| turns_last (remaining available1 available2 took1 : Z) :
    0 < remaining -> available1 <> 0 -> available2 <> 0 ->
    took1 = Z.min (Z.max 1 (remaining ÷ 2)) available1 ->
    remaining - took1 = 0 ->
    TakenInTurns remaining available1 available2 took1 0
| turns_both (remaining available1 available2 took1 took2 side1 side2 : Z) :
    0 < remaining -> available1 <> 0 -> available2 <> 0 ->
    took1 = Z.min (Z.max 1 (remaining ÷ 2)) available1 ->
    took2 = Z.min (Z.max 1 (remaining ÷ 2)) available2 ->
    remaining - took1 <> 0 ->
    TakenInTurns (remaining - took1 - took2) (available1 - took1)
      (available2 - took2) side1 side2 ->
    TakenInTurns remaining available1 available2 (took1 + side1) (took2 + side2).
End SpecWords.

(** ** The layouts of the end-to-end scenarios *)

Module Scenario.
(** The host widget of the layout. *)
Definition host : option Z := Some 1.

(** A leaf without guest: minimum size 80x90, the default maximum. *)
Definition leaf (address : Z) (parent : option Z) (hostWidget : option Z)
  (visible : bool) (geo : QRect) (percentage : float) : Item :=
  Leaf (mkItemData address
          (mkSizingInfo geo (mkQSize 80 90) (mkQSize 16777215 16777215) percentage false)
          parent visible hostWidget None (if visible then "null" else "hidden")).

(** A container with the given children and separators; [storedMin] is
    the minimum size last written into its [m_sizingInfo]. *)
Definition container (address : Z) (parent : option Z) (hostWidget : option Z)
  (o : Orientation) (geo : QRect) (storedMin : QSize) (percentage : float)
  (separators : list Separator) (scheduled : bool) (children : list Item) : Item :=
  Container
    (mkItemData address
       (mkSizingInfo geo storedMin (mkQSize 16777215 16777215) percentage false)
       parent false hostWidget None EmptyString)
    (mkContainerData o separators false false false scheduled)
    children.

(** A new leaf, as [new Item(hostWidget)] makes it. *)
Definition newLeaf (address : Z) (hostWidget : option Z) : Item :=
  Leaf (mkItemData address SizingInfo.default None false hostWidget None EmptyString).

(** S1: the root at (0,0,1000,600) holds the visible leaf L1, which fills
    it. The orientation of a root with one child is not fixed yet, and a
    sanity check may still be scheduled. *)
Definition rootWithL1 (hostWidget : option Z) (vertical scheduled : bool) : Item :=
  container 100 None hostWidget (if vertical then Vertical else Horizontal)
    (QRect.make 0 0 1000 600) (mkQSize 80 90) 0%float [] scheduled
    [leaf 101 (Some 100) hostWidget true (QRect.make 0 0 1000 600) 1%float].

(** The leaf L2 that S2 inserts. *)
Definition L2 (hostWidget : option Z) : Item := newLeaf 102 hostWidget.

(** Two leaves side by side in a root 1000 wide: L1 of width [w1], the
    separator, and L2 with the rest. *)
Definition sideBySide (w1 : Z) : Item :=
  container 100 None host Horizontal (QRect.make 0 0 1000 600) (mkQSize 80 90)
    0%float [mkSeparator Horizontal w1 0 600] false
    [leaf 101 (Some 100) host true (QRect.make 0 0 w1 600) (Double.ratio w1 995);
     leaf 102 (Some 100) host true
       (QRect.make (w1 + 5) 0 (995 - w1) 600) (Double.ratio (995 - w1) 995)].

(** The leaf L3 that S3 inserts below the two leaves of S2. *)
Definition L3 : Item := newLeaf 103 host.

(** S3 on the root: L1 and L2 are wrapped into the container at address
    900, and L3 lies below it. *)
Definition nested : Item :=
  container 100 None host Vertical (QRect.make 0 0 1000 600) (mkQSize 80 90) 0%float
    [mkSeparator Vertical 298 0 1000] true
    [container 900 (Some 100) host Horizontal (QRect.make 0 0 1000 298)
       (mkQSize 165 90) (Double.ratio 298 595)
       [mkSeparator Horizontal 498 0 298] false
       [leaf 101 (Some 900) host true (QRect.make 0 0 498 298) (Double.ratio 498 995);
        leaf 102 (Some 900) host true (QRect.make 503 0 497 298) (Double.ratio 497 995)];
     leaf 103 (Some 100) host true (QRect.make 0 303 1000 297) (Double.ratio 297 595)].


(** Three horizontal containers inside one another: the root holds X and
    P, P holds C and W, C holds Y (at its minimum width) and B. Such nests
    appear when a container is left with one child and the next insertion
    gives it the orientation of its parent. *)
Definition sameOrientationNest : Item :=
  container 100 None host Horizontal (QRect.make 0 0 1000 600) (mkQSize 80 90) 0%float
    [mkSeparator Horizontal 200 0 600] false
    [leaf 101 (Some 100) host true (QRect.make 0 0 200 600) (Double.ratio 200 995);
     container 110 (Some 100) host Horizontal (QRect.make 205 0 795 600)
       (mkQSize 250 90) (Double.ratio 795 995)
       [mkSeparator Horizontal 600 0 600] false
       [container 120 (Some 110) host Horizontal (QRect.make 0 0 395 600)
          (mkQSize 165 90) (Double.ratio 395 790)
          [mkSeparator Horizontal 285 0 600] false
          [leaf 121 (Some 120) host true (QRect.make 0 0 80 600) (Double.ratio 80 390);
           leaf 122 (Some 120) host true (QRect.make 85 0 310 600)
             (Double.ratio 310 390)];
        leaf 111 (Some 110) host true (QRect.make 400 0 395 600)
          (Double.ratio 395 790)]].

(** The root before S1: empty, at (0,0,1000,600). *)
Definition emptyRoot : Item :=
  container 100 None host Vertical (QRect.make 0 0 1000 600) (mkQSize 80 90) 0%float
    [] false [].


(** The sizing of three children in a row of a container 1000 wide, as
    [sizes()] hands it to [growItem]. *)
Definition threeInARow : list SizingInfo :=
  map (fun geo => mkSizingInfo geo (mkQSize 80 90) (mkQSize 16777215 16777215)
                    0%float false)
    [QRect.make 0 0 300 600; QRect.make 305 0 300 600; QRect.make 610 0 390 600].
End Scenario.

(** ** The properties the claims are about *)

Module Invariant.
(** The sum of the positions of a chain of items. *)
Definition sumPos (chain : list Item) : QPoint :=
  fold_right (fun it acc => QPoint.add (Item.pos it) acc) QPoint.origin chain.

(** I6 for one container: it has [max(0, visible_count - 1)] separators, and
    separator [i] sits right after the trailing edge of visible child [i],
    in root coordinates. *)
Definition separatorsInPlace (ancestors : list Item) (this : Item) : Prop :=
  QVector.count (ItemContainer.separators this)
  = Z.max 0 (ItemContainer.numVisibleChildren this - 1)
  /\ forall (i : nat) (separator : Separator),
       nth_error (ItemContainer.separators this) i = Some separator ->
       exists child : Item,
         nth_error (filter (Item.isVisible false) (ItemContainer.m_children this)) i
         = Some child
         /\ sep_position separator
            = Item.mapToRoot1 this ancestors
                (SizingInfo.edge (Item.sizingInfo child) (ItemContainer.orientation this)
                 + 1)
                (ItemContainer.orientation this).

(** I6 for a container that has a host widget and for the containers below
    it that are reached through visible children. *)
Inductive SeparatorsDerived : list Item -> Item -> Prop :=
| derived_leaf : forall ancestors d, SeparatorsDerived ancestors (Leaf d)
| derived_container : forall ancestors d c cs,
    (Item.hostWidget (Container d c cs) <> None ->
     separatorsInPlace ancestors (Container d c cs)) ->
    (forall item : Item,
        In item cs ->
        ItemContainer.isListedVisible false item = true ->
        SeparatorsDerived (Container d c cs :: ancestors) item) ->
    SeparatorsDerived ancestors (Container d c cs).

(** What P2 compares between two trees: the orientations, the order of the
    children, the geometries, the minimum and maximum sizes and the
    visibility flags. *)
#[local] Unset Elimination Schemes.
Inductive Layout :=
| LayoutLeaf (geo : QRect) (min max : QSize) (visible : bool)
| LayoutContainer (geo : QRect) (min max : QSize) (visible : bool)
    (o : Orientation) (children : list Layout).
#[local] Set Elimination Schemes.

Fixpoint layout (it : Item) : Layout :=
  match it with
  | Leaf d =>
      LayoutLeaf (geometry (m_sizingInfo d)) (minSize (m_sizingInfo d))
        (maxSize (m_sizingInfo d)) (m_isVisible d)
  | Container d c cs =>
      LayoutContainer (geometry (m_sizingInfo d)) (minSize (m_sizingInfo d))
        (maxSize (m_sizingInfo d)) (m_isVisible d) (m_orientation c) (map layout cs)
  end.

(** The percentage that [updateChildPercentages] of [this] gives [child]. *)
Definition expectedPercentage (this child : Item) : float :=
  if Item.isVisible false child && negb (Item.isBeingInserted child)
  then Double.ratio (Item.length child (ItemContainer.orientation this))
         (ItemContainer.usableLength this)
  else 0%float.

(** Every child of every container holds the percentage that its length
    gives it. *)
Inductive PercentagesRecomputed : Item -> Prop :=
| recomputed_leaf : forall d, PercentagesRecomputed (Leaf d)
| recomputed_container : forall d c cs,
    (forall child : Item,
        In child cs ->
        percentageWithinParent (Item.sizingInfo child)
        = expectedPercentage (Container d c cs) child) ->
    (forall child : Item, In child cs -> PercentagesRecomputed child) ->
    PercentagesRecomputed (Container d c cs).

(** No item of the tree is in the middle of an insertion. *)
Inductive NoneBeingInserted : Item -> Prop :=
| settled_leaf : forall d,
    isBeingInserted (m_sizingInfo d) = false -> NoneBeingInserted (Leaf d)
| settled_container : forall d c cs,
    isBeingInserted (m_sizingInfo d) = false ->
    (forall child : Item, In child cs -> NoneBeingInserted child) ->
    NoneBeingInserted (Container d c cs).

(** The percentages within their parents of all the children of a tree, in
    the order of the tree. *)
Fixpoint percentages (it : Item) : list float :=
  match it with
  | Leaf _ => []
  | Container _ _ cs =>
      flat_map
        (fun child => percentageWithinParent (Item.sizingInfo child) :: percentages child)
        cs
  end.

(** The guest of an item, when the table of guests that deserialization is
    given still knows it, reports the minimum size that the item stores, and
    the item has a geometry to keep. *)
Definition guestInSync (widgets : string -> option Guest) (d : ItemData) : Prop :=
  forall g g' : Guest,
    m_guest d = Some g ->
    widgets (QVariant.number (guest_widget g)) = Some g' ->
    Item.widgetMinSize g' = minSize (m_sizingInfo d)
    /\ QRect.isEmpty (geometry (m_sizingInfo d)) = false.

Inductive GuestsInSync (widgets : string -> option Guest) : Item -> Prop :=
| sync_leaf : forall d, guestInSync widgets d -> GuestsInSync widgets (Leaf d)
| sync_container : forall d c cs,
    guestInSync widgets d ->
    (forall child : Item, In child cs -> GuestsInSync widgets child) ->
    GuestsInSync widgets (Container d c cs).
End Invariant.

(** ** Walks over the tree *)

Module Walk.
(** [visibleCount_recursive()] is virtual: a leaf counts itself when it is
    visible. *)
Fixpoint visibleCount_recursive (it : Item) : Z :=
  match it with
  | Leaf _ => if Item.isVisible false it then 1 else 0
  | Container _ _ cs =>
      fold_left (fun count item => count + visibleCount_recursive item) cs 0
  end.

(** [ItemContainer::count_recursive()] *)
Fixpoint count_recursive (this : Item) : Z :=
  match this with
  | Leaf _ => 0
  | Container _ _ cs =>
      fold_left
        (fun count item =>
           if Item.isContainer item then count + count_recursive item
           else count + 1)
        cs 0
  end.

(** [ItemContainer::items_recursive()] *)
Fixpoint items_recursive (this : Item) : list Item :=
  match this with
  | Leaf _ => []
  | Container _ _ cs =>
      fold_left
        (fun items item =>
           if Item.isContainer item then items ++ items_recursive item
           else items ++ [item])
        cs []
  end.

(** [ItemContainer::separators_recursive()] *)
Fixpoint separators_recursive (this : Item) : list Separator :=
  match this with
  | Leaf _ => []
  | Container _ c cs =>
      fold_left
        (fun separators item =>
           if Item.isContainer item then separators ++ separators_recursive item
           else separators)
        cs (m_separators c)
  end.

(** [QVector<Item*>::indexOf] as an [int]: -1 when the pointer is not in the
    vector. *)
Definition indexOfInt (items : list Item) (item : Z) : Z :=
  match ItemContainer.indexOf items item with
  | Some i => Z.of_nat i
  | None => -1
  end.

(** [Item::pathFromRoot()]: the loop climbs the chain of parents and puts
    the index of each item among its parent's children in front. *)
Fixpoint pathFromRoot (this : Item) (ancestors : list Item) : list Z :=
  match ancestors with
  | [] => []
  | parent :: up =>
      pathFromRoot parent up
      ++ [indexOfInt (ItemContainer.m_children parent) (Item.ptr this)]
  end.

(** [ItemContainer::itemFromPath(path)]: [None] is [nullptr]. The loop runs
    from [container], which is [this] at first; an empty path answers
    [this]. *)
Fixpoint itemFromPathLoop (container : Item) (path : list Z) : Exec (option Item) :=
  match path with
  | [] => Exec.ret (Some container)
  | index :: rest =>
      if (index <? 0) || (index >=? QVector.count (ItemContainer.m_children container))
      then
        Exec.warn "Invalid index" ;;;
        Exec.ret None
      else
        match QVector.at_ (ItemContainer.m_children container) index with
        | None => Exec.fault IndexOutOfRange
        | Some child =>
            match rest with
            | [] => Exec.ret (Some child)
            | _ :: _ =>
                if Item.isContainer child then itemFromPathLoop child rest
                else
                  Exec.warn "Invalid index" ;;;
                  Exec.ret None
            end
        end
  end.
Definition itemFromPath (this : Item) (path : list Z) : Exec (option Item) :=
  itemFromPathLoop this path.

(** [ItemContainer::maxSize()]; [maxSize] is virtual, a leaf answers the
    maximum it stores. *)
Fixpoint maxSize (it : Item) : QSize :=
  match it with
  | Leaf d => Types.maxSize (m_sizingInfo d)
  | Container _ c cs =>
      if ItemContainer.isEmpty it then mkQSize 0 0
      else
        let vertical := Layouting.isVerticalO (m_orientation c) in
        let visibleChildren :=
          map (fun item => (ItemContainer.isListedVisible false item, maxSize item)) cs in
        let '(maxW, maxH, count) :=
          fold_left
            (fun (acc : Z * Z * Z) (e : bool * QSize) =>
               let '(maxW, maxH, count) := acc in
               if fst e
               then
                 if vertical
                 then (Z.min maxW (wd (snd e)), maxH + ht (snd e), count + 1)
                 else (maxW + wd (snd e), Z.min maxH (ht (snd e)), count + 1)
               else acc)
            visibleChildren (0, 0, 0) in
        let separatorWaste := (count - 1) * Layouting.separatorThickness in
        if vertical then mkQSize maxW (maxH + separatorWaste)
        else mkQSize (maxW + separatorWaste) maxH
  end.

(** No container of the tree holds the same pointer twice among its
    children. *)
Inductive UniqueSiblings : Item -> Prop :=
| unique_leaf : forall d, UniqueSiblings (Leaf d)
| unique_container : forall d c cs,
    NoDup (map Item.ptr cs) ->
    (forall child : Item, In child cs -> UniqueSiblings child) ->
    UniqueSiblings (Container d c cs).
End Walk.

(** ** Mapping rectangles to and from the root *)

Module Mapping.
(** [Item::mapToRoot(QRect)] *)
Definition mapToRootRect (this : Item) (ancestors : list Item) (r : QRect) : QRect :=
  let topLeft := Item.mapToRoot this ancestors (QRect.topLeft r) in
  QRect.moveTopLeft topLeft r.

(** [Item::mapFromRoot(QRect)] *)
Definition mapFromRootRect (this : Item) (ancestors : list Item) (r : QRect) : QRect :=
  let topLeft := Item.mapFromRoot this ancestors (QRect.topLeft r) in
  QRect.moveTopLeft topLeft r.

(** [Item::mapFromParent(QPoint)] *)
Definition mapFromParent (this : Item) (ancestors : list Item) (p : QPoint) : QPoint :=
  match ancestors with
  | [] => p
  | _ :: _ => QPoint.sub p (Item.pos this)
  end.
End Mapping.

(** ** Vocabulary of the further properties *)

(** What one entry of the vector of sizes adds to the position of the next
    one in [positionItems]: its length and a separator, or only the
    separator when it is being inserted. *)
Definition advance (o : Orientation) (sizing : SizingInfo) : Z :=
  (if isBeingInserted sizing then 0 else SizingInfo.length sizing o)
  + Layouting.separatorThickness.

(** What each donor gives when the donors are asked one after the other, in
    the order of the list: what is still needed, up to what it has
    available. *)
Fixpoint takeInOrder (needed : Z) (availabilities : list Z) : list Z :=
  match availabilities with
  | [] => []
  | available :: rest =>
      let took := Z.min needed available in
      took :: takeInOrder (needed - took) rest
  end.

(** The lengths, the minimum lengths and the available lengths of a vector
    of sizes, added up along [o]. *)
Definition totalLength (o : Orientation) (sizes : list SizingInfo) : Z :=
  QVector.sum (map (fun sizing => SizingInfo.length sizing o) sizes).
Definition totalMinLength (o : Orientation) (sizes : list SizingInfo) : Z :=
  QVector.sum (map (fun sizing => SizingInfo.minLength sizing o) sizes).
Definition totalAvailable (o : Orientation) (sizes : list SizingInfo) : Z :=
  QVector.sum (map (fun sizing => SizingInfo.availableLength sizing o) sizes).

(** [sizing'] is [sizing] made shorter along [o], by no more than it has
    available; nothing else of it changes. *)
Definition Squeezed (o : Orientation) (sizing sizing' : SizingInfo) : Prop :=
  exists squeeze : Z,
    0 <= squeeze <= SizingInfo.availableLength sizing o
    /\ sizing' = SizingInfo.incrementLength (- squeeze) o sizing.

(** The entries of [sizes], each made shorter by its entry of [squeezes]. *)
Definition shrinkEach (o : Orientation) (squeezes : list Z) (sizes : list SizingInfo)
  : list SizingInfo :=
  map (fun p => SizingInfo.incrementLength (- fst p) o (snd p))
    (combine squeezes sizes).

(** An entry that has at least its minimum length along [o]. *)
Definition atLeastMin (o : Orientation) (sizing : SizingInfo) : Prop :=
  SizingInfo.minLength sizing o <= SizingInfo.length sizing o.

(** ** Vocabulary of the proofs *)

(** Induction over a tree with the property known of all the children. *)
Section ItemInduction.
Variable P : Item -> Prop.
Hypothesis P_leaf : forall d, P (Leaf d).
Hypothesis P_container : forall d c cs, Forall P cs -> P (Container d c cs).

Fixpoint Item_tree_ind (it : Item) : P it :=
  match it with
  | Leaf d => P_leaf d
  | Container d c cs =>
      P_container d c cs
        ((fix all (l : list Item) : Forall P l :=
            match l with
            | [] => Forall_nil P
            | x :: xs => Forall_cons x (Item_tree_ind x) (all xs)
            end) cs)
  end.
End ItemInduction.

(** What a container reads of a child when it computes percentages and
    separator positions: two items that agree on it are interchangeable
    there. *)
Record Akin (c c' : Item) : Prop := mkAkin {
  akin_geometry : geometry (Item.sizingInfo c') = geometry (Item.sizingInfo c);
  akin_inserted : Item.isBeingInserted c' = Item.isBeingInserted c;
  akin_visible : Item.isVisible false c' = Item.isVisible false c }.
Arguments akin_geometry {c c'} _.
Arguments akin_inserted {c c'} _.
Arguments akin_visible {c c'} _.

(** What a resize leaves of an item: whether it is visible and whether it
    is being inserted. *)
Definition Alike (c c' : Item) : Prop :=
  Item.isVisible false c' = Item.isVisible false c
  /\ Item.isBeingInserted c' = Item.isBeingInserted c.

(** Where the separator after [item] belongs, in root coordinates. *)
Definition wantedPosition (this : Item) (ancestors : list Item) (item : Item) : Z :=
  Item.mapToRoot1 this ancestors
    (SizingInfo.edge (Item.sizingInfo item) (ItemContainer.orientation this) + 1)
    (ItemContainer.orientation this).

(** The value that [Item::toVariantMap] stores under the key guestId. *)
Definition guestIdOf (it : Item) : QVariant :=
  match Item.guest it with
  | Some g => VString (QVariant.number (guest_widget g))
  | None => VInvalid
  end.

(** What [Item::fillFromVariantMap] leaves in a new item [it] when it reads
    the map written for [src]. *)
Record FilledFrom (src it it' : Item) : Prop := mkFilledFrom {
  ff_sizing :
    Item.sizingInfo it'
    = mkSizingInfo (geometry (Item.sizingInfo src)) (minSize (Item.sizingInfo src))
        (maxSize (Item.sizingInfo src)) (percentageWithinParent SizingInfo.default)
        (isBeingInserted SizingInfo.default);
  ff_visible : m_isVisible (Item.data it') = m_isVisible (Item.data src);
  ff_ptr : Item.ptr it' = Item.ptr it;
  ff_host : Item.hostWidget it' = Item.hostWidget it;
  ff_shape : it' = Item.setData (Item.data it') it }.

(** No container of the tree blocks the update of its percentages. *)
Inductive Unblocked : Item -> Prop :=
| unblocked_leaf : forall d, Unblocked (Leaf d)
| unblocked_container : forall d c cs,
    m_blockUpdatePercentages c = false ->
    (forall child : Item, In child cs -> Unblocked child) ->
    Unblocked (Container d c cs).

(** A new item of the kind of [src], as the loop of [fillFromVariantMap]
    creates it. *)
Definition Blank (src fresh : Item) : Prop :=
  exists a h p,
    fresh = if Item.isContainer src then ItemContainer.newContainer a h p
            else Serialization.newItem a h p.

(** What the loop of [fillFromVariantMap] makes of the map of [src]. *)
Definition Restored (src made : Item) : Prop :=
  Invariant.layout made = Invariant.layout src
  /\ Unblocked made
  /\ Invariant.NoneBeingInserted made.

(** The percentage that [updateChildPercentages] writes into one child, or
    the child as it is while the update is blocked. *)
Definition refreshed (this item : Item) : Item :=
  if m_blockUpdatePercentages (ItemContainer.cdata this) then item
  else Item.setPercentage (Invariant.expectedPercentage this item) item.

(** The container that [updateChildPercentages] answers and the warnings of
    its loop. *)
Definition percentagesWritten (this : Item) : Item :=
  if m_blockUpdatePercentages (ItemContainer.cdata this) then this
  else
    let usable := ItemContainer.usableLength this in
    ItemContainer.withChildren
      (map (fun item =>
              if Item.isVisible false item && negb (Item.isBeingInserted item)
              then
                Item.setPercentage
                  (Double.ratio (Item.length item (ItemContainer.orientation this))
                     usable) item
              else Item.setPercentage 0%float item)
         (ItemContainer.m_children this))
      this.
Definition invalidPercentages (this : Item) : list string :=
  if m_blockUpdatePercentages (ItemContainer.cdata this) then []
  else
    flat_map
      (fun item =>
         if Item.isVisible false item && negb (Item.isBeingInserted item)
         then
           let p :=
             Double.ratio (Item.length item (ItemContainer.orientation this))
               (ItemContainer.usableLength this) in
           if Double.qFuzzyIsNull p || PrimFloat.ltb 1%float p
           then ["Invalid percentage"%string] else []
         else [])
      (ItemContainer.m_children this).

(** Warnings that are all about an invalid percentage. *)
Definition OnlyInvalidPercentages (w : list string) : Prop :=
  Forall (fun msg => msg = "Invalid percentage"%string) w.

(** The number of container levels, the visibility and the geometry of an
    item, read from its layout. *)
Fixpoint layoutLevels (l : Invariant.Layout) : nat :=
  match l with
  | Invariant.LayoutLeaf _ _ _ _ => O
  | Invariant.LayoutContainer _ _ _ _ _ children =>
      S (list_max (map layoutLevels children))
  end.

Fixpoint layoutVisible (l : Invariant.Layout) : bool :=
  match l with
  | Invariant.LayoutLeaf _ _ _ visible => visible
  | Invariant.LayoutContainer _ _ _ _ _ children => existsb layoutVisible children
  end.

Definition layoutGeometry (l : Invariant.Layout) : QRect :=
  match l with
  | Invariant.LayoutLeaf geo _ _ _ => geo
  | Invariant.LayoutContainer geo _ _ _ _ _ => geo
  end.

(** * Theorems *)

(** ** Running [Exec] computations *)

Lemma bind_ret_l {A B} (a : A) (k : A -> Exec B) : Exec.bind (Exec.ret a) k = k a.
Proof.
  unfold Exec.bind, Exec.ret. destruct (k a) as [f|[b w]]; reflexivity.
Qed.

Lemma bind_pure {A B} (a : A) (k : A -> Exec B) : Exec.bind (inr (a, [])) k = k a.
Proof. exact (bind_ret_l a k). Qed.

Lemma bind_inr {A B} (m : Exec A) (k : A -> Exec B) (b : B) (w : list string) :
  Exec.bind m k = inr (b, w) ->
  exists a w1 w2, m = inr (a, w1) /\ k a = inr (b, w2) /\ w = w1 ++ w2.
Proof.
  unfold Exec.bind. destruct m as [f|[a w1]]; [discriminate|].
  destruct (k a) as [f|[b' w2]] eqn:E; [discriminate|].
  intros H. injection H as <- <-. exists a, w1, w2. auto.
Qed.

Lemma bind_inr_eq {A B} (a : A) (w1 w2 : list string) (k : A -> Exec B) (b : B) :
  k a = inr (b, w2) -> Exec.bind (inr (a, w1)) k = inr (b, w1 ++ w2).
Proof. intros H. unfold Exec.bind. rewrite H. reflexivity. Qed.

Lemma bind_inr_inr {A B C} (a : A) (w1 w2 : list string) (m : A -> Exec B) (b : B)
  (k : B -> Exec C) :
  m a = inr (b, w2) ->
  Exec.bind (inr (a, w1)) (fun x => Exec.bind (m x) k)
  = Exec.bind (inr (b, w1 ++ w2)) k.
Proof.
  intros H. unfold Exec.bind. rewrite H.
  destruct (k b) as [f|[c w3]]; [reflexivity|]. rewrite app_assoc. reflexivity.
Qed.

Lemma bind_inr_ret {A B} (a : A) (w1 : list string) (f : A -> B) :
  Exec.bind (inr (a, w1)) (fun x => Exec.ret (f x)) = inr (f a, w1).
Proof. unfold Exec.bind, Exec.ret. rewrite app_nil_r. reflexivity. Qed.

Lemma mapM_inr {A B} (f : A -> Exec B) (l : list A) :
  forall bs w,
    Exec.mapM f l = inr (bs, w) ->
    Forall2 (fun a b => exists w', f a = inr (b, w')) l bs.
Proof.
  induction l as [|a l IH]; simpl; intros bs w H.
  - injection H as <- <-. constructor.
  - apply bind_inr in H. destruct H as (b & w1 & w2 & Hf & H & _).
    apply bind_inr in H. destruct H as (bs' & w3 & w4 & Hm & H & _).
    injection H as <- <-. constructor; eauto.
Qed.

Lemma mapM_total {A B} (f : A -> Exec B) (l : list A) :
  (forall a, In a l -> exists b, f a = inr (b, [])) ->
  exists bs, Exec.mapM f l = inr (bs, []).
Proof.
  induction l as [|a l IH]; intros H; simpl.
  - eexists; reflexivity.
  - destruct (H a (or_introl eq_refl)) as (b & Hb).
    destruct IH as (bs & Hbs); [intros; apply H; right; assumption|].
    rewrite Hb. rewrite Hbs. eexists; reflexivity.
Qed.

Lemma mapM_map_Forall2 {A B C} (g : B -> Exec C) (f : A -> B) (R : A -> C -> Prop)
  (l : list A) :
  (forall a, In a l -> exists c, g (f a) = inr (c, []) /\ R a c) ->
  exists cs, Exec.mapM g (map f l) = inr (cs, []) /\ Forall2 R l cs.
Proof.
  induction l as [|a l IH]; intros H; cbn [map Exec.mapM].
  - exists []. split; [reflexivity|constructor].
  - destruct (H a (or_introl eq_refl)) as (c & Hc & Hr).
    destruct IH as (cs & Hcs & Hall); [intros; apply H; right; assumption|].
    rewrite Hc, bind_pure, Hcs, bind_pure. exists (c :: cs).
    split; [reflexivity|constructor; assumption].
Qed.

Lemma mapM_run {A B} (f : A -> Exec B) (g : A -> B) (h : A -> list string)
  (l : list A) :
  (forall a, f a = inr (g a, h a)) ->
  Exec.mapM f l = inr (map g l, flat_map h l).
Proof.
  intros H. induction l as [|a l IH]; cbn [Exec.mapM map flat_map]; [reflexivity|].
  rewrite H, IH. unfold Exec.bind, Exec.ret. rewrite app_nil_r. reflexivity.
Qed.

Lemma OnlyInvalidPercentages_app (w w' : list string) :
  OnlyInvalidPercentages w -> OnlyInvalidPercentages w' ->
  OnlyInvalidPercentages (w ++ w').
Proof. unfold OnlyInvalidPercentages. intros H H'. apply Forall_app. auto. Qed.

Lemma mapM_map_Forall2_w {A B C} (g : B -> Exec C) (f : A -> B) (R : A -> C -> Prop)
  (l : list A) :
  (forall a, In a l ->
             exists c w, g (f a) = inr (c, w) /\ OnlyInvalidPercentages w /\ R a c) ->
  exists cs w,
    Exec.mapM g (map f l) = inr (cs, w) /\ OnlyInvalidPercentages w /\ Forall2 R l cs.
Proof.
  induction l as [|a l IH]; intros H; cbn [map Exec.mapM].
  - exists [], []. split; [reflexivity|]. split; constructor.
  - destruct (H a (or_introl eq_refl)) as (c & w & Hc & Hw & Hr).
    destruct IH as (cs & w' & Hcs & Hw' & Hall); [intros; apply H; right; assumption|].
    rewrite Hc, Hcs. exists (c :: cs), (w ++ w').
    split; [unfold Exec.bind, Exec.ret; rewrite app_nil_r; reflexivity|].
    split; [apply OnlyInvalidPercentages_app; assumption|constructor; assumption].
Qed.

Lemma bind_inr_run {A B} (a : A) (w1 : list string) (k : A -> Exec B) :
  Exec.bind (inr (a, w1)) k
  = match k a with
    | inl f => inl f
    | inr (b, w2) => inr (b, w1 ++ w2)
    end.
Proof. reflexivity. Qed.

(** ** Lists *)

Lemma update_length {A} (f : A -> A) (v : list A) : forall i,
  List.length (QVector.update i f v) = List.length v.
Proof.
  induction v as [|a v IH]; intros [|i]; simpl; auto.
Qed.

Lemma Forall2_length_eq {A B} (R : A -> B -> Prop) (l : list A) (l' : list B) :
  Forall2 R l l' -> List.length l = List.length l'.
Proof. induction 1; simpl; congruence. Qed.

Lemma Forall2_nth_error {A B} (R : A -> B -> Prop) (l : list A) (l' : list B) :
  Forall2 R l l' ->
  forall i a, nth_error l i = Some a -> exists b, nth_error l' i = Some b /\ R a b.
Proof.
  induction 1 as [|a b l l' H _ IH]; intros [|i] x Hx; simpl in *; try discriminate.
  - injection Hx as <-. eauto.
  - eauto.
Qed.

Lemma Forall2_In_r {A B} (R : A -> B -> Prop) (l : list A) (l' : list B) :
  Forall2 R l l' -> forall b, In b l' -> exists a, In a l /\ R a b.
Proof.
  induction 1 as [|a b l l' H _ IH]; intros x Hx; simpl in *; [contradiction|].
  destruct Hx as [<-|Hx]; [eauto|]. destruct (IH x Hx) as (a' & ? & ?). eauto.
Qed.

Lemma Forall2_impl_In {A B} (R R' : A -> B -> Prop) (l : list A) (l' : list B) :
  Forall2 R l l' -> (forall a b, In a l -> In b l' -> R a b -> R' a b) ->
  Forall2 R' l l'.
Proof.
  induction 1 as [|a b l l' H _ IH]; intros Himp; constructor.
  - apply Himp; [left; reflexivity..|exact H].
  - apply IH. intros; apply Himp; [right; assumption..|assumption].
Qed.

Lemma Forall2_map_eq {A B C} (R : A -> B -> Prop) (f : A -> C) (g : B -> C)
  (l : list A) (l' : list B) :
  Forall2 R l l' -> (forall a b, R a b -> g b = f a) -> map g l' = map f l.
Proof.
  induction 1 as [|a b l l' H _ IH]; intros Hfg; cbn [map]; [reflexivity|].
  rewrite (Hfg a b H), IH by exact Hfg. reflexivity.
Qed.

Lemma Forall2_flat_map_eq {A B C} (R : A -> B -> Prop) (f : A -> list C)
  (g : B -> list C) (l : list A) (l' : list B) :
  Forall2 R l l' -> (forall a b, R a b -> g b = f a) -> flat_map g l' = flat_map f l.
Proof.
  induction 1 as [|a b l l' H _ IH]; intros Hfg; cbn [flat_map]; [reflexivity|].
  rewrite (Hfg a b H), IH by exact Hfg. reflexivity.
Qed.

Lemma map_eq_Forall2 {A B C} (f : A -> C) (g : B -> C) (l : list A) :
  forall l' : list B, map g l' = map f l -> Forall2 (fun a b => g b = f a) l l'.
Proof.
  induction l as [|a l IH]; intros [|b l'] H; cbn in H; try discriminate; constructor.
  - injection H as H _. exact H.
  - apply IH. injection H as _ H. exact H.
Qed.

(** ** Coordinates *)

Lemma QPoint_eq (p q : QPoint) : px p = px q -> py p = py q -> p = q.
Proof. destruct p, q; simpl; intros; subst; reflexivity. Qed.

Lemma mapToRoot_sum (ancestors : list Item) : forall this p,
  Item.mapToRoot this ancestors p
  = QPoint.add p (Invariant.sumPos (removelast (this :: ancestors))).
Proof.
  induction ancestors as [|parent up IH]; intros this p.
  - simpl. apply QPoint_eq; simpl; lia.
  - change (Item.mapToRoot this (parent :: up) p)
      with (QPoint.add p (Item.mapToRoot parent up (Item.pos this))).
    rewrite IH.
    change (removelast (this :: parent :: up)) with (this :: removelast (parent :: up)).
    apply QPoint_eq; simpl; lia.
Qed.

Lemma mapFromRoot_sum (ancestors : list Item) : forall this p,
  Item.mapFromRoot this ancestors p = QPoint.sub p (Invariant.sumPos (this :: ancestors)).
Proof.
  induction ancestors as [|parent up IH]; intros this p.
  - simpl. apply QPoint_eq; simpl; lia.
  - change (Item.mapFromRoot this (parent :: up) p)
      with (Item.mapFromRoot parent up (QPoint.sub p (Item.pos this))).
    rewrite IH. apply QPoint_eq; simpl; lia.
Qed.

Lemma root_cons (this parent : Item) (up : list Item) :
  Item.root this (parent :: up) = Item.root parent up.
Proof.
  unfold Item.root. revert this parent.
  induction up as [|a up IH]; intros this parent; [reflexivity|].
  change (last (parent :: a :: up) this) with (last (a :: up) this).
  rewrite (IH this a), (IH parent a). reflexivity.
Qed.

Lemma sumPos_split (ancestors : list Item) : forall this,
  Invariant.sumPos (this :: ancestors)
  = QPoint.add (Invariant.sumPos (removelast (this :: ancestors)))
      (Item.pos (Item.root this ancestors)).
Proof.
  induction ancestors as [|parent up IH]; intros this.
  - simpl. apply QPoint_eq; simpl; lia.
  - change (Invariant.sumPos (this :: parent :: up))
      with (QPoint.add (Item.pos this) (Invariant.sumPos (parent :: up))).
    rewrite IH.
    change (removelast (this :: parent :: up)) with (this :: removelast (parent :: up)).
    rewrite root_cons.
    apply QPoint_eq; simpl; lia.
Qed.

(** Claim C10. For an item whose root container sits at the origin,
    [mapFromRoot] undoes [mapToRoot] and [mapToRoot] undoes [mapFromRoot] on
    every point; [mapToRoot] adds the positions of the item and of its
    ancestors below the root, [mapFromRoot] subtracts the positions of the
    item and of all its ancestors, the root included. *)
Theorem mapToRoot_mapFromRoot_inverse (this : Item) (ancestors : list Item) (p : QPoint) :
  Item.pos (Item.root this ancestors) = QPoint.origin ->
  Item.mapFromRoot this ancestors (Item.mapToRoot this ancestors p) = p
  /\ Item.mapToRoot this ancestors (Item.mapFromRoot this ancestors p) = p
  /\ Item.mapToRoot this ancestors p
     = QPoint.add p (Invariant.sumPos (removelast (this :: ancestors)))
  /\ Item.mapFromRoot this ancestors p = QPoint.sub p (Invariant.sumPos (this :: ancestors)).
Proof.
  intros Hroot.
  rewrite !mapToRoot_sum, !mapFromRoot_sum, !sumPos_split, Hroot.
  repeat split; apply QPoint_eq; simpl; lia.
Qed.

(** C10 at the leaf B of [sameOrientationNest], which lies 85 to the right
    inside C, itself at the left edge of P, itself 205 to the right inside
    the root. *)
Lemma mapToRoot_mapFromRoot_inverse_witness :
  exists (this : Item) (ancestors : list Item),
    ItemContainer.locate Scenario.sameOrientationNest [] [1; 0; 1]%nat
    = Some (this, ancestors)
    /\ Item.pos (Item.root this ancestors) = QPoint.origin
    /\ Item.mapFromRoot this ancestors (Item.mapToRoot this ancestors (mkQPoint 3 4))
       = mkQPoint 3 4
    /\ Item.mapToRoot this ancestors (Item.mapFromRoot this ancestors (mkQPoint 3 4))
       = mkQPoint 3 4
    /\ Item.mapToRoot this ancestors (mkQPoint 3 4) = mkQPoint 293 4
    /\ Item.mapFromRoot this ancestors (mkQPoint 3 4) = mkQPoint (-287) 4.
Proof.
  do 2 eexists. split; [vm_compute; reflexivity|].
  match goal with
  | |- ?H /\ _ => assert (Hroot : H) by reflexivity
  end.
  split; [exact Hroot|].
  match type of Hroot with
  | Item.pos (Item.root ?this ?ancestors) = _ =>
      destruct (mapToRoot_mapFromRoot_inverse this ancestors (mkQPoint 3 4) Hroot)
        as (H1 & H2 & _)
  end.
  split; [exact H1|]. split; [exact H2|]. split; reflexivity.
Defined.

(** ** The default length of an inserted item *)

(** Claim C6. For every container [q] and item, the default length in the
    mode [Fair] is the usable length (the length of [q] less one separator
    thickness for each child visible so far) divided by the number of visible
    children plus one, bounded below by the minimum length of the item along
    the axis of [q]; it is that quotient whenever the quotient is not below
    the minimum; and in every mode the default length is at least the
    minimum length of the item. *)
Theorem defaultLengthFor_Fair_bounded (q item : Item) :
  let o := ItemContainer.orientation q in
  let visible_count := ItemContainer.numVisibleChildren q in
  let usable_length :=
    ItemContainer.length q - Layouting.separatorThickness * visible_count in
  ItemContainer.defaultLengthFor q item Fair
  = Z.max (Item.minLength item o) (usable_length ÷ (visible_count + 1))
  /\ (Item.minLength item o <= usable_length ÷ (visible_count + 1) ->
      ItemContainer.defaultLengthFor q item Fair = usable_length ÷ (visible_count + 1))
  /\ forall mode : DefaultSizeMode,
       Item.minLength item o <= ItemContainer.defaultLengthFor q item mode.
Proof.
  cbv zeta. unfold ItemContainer.defaultLengthFor.
  replace (ItemContainer.numVisibleChildren q + 1 - 1)
    with (ItemContainer.numVisibleChildren q) by lia.
  split; [reflexivity|]. split.
  - intros H. lia.
  - intros mode. destruct mode; lia.
Qed.

(** ** Growing an item on both sides *)

(** The loop of [BothSidesEqually] ends within [toSteal] rounds and shares
    out exactly what it was asked for. *)
Lemma growBothSides_spec (fuel : nat) :
  forall toSteal a1 a2 g1 g2,
    0 <= a1 -> 0 <= a2 -> toSteal <= a1 + a2 ->
    (Z.to_nat toSteal <= fuel)%nat ->
    exists s1 s2,
      ItemContainer.growBothSides fuel toSteal a1 a2 g1 g2 = Some (s1, s2)
      /\ s1 + s2 = g1 + g2 + Z.max 0 toSteal
      /\ g1 <= s1 <= g1 + a1 /\ g2 <= s2 <= g2 + a2.
Proof.
  induction fuel as [|fuel IH]; intros toSteal a1 a2 g1 g2 H1 H2 Hle Hfuel.
  - assert (toSteal <= 0) by lia.
    simpl. destruct (toSteal >? 0) eqn:E; [lia|].
    exists g1, g2. repeat split; lia.
  - simpl. destruct (toSteal >? 0) eqn:E.
    + destruct (a1 =? 0) eqn:E1.
      { exists g1, (g2 + toSteal). repeat split; lia. }
      destruct (a2 =? 0) eqn:E2.
      { exists (g1 + toSteal), g2. repeat split; lia. }
      assert (Hq : 0 <= toSteal ÷ 2 /\ 2 * (toSteal ÷ 2) <= toSteal).
      { rewrite Z.quot_div_nonneg by lia. split; [apply Z.div_pos; lia|].
        apply Z.mul_div_le. lia. }
      set (toTake := Z.max 1 (toSteal ÷ 2)) in *.
      destruct (toSteal - Z.min toTake a1 =? 0) eqn:E3.
      { exists (g1 + Z.min toTake a1), g2. repeat split; lia. }
      destruct (IH (toSteal - Z.min toTake a1 - Z.min toTake a2)
                  (a1 - Z.min toTake a1) (a2 - Z.min toTake a2)
                  (g1 + Z.min toTake a1) (g2 + Z.min toTake a2))
        as (s1 & s2 & Hrun & Hsum & Hb1 & Hb2); try lia.
      exists s1, s2. rewrite Hrun. repeat split; lia.
    + exists g1, g2. repeat split; lia.
Qed.

Lemma growBothSides_first (toSteal a1 a2 : Z) :
  0 <= a1 -> 0 <= a2 -> 0 < toSteal -> toSteal <= a1 + a2 ->
  exists s1 s2,
    ItemContainer.growBothSides (Z.to_nat toSteal) toSteal a1 a2 0 0 = Some (s1, s2)
    /\ s1 + s2 = toSteal
    /\ 0 <= s1 <= a1 /\ 0 <= s2 <= a2
    /\ (a1 = 0 -> s2 = toSteal)
    /\ (a2 = 0 -> s1 = toSteal)
    /\ Z.min (Z.max 1 (toSteal ÷ 2)) a1 <= s1.
Proof.
  intros H1 H2 Hpos Hle.
  assert (Hq : 0 <= toSteal ÷ 2 /\ 2 * (toSteal ÷ 2) <= toSteal).
  { rewrite Z.quot_div_nonneg by lia. split; [apply Z.div_pos; lia|].
    apply Z.mul_div_le. lia. }
  destruct (Z.to_nat toSteal) as [|fuel] eqn:Ef; [lia|].
  simpl. destruct (toSteal >? 0) eqn:E; [|lia].
  destruct (a1 =? 0) eqn:E1.
  { do 2 eexists. split; [reflexivity|]. repeat split; lia. }
  destruct (a2 =? 0) eqn:E2.
  { do 2 eexists. split; [reflexivity|]. repeat split; lia. }
  set (toTake := Z.max 1 (toSteal ÷ 2)) in *.
  destruct (toSteal - Z.min toTake a1 =? 0) eqn:E3.
  { do 2 eexists. split; [reflexivity|]. repeat split; lia. }
  destruct (growBothSides_spec fuel
              (toSteal - Z.min toTake a1 - Z.min toTake a2)
              (a1 - Z.min toTake a1) (a2 - Z.min toTake a2)
              (Z.min toTake a1) (Z.min toTake a2))
    as (s1 & s2 & Hrun & Hsum & Hb1 & Hb2); try lia.
  exists s1, s2. rewrite Hrun. repeat split; lia.
Qed.

(** The loop of [BothSidesEqually] takes in the turns that the specification
    words. *)
Lemma growBothSides_turns (fuel : nat) :
  forall toSteal a1 a2 g1 g2 s1 s2,
    ItemContainer.growBothSides fuel toSteal a1 a2 g1 g2 = Some (s1, s2) ->
    SpecWords.TakenInTurns toSteal a1 a2 (s1 - g1) (s2 - g2).
Proof.
  induction fuel as [|fuel IH]; intros toSteal a1 a2 g1 g2 s1 s2 H; simpl in H.
  all: destruct (toSteal >? 0) eqn:E;
    [|injection H as <- <-; rewrite !Z.sub_diag;
      apply SpecWords.turns_done; lia].
  all: destruct (a1 =? 0) eqn:E1;
    [injection H as <- <-; rewrite Z.sub_diag;
     replace (g2 + toSteal - g2) with toSteal by lia;
     assert (a1 = 0) as -> by lia;
     apply SpecWords.turns_side1_exhausted; lia|].
  all: destruct (a2 =? 0) eqn:E2;
    [injection H as <- <-; rewrite Z.sub_diag;
     replace (g1 + toSteal - g1) with toSteal by lia;
     assert (a2 = 0) as -> by lia;
     apply SpecWords.turns_side2_exhausted; lia|].
  - discriminate.
  - set (toTake := Z.max 1 (toSteal ÷ 2)) in *.
    destruct (toSteal - Z.min toTake a1 =? 0) eqn:E3.
    + injection H as <- <-. rewrite Z.sub_diag.
      replace (g1 + Z.min toTake a1 - g1) with (Z.min toTake a1) by lia.
      apply SpecWords.turns_last; lia.
    + apply IH in H.
      replace (s1 - g1) with (Z.min toTake a1 + (s1 - (g1 + Z.min toTake a1)))
        by lia.
      replace (s2 - g2) with (Z.min toTake a2 + (s2 - (g2 + Z.min toTake a2)))
        by lia.
      apply SpecWords.turns_both; try lia. exact H.
Qed.

(** The turns decide what each side gives. *)
Lemma TakenInTurns_unique (remaining a1 a2 s1 s2 : Z) :
  SpecWords.TakenInTurns remaining a1 a2 s1 s2 ->
  forall t1 t2,
    SpecWords.TakenInTurns remaining a1 a2 t1 t2 -> t1 = s1 /\ t2 = s2.
Proof.
  induction 1 as [r a1 a2 Hr|r a2 Hr|r a1 Hr Ha1|r a1 a2 took1 Hr Ha1 Ha2 Ht Hz
                  |r a1 a2 took1 took2 s1 s2 Hr Ha1 Ha2 Ht1 Ht2 Hnz Hrest IH];
    intros t1 t2 H'; inversion H'; subst; try lia; try (split; lia).
  destruct (IH _ _ ltac:(eassumption)) as [-> ->]. split; reflexivity.
Qed.

Lemma lengthOnSide_single (sizes : list SizingInfo) (index : Z) o :
  QVector.count sizes = 1 -> 0 <= index < QVector.count sizes ->
  ItemContainer.lengthOnSide sizes (index - 1) Side1 o = LengthOnSide.empty
  /\ ItemContainer.lengthOnSide sizes (index + 1) Side2 o = LengthOnSide.empty.
Proof.
  intros Hc Hi. unfold ItemContainer.lengthOnSide.
  assert (index = 0) by lia. subst index.
  split.
  - reflexivity.
  - rewrite Hc. reflexivity.
Qed.

(** Claim C4. [growItem] with [BothSidesEqually], for an index in range, a
    positive amount to steal and [available1 + available2 >= toSteal], hands
    [shrinkNeighbours] the two amounts that the loop [growBothSides] finds:
    they add up to exactly [toSteal], neither exceeds what its side has
    available, a side with nothing available leaves everything to the other
    one, and side 1 gives at least its first take,
    [min (max 1 (toSteal / 2)) available1]. The two amounts are those of the
    turns that the specification words, [SpecWords.TakenInTurns]: in each
    turn [max 1 (remaining / 2)] from side 1 and then from side 2, each
    bounded by what the side has left, until nothing remains or a side is
    exhausted and the other one takes the remainder; and no other two
    amounts come out of these turns. *)
Theorem growItem_BothSidesEqually_steals_toSteal
  (this : Item) (index : Z) (sizes : list SizingInfo) (missing : Z)
  (squeeze : NeighbourSqueezeStrategy) (account : bool) :
  let o := ItemContainer.orientation this in
  let toSteal := ItemContainer.toStealFor missing account in
  let sizes1 := ItemContainer.growOwnLength this (Z.to_nat index) missing sizes in
  let available1 :=
    LengthOnSide.available (ItemContainer.lengthOnSide sizes1 (index - 1) Side1 o) in
  let available2 :=
    LengthOnSide.available (ItemContainer.lengthOnSide sizes1 (index + 1) Side2 o) in
  0 <= index < QVector.count sizes ->
  0 < toSteal ->
  toSteal <= available1 + available2 ->
  exists side1Growth side2Growth : Z,
    ItemContainer.growBothSides (Z.to_nat toSteal) toSteal available1 available2 0 0
    = Some (side1Growth, side2Growth)
    /\ ItemContainer.growItem this index sizes missing BothSidesEqually squeeze account
       = ItemContainer.shrinkNeighbours this (Z.to_nat index) sizes1
           side1Growth side2Growth squeeze
    /\ side1Growth + side2Growth = toSteal
    /\ 0 <= side1Growth <= available1
    /\ 0 <= side2Growth <= available2
    /\ (available1 = 0 -> side2Growth = toSteal)
    /\ (available2 = 0 -> side1Growth = toSteal)
    /\ Z.min (Z.max 1 (toSteal ÷ 2)) available1 <= side1Growth
    /\ SpecWords.TakenInTurns toSteal available1 available2 side1Growth side2Growth
    /\ (forall side1 side2 : Z,
          SpecWords.TakenInTurns toSteal available1 available2 side1 side2 ->
          side1 = side1Growth /\ side2 = side2Growth).
Proof.
  intros o toSteal sizes1 available1 available2 Hindex Hpos Hle.
  assert (Hcount : QVector.count sizes1 = QVector.count sizes).
  { unfold sizes1, ItemContainer.growOwnLength, QVector.count.
    rewrite update_length. reflexivity. }
  assert (Ha1 : 0 <= available1) by (unfold available1, LengthOnSide.available; lia).
  assert (Ha2 : 0 <= available2) by (unfold available2, LengthOnSide.available; lia).
  destruct (growBothSides_first toSteal available1 available2 Ha1 Ha2 Hpos Hle)
    as (s1 & s2 & Hrun & Hsum & Hb1 & Hb2 & He1 & He2 & Hfirst).
  assert (Hturns : SpecWords.TakenInTurns toSteal available1 available2 s1 s2).
  { pose proof (growBothSides_turns _ _ _ _ _ _ _ _ Hrun) as Ht.
    rewrite !Z.sub_0_r in Ht. exact Ht. }
  exists s1, s2. split; [exact Hrun|].
  split;
    [|repeat split; try tauto; try lia; try exact Hturns;
      destruct (TakenInTurns_unique _ _ _ _ _ Hturns _ _ ltac:(eassumption));
      assumption].
  unfold ItemContainer.growItem.
  fold toSteal. destruct (toSteal =? 0) eqn:E0; [lia|].
  unfold QVector.at_. destruct (index <? 0) eqn:En; [lia|].
  destruct (nth_error sizes (Z.to_nat index)) eqn:Enth.
  2:{ apply nth_error_None in Enth. unfold QVector.count in Hindex. lia. }
  fold o. fold sizes1. fold available1. fold available2.
  unfold ItemContainer.growthFor.
  destruct (QVector.count sizes1 =? 1) eqn:E1.
  { exfalso.
    destruct (lengthOnSide_single sizes1 index o) as [L1 L2]; try lia.
    unfold available1, available2 in Hle. rewrite L1, L2 in Hle.
    unfold LengthOnSide.available, LengthOnSide.empty in Hle. simpl in Hle. lia. }
  rewrite Hrun. rewrite bind_ret_l. reflexivity.
Qed.

(** C4 on the middle one of three children in a row, which grows by 100 with
    220 available on its left and 310 on its right: each side gives 50. *)
Lemma growItem_BothSidesEqually_witness :
  0 <= 1 < QVector.count Scenario.threeInARow
  /\ exists side1Growth side2Growth : Z,
       ItemContainer.growItem (Scenario.sideBySide 498) 1 Scenario.threeInARow 100
         BothSidesEqually AllNeighbours false
       = ItemContainer.shrinkNeighbours (Scenario.sideBySide 498) 1
           (ItemContainer.growOwnLength (Scenario.sideBySide 498) 1 100
              Scenario.threeInARow)
           side1Growth side2Growth AllNeighbours
       /\ side1Growth + side2Growth = 100
       /\ 0 <= side1Growth <= 220
       /\ 0 <= side2Growth <= 310
       /\ side1Growth = 50 /\ side2Growth = 50.
Proof.
  assert (H1 : 0 <= 1 < QVector.count Scenario.threeInARow) by (cbn; lia).
  split; [exact H1|].
  destruct (growItem_BothSidesEqually_steals_toSteal (Scenario.sideBySide 498) 1
              Scenario.threeInARow 100 AllNeighbours false H1)
    as (s1 & s2 & Hrun & Hgrow & Hsum & Hb1 & Hb2 & _).
  - vm_compute. reflexivity.
  - vm_compute. discriminate.
  - exists s1, s2. split; [exact Hgrow|]. split; [exact Hsum|].
    split; [exact Hb1|]. split; [exact Hb2|].
    vm_compute in Hrun. injection Hrun as <- <-. split; reflexivity.
Defined.

(** ** Squeezing all the neighbours *)

Lemma sum_nonneg (l : list Z) : Forall (fun a => 0 <= a) l -> 0 <= QVector.sum l.
Proof. induction 1; simpl; lia. Qed.

Lemma numDonors_zero (av : list Z) :
  Forall (fun a => 0 <= a) av -> ItemContainer.numDonors av = 0 -> QVector.sum av = 0.
Proof.
  unfold ItemContainer.numDonors, QVector.count.
  induction 1 as [|a av Ha Hav IH]; simpl; [reflexivity|].
  destruct (a >? 0) eqn:E; simpl; intros H; [lia|].
  rewrite IH by exact H. lia.
Qed.

Lemma numDonors_nonneg (av : list Z) : 0 <= ItemContainer.numDonors av.
Proof. unfold ItemContainer.numDonors, QVector.count. lia. Qed.

(** One pass over the donors. *)
Lemma squeezeRound_spec (toTake : Z) (Htake : 0 < toTake) :
  forall av sq missing,
    List.length av = List.length sq ->
    Forall (fun a => 0 <= a) av ->
    0 < missing ->
    exists av' sq' missing',
      ItemContainer.squeezeRound toTake av sq missing = (av', sq', missing')
      /\ List.length av' = List.length av
      /\ List.length sq' = List.length sq
      /\ Forall (fun a => 0 <= a) av'
      /\ 0 <= missing' <= missing
      /\ QVector.sum av' - missing' = QVector.sum av - missing
      /\ QVector.sum sq' + missing' = QVector.sum sq + missing
      /\ (forall i, nth i av' 0 + nth i sq' 0 = nth i av 0 + nth i sq 0
                    /\ nth i sq 0 <= nth i sq' 0)
      /\ (0 < ItemContainer.numDonors av -> missing' < missing).
Proof.
  induction av as [|a av IH]; intros sq missing Hlen Hav Hm.
  - destruct sq; [|discriminate]. simpl.
    exists [], [], missing.
    repeat split; auto; try lia; try (destruct i; simpl; lia);
      try (unfold ItemContainer.numDonors, QVector.count; simpl; lia).
  - destruct sq as [|s sq]; [discriminate|].
    inversion Hav as [|? ? Ha Hav']; subst.
    injection Hlen as Hlen.
    simpl. destruct (a =? 0) eqn:Ea.
    + destruct (IH sq missing Hlen Hav' Hm)
        as (av' & sq' & m' & Hr & L1 & L2 & F & Hb & S1 & S2 & Hp & Hd).
      rewrite Hr. exists (a :: av'), (s :: sq'), m'.
      repeat split; simpl; auto; try lia.
      * destruct i; simpl; [lia|]. apply Hp.
      * destruct i; simpl; [lia|]. apply Hp.
      * unfold ItemContainer.numDonors in *. simpl.
        assert ((a >? 0) = false) as -> by lia. exact Hd.
    + assert (Hpos : 0 < a) by lia.
      set (took := Z.min missing (Z.min toTake a)).
      assert (Htook : 1 <= took <= missing /\ took <= a) by (unfold took; lia).
      destruct (missing - took =? 0) eqn:Ez.
      * exists ((a - took) :: av), ((s + took) :: sq), (missing - took).
        repeat split; simpl; auto; try lia.
        -- constructor; [lia|exact Hav'].
        -- destruct i; simpl; lia.
        -- destruct i; simpl; lia.
      * destruct (IH sq (missing - took) Hlen Hav')
          as (av' & sq' & m' & Hr & L1 & L2 & F & Hb & S1 & S2 & Hp & Hd); [lia|].
        rewrite Hr. exists ((a - took) :: av'), ((s + took) :: sq'), m'.
        repeat split; simpl; auto; try lia.
        -- constructor; [lia|exact F].
        -- destruct i; simpl; [lia|]. apply Hp.
        -- destruct i; simpl; [lia|]. apply Hp.
Qed.

Lemma toTakeFor_pos (missing donors : Z) :
  0 < missing -> 0 < donors -> 0 < ItemContainer.toTakeFor missing donors.
Proof.
  intros Hm Hd. unfold ItemContainer.toTakeFor.
  destruct (missing ÷ donors =? 0) eqn:E; [lia|].
  assert (0 <= missing ÷ donors) by (apply Z.quot_pos; lia). lia.
Qed.

(** The [while] loop of [AllNeighbours]. *)
Lemma squeezeAllNeighbours_spec (fuel : nat) :
  forall av sq missing,
    List.length av = List.length sq ->
    Forall (fun a => 0 <= a) av ->
    0 <= missing ->
    (Z.to_nat missing <= fuel)%nat ->
    match ItemContainer.squeezeAllNeighbours fuel av sq missing with
    | ItemContainer.Squeezes sq' =>
        missing <= QVector.sum av
        /\ List.length sq' = List.length sq
        /\ QVector.sum sq' = QVector.sum sq + missing
        /\ forall i, nth i sq 0 <= nth i sq' 0 <= nth i sq 0 + nth i av 0
    | ItemContainer.NoDonorsLeft => QVector.sum av < missing
    | ItemContainer.SqueezesUnfinished => False
    end.
Proof.
  induction fuel as [|fuel IH]; intros av sq missing Hlen Hav Hm Hfuel.
  all: assert (Hn : forall j, 0 <= nth j av 0)
    by (intros j; destruct (nth_in_or_default j av 0) as [Hin| ->];
        [exact (proj1 (Forall_forall _ _) Hav _ Hin)|lia]).
  all: pose proof (sum_nonneg av Hav) as Hsum.
  - assert (missing = 0) by lia. subst. simpl.
    repeat split; try lia; specialize (Hn i); lia.
  - simpl. destruct (missing >? 0) eqn:Em.
    + destruct (ItemContainer.numDonors av =? 0) eqn:Ed.
      * rewrite (numDonors_zero av Hav) by lia. lia.
      * pose proof (numDonors_nonneg av) as Hnn.
        assert (Hdon : 0 < ItemContainer.numDonors av) by lia.
        assert (Hmpos : 0 < missing) by lia.
        destruct (squeezeRound_spec _ (toTakeFor_pos _ _ Hmpos Hdon) av sq missing
                    Hlen Hav Hmpos)
          as (av' & sq' & m' & Hr & L1 & L2 & F & Hb & S1 & S2 & Hp & Hd).
        rewrite Hr.
        specialize (Hd Hdon).
        assert (Hlen' : List.length av' = List.length sq') by lia.
        assert (Hfuel' : (Z.to_nat m' <= fuel)%nat) by lia.
        specialize (IH av' sq' m' Hlen' F (proj1 Hb) Hfuel').
        destruct (ItemContainer.squeezeAllNeighbours fuel av' sq' m'); try exact IH.
        -- destruct IH as (I1 & I2 & I3 & I4).
           repeat split; try lia.
           ++ destruct (Hp i); specialize (I4 i); lia.
           ++ destruct (Hp i); specialize (I4 i); lia.
        -- lia.
    + repeat split; try lia; specialize (Hn i); lia.
Qed.

Lemma sum_repeat_zero (n : nat) : QVector.sum (repeat 0 n) = 0.
Proof. induction n; simpl; lia. Qed.

Lemma nth_repeat_zero (n i : nat) : nth i (repeat 0 n) 0 = 0.
Proof.
  revert i. induction n; intros [|i]; simpl; auto.
Qed.













(** ** The end-to-end scenarios *)

(** S1: inserting L1 into the empty root gives the root of [rootWithL1], with
    the orientation the root had and a sanity check scheduled. *)
Lemma S1_ok :
  ItemContainer.insertItem 1 900 Scenario.emptyRoot
    (Scenario.newLeaf 101 Scenario.host) Location_OnLeft Fair AddingOption_None
  = inr (Scenario.rootWithL1 Scenario.host true true, []).
Proof. vm_compute. reflexivity. Qed.

(** Claim C1. From the root at (0,0,1000,600) that holds the visible leaf L1
    (minimum size 80x90) over its whole rectangle, whichever orientation the
    root had, inserting the leaf L2 at [Location_OnRight] with [Fair] returns
    without a warning; the root is then horizontal with the two visible
    children L1 at (0,0,498,600) and L2 at (503,0,497,600), and it has one
    separator, at x = 498 and 600 long; the separator thickness is 5, and the
    layout passes [checkSanity]. The new item gets the fair share
    (1000 - 5) / 2 = 497, so it is L1 that keeps 498. *)
Theorem insert_right_fair_geometries (fuel : nat) (vertical scheduled : bool) :
  exists root' : Item,
    ItemContainer.insertItem (S fuel) 900
      (Scenario.rootWithL1 Scenario.host vertical scheduled)
      (Scenario.L2 Scenario.host) Location_OnRight Fair AddingOption_None
    = inr (root', [])
    /\ map (fun c => (Item.ptr c, Item.isVisible false c, Item.geometry c))
         (ItemContainer.m_children root')
       = [(101, true, QRect.make 0 0 498 600); (102, true, QRect.make 503 0 497 600)]
    /\ ItemContainer.orientation root' = Horizontal
    /\ map sep_position (ItemContainer.separators root') = [498]
    /\ map sep_length (ItemContainer.separators root') = [600]
    /\ Layouting.separatorThickness = 5
    /\ ItemContainer.checkSanity [] root' = true.
Proof.
  destruct vertical, scheduled; eexists; (split; [vm_compute; reflexivity|]);
    vm_compute; repeat split; reflexivity.
Qed.

(** Counterexample to C1 as the specification words it: after the insertion
    the geometries are not (0,0,497,600) and (502,0,498,600), and the
    separator is not at x = 497. *)
Lemma insert_right_fair_not_as_claimed :
  exists root' : Item,
    ItemContainer.insertItem 1 900 (Scenario.rootWithL1 Scenario.host true false)
      (Scenario.L2 Scenario.host) Location_OnRight Fair AddingOption_None
    = inr (root', [])
    /\ map Item.geometry (ItemContainer.m_children root')
       <> [QRect.make 0 0 497 600; QRect.make 502 0 498 600]
    /\ map sep_position (ItemContainer.separators root') <> [497].
Proof.
  eexists. split; [vm_compute; reflexivity|].
  split; vm_compute; discriminate.
Qed.

(** The layout that C2 describes (L1 497 wide, separator at 497, L2 498 wide)
    passes [checkSanity]. *)
Lemma sideBySide_497_sane : ItemContainer.checkSanity [] (Scenario.sideBySide 497) = true.
Proof. vm_compute. reflexivity. Qed.

(** Claim C2. In the layout of S2 with L1 497 wide (minimum 80), the
    separator at 497 and L2 498 wide, the least position the separator may
    take is 80. A request to move it by -450 would put it at 47: the request
    is refused as a whole, the warning is logged and the layout comes back as
    it was (the same happens in the layout that the insertion of S2 really
    leaves, with L1 498 wide). Only a request that stays within the bounds is
    applied: -417 leaves L1 at (0,0,80,600), the separator at 80 and L2 at
    (85,0,915,600). *)
Theorem requestSeparatorMove_beyond_min_refused (hops fuel : nat) :
  ItemContainer.minPosForSeparator_global (Scenario.sideBySide 497) [] (Some O)
  = inr (80, [])
  /\ ItemContainer.requestSeparatorMove hops fuel (Scenario.sideBySide 497) []
       (Some O) (-450)
     = inr (Scenario.sideBySide 497, ["Separator would have gone out of bounds"%string])
  /\ ItemContainer.requestSeparatorMove hops fuel (Scenario.sideBySide 498) []
       (Some O) (-450)
     = inr (Scenario.sideBySide 498, ["Separator would have gone out of bounds"%string])
  /\ exists root' : Item,
       ItemContainer.requestSeparatorMove hops (S fuel) (Scenario.sideBySide 497) []
         (Some O) (-417)
       = inr (root', [])
       /\ map Item.geometry (ItemContainer.m_children root')
          = [QRect.make 0 0 80 600; QRect.make 85 0 915 600]
       /\ map sep_position (ItemContainer.separators root') = [80].
Proof.
  split; [vm_compute; reflexivity|].
  split; [destruct hops; vm_compute; reflexivity|].
  split; [destruct hops; vm_compute; reflexivity|].
  eexists. split; [destruct hops; vm_compute; reflexivity|].
  split; vm_compute; reflexivity.
Qed.

(** Counterexample to C2 as the specification words it: after the request
    for -450 the widths are still 497 and 498, not 80 and 915, and the
    separator has not gone to 80. *)
Lemma requestSeparatorMove_beyond_min_moves_nothing :
  exists root' : Item,
    Exec.value (ItemContainer.requestSeparatorMove 1 1 (Scenario.sideBySide 497) []
                  (Some O) (-450)) = Some root'
    /\ map Item.width (ItemContainer.m_children root') = [497; 498]
    /\ map Item.width (ItemContainer.m_children root') <> [80; 915]
    /\ map sep_position (ItemContainer.separators root') <> [80].
Proof.
  eexists. split; [vm_compute; reflexivity|].
  split; [vm_compute; reflexivity|].
  split; vm_compute; discriminate.
Qed.

(** ** Inserting an item twice *)

(** S3: inserting L2 to the right of L1 and then L3 below gives [nested]. *)
Lemma S3_ok :
  exists root2,
    ItemContainer.insertItem 1 900 (Scenario.rootWithL1 Scenario.host true true)
      (Scenario.L2 Scenario.host) Location_OnRight Fair AddingOption_None
    = inr (root2, [])
    /\ ItemContainer.insertItem 3 900 root2 Scenario.L3 Location_OnBottom Fair
         AddingOption_None
       = inr (Scenario.nested, []).
Proof. eexists. split; [vm_compute; reflexivity|]. vm_compute. reflexivity. Qed.

(** The layout of S3 passes [checkSanity]. *)
Lemma nested_sane : ItemContainer.checkSanity [] Scenario.nested = true.
Proof. vm_compute; reflexivity. Qed.



(** ** A separator move that passes a null separator on *)

(** The nest of three horizontal containers passes [checkSanity]. *)
Lemma sameOrientationNest_sane :
  ItemContainer.checkSanity [] Scenario.sameOrientationNest = true.
Proof. vm_compute; reflexivity. Qed.

(** Claim C9 fails in the source. In [sameOrientationNest], a layout that
    passes [checkSanity], the separator of C stands at 285 and may go down to
    165 according to [minPosForSeparator_global], which counts the space of
    X in the root. A request to move it by -50 passes the bounds check; Y is
    at its minimum, so all of the move is left to propagate; C is the first
    child of P and P has the orientation of the move, so [neighbourSeparator]
    stops at P and answers null, and the call through that pointer
    dereferences null. *)
Theorem requestSeparatorMove_dereferences_null (hops fuel : nat) :
  ItemContainer.checkSanity [] Scenario.sameOrientationNest = true
  /\ (exists (C P R : Item),
        ItemContainer.locate Scenario.sameOrientationNest [] [1%nat; O] = Some (C, [P; R])
        /\ ItemContainer.minPosForSeparator_global C [P; R] (Some O) = inr (165, [])
        /\ ItemContainer.separatorPosition C 0 = inr (285, [])
        /\ ItemContainer.maxPosForSeparator_global C [P; R] (Some O) = inr (830, [])
        /\ ItemContainer.neighbourSeparator P [R] (Item.ptr C) Side1
             (ItemContainer.orientation C) = None)
  /\ ItemContainer.requestSeparatorMove hops fuel Scenario.sameOrientationNest
       [1%nat; O] (Some O) (-50)
     = inl NullDereference.
Proof.
  split; [vm_compute; reflexivity|]. split.
  - do 3 eexists. split; [vm_compute; reflexivity|].
    repeat split; vm_compute; reflexivity.
  - destruct hops; vm_compute; reflexivity.
Qed.

(** ** What stays the same when only percentages and separators change *)

Lemma Akin_refl (c : Item) : Akin c c.
Proof. constructor; reflexivity. Qed.

Lemma Akin_trans (a b c : Item) : Akin a b -> Akin b c -> Akin a c.
Proof.
  intros H1 H2. constructor.
  - rewrite (akin_geometry H2). apply (akin_geometry H1).
  - rewrite (akin_inserted H2). apply (akin_inserted H1).
  - rewrite (akin_visible H2). apply (akin_visible H1).
Qed.

Lemma Akin_setPercentage (p : float) (c : Item) : Akin c (Item.setPercentage p c).
Proof.
  destruct c; constructor; reflexivity.
Qed.

Lemma Akin_listed (c c' : Item) (b : bool) :
  Akin c c' -> ItemContainer.isListedVisible b c' = ItemContainer.isListedVisible b c.
Proof.
  intros H. unfold ItemContainer.isListedVisible.
  rewrite (akin_visible H), (akin_inserted H). reflexivity.
Qed.

Lemma Forall2_Akin_refl (l : list Item) : Forall2 Akin l l.
Proof. induction l; constructor; auto using Akin_refl. Qed.

Lemma Forall2_Akin_trans (l1 l2 l3 : list Item) :
  Forall2 Akin l1 l2 -> Forall2 Akin l2 l3 -> Forall2 Akin l1 l3.
Proof.
  intros H. revert l3. induction H; intros l3 H3; inversion H3; subst; constructor.
  - eapply Akin_trans; eassumption.
  - auto.
Qed.

Lemma Forall2_Akin_existsb (l l' : list Item) :
  Forall2 Akin l l' ->
  existsb (Item.isVisible false) l' = existsb (Item.isVisible false) l.
Proof.
  induction 1 as [|a b l l' H _ IH]; simpl; [reflexivity|].
  rewrite IH, (akin_visible H). reflexivity.
Qed.

Lemma Forall2_Akin_filter (l l' : list Item) :
  Forall2 Akin l l' ->
  Forall2 Akin (filter (Item.isVisible false) l) (filter (Item.isVisible false) l').
Proof.
  induction 1 as [|a b l l' H _ IH]; simpl; [constructor|].
  rewrite (akin_visible H). destruct (Item.isVisible false a); [constructor|]; auto.
Qed.

Lemma Forall2_Akin_map (g : Item -> Item) (l : list Item) :
  (forall a, Akin a (g a)) -> Forall2 Akin l (map g l).
Proof.
  intros Hg. induction l; simpl; constructor; auto.
Qed.

Lemma Akin_of_data (this this' : Item) :
  Item.data this' = Item.data this ->
  Item.isContainer this' = Item.isContainer this ->
  Forall2 Akin (ItemContainer.m_children this) (ItemContainer.m_children this') ->
  Akin this this'.
Proof.
  intros Hd Hc Hcs.
  constructor; unfold Item.ptr, Item.sizingInfo, Item.isBeingInserted, Item.sizingInfo,
                 Item.hostWidget; try (rewrite Hd; reflexivity); try exact Hc.
  destruct this as [d|d c cs], this' as [d'|d' c' cs']; simpl in *; try discriminate.
  - rewrite Hd. reflexivity.
  - apply Forall2_Akin_existsb. exact Hcs.
Qed.

Lemma numVisibleChildren_Akin (this this' : Item) :
  Forall2 Akin (ItemContainer.m_children this) (ItemContainer.m_children this') ->
  ItemContainer.numVisibleChildren this' = ItemContainer.numVisibleChildren this.
Proof.
  intros H. unfold ItemContainer.numVisibleChildren, QVector.count.
  rewrite (Forall2_length_eq _ _ _ (Forall2_Akin_filter _ _ H)). reflexivity.
Qed.

Lemma Forall2_listed_count (l l' : list Item) :
  Forall2 Akin l l' ->
  QVector.count (filter (ItemContainer.isListedVisible false) l')
  = QVector.count (filter (ItemContainer.isListedVisible false) l).
Proof.
  unfold QVector.count.
  induction 1 as [|a b l l' H _ IH]; cbn [filter]; [reflexivity|].
  rewrite (Akin_listed a b false H).
  destruct (ItemContainer.isListedVisible false a); cbn [List.length]; lia.
Qed.

(** ** The separator positions a container requires *)

Lemma requiredLoop_spec (this : Item) (ancestors : list Item) (n : Z) :
  forall children positions,
    QVector.count positions <= n ->
    ItemContainer.requiredSeparatorPositionsLoop this ancestors n children positions
    = positions
      ++ firstn (Z.to_nat (n - QVector.count positions))
           (map (wantedPosition this ancestors)
              (filter (Item.isVisible false) children)).
Proof.
  induction children as [|item rest IH]; intros positions Hle; simpl.
  - rewrite firstn_nil, app_nil_r. reflexivity.
  - destruct (QVector.count positions =? n) eqn:E.
    + apply Z.eqb_eq in E. rewrite E, Z.sub_diag. simpl.
      rewrite app_nil_r. reflexivity.
    + apply Z.eqb_neq in E.
      destruct (Item.isVisible false item) eqn:V.
      * rewrite IH.
        2:{ unfold QVector.count in *. rewrite length_app. simpl. lia. }
        rewrite <- app_assoc. simpl. f_equal.
        replace (Z.to_nat (n - QVector.count positions))
          with (S (Z.to_nat (n - QVector.count
                                   (positions ++ [wantedPosition this ancestors item])))).
        2:{ unfold QVector.count in *. rewrite length_app. simpl. lia. }
        reflexivity.
      * apply IH. exact Hle.
Qed.

Lemma required_spec (this : Item) (ancestors : list Item) :
  ItemContainer.requiredSeparatorPositions this ancestors
  = firstn (Z.to_nat (Z.max 0 (ItemContainer.numVisibleChildren this - 1)))
      (map (wantedPosition this ancestors)
         (filter (Item.isVisible false) (ItemContainer.m_children this))).
Proof.
  unfold ItemContainer.requiredSeparatorPositions.
  rewrite requiredLoop_spec by (unfold QVector.count; simpl; lia).
  simpl. rewrite Z.sub_0_r. reflexivity.
Qed.

Lemma required_count (this : Item) (ancestors : list Item) :
  QVector.count (ItemContainer.requiredSeparatorPositions this ancestors)
  = Z.max 0 (ItemContainer.numVisibleChildren this - 1).
Proof.
  rewrite required_spec. unfold QVector.count, ItemContainer.numVisibleChildren.
  rewrite length_firstn, length_map. unfold QVector.count. lia.
Qed.

Lemma required_nth (this : Item) (ancestors : list Item) (i : nat) (p : Z) :
  nth_error (ItemContainer.requiredSeparatorPositions this ancestors) i = Some p ->
  exists child,
    nth_error (filter (Item.isVisible false) (ItemContainer.m_children this)) i
    = Some child
    /\ p = wantedPosition this ancestors child.
Proof.
  rewrite required_spec. intros H.
  assert (Hi : (i < Z.to_nat (Z.max 0 (ItemContainer.numVisibleChildren this - 1)))%nat).
  { assert (Hb : nth_error
                     (firstn (Z.to_nat (Z.max 0 (ItemContainer.numVisibleChildren this - 1)))
                        (map (wantedPosition this ancestors)
                           (filter (Item.isVisible false) (ItemContainer.m_children this))))
                     i <> None) by (rewrite H; discriminate).
    apply nth_error_Some in Hb. rewrite length_firstn in Hb. lia. }
  rewrite nth_error_firstn in H.
  destruct (Nat.ltb i (Z.to_nat (Z.max 0 (ItemContainer.numVisibleChildren this - 1))))
    eqn:E; [|apply Nat.ltb_ge in E; lia].
  rewrite nth_error_map in H.
  destruct (nth_error (filter (Item.isVisible false) (ItemContainer.m_children this)) i)
    as [child|]; [|discriminate].
  injection H as <-. eauto.
Qed.

Lemma reconcile_length (o : Orientation) (positions : list Z) :
  forall current,
    List.length (ItemContainer.reconcileSeparators o positions current)
    = List.length positions.
Proof.
  induction positions as [|p ps IH]; intros current; simpl; [reflexivity|].
  destruct (ItemContainer.separatorAt current p); simpl; rewrite IH; reflexivity.
Qed.

Lemma placeSeparators_spec (pos2 len : Z) (positions : list Z) :
  forall separators,
    List.length separators = List.length positions ->
    exists placed,
      ItemContainer.placeSeparators positions pos2 len separators = inr (placed, [])
      /\ map sep_position placed = positions.
Proof.
  induction positions as [|p ps IH]; intros [|s ss] Hlen; simpl in *; try discriminate.
  - exists []. auto.
  - injection Hlen as Hlen. destruct (IH ss Hlen) as (placed & Hp & Hm).
    rewrite Hp. eexists. split; [reflexivity|]. simpl. rewrite Hm. reflexivity.
Qed.

(** ** The effect of one [updateSeparators] *)

Lemma updateChildPercentages_run (this : Item) :
  ItemContainer.updateChildPercentages this
  = inr (percentagesWritten this, invalidPercentages this).
Proof.
  unfold ItemContainer.updateChildPercentages, percentagesWritten, invalidPercentages.
  destruct (m_blockUpdatePercentages (ItemContainer.cdata this)); [reflexivity|].
  rewrite (mapM_run _
             (fun item =>
                if Item.isVisible false item && negb (Item.isBeingInserted item)
                then
                  Item.setPercentage
                    (Double.ratio (Item.length item (ItemContainer.orientation this))
                       (ItemContainer.usableLength this)) item
                else Item.setPercentage 0%float item)
             (fun item =>
                if Item.isVisible false item && negb (Item.isBeingInserted item)
                then
                  if Double.qFuzzyIsNull
                       (Double.ratio
                          (Item.length item (ItemContainer.orientation this))
                          (ItemContainer.usableLength this))
                     || PrimFloat.ltb 1%float
                          (Double.ratio
                             (Item.length item (ItemContainer.orientation this))
                             (ItemContainer.usableLength this))
                  then ["Invalid percentage"%string] else []
                else [])).
  - rewrite bind_inr_ret. reflexivity.
  - intros item.
    destruct (Item.isVisible false item && negb (Item.isBeingInserted item));
      [|reflexivity].
    cbv zeta. destruct (_ || _); reflexivity.
Qed.

Lemma invalidPercentages_only (this : Item) :
  OnlyInvalidPercentages (invalidPercentages this).
Proof.
  unfold OnlyInvalidPercentages, invalidPercentages.
  destruct (m_blockUpdatePercentages (ItemContainer.cdata this)); [constructor|].
  apply Forall_forall. intros msg Hin. apply in_flat_map in Hin.
  destruct Hin as (item & _ & Hin).
  destruct (Item.isVisible false item && negb (Item.isBeingInserted item));
    [|contradiction].
  cbv zeta in Hin. destruct (_ || _); [|contradiction].
  destruct Hin as [<-|[]]. reflexivity.
Qed.

Lemma updateChildPercentages_effect (this : Item) :
  Item.data (percentagesWritten this) = Item.data this
  /\ ItemContainer.cdata (percentagesWritten this)
     = ItemContainer.cdata this
  /\ Item.isContainer (percentagesWritten this)
     = Item.isContainer this
  /\ Forall2 Akin (ItemContainer.m_children this)
       (ItemContainer.m_children (percentagesWritten this)).
Proof.
  unfold percentagesWritten.
  destruct (m_blockUpdatePercentages (ItemContainer.cdata this)).
  - repeat split. apply Forall2_Akin_refl.
  - destruct this as [d|d c cs]; simpl.
    + repeat split. constructor.
    + repeat split.
      apply Forall2_Akin_map. intros a.
      destruct (Item.isVisible false a && negb (Item.isBeingInserted a));
        apply Akin_setPercentage.
Qed.

Lemma updateSeparators_effect (ancestors : list Item) (this this1 : Item)
  (w : list string) :
  ItemContainer.updateSeparators ancestors this = inr (this1, w) ->
  OnlyInvalidPercentages w
  /\ Item.data this1 = Item.data this
  /\ Item.isContainer this1 = Item.isContainer this
  /\ ItemContainer.orientation this1 = ItemContainer.orientation this
  /\ Forall2 Akin (ItemContainer.m_children this) (ItemContainer.m_children this1)
  /\ (Item.hostWidget this <> None ->
      map sep_position (ItemContainer.separators this1)
      = ItemContainer.requiredSeparatorPositions this ancestors).
Proof.
  unfold ItemContainer.updateSeparators.
  destruct (Item.hostWidget this) as [h|] eqn:Hh.
  - set (positions := ItemContainer.requiredSeparatorPositions this ancestors).
    set (current :=
           if negb (QVector.count positions =? QVector.count (ItemContainer.separators this))
           then ItemContainer.reconcileSeparators (ItemContainer.orientation this)
                  positions (ItemContainer.separators this)
           else ItemContainer.separators this).
    assert (Hlen : List.length current = List.length positions).
    { unfold current.
      destruct (QVector.count positions =? QVector.count (ItemContainer.separators this))
        eqn:E; simpl.
      - apply Z.eqb_eq in E. unfold QVector.count in E. lia.
      - apply reconcile_length. }
    set (pos2 := if ItemContainer.isVertical this
                 then px (Item.mapToRoot this ancestors QPoint.origin)
                 else py (Item.mapToRoot this ancestors QPoint.origin)).
    destruct (placeSeparators_spec pos2 (ItemContainer.oppositeLength this)
                positions current Hlen) as (placed & Hp & Hm).
    rewrite Hp, bind_pure, updateChildPercentages_run. intros H. injection H as <- <-.
    destruct (updateChildPercentages_effect (ItemContainer.withSeparators placed this))
      as (E1 & E2 & E3 & E4).
    split; [apply invalidPercentages_only|].
    destruct this as [d|d c cs].
    + simpl in *. repeat split; auto.
    + split; [exact E1|]. split; [exact E3|].
      split; [unfold ItemContainer.orientation; rewrite E2; reflexivity|].
      split; [exact E4|].
      intros _. unfold ItemContainer.separators. rewrite E2. exact Hm.
  - intros H. injection H as <- <-. split; [constructor|]. repeat split.
    + apply Forall2_Akin_refl.
    + intros Hc. contradiction.
Qed.

Lemma updateSeparators_total (ancestors : list Item) (this : Item) :
  exists this1 w,
    ItemContainer.updateSeparators ancestors this = inr (this1, w)
    /\ OnlyInvalidPercentages w
    /\ (this1 = this
        \/ exists placed,
             this1 = percentagesWritten
                       (ItemContainer.withSeparators placed this)).
Proof.
  unfold ItemContainer.updateSeparators.
  destruct (Item.hostWidget this) as [h|].
  - set (positions := ItemContainer.requiredSeparatorPositions this ancestors).
    set (current :=
           if negb (QVector.count positions =? QVector.count (ItemContainer.separators this))
           then ItemContainer.reconcileSeparators (ItemContainer.orientation this)
                  positions (ItemContainer.separators this)
           else ItemContainer.separators this).
    assert (Hlen : List.length current = List.length positions).
    { unfold current.
      destruct (QVector.count positions =? QVector.count (ItemContainer.separators this))
        eqn:E; cbn [negb].
      - apply Z.eqb_eq in E. unfold QVector.count in E. lia.
      - apply reconcile_length. }
    set (pos2 := if ItemContainer.isVertical this
                 then px (Item.mapToRoot this ancestors QPoint.origin)
                 else py (Item.mapToRoot this ancestors QPoint.origin)).
    destruct (placeSeparators_spec pos2 (ItemContainer.oppositeLength this)
                positions current Hlen) as (placed & Hp & _).
    rewrite Hp, bind_pure, updateChildPercentages_run. eexists _, _.
    split; [reflexivity|]. split; [apply invalidPercentages_only|]. right. eauto.
  - exists this, []. split; [reflexivity|]. split; [constructor|]. left. reflexivity.
Qed.

(** ** Mapping to the root only reads positions *)

Lemma mapToRoot_congr (ancestors ancestors' : list Item) :
  map Item.pos ancestors = map Item.pos ancestors' ->
  forall this this' p,
    Item.pos this = Item.pos this' ->
    Item.mapToRoot this ancestors p = Item.mapToRoot this' ancestors' p.
Proof.
  revert ancestors'.
  induction ancestors as [|a up IH]; intros [|a' up'] Hm this this' p Hp;
    try discriminate; [reflexivity|].
  assert (Ha : Item.pos a = Item.pos a')
    by (exact (f_equal (hd QPoint.origin) Hm)).
  assert (Hup : map Item.pos up = map Item.pos up')
    by (exact (f_equal (@tl _) Hm)).
  change (QPoint.add p (Item.mapToRoot a up (Item.pos this))
          = QPoint.add p (Item.mapToRoot a' up' (Item.pos this'))).
  rewrite Hp. f_equal. apply IH; [exact Hup|exact Ha].
Qed.

Lemma wantedPosition_congr (this this' : Item) (ancestors ancestors' : list Item)
  (child child' : Item) :
  map Item.pos ancestors = map Item.pos ancestors' ->
  Item.pos this = Item.pos this' ->
  ItemContainer.orientation this = ItemContainer.orientation this' ->
  geometry (Item.sizingInfo child) = geometry (Item.sizingInfo child') ->
  wantedPosition this ancestors child = wantedPosition this' ancestors' child'.
Proof.
  intros Hm Hp Ho Hg. unfold wantedPosition, Item.mapToRoot1, SizingInfo.edge.
  rewrite Ho, Hg.
  rewrite !(mapToRoot_congr ancestors ancestors' Hm this this' _ Hp). reflexivity.
Qed.

Lemma data_pos (a b : Item) : Item.data a = Item.data b -> Item.pos a = Item.pos b.
Proof.
  intros H. unfold Item.pos, Item.sizingInfo. rewrite H. reflexivity.
Qed.

Lemma SeparatorsDerived_congr (ancestors : list Item) (this : Item) :
  Invariant.SeparatorsDerived ancestors this ->
  forall ancestors',
    map Item.pos ancestors = map Item.pos ancestors' ->
    Invariant.SeparatorsDerived ancestors' this.
Proof.
  induction 1 as [anc d|anc d c cs Hplace Hchildren IH]; intros anc' Hm.
  - constructor.
  - constructor.
    + intros Hh. destruct (Hplace Hh) as [Hcount Hpos]. split; [exact Hcount|].
      intros i separator Hi. destruct (Hpos i separator Hi) as (child & Hc & Hp).
      exists child. split; [exact Hc|]. rewrite Hp.
      apply wantedPosition_congr; auto.
    + intros item Hin Hl. apply IH; auto. simpl. rewrite Hm. reflexivity.
Qed.

Lemma separatorsInPlace_intro (ancestors : list Item) (this this' : Item) :
  Item.data this' = Item.data this ->
  ItemContainer.orientation this' = ItemContainer.orientation this ->
  Forall2 Akin (ItemContainer.m_children this) (ItemContainer.m_children this') ->
  map sep_position (ItemContainer.separators this')
  = ItemContainer.requiredSeparatorPositions this ancestors ->
  Invariant.separatorsInPlace ancestors this'.
Proof.
  intros Hd Ho Hcs Hs. split.
  - rewrite (numVisibleChildren_Akin this this' Hcs).
    rewrite <- required_count with (ancestors := ancestors), <- Hs.
    unfold QVector.count. rewrite length_map. reflexivity.
  - intros i separator Hi.
    assert (Hp : nth_error (ItemContainer.requiredSeparatorPositions this ancestors) i
                 = Some (sep_position separator)).
    { rewrite <- Hs, nth_error_map, Hi. reflexivity. }
    destruct (required_nth this ancestors i _ Hp) as (child & Hc & Hw).
    destruct (Forall2_nth_error _ _ _ (Forall2_Akin_filter _ _ Hcs) i _ Hc)
      as (child' & Hc' & Hk).
    exists child'. split; [exact Hc'|]. rewrite Hw.
    apply wantedPosition_congr.
    + reflexivity.
    + apply data_pos. symmetry. exact Hd.
    + symmetry. exact Ho.
    + symmetry. exact (akin_geometry Hk).
Qed.

Lemma separatorsInPlace_congr (ancestors : list Item) (this this' : Item) :
  Invariant.separatorsInPlace ancestors this ->
  Item.pos this' = Item.pos this ->
  ItemContainer.orientation this' = ItemContainer.orientation this ->
  ItemContainer.separators this' = ItemContainer.separators this ->
  ItemContainer.m_children this' = ItemContainer.m_children this ->
  Invariant.separatorsInPlace ancestors this'.
Proof.
  intros [Hcount Hpos] Hp Ho Hs Hc. split.
  - unfold ItemContainer.numVisibleChildren. rewrite Hs, Hc. exact Hcount.
  - intros i separator Hi. rewrite Hs in Hi. rewrite Hc.
    destruct (Hpos i separator Hi) as (child & Hchild & Hw).
    exists child. split; [exact Hchild|]. rewrite Hw.
    apply wantedPosition_congr; auto.
Qed.

(** ** [updateSeparators_recursive] puts the separators in place *)

(** Whatever the separators were, [updateSeparators_recursive] leaves them
    in place in every container it visits, and changes nothing that a parent
    reads of a child. *)
Lemma updateSeparators_recursive_establishes (fuel : nat) :
  forall (ancestors : list Item) (this this' : Item) (w : list string),
    ItemContainer.updateSeparators_recursive fuel ancestors this = inr (this', w) ->
    Item.data this' = Item.data this
    /\ Item.isContainer this' = Item.isContainer this
    /\ ItemContainer.orientation this' = ItemContainer.orientation this
    /\ Forall2 Akin (ItemContainer.m_children this) (ItemContainer.m_children this')
    /\ Invariant.SeparatorsDerived ancestors this'.
Proof.
  induction fuel as [|fuel IH]; intros ancestors this this' w H; [discriminate|].
  simpl in H.
  apply bind_inr in H. destruct H as (this1 & w1 & w2 & H1 & H & _).
  apply bind_inr in H. destruct H as (children & w3 & w4 & Hm & H & _).
  injection H as <- <-.
  apply updateSeparators_effect in H1.
  destruct H1 as (_ & Hd & Hc & Ho & Hcs & Hs).
  apply mapM_inr in Hm.
  assert (Hstep :
            Forall2 (fun a b =>
                       Akin a b
                       /\ (ItemContainer.isListedVisible false b = true ->
                           Invariant.SeparatorsDerived (this1 :: ancestors) b))
              (ItemContainer.m_children this1) children).
  { eapply Forall2_impl; [|exact Hm].
    intros a b (w' & Hf).
    change (Item.isVisible false a && negb (Item.isBeingInserted a))
      with (ItemContainer.isListedVisible false a) in Hf.
    destruct (ItemContainer.isListedVisible false a && Item.isContainer a) eqn:E.
    - apply IH in Hf. destruct Hf as (Hd' & Hc' & _ & Hcs' & Hder).
      split; [apply Akin_of_data; assumption|]. intros _. exact Hder.
    - injection Hf as <- <-. split; [apply Akin_refl|].
      intros Hl. rewrite Hl in E. destruct a as [d|d c cs]; [constructor|discriminate]. }
  assert (Hk : Forall2 Akin (ItemContainer.m_children this1) children).
  { eapply Forall2_impl; [|exact Hstep]. intros a b [Ha _]. exact Ha. }
  destruct this as [d|d c cs].
  - destruct this1 as [d1|d1 c1 cs1]; [|discriminate]. simpl in *.
    inversion Hcs; subst. inversion Hk; subst.
    repeat split; auto; constructor.
  - destruct this1 as [d1|d1 c1 cs1]; [discriminate|]. simpl in Hd, Ho, Hcs, Hk, Hstep.
    change (ItemContainer.withChildren children (Container d1 c1 cs1))
      with (Container d1 c1 children).
    assert (Hall : Forall2 Akin cs children)
      by (eapply Forall2_Akin_trans; eassumption).
    split; [exact Hd|]. split; [reflexivity|]. split; [exact Ho|].
    split; [exact Hall|].
    constructor.
    + intros Hh.
      apply separatorsInPlace_intro with (this := Container d c cs).
      * exact Hd.
      * exact Ho.
      * exact Hall.
      * apply Hs. unfold Item.hostWidget in *. simpl in *. rewrite <- Hd. exact Hh.
    + intros item Hin Hl.
      destruct (Forall2_In_r _ _ _ Hstep item Hin) as (a & _ & _ & Hder).
      apply SeparatorsDerived_congr with (ancestors := Container d1 c1 cs1 :: ancestors).
      * apply Hder. exact Hl.
      * reflexivity.
Qed.

Lemma SeparatorsDerived_scheduleCheckSanity (ancestors : list Item) (this : Item) :
  Invariant.SeparatorsDerived ancestors this ->
  Invariant.SeparatorsDerived ancestors (ItemContainer.scheduleCheckSanity this).
Proof.
  intros H. unfold ItemContainer.scheduleCheckSanity.
  destruct (m_checkSanityScheduled (ItemContainer.cdata this)); [exact H|].
  inversion H as [anc d|anc d c cs Hplace Hchildren]; subst; [constructor|].
  set (c' := mkContainerData (m_orientation c) (m_separators c)
               (m_blockUpdatePercentages c) (m_isDeserializing c)
               (m_convertingItemToContainer c) true).
  change (Invariant.SeparatorsDerived ancestors (Container d c' cs)).
  constructor.
  - intros Hh.
    apply separatorsInPlace_congr with (this := Container d c cs);
      [exact (Hplace Hh)|reflexivity..].
  - intros item Hin Hl.
    apply SeparatorsDerived_congr with (ancestors := Container d c cs :: ancestors).
    + apply Hchildren; assumption.
    + reflexivity.
Qed.

Lemma insertItem_ends_with_updateSeparators (fuel : nat) (address : Z)
  (this item : Item) (loc : Location) (mode : DefaultSizeMode) (option : AddingOption)
  (this' : Item) (w : list string) :
  ItemContainer.insertItem fuel address this item loc mode option = inr (this', w) ->
  (ItemContainer.contains this (Item.ptr item) = true /\ this' = this)
  \/ exists inserted this2 w',
       ItemContainer.updateSeparators_recursive fuel [] inserted = inr (this2, w')
       /\ this' = ItemContainer.scheduleCheckSanity this2.
Proof.
  intros H.
  destruct fuel as [|fuel]; cbn [ItemContainer.insertItem] in H;
    destruct (ItemContainer.contains this (Item.ptr item)) eqn:E;
    try (destruct (ItemContainer.contains_recursive this (Item.ptr item));
         [discriminate|]).
  - left. split; [reflexivity|]. vm_compute in H. congruence.
  - apply bind_inr in H. destruct H as (inserted & w1 & w2 & _ & H & _).
    apply bind_inr in H. destruct H as (this2 & w3 & w4 & H2 & _). discriminate.
  - left. split; [reflexivity|]. vm_compute in H. congruence.
  - right. apply bind_inr in H. destruct H as (inserted & w1 & w2 & _ & H & _).
    apply bind_inr in H. destruct H as (this2 & w3 & w4 & H2 & H & _).
    unfold Exec.ret in H. injection H as <- _.
    exists inserted, this2, w3. split; [exact H2|reflexivity].
Qed.

(** ** Serialization: reading back what was written *)

Lemma mapToRect_rectToMap (r : QRect) :
  Serialization.mapToRect (Serialization.rectToMap r) = r.
Proof.
  destruct r as [a b c d]. unfold Serialization.mapToRect, Serialization.rectToMap.
  cbn. unfold QRect.make, QRect.width, QRect.height, QRect.x, QRect.y. cbn.
  f_equal; lia.
Qed.

Lemma mapToSize_sizeToMap (sz : QSize) :
  Serialization.mapToSize (Serialization.sizeToMap sz) = sz.
Proof. destruct sz. reflexivity. Qed.

Lemma SizingInfo_roundtrip (s : SizingInfo) :
  Serialization.SizingInfo_fromVariantMap (Serialization.SizingInfo_toVariantMap s)
  = mkSizingInfo (geometry s) (minSize s) (maxSize s)
      (percentageWithinParent SizingInfo.default) (isBeingInserted SizingInfo.default).
Proof.
  unfold Serialization.SizingInfo_fromVariantMap, Serialization.SizingInfo_toVariantMap.
  cbn [QVariantMap.insert QVariantMap.value QVariantMap.empty String.eqb Ascii.eqb
         Bool.eqb QVariant.toMap].
  rewrite mapToRect_rectToMap, !mapToSize_sizeToMap. reflexivity.
Qed.

Lemma toVariantMap_values (it : Item) :
  let m := Serialization.toVariantMap it in
  QVariantMap.value "sizingInfo" m
  = VMap (Serialization.SizingInfo_toVariantMap (Item.sizingInfo it))
  /\ QVariantMap.value "isVisible" m = VBool (m_isVisible (Item.data it))
  /\ QVariantMap.value "isContainer" m = VBool (Item.isContainer it)
  /\ QVariantMap.value "objectName" m = VString (objectName (Item.data it))
  /\ QVariantMap.value "guestId" m = guestIdOf it
  /\ QVariant.toList (QVariantMap.value "children" m)
     = map (fun child => VMap (Serialization.toVariantMap child))
         (ItemContainer.m_children it)
  /\ (Item.isContainer it = true ->
      QVariant.toInt (QVariantMap.value "orientation" m)
      = ItemContainer.orientation it).
Proof.
  destruct it as [d|d c cs];
    cbn [Serialization.toVariantMap];
    unfold Serialization.Item_toVariantMap, guestIdOf, Item.guest, Item.data;
    destruct (m_guest d) as [g|];
    cbn [QVariantMap.insert QVariantMap.value QVariantMap.empty String.eqb Ascii.eqb
           Bool.eqb QVariant.toList QVariant.toInt Item.isContainer
           ItemContainer.m_children];
    repeat split; try reflexivity; intros; discriminate.
Qed.

Lemma QSize_eqb_refl (a : QSize) : QSize.eqb a a = true.
Proof. unfold QSize.eqb. rewrite !Z.eqb_refl. reflexivity. Qed.

Lemma Item_fillFromVariantMap_spec (fuel : nat) (ancestors : list Item)
  (widgets : string -> option Guest) (src it : Item) (m : QVariantMap.t) :
  Invariant.guestInSync widgets (Item.data src) ->
  QVariantMap.value "sizingInfo" m
  = VMap (Serialization.SizingInfo_toVariantMap (Item.sizingInfo src)) ->
  QVariantMap.value "isVisible" m = VBool (m_isVisible (Item.data src)) ->
  QVariantMap.value "guestId" m = guestIdOf src ->
  exists it' w,
    Serialization.Item_fillFromVariantMap fuel ancestors widgets m it = inr (it', w)
    /\ FilledFrom src it it'.
Proof.
  intros Hsync Hs Hv Hg. unfold Serialization.Item_fillFromVariantMap.
  rewrite Hs, Hv, Hg. cbn [QVariant.toMap QVariant.toBool].
  rewrite SizingInfo_roundtrip.
  set (name := QVariant.toString (QVariantMap.value "objectName" m)).
  unfold guestIdOf, Item.guest.
  destruct (m_guest (Item.data src)) as [g|] eqn:G.
  - cbn [QVariant.toString].
    destruct (String.eqb (QVariant.number (guest_widget g)) "") eqn:E.
    + do 2 eexists. split; [reflexivity|].
      destruct it; constructor; reflexivity.
    + destruct (widgets (QVariant.number (guest_widget g))) as [g'|] eqn:W.
      * destruct (Hsync g g' G W) as [Hmin Hgeo].
        unfold Serialization.setGuest, Serialization.setMinSize.
        destruct it as [d0|d0 c0 cs0]; cbn -[Item.widgetMinSize QRect.isEmpty];
          rewrite Hmin, QSize_eqb_refl; cbn -[Item.widgetMinSize QRect.isEmpty];
          change (QRect.isEmpty (geometry (Item.sizingInfo src)) = false) in Hgeo;
          rewrite Hgeo.
        -- do 2 eexists. split; [reflexivity|].
           unfold Item.updateObjectName. cbn.
           destruct (String.eqb (widget_objectName g') ""); constructor; reflexivity.
        -- do 2 eexists. split; [reflexivity|]. constructor; reflexivity.
      * destruct it as [d0|d0 c0 cs0]; cbn; destruct (m_hostWidget d0) eqn:Hh;
          do 2 eexists; (split; [reflexivity|]); constructor;
          try reflexivity; unfold Item.hostWidget; cbn; congruence.
  - cbn. do 2 eexists. split; [reflexivity|].
    destruct it; constructor; reflexivity.
Qed.

Lemma fold_fillChild
  (fill : list Item -> Z -> QVariantMap.t -> Item -> Exec (Item * Z))
  (ancestors : list Item) (cs : list Item) :
  Forall (fun child =>
            forall parent address fresh,
              Blank child fresh ->
              exists made next w,
                fill (parent :: ancestors) address (Serialization.toVariantMap child) fresh
                = inr ((made, next), w)
                /\ Restored child made) cs ->
  forall d c l next w0,
  exists made next' w,
    fold_left (Serialization.fillChild fill ancestors)
      (map (fun child => VMap (Serialization.toVariantMap child)) cs)
      (inr ((Container d c l, next), w0))
    = inr ((Container d c (l ++ made), next'), w)
    /\ Forall2 Restored cs made.
Proof.
  induction 1 as [|child rest Hchild _ IH]; intros d c l next w0.
  - exists [], next, w0. rewrite app_nil_r. split; [reflexivity|constructor].
  - cbn [map fold_left].
    destruct (toVariantMap_values child) as (_ & _ & Hc & _).
    destruct (Hchild (Container d c l) (next + 1)
                (if Item.isContainer child
                 then ItemContainer.newContainer next
                        (Item.hostWidget (Container d c l))
                        (Some (Item.ptr (Container d c l)))
                 else Serialization.newItem next
                        (Item.hostWidget (Container d c l))
                        (Some (Item.ptr (Container d c l)))))
      as (made & next1 & w1 & Hfill & Hgood).
    { do 3 eexists. reflexivity. }
    assert (Hstep :
              Serialization.fillChild fill ancestors (inr ((Container d c l, next), w0))
                (VMap (Serialization.toVariantMap child))
              = inr ((Container d c (l ++ [made]), next1), w0 ++ w1)).
    { unfold Serialization.fillChild.
      apply bind_inr_eq. cbn [QVariant.toMap]. rewrite Hc. cbn [QVariant.toBool].
      rewrite Hfill. rewrite bind_inr_ret. reflexivity. }
    rewrite Hstep.
    destruct (IH d c (l ++ [made]) next1 (w0 ++ w1)) as (mades & next' & w & Hfold & Hall).
    exists (made :: mades), next', w. split.
    + rewrite Hfold. rewrite <- app_assoc. reflexivity.
    + constructor; assumption.
Qed.

Lemma fill_container_prefix (widgets : string -> option Guest) (fuel' : nat)
  (ancestors : list Item) (address : Z) (d : ItemData) (c : ContainerData)
  (cs : list Item) (a : Z) (h p : option Z) :
  Invariant.guestInSync widgets d ->
  Forall (fun child =>
            forall parent address fresh,
              Blank child fresh ->
              exists made next w,
                Serialization.fillFromVariantMap fuel' (parent :: ancestors) widgets
                  address (Serialization.toVariantMap child) fresh
                = inr ((made, next), w)
                /\ Restored child made) cs ->
  exists d1 c2 made next w,
    Serialization.fillFromVariantMap (S fuel') ancestors widgets address
      (Serialization.toVariantMap (Container d c cs))
      (ItemContainer.newContainer a h p)
    = Exec.bind (inr ((Container d1 c2 made, next), w))
        (fun filled : Item * Z =>
           let '(this3, next) := filled in
           Exec.bind
             (match ancestors with
              | [] => Serialization.finishRoot (S fuel') this3
              | _ :: _ => Exec.ret this3
              end)
             (fun this4 =>
                Exec.ret (ItemContainer.withIsDeserializing false this4, next)))
    /\ m_sizingInfo d1
       = mkSizingInfo (geometry (m_sizingInfo d)) (minSize (m_sizingInfo d))
           (maxSize (m_sizingInfo d)) (percentageWithinParent SizingInfo.default)
           (isBeingInserted SizingInfo.default)
    /\ m_isVisible d1 = m_isVisible d
    /\ m_hostWidget d1 = h
    /\ m_orientation c2 = m_orientation c
    /\ m_blockUpdatePercentages c2 = false
    /\ Forall2 Restored cs made.
Proof.
  intros Hsync Hchildren.
  destruct (toVariantMap_values (Container d c cs)) as (Hs & Hv & _ & _ & Hg & Hl & Ho).
  specialize (Ho eq_refl).
  destruct (Item_fillFromVariantMap_spec (S fuel') ancestors widgets (Container d c cs)
              (ItemContainer.withIsDeserializing true (ItemContainer.newContainer a h p))
              (Serialization.toVariantMap (Container d c cs)) Hsync Hs Hv Hg)
    as (this1 & w1 & Hfill & Hff).
  destruct Hff as [Hsz Hvis _ Hhost Hshape].
  set (d1 := Item.data this1) in *.
  cbn in Hshape.
  set (c1 := mkContainerData Vertical [] false true false false) in *.
  set (c2 := mkContainerData (m_orientation c) [] false true false false).
  destruct (fold_fillChild
              (fun childAncestors childAddress childMap child =>
                 Serialization.fillFromVariantMap fuel' childAncestors widgets
                   childAddress childMap child)
              ancestors cs Hchildren d1 c2 [] address [])
    as (made & next & w2 & Hfold & Hall).
  exists d1, c2, made, next, (w1 ++ w2).
  split; [|repeat split; try assumption; reflexivity].
  cbn [Serialization.fillFromVariantMap].
  rewrite Hfill.
    apply (bind_inr_inr this1 w1 w2
             (fun this1 =>
                fold_left
                  (Serialization.fillChild
                     (fun childAncestors childAddress childMap child =>
                        Serialization.fillFromVariantMap fuel' childAncestors widgets
                          childAddress childMap child)
                     ancestors)
                  (QVariant.toList
                     (QVariantMap.value "children"
                        (Serialization.toVariantMap (Container d c cs))))
                  (Exec.ret
                     (ItemContainer.withOrientation
                        (QVariant.toInt
                           (QVariantMap.value "orientation"
                              (Serialization.toVariantMap (Container d c cs))))
                        this1, address)))).
    rewrite Hl, Ho, Hshape. exact Hfold.
Qed.

Lemma levels_child (child : Item) (cs : list Item) :
  In child cs -> (Item.levels child <= list_max (map Item.levels cs))%nat.
Proof.
  induction cs as [|x xs IH]; intros Hin; [contradiction|].
  cbn [map list_max fold_right]. destruct Hin as [<-|Hin]; [lia|].
  specialize (IH Hin). unfold list_max in IH. lia.
Qed.

Lemma Forall2_Restored_layout (cs made : list Item) :
  Forall2 Restored cs made -> map Invariant.layout made = map Invariant.layout cs.
Proof.
  induction 1 as [|x y l l' [H _] _ IH]; cbn [map]; [reflexivity|].
  rewrite H, IH. reflexivity.
Qed.

Lemma Forall2_Restored_unblocked (cs made : list Item) :
  Forall2 Restored cs made ->
  forall child, In child made -> Unblocked child /\ Invariant.NoneBeingInserted child.
Proof.
  induction 1 as [|x y l l' (_ & H & H') _ IH]; intros child Hin; [contradiction|].
  destruct Hin as [<-|Hin]; auto.
Qed.

Lemma restored_container (d d1 : ItemData) (c c2 : ContainerData) (cs made : list Item)
  (b : bool) :
  m_sizingInfo d1
  = mkSizingInfo (geometry (m_sizingInfo d)) (minSize (m_sizingInfo d))
      (maxSize (m_sizingInfo d)) (percentageWithinParent SizingInfo.default)
      (isBeingInserted SizingInfo.default) ->
  m_isVisible d1 = m_isVisible d ->
  m_orientation c2 = m_orientation c ->
  m_blockUpdatePercentages c2 = false ->
  Forall2 Restored cs made ->
  Restored (Container d c cs)
    (ItemContainer.withIsDeserializing b (Container d1 c2 made)).
Proof.
  intros Hsz Hvis Ho Hb Hall. split.
  - cbn. rewrite Hsz, Hvis, Ho, (Forall2_Restored_layout _ _ Hall). reflexivity.
  - split; cbn.
    + constructor; [exact Hb|].
      intros child Hin. apply (Forall2_Restored_unblocked _ _ Hall child Hin).
    + constructor; [rewrite Hsz; reflexivity|].
      intros child Hin. apply (Forall2_Restored_unblocked _ _ Hall child Hin).
Qed.

Lemma fill_inner (widgets : string -> option Guest) :
  forall src : Item,
    Invariant.GuestsInSync widgets src ->
    forall fuel parent up address fresh,
      (Item.levels src <= fuel)%nat ->
      Blank src fresh ->
      exists made next w,
        Serialization.fillFromVariantMap fuel (parent :: up) widgets address
          (Serialization.toVariantMap src) fresh
        = inr ((made, next), w)
        /\ Restored src made.
Proof.
  induction src as [d|d c cs IH] using Item_tree_ind;
    intros Hsync fuel parent up address fresh Hfuel (a & h & p & ->);
    cbn [Item.isContainer].
  - inversion Hsync as [d' Hd|]; subst.
    destruct (toVariantMap_values (Leaf d)) as (Hs & Hv & _ & _ & Hg & _).
    assert (Hleaf :
              Serialization.fillFromVariantMap fuel (parent :: up) widgets address
                (Serialization.toVariantMap (Leaf d)) (Serialization.newItem a h p)
              = Exec.bind
                  (Serialization.Item_fillFromVariantMap fuel (parent :: up) widgets
                     (Serialization.toVariantMap (Leaf d)) (Serialization.newItem a h p))
                  (fun it => Exec.ret (it, address)))
      by (destruct fuel; reflexivity).
    destruct (Item_fillFromVariantMap_spec fuel (parent :: up) widgets (Leaf d)
                (Serialization.newItem a h p) (Serialization.toVariantMap (Leaf d))
                Hd Hs Hv Hg) as (it' & w & Hfill & Hff).
    destruct Hff as [Hsz Hvis _ _ Hshape].
    exists it', address, w. split.
    + rewrite Hleaf, Hfill, bind_inr_ret. reflexivity.
    + destruct it' as [d1|d1 c1 cs1]; [|discriminate].
      unfold Item.sizingInfo in Hsz. cbn [Item.data] in Hsz, Hvis.
      split; [|split; constructor; rewrite Hsz; reflexivity].
      cbn [Invariant.layout]. rewrite Hsz, Hvis. reflexivity.
  - inversion Hsync as [|d' c' cs' Hd Hcs]; subst.
    cbn [Item.levels] in Hfuel. destruct fuel as [|fuel']; [lia|].
    assert (Hchildren :
              Forall (fun child =>
                        forall parent' address fresh,
                          Blank child fresh ->
                          exists made next w,
                            Serialization.fillFromVariantMap fuel'
                              (parent' :: parent :: up) widgets address
                              (Serialization.toVariantMap child) fresh
                            = inr ((made, next), w)
                            /\ Restored child made) cs).
    { rewrite Forall_forall in IH |- *. intros child Hin parent' address' fresh Hblank.
      apply IH; auto. pose proof (levels_child child cs Hin). lia. }
    destruct (fill_container_prefix widgets fuel' (parent :: up) address d c cs a h p
                Hd Hchildren)
      as (d1 & c2 & made & next & w & Heq & Hsz & Hvis & _ & Ho & Hb & Hall).
    exists (ItemContainer.withIsDeserializing false (Container d1 c2 made)), next, w.
    split.
    + rewrite Heq. rewrite <- (app_nil_r w) at 2. apply bind_inr_eq. reflexivity.
    + apply restored_container; assumption.
Qed.

(** ** Recomputing the percentages *)

Lemma usableLength_congr (this this' : Item) :
  geometry (Item.sizingInfo this') = geometry (Item.sizingInfo this) ->
  ItemContainer.orientation this' = ItemContainer.orientation this ->
  Forall2 Akin (ItemContainer.m_children this) (ItemContainer.m_children this') ->
  ItemContainer.usableLength this' = ItemContainer.usableLength this.
Proof.
  intros Hd Ho Hcs.
  unfold ItemContainer.usableLength, ItemContainer.visibleChildren,
    ItemContainer.length, ItemContainer.isVertical, Item.size, Item.height, Item.width.
  rewrite (Forall2_listed_count _ _ Hcs), Hd, Ho. reflexivity.
Qed.

Lemma expectedPercentage_congr (this this' child child' : Item) :
  geometry (Item.sizingInfo this') = geometry (Item.sizingInfo this) ->
  ItemContainer.orientation this' = ItemContainer.orientation this ->
  Forall2 Akin (ItemContainer.m_children this) (ItemContainer.m_children this') ->
  Akin child child' ->
  Invariant.expectedPercentage this' child' = Invariant.expectedPercentage this child.
Proof.
  intros Hd Ho Hcs Hk. unfold Invariant.expectedPercentage.
  rewrite (akin_visible Hk), (akin_inserted Hk), (usableLength_congr this this' Hd Ho Hcs), Ho.
  unfold Item.length, Item.size. rewrite (akin_geometry Hk). reflexivity.
Qed.

Lemma updateChildPercentages_refreshed (this : Item) :
  percentagesWritten this
  = ItemContainer.withChildren (map (refreshed this) (ItemContainer.m_children this)) this.
Proof.
  unfold percentagesWritten, refreshed.
  destruct (m_blockUpdatePercentages (ItemContainer.cdata this)).
  - rewrite map_id. destruct this; reflexivity.
  - f_equal. apply map_ext. intros a. unfold Invariant.expectedPercentage.
    destruct (Item.isVisible false a && negb (Item.isBeingInserted a)); reflexivity.
Qed.

Lemma refreshed_data (this item : Item) :
  Akin item (refreshed this item)
  /\ Invariant.layout (refreshed this item) = Invariant.layout item
  /\ Item.levels (refreshed this item) = Item.levels item
  /\ Item.isContainer (refreshed this item) = Item.isContainer item
  /\ ItemContainer.m_children (refreshed this item) = ItemContainer.m_children item
  /\ ItemContainer.cdata (refreshed this item) = ItemContainer.cdata item
  /\ (m_blockUpdatePercentages (ItemContainer.cdata this) = false ->
      percentageWithinParent (Item.sizingInfo (refreshed this item))
      = Invariant.expectedPercentage this item).
Proof.
  unfold refreshed. destruct (m_blockUpdatePercentages (ItemContainer.cdata this)).
  - repeat split; try reflexivity. discriminate.
  - destruct item as [d|d c cs]; repeat split; reflexivity.
Qed.

Lemma Unblocked_children (this child : Item) :
  Unblocked this -> In child (ItemContainer.m_children this) -> Unblocked child.
Proof.
  intros H Hin. inversion H; subst; [contradiction|]. auto.
Qed.

Lemma Unblocked_congr (a b : Item) :
  Unblocked a ->
  ItemContainer.cdata b = ItemContainer.cdata a ->
  ItemContainer.m_children b = ItemContainer.m_children a ->
  Item.isContainer b = Item.isContainer a ->
  Unblocked b.
Proof.
  intros H Hc Hm Hi. destruct b as [d|d c cs]; [constructor|].
  destruct a as [d'|d' c' cs']; [discriminate|]. cbn in Hc, Hm. subst.
  inversion H; subst. constructor; assumption.
Qed.

Lemma NoneBeingInserted_children (this child : Item) :
  Invariant.NoneBeingInserted this ->
  In child (ItemContainer.m_children this) ->
  Invariant.NoneBeingInserted child.
Proof.
  intros H Hin. inversion H; subst; [contradiction|]. auto.
Qed.

Lemma NoneBeingInserted_own (this : Item) :
  Invariant.NoneBeingInserted this -> Item.isBeingInserted this = false.
Proof. intros H. inversion H; subst; assumption. Qed.

Lemma NoneBeingInserted_intro (this : Item) :
  Item.isBeingInserted this = false ->
  (forall child, In child (ItemContainer.m_children this) ->
                 Invariant.NoneBeingInserted child) ->
  Invariant.NoneBeingInserted this.
Proof.
  intros H Hc. destruct this as [d|d c cs]; constructor; assumption.
Qed.

Lemma updateChildPercentages_recursive_spec (fuel : nat) :
  forall this : Item,
    Item.isContainer this = true ->
    (Item.levels this <= fuel)%nat ->
    exists this' w,
      Serialization.updateChildPercentages_recursive fuel this = inr (this', w)
      /\ OnlyInvalidPercentages w
      /\ Item.data this' = Item.data this
      /\ Item.isContainer this' = true
      /\ ItemContainer.orientation this' = ItemContainer.orientation this
      /\ Forall2 Akin (ItemContainer.m_children this) (ItemContainer.m_children this')
      /\ Invariant.layout this' = Invariant.layout this
      /\ Item.levels this' = Item.levels this
      /\ (Unblocked this -> Invariant.PercentagesRecomputed this')
      /\ (Invariant.NoneBeingInserted this -> Invariant.NoneBeingInserted this').
Proof.
  induction fuel as [|fuel IH]; intros [d|d c cs] Hc Hfuel; try discriminate.
  { cbn in Hfuel. lia. }
  cbn [Serialization.updateChildPercentages_recursive].
  rewrite updateChildPercentages_run, bind_inr_run, updateChildPercentages_refreshed.
  cbn [ItemContainer.m_children ItemContainer.withChildren].
  set (this := Container d c cs).
  destruct (mapM_map_Forall2_w
              (fun item =>
                 if Item.isContainer item
                 then Serialization.updateChildPercentages_recursive fuel item
                 else Exec.ret item)
              (refreshed this)
              (fun a b =>
                 Item.data b = Item.data (refreshed this a)
                 /\ Akin a b
                 /\ Invariant.layout b = Invariant.layout a
                 /\ Item.levels b = Item.levels a
                 /\ (Unblocked a -> Invariant.PercentagesRecomputed b)
                 /\ (Invariant.NoneBeingInserted a -> Invariant.NoneBeingInserted b))
              cs) as (bs & wbs & Hbs & Hwbs & Hall).
  { intros a Hin.
    destruct (refreshed_data this a) as (Hk & Hl & Hv & Hi & Hm & Hcd & _).
    assert (Hn : Invariant.NoneBeingInserted a ->
                 Invariant.NoneBeingInserted (refreshed this a)).
    { intros Hn. apply NoneBeingInserted_intro.
      - rewrite (akin_inserted Hk). apply NoneBeingInserted_own. exact Hn.
      - rewrite Hm. intros child Hchild.
        apply (NoneBeingInserted_children a child Hn Hchild). }
    destruct (Item.isContainer (refreshed this a)) eqn:E.
    - destruct (IH (refreshed this a) E)
        as (b & wb & Hb & Hwb & Hd & Hbc & Ho & Hcs & Hlb & Hvb & Hp & Hnb).
      { rewrite Hv. pose proof (levels_child a cs Hin). cbn in Hfuel. lia. }
      exists b, wb. split; [exact Hb|]. split; [exact Hwb|]. split; [exact Hd|].
      split.
      { eapply Akin_trans; [exact Hk|].
        apply Akin_of_data; [exact Hd|congruence|exact Hcs]. }
      split; [congruence|]. split; [congruence|].
      split; [|auto].
      intros Hu. apply Hp. apply (Unblocked_congr a); try assumption. congruence.
    - exists (refreshed this a), []. split; [reflexivity|]. split; [constructor|].
      split; [reflexivity|].
      split; [exact Hk|]. split; [exact Hl|]. split; [exact Hv|].
      split; [|exact Hn].
      intros _. destruct (refreshed this a); [constructor|discriminate]. }
  rewrite Hbs, bind_inr_ret. exists (Container d c bs), (invalidPercentages this ++ wbs).
  assert (Hakin : Forall2 Akin cs bs).
  { eapply Forall2_impl; [|exact Hall]. intros a b (_ & H & _). exact H. }
  split; [reflexivity|].
  split; [apply OnlyInvalidPercentages_app; [apply invalidPercentages_only|exact Hwbs]|].
  split; [reflexivity|]. split; [reflexivity|].
  split; [reflexivity|]. split; [exact Hakin|].
  split.
  { cbn. f_equal. apply (Forall2_map_eq _ _ _ _ _ Hall). intros a b H. apply H. }
  split.
  { cbn. f_equal. f_equal. apply (Forall2_map_eq _ _ _ _ _ Hall). intros a b H. apply H. }
  split.
  - intros Hu. inversion Hu as [|d' c' cs' Hblock Hchildren]; subst.
    constructor.
    + intros b Hin.
      destruct (Forall2_In_r _ _ _ Hall b Hin) as (a & Ha & Hd & Hk & _).
      destruct (refreshed_data this a) as (_ & _ & _ & _ & _ & _ & Hp).
      unfold Item.sizingInfo. rewrite Hd. fold (Item.sizingInfo (refreshed this a)).
      rewrite (Hp Hblock). symmetry.
      apply expectedPercentage_congr; [reflexivity|reflexivity|exact Hakin|exact Hk].
    + intros b Hin.
      destruct (Forall2_In_r _ _ _ Hall b Hin) as (a & Ha & _ & _ & _ & _ & Hp & _).
      apply Hp. apply Hchildren. exact Ha.
  - intros Hn. apply NoneBeingInserted_intro.
    + apply (NoneBeingInserted_own _ Hn).
    + intros b Hin.
      destruct (Forall2_In_r _ _ _ Hall b Hin) as (a & Ha & _ & _ & _ & _ & _ & Hnb).
      apply Hnb. apply (NoneBeingInserted_children _ a Hn Ha).
Qed.

(** ** Updating the separators of a tree whose percentages are up to date *)

Lemma setPercentage_same (a : Item) :
  Item.setPercentage (percentageWithinParent (Item.sizingInfo a)) a = a.
Proof.
  destruct a as [[p [g mn mx pc ins] pa v h gu n]|[p [g mn mx pc ins] pa v h gu n] c cs];
    reflexivity.
Qed.

Lemma PercentagesRecomputed_children (this child : Item) :
  Invariant.PercentagesRecomputed this ->
  In child (ItemContainer.m_children this) ->
  percentageWithinParent (Item.sizingInfo child)
  = Invariant.expectedPercentage this child
  /\ Invariant.PercentagesRecomputed child.
Proof.
  intros H Hin. inversion H; subst; [contradiction|]. auto.
Qed.

Lemma updateChildPercentages_fixed (this : Item) (placed : list Separator) :
  Item.isContainer this = true ->
  Invariant.PercentagesRecomputed this ->
  percentagesWritten (ItemContainer.withSeparators placed this)
  = ItemContainer.withSeparators placed this.
Proof.
  intros Hc Hp. rewrite updateChildPercentages_refreshed.
  destruct this as [d|d c cs]; [discriminate|].
  cbn [ItemContainer.withSeparators ItemContainer.withCData ItemContainer.cdata
         ItemContainer.m_children ItemContainer.withChildren].
  f_equal. transitivity (map (fun x : Item => x) cs); [|apply map_id].
  apply map_ext_in. intros a Hin.
  unfold refreshed.
  match goal with |- (if ?b then _ else _) = _ => destruct b end; [reflexivity|].
  destruct (PercentagesRecomputed_children (Container d c cs) a Hp Hin) as [Ha _].
  match goal with
  | |- Item.setPercentage (Invariant.expectedPercentage ?t a) a = a =>
      replace (Invariant.expectedPercentage t a)
        with (percentageWithinParent (Item.sizingInfo a))
  end.
  apply setPercentage_same.
Qed.

Lemma updateSeparators_recursive_keeps (fuel : nat) :
  forall (ancestors : list Item) (this : Item),
    Item.isContainer this = true ->
    (Item.levels this <= fuel)%nat ->
    Invariant.PercentagesRecomputed this ->
    exists this' w,
      ItemContainer.updateSeparators_recursive fuel ancestors this = inr (this', w)
      /\ OnlyInvalidPercentages w
      /\ Item.data this' = Item.data this
      /\ Item.isContainer this' = true
      /\ Forall2 Akin (ItemContainer.m_children this) (ItemContainer.m_children this')
      /\ Invariant.layout this' = Invariant.layout this
      /\ Invariant.PercentagesRecomputed this'
      /\ (Invariant.NoneBeingInserted this -> Invariant.NoneBeingInserted this').
Proof.
  induction fuel as [|fuel IH]; intros ancestors [d|d c cs] Hc Hfuel Hp;
    try discriminate.
  { cbn in Hfuel. lia. }
  cbn [ItemContainer.updateSeparators_recursive].
  destruct (updateSeparators_total ancestors (Container d c cs))
    as (this1 & w1 & H1 & Hw1 & Hcase).
  assert (Hthis1 : exists c1, this1 = Container d c1 cs /\ m_orientation c1 = m_orientation c).
  { destruct Hcase as [->|(placed & ->)].
    - exists c. auto.
    - rewrite (updateChildPercentages_fixed (Container d c cs) placed Hc Hp).
      eexists. split; reflexivity. }
  destruct Hthis1 as (c1 & -> & Ho).
  rewrite H1, bind_inr_run. cbn [ItemContainer.m_children ItemContainer.withChildren].
  destruct (mapM_map_Forall2_w
              (fun item =>
                 if ItemContainer.isListedVisible false item && Item.isContainer item
                 then ItemContainer.updateSeparators_recursive fuel
                        (Container d c1 cs :: ancestors) item
                 else Exec.ret item)
              (fun a => a)
              (fun a b =>
                 Item.data b = Item.data a
                 /\ Akin a b
                 /\ Invariant.layout b = Invariant.layout a
                 /\ Invariant.PercentagesRecomputed b
                 /\ (Invariant.NoneBeingInserted a -> Invariant.NoneBeingInserted b))
              cs) as (bs & wbs & Hbs & Hwbs & Hall).
  { intros a Hin.
    destruct (PercentagesRecomputed_children (Container d c cs) a Hp Hin) as [_ Hpa].
    destruct (ItemContainer.isListedVisible false a && Item.isContainer a) eqn:E.
    - apply andb_prop in E. destruct E as [_ E].
      destruct (IH (Container d c1 cs :: ancestors) a E)
        as (b & wb & Hb & Hwb & Hd & Hbc & Hcs & Hl & Hpb & Hnb).
      { pose proof (levels_child a cs Hin). cbn in Hfuel. lia. }
      { exact Hpa. }
      exists b, wb. split; [exact Hb|]. split; [exact Hwb|]. split; [exact Hd|].
      split; [apply Akin_of_data; [exact Hd|congruence|exact Hcs]|].
      repeat split; assumption.
    - exists a, []. split; [reflexivity|]. split; [constructor|].
      split; [reflexivity|].
      split; [apply Akin_refl|]. split; [reflexivity|]. split; [exact Hpa|auto]. }
  rewrite map_id in Hbs.
  change (Item.isVisible false ?a && negb (Item.isBeingInserted ?a))
    with (ItemContainer.isListedVisible false a).
  rewrite Hbs, bind_inr_ret. exists (Container d c1 bs), (w1 ++ wbs).
  assert (Hakin : Forall2 Akin cs bs).
  { eapply Forall2_impl; [|exact Hall]. intros a b (_ & H & _). exact H. }
  split; [reflexivity|].
  split; [apply OnlyInvalidPercentages_app; assumption|].
  split; [reflexivity|]. split; [reflexivity|].
  split; [exact Hakin|].
  split.
  { cbn. rewrite Ho. f_equal. apply (Forall2_map_eq _ _ _ _ _ Hall).
    intros a b H. apply H. }
  split.
  - constructor.
    + intros b Hin.
      destruct (Forall2_In_r _ _ _ Hall b Hin) as (a & Ha & Hd & Hk & _).
      destruct (PercentagesRecomputed_children (Container d c cs) a Hp Ha) as [Hpa _].
      unfold Item.sizingInfo in *. rewrite Hd, Hpa. symmetry.
      apply expectedPercentage_congr; [reflexivity|exact Ho|exact Hakin|exact Hk].
    + intros b Hin.
      destruct (Forall2_In_r _ _ _ Hall b Hin) as (a & _ & _ & _ & _ & Hpb & _).
      exact Hpb.
  - intros Hn. apply NoneBeingInserted_intro.
    + apply (NoneBeingInserted_own _ Hn).
    + intros b Hin.
      destruct (Forall2_In_r _ _ _ Hall b Hin) as (a & Ha & _ & _ & _ & _ & Hnb).
      apply Hnb. apply (NoneBeingInserted_children _ a Hn Ha).
Qed.

(** ** Percentages that are up to date are determined by the layout *)

Lemma levels_layout (it : Item) : Item.levels it = layoutLevels (Invariant.layout it).
Proof.
  induction it as [d|d c cs IH] using Item_tree_ind; [reflexivity|].
  cbn [Item.levels Invariant.layout layoutLevels]. rewrite map_map. do 2 f_equal.
  apply map_ext_in. intros a Hin. rewrite Forall_forall in IH. apply IH. exact Hin.
Qed.

Lemma isVisible_layout (it : Item) :
  Item.isVisible false it = layoutVisible (Invariant.layout it).
Proof.
  induction it as [d|d c cs IH] using Item_tree_ind.
  - cbn. rewrite andb_true_r. reflexivity.
  - cbn [Item.isVisible Invariant.layout layoutVisible].
    induction IH as [|a l Ha _ IHl]; cbn [existsb map]; [reflexivity|].
    rewrite Ha, IHl. reflexivity.
Qed.

Lemma geometry_layout (it : Item) :
  geometry (Item.sizingInfo it) = layoutGeometry (Invariant.layout it).
Proof. destruct it; reflexivity. Qed.

Lemma Akin_of_layout (a b : Item) :
  Invariant.layout b = Invariant.layout a ->
  Item.isBeingInserted a = false ->
  Item.isBeingInserted b = false ->
  Akin a b.
Proof.
  intros Hl Ha Hb. constructor.
  - rewrite !geometry_layout, Hl. reflexivity.
  - congruence.
  - rewrite !isVisible_layout, Hl. reflexivity.
Qed.

Lemma percentages_determined :
  forall this this' : Item,
    Invariant.layout this' = Invariant.layout this ->
    Invariant.PercentagesRecomputed this ->
    Invariant.PercentagesRecomputed this' ->
    Invariant.NoneBeingInserted this ->
    Invariant.NoneBeingInserted this' ->
    Invariant.percentages this' = Invariant.percentages this.
Proof.
  induction this as [d|d c cs IH] using Item_tree_ind;
    intros [d'|d' c' cs'] Hl Hp Hp' Hn Hn'; try discriminate; [reflexivity|].
  cbn [Invariant.layout] in Hl.
  injection Hl as Hgeo _ _ _ Ho Hcs.
  apply map_eq_Forall2 in Hcs.
  rewrite Forall_forall in IH.
  assert (Hkin : Forall2 Akin cs cs').
  { apply (Forall2_impl_In _ _ _ _ Hcs). intros a b Ha Hb Hab.
    apply Akin_of_layout; [exact Hab| |].
    - apply NoneBeingInserted_own. apply (NoneBeingInserted_children _ a Hn Ha).
    - apply NoneBeingInserted_own. apply (NoneBeingInserted_children _ b Hn' Hb). }
  cbn [Invariant.percentages].
  apply (Forall2_flat_map_eq
           (fun a b =>
              percentageWithinParent (Item.sizingInfo b) :: Invariant.percentages b
              = percentageWithinParent (Item.sizingInfo a) :: Invariant.percentages a)
           _ _ cs cs'); [|auto].
  assert (Hboth : Forall2 (fun a b => Invariant.layout b = Invariant.layout a /\ Akin a b)
                    cs cs').
  { clear - Hcs Hkin. induction Hcs; inversion Hkin; subst; constructor; auto. }
  apply (Forall2_impl_In _ _ _ _ Hboth). intros a b Ha Hb [Hab Hk].
  destruct (PercentagesRecomputed_children (Container d c cs) a Hp Ha) as [Hpa Hra].
  destruct (PercentagesRecomputed_children (Container d' c' cs') b Hp' Hb) as [Hpb Hrb].
  f_equal.
  - rewrite Hpa, Hpb.
    apply expectedPercentage_congr; [exact Hgeo|exact Ho|exact Hkin|exact Hk].
  - apply IH; try assumption.
    + apply (NoneBeingInserted_children _ a Hn Ha).
    + apply (NoneBeingInserted_children _ b Hn' Hb).
Qed.

(** ** The round trip through [QVariantMap] *)

Lemma PercentagesRecomputed_withIsDeserializing (b : bool) (this : Item) :
  Invariant.PercentagesRecomputed this ->
  Invariant.PercentagesRecomputed (ItemContainer.withIsDeserializing b this).
Proof.
  intros H. inversion H as [d|d c cs Hp Hc]; subst; [constructor|].
  cbn. constructor; [|exact Hc].
  intros child Hin. rewrite (Hp child Hin).
  apply expectedPercentage_congr;
    [reflexivity|reflexivity|apply Forall2_Akin_refl|apply Akin_refl].
Qed.

Lemma layout_withIsDeserializing (b : bool) (this : Item) :
  Invariant.layout (ItemContainer.withIsDeserializing b this) = Invariant.layout this.
Proof. destruct this; reflexivity. Qed.

Lemma finishRoot_spec (fuel : nat) (this : Item) :
  Item.isContainer this = true ->
  (Item.levels this <= fuel)%nat ->
  Unblocked this ->
  Invariant.NoneBeingInserted this ->
  exists this' w,
    Serialization.finishRoot fuel this = inr (this', w)
    /\ Invariant.layout this' = Invariant.layout this
    /\ Invariant.PercentagesRecomputed this'
    /\ Invariant.NoneBeingInserted this'.
Proof.
  intros Hc Hfuel Hu Hn. unfold Serialization.finishRoot.
  destruct (updateChildPercentages_recursive_spec fuel this Hc Hfuel)
    as (this1 & w1 & H1 & _ & Hd & Hc1 & _ & _ & Hl & Hv & Hp & Hn1).
  rewrite H1, bind_inr_run. specialize (Hp Hu). specialize (Hn1 Hn).
  destruct (Item.hostWidget this1).
  - destruct (updateSeparators_recursive_keeps fuel [] this1 Hc1) as
      (this2 & w2 & H2 & _ & _ & _ & _ & Hl2 & Hp2 & Hn2); [lia|exact Hp|].
    rewrite H2, bind_inr_run. unfold Exec.warnAll. rewrite bind_inr_run.
    unfold Exec.ret. eexists this2, _. split; [reflexivity|].
    split; [congruence|]. split; [exact Hp2|auto].
  - unfold Exec.ret. eexists this1, _. split; [reflexivity|].
    repeat split; assumption.
Qed.

(** Claim C3. Let T be a tree with a container at its root, [fuel] at least
    its number of levels, and let every guest of T that the table [widgets]
    still knows report the minimum size stored in T for an item whose
    geometry is not empty. Then filling a new root container from
    [toVariantMap T] returns a tree with the orientations, the order of the
    children, the geometries, the minimum and maximum sizes and the
    visibility flags of T. Its percentages are the ones computed from its
    geometries; they are the percentages of T when those were up to date and
    no item of T was being inserted. *)
Theorem roundtrip_restores_layout (widgets : string -> option Guest) (fuel : nat)
  (address a : Z) (h : option Z) (d : ItemData) (c : ContainerData) (cs : list Item) :
  (Item.levels (Container d c cs) <= fuel)%nat ->
  Invariant.GuestsInSync widgets (Container d c cs) ->
  exists (restored : Item) (next : Z) (w : list string),
    Serialization.fillFromVariantMap fuel [] widgets address
      (Serialization.toVariantMap (Container d c cs))
      (ItemContainer.newContainer a h None)
    = inr ((restored, next), w)
    /\ Invariant.layout restored = Invariant.layout (Container d c cs)
    /\ Invariant.PercentagesRecomputed restored
    /\ (Invariant.PercentagesRecomputed (Container d c cs) ->
        Invariant.NoneBeingInserted (Container d c cs) ->
        Invariant.percentages restored = Invariant.percentages (Container d c cs)).
Proof.
  intros Hfuel Hsync.
  inversion Hsync as [|d' c' cs' Hd Hcs]; subst.
  destruct fuel as [|fuel']; [cbn in Hfuel; lia|].
  assert (Hchildren :
            Forall (fun child =>
                      forall parent address fresh,
                        Blank child fresh ->
                        exists made next w,
                          Serialization.fillFromVariantMap fuel' [parent] widgets address
                            (Serialization.toVariantMap child) fresh
                          = inr ((made, next), w)
                          /\ Restored child made) cs).
  { rewrite Forall_forall. intros child Hin parent address' fresh Hblank.
    apply fill_inner; auto.
    pose proof (levels_child child cs Hin). cbn in Hfuel. lia. }
  destruct (fill_container_prefix widgets fuel' [] address d c cs a h None Hd Hchildren)
    as (d1 & c2 & made & next & w & Heq & Hsz & Hvis & _ & Ho & Hb & Hall).
  destruct (restored_container d d1 c c2 cs made true Hsz Hvis Ho Hb Hall)
    as (Hl & Hu & Hn).
  rewrite layout_withIsDeserializing in Hl.
  assert (Hu3 : Unblocked (Container d1 c2 made)).
  { inversion Hu; subst. constructor; assumption. }
  assert (Hn3 : Invariant.NoneBeingInserted (Container d1 c2 made)).
  { inversion Hn; subst. constructor; assumption. }
  destruct (finishRoot_spec (S fuel') (Container d1 c2 made) eq_refl) as
    (this4 & w4 & H4 & Hl4 & Hp4 & Hn4); [|exact Hu3|exact Hn3|].
  { rewrite levels_layout, Hl, <- levels_layout. exact Hfuel. }
  exists (ItemContainer.withIsDeserializing false this4), next, (w ++ w4).
  assert (Hlayout : Invariant.layout (ItemContainer.withIsDeserializing false this4)
                    = Invariant.layout (Container d c cs)).
  { rewrite layout_withIsDeserializing. congruence. }
  assert (Hrecomputed :
            Invariant.PercentagesRecomputed
              (ItemContainer.withIsDeserializing false this4)).
  { apply PercentagesRecomputed_withIsDeserializing. exact Hp4. }
  split; [|split; [exact Hlayout|split; [exact Hrecomputed|]]].
  - rewrite Heq. apply bind_inr_eq.
    cbn beta iota. rewrite H4, bind_inr_ret. reflexivity.
  - intros Hp Hn0. apply percentages_determined; try assumption.
    apply NoneBeingInserted_intro.
    + destruct this4; apply (NoneBeingInserted_own _ Hn4).
    + intros child Hin. apply (NoneBeingInserted_children this4 child Hn4).
      destruct this4; exact Hin.
Qed.

Lemma sideBySide_guests_in_sync (widgets : string -> option Guest) (w1 : Z) :
  Invariant.GuestsInSync widgets (Scenario.sideBySide w1).
Proof.
  constructor.
  - intros g g' H. discriminate.
  - intros child [<-|[<-|[]]]; constructor; intros g g' H; discriminate.
Qed.

(** C3 on the layout of S2. *)
Lemma roundtrip_restores_layout_witness :
  (Item.levels (Scenario.sideBySide 498) <= 1)%nat
  /\ Invariant.GuestsInSync (fun _ => None) (Scenario.sideBySide 498)
  /\ exists (restored : Item) (next : Z) (w : list string),
       Serialization.fillFromVariantMap 1 [] (fun _ => None) 200
         (Serialization.toVariantMap (Scenario.sideBySide 498))
         (ItemContainer.newContainer 100 Scenario.host None)
       = inr ((restored, next), w)
       /\ Invariant.layout restored = Invariant.layout (Scenario.sideBySide 498)
       /\ Invariant.PercentagesRecomputed restored
       /\ (Invariant.PercentagesRecomputed (Scenario.sideBySide 498) ->
           Invariant.NoneBeingInserted (Scenario.sideBySide 498) ->
           Invariant.percentages restored
           = Invariant.percentages (Scenario.sideBySide 498)).
Proof.
  assert (H1 : (Item.levels (Scenario.sideBySide 498) <= 1)%nat) by (cbn; lia).
  pose proof (sideBySide_guests_in_sync (fun _ => None) 498) as H2.
  split; [exact H1|]. split; [exact H2|].
  exact (roundtrip_restores_layout (fun _ => None) 1 200 100 Scenario.host _ _ _ H1 H2).
Defined.

(** Counterexample to C3 as the specification words it: [setSize_recursive]
    blocks the update of the percentages, so after the layout of S2 is made
    1001 wide both leaves are 498 wide and still hold 498/995 and 497/995;
    the layout passes [checkSanity]. The round trip recomputes 0.5 and 0.5:
    the first differs from the original by more than 1e-6
    (0x1.0c6f7a0b5ed8dp-20 is the double nearest to 1e-6). The leaves have
    no guest, which [updateWidgets_recursive] logs for each of them. *)
Lemma roundtrip_changes_stale_percentages :
  exists (resized restored : Item) (next : Z),
    ItemContainer.setSize_recursive 5 [] (mkQSize 1001 600) Percentage
      (Scenario.sideBySide 498)
    = inr (resized, [])
    /\ ItemContainer.checkSanity [] resized = true
    /\ Serialization.fillFromVariantMap 1 [] (fun _ => None) 200
         (Serialization.toVariantMap resized)
         (ItemContainer.newContainer 100 Scenario.host None)
       = inr ((restored, next),
              ["visible item doesn't have a guest"%string;
               "visible item doesn't have a guest"%string])
    /\ Invariant.layout restored = Invariant.layout resized
    /\ Invariant.percentages resized
       = [Double.ratio 498 995; Double.ratio 497 995]
    /\ Invariant.percentages restored = [0.5%float; 0.5%float]
    /\ PrimFloat.ltb 0x1.0c6f7a0b5ed8dp-20%float
         (PrimFloat.abs (PrimFloat.sub 0.5%float (Double.ratio 498 995))) = true.
Proof.
  do 3 eexists. split; [vm_compute; reflexivity|].
  split; [vm_compute; reflexivity|].
  split; [vm_compute; reflexivity|].
  repeat split; vm_compute; reflexivity.
Qed.

(** * Further properties of the code *)

(** ** Requests that [requestSeparatorMove] refuses *)

(** X1. Whatever the layout, [requestSeparatorMove] on a container of the
    tree leaves the tree as it is in three cases: the separator is not one
    of the container's (logged as unknown), the move is by 0 (nothing is
    logged), or the new position falls outside the bounds that
    [minPosForSeparator_global] and [maxPosForSeparator_global] give (logged
    as out of bounds). *)
Theorem requestSeparatorMove_refusals (hops fuel : nat) (root : Item)
  (path : list nat) (this : Item) (ancestors : list Item) (separator : option nat)
  (delta : Z) :
  ItemContainer.locate root [] path = Some (this, ancestors) ->
  (ItemContainer.indexOfSeparator this separator = -1 ->
   ItemContainer.requestSeparatorMove hops fuel root path separator delta
   = inr (root, ["Unknown separator"%string]))
  /\ (ItemContainer.indexOfSeparator this separator <> -1 ->
      ItemContainer.requestSeparatorMove hops fuel root path separator 0
      = inr (root, []))
  /\ (forall min pos max : Z,
         ItemContainer.indexOfSeparator this separator <> -1 ->
         delta <> 0 ->
         ItemContainer.minPosForSeparator_global this ancestors separator
         = inr (min, []) ->
         ItemContainer.separatorPosition this
           (ItemContainer.indexOfSeparator this separator) = inr (pos, []) ->
         ItemContainer.maxPosForSeparator_global this ancestors separator
         = inr (max, []) ->
         pos + delta < min \/ max < pos + delta ->
         ItemContainer.requestSeparatorMove hops fuel root path separator delta
         = inr (root, ["Separator would have gone out of bounds"%string])).
Proof.
  intros Hloc. split; [|split].
  - intros Hi. destruct hops; cbn [ItemContainer.requestSeparatorMove];
      rewrite Hloc, Hi; reflexivity.
  - intros Hi. apply Z.eqb_neq in Hi.
    destruct hops; cbn [ItemContainer.requestSeparatorMove];
      rewrite Hloc, Hi; reflexivity.
  - intros min pos max Hi Hd Hmin Hpos Hmax Hout.
    apply Z.eqb_neq in Hi. apply Z.eqb_neq in Hd.
    assert (Hb : (pos + delta <? min) || (pos + delta >? max) = true).
    { apply orb_true_iff. destruct Hout; [left|right]; lia. }
    destruct hops; cbn [ItemContainer.requestSeparatorMove];
      rewrite Hloc, Hi, Hd, Hmin, bind_pure, Hpos, bind_pure, Hmax, bind_pure, Hb;
      reflexivity.
Qed.

(** X1 on the layout of S2: the root owns separator 0 and no separator 1. *)
Lemma requestSeparatorMove_refusals_witness :
  ItemContainer.locate (Scenario.sideBySide 498) [] []
  = Some (Scenario.sideBySide 498, [])
  /\ ItemContainer.requestSeparatorMove 1 1 (Scenario.sideBySide 498) [] (Some 1%nat) 10
     = inr (Scenario.sideBySide 498, ["Unknown separator"%string])
  /\ ItemContainer.requestSeparatorMove 1 1 (Scenario.sideBySide 498) [] (Some O) 0
     = inr (Scenario.sideBySide 498, []).
Proof.
  assert (Hloc : ItemContainer.locate (Scenario.sideBySide 498) [] []
                 = Some (Scenario.sideBySide 498, [])) by reflexivity.
  split; [exact Hloc|]. split.
  - apply (proj1 (requestSeparatorMove_refusals 1 1 _ _ _ _ (Some 1%nat) 10 Hloc)).
    reflexivity.
  - apply (proj1 (proj2 (requestSeparatorMove_refusals 1 1 _ _ _ _ (Some O) 0 Hloc))).
    vm_compute. discriminate.
Defined.

(** ** Sizes that [setSize_recursive] refuses *)

Lemma withBlockUpdatePercentages_restore (d : ItemData) (c : ContainerData)
  (cs : list Item) :
  ItemContainer.withBlockUpdatePercentages (m_blockUpdatePercentages c)
    (ItemContainer.withBlockUpdatePercentages true (Container d c cs))
  = Container d c cs.
Proof. destruct c. reflexivity. Qed.

(** X2. [setSize_recursive] on a container refuses a size that is narrower
    or lower than the minimum size of the container: it logs that the size
    does not respect the constraints and leaves the container as it was,
    children and percentages included. A size equal to the current one
    changes nothing either and logs nothing. *)
Theorem setSize_recursive_refusals (fuel : nat) (ancestors : list Item)
  (newSize : QSize) (strategy : ChildrenResizeStrategy) (d : ItemData)
  (c : ContainerData) (cs : list Item) :
  let this := Container d c cs in
  (wd newSize < wd (Item.minSize this) \/ ht newSize < ht (Item.minSize this) ->
   ItemContainer.setSize_recursive (S fuel) ancestors newSize strategy this
   = inr (this, ["New size doesn't respect size constraints"%string]))
  /\ (wd (Item.minSize this) <= wd newSize ->
      ht (Item.minSize this) <= ht newSize ->
      newSize = Item.size this ->
      ItemContainer.setSize_recursive (S fuel) ancestors newSize strategy this
      = inr (this, [])).
Proof.
  intros this.
  assert (Hmin : Item.minSize (ItemContainer.withBlockUpdatePercentages true this)
                 = Item.minSize this) by reflexivity.
  assert (Hsize : Item.size (ItemContainer.withBlockUpdatePercentages true this)
                  = Item.size this) by reflexivity.
  split.
  - intros Hlow.
    cbn [ItemContainer.setSize_recursive]. unfold ItemContainer.setSize_recursive_container.
    fold this. rewrite Hmin.
    replace ((wd newSize <? wd (Item.minSize this))
             || (ht newSize <? ht (Item.minSize this))) with true
      by (symmetry; apply orb_true_iff; destruct Hlow; [left|right]; lia).
    unfold this. cbn [ItemContainer.cdata].
    rewrite withBlockUpdatePercentages_restore. reflexivity.
  - intros Hw Hh Heq.
    cbn [ItemContainer.setSize_recursive]. unfold ItemContainer.setSize_recursive_container.
    fold this. rewrite Hmin, Hsize.
    replace ((wd newSize <? wd (Item.minSize this))
             || (ht newSize <? ht (Item.minSize this))) with false
      by (symmetry; apply orb_false_iff; split; lia).
    rewrite Heq, QSize_eqb_refl.
    unfold this. cbn [ItemContainer.cdata].
    rewrite withBlockUpdatePercentages_restore. reflexivity.
Qed.

(** X2 on the layout of S2, whose minimum size is 165x90. *)
Lemma setSize_recursive_refusals_witness :
  ItemContainer.setSize_recursive 1 [] (mkQSize 160 600) Percentage
    (Scenario.sideBySide 498)
  = inr (Scenario.sideBySide 498, ["New size doesn't respect size constraints"%string])
  /\ ItemContainer.setSize_recursive 1 [] (mkQSize 1000 600) Percentage
       (Scenario.sideBySide 498)
     = inr (Scenario.sideBySide 498, []).
Proof.
  split.
  - apply (proj1 (setSize_recursive_refusals 0 [] (mkQSize 160 600) Percentage _ _ _)).
    left. vm_compute. reflexivity.
  - apply (proj2 (setSize_recursive_refusals 0 [] (mkQSize 1000 600) Percentage _ _ _)).
    + vm_compute. discriminate.
    + vm_compute. discriminate.
    + reflexivity.
Defined.

(** ** The minimum size of a container *)

Lemma minSize_fold (vertical : bool) (counted : list (bool * QSize)) :
  forall minW minH numVisible,
    fold_left (fun (acc : Z * Z * Z) (e : bool * QSize) =>
                 if fst e then Item.minSizeStep vertical acc (snd e) else acc)
      counted (minW, minH, numVisible)
    = let mins := map snd (filter fst counted) in
      if vertical
      then (fold_left Z.max (map wd mins) minW, minH + QVector.sum (map ht mins),
            numVisible + QVector.count mins)
      else (minW + QVector.sum (map wd mins), fold_left Z.max (map ht mins) minH,
            numVisible + QVector.count mins).
Proof.
  induction counted as [|[b sz] l IH]; intros minW minH numVisible.
  - unfold QVector.count, QVector.sum. cbn.
    destruct vertical; rewrite !Z.add_0_r; reflexivity.
  - cbn [fold_left fst snd]. destruct b; cbn [filter fst map snd].
    + unfold Item.minSizeStep. destruct vertical; rewrite IH; cbv zeta;
        unfold QVector.count, QVector.sum;
        cbn [map fold_left fold_right List.length];
        rewrite Nat2Z.inj_succ; (f_equal; [f_equal|]); lia.
    + apply IH.
Qed.

(** X3. The minimum size of a container is made of the minimum sizes of its
    children that are visible or being inserted: along the axis of the
    container it is their sum plus one separator thickness between each two
    of them, across the axis it is the largest of them (0 when there is
    none). Hidden children do not count. *)
Theorem minSize_of_container (d : ItemData) (c : ContainerData) (cs : list Item) :
  let counted :=
    filter (fun item => Item.isVisible false item || Item.isBeingInserted item) cs in
  let widths := map (fun item => wd (Item.minSize item)) counted in
  let heights := map (fun item => ht (Item.minSize item)) counted in
  let separatorWaste :=
    Z.max 0 ((QVector.count counted - 1) * Layouting.separatorThickness) in
  Item.minSize (Container d c cs)
  = if Layouting.isVerticalO (m_orientation c)
    then mkQSize (fold_left Z.max widths 0) (QVector.sum heights + separatorWaste)
    else mkQSize (QVector.sum widths + separatorWaste) (fold_left Z.max heights 0).
Proof.
  cbv zeta. cbn [Item.minSize]. rewrite minSize_fold. cbv zeta.
  assert (Hf : map snd
                 (filter fst
                    (map (fun item =>
                            (Item.isVisible false item || Item.isBeingInserted item,
                             Item.minSize item)) cs))
               = map Item.minSize
                   (filter (fun item =>
                              Item.isVisible false item || Item.isBeingInserted item) cs)).
  { induction cs as [|a l IH]; [reflexivity|]. cbn [map filter fst].
    destruct (Item.isVisible false a || Item.isBeingInserted a); cbn [map snd];
      rewrite IH; reflexivity. }
  rewrite Hf, !map_map. unfold QVector.count. rewrite !length_map.
  destruct (Layouting.isVerticalO (m_orientation c)); cbn [Z.add]; reflexivity.
Qed.

(** ** [updateSeparators_recursive] and [updateChildPercentages_recursive]
       return *)

Lemma updateSeparators_children (ancestors : list Item) (this : Item) :
  exists (this1 : Item) (f : Item -> Item) (w : list string),
    ItemContainer.updateSeparators ancestors this = inr (this1, w)
    /\ OnlyInvalidPercentages w
    /\ Item.isContainer this1 = Item.isContainer this
    /\ Invariant.layout this1
       = Invariant.layout (ItemContainer.withChildren (ItemContainer.m_children this1) this)
    /\ ItemContainer.m_children this1 = map f (ItemContainer.m_children this)
    /\ forall a, Invariant.layout (f a) = Invariant.layout a
                 /\ Item.levels (f a) = Item.levels a
                 /\ Item.isContainer (f a) = Item.isContainer a
                 /\ Akin a (f a).
Proof.
  destruct (updateSeparators_total ancestors this)
    as (this1 & w & H1 & Hw & [->|(placed & ->)]).
  - exists this, (fun a => a), w. split; [exact H1|]. split; [exact Hw|].
    split; [reflexivity|].
    split; [destruct this; reflexivity|]. split; [symmetry; apply map_id|].
    intros a. repeat split.
  - exists (percentagesWritten (ItemContainer.withSeparators placed this)),
      (refreshed (ItemContainer.withSeparators placed this)), w.
    split; [exact H1|]. split; [exact Hw|]. rewrite updateChildPercentages_refreshed.
    destruct this as [d|d c cs].
    + split; [reflexivity|]. split; [reflexivity|]. split; [reflexivity|].
      intros a. destruct (refreshed_data (Leaf d) a) as (Hk & Hl & Hv & Hi & _).
      split; [exact Hl|]. split; [exact Hv|]. split; [exact Hi|exact Hk].
    + split; [reflexivity|]. split; [reflexivity|]. split; [reflexivity|].
      intros a.
      destruct (refreshed_data
                  (ItemContainer.withSeparators placed (Container d c cs)) a)
        as (Hk & Hl & Hv & Hi & _).
      split; [exact Hl|]. split; [exact Hv|]. split; [exact Hi|exact Hk].
Qed.

Lemma updateSeparators_recursive_total (fuel : nat) :
  forall (ancestors : list Item) (this : Item),
    Item.isContainer this = true ->
    (Item.levels this <= fuel)%nat ->
    exists this' w,
      ItemContainer.updateSeparators_recursive fuel ancestors this = inr (this', w)
      /\ OnlyInvalidPercentages w
      /\ Invariant.layout this' = Invariant.layout this.
Proof.
  induction fuel as [|fuel IH]; intros ancestors [d|d c cs] Hc Hfuel; try discriminate.
  { cbn in Hfuel. lia. }
  cbn [ItemContainer.updateSeparators_recursive].
  destruct (updateSeparators_children ancestors (Container d c cs))
    as (this1 & f & w1 & H1 & Hw1 & Hc1 & Hl1 & Hm & Hf).
  rewrite H1, bind_inr_run.
  change (fun item : Item =>
            if Item.isVisible false item && negb (Item.isBeingInserted item)
               && Item.isContainer item
            then ItemContainer.updateSeparators_recursive fuel (this1 :: ancestors) item
            else Exec.ret item)
    with (fun item : Item =>
            if ItemContainer.isListedVisible false item && Item.isContainer item
            then ItemContainer.updateSeparators_recursive fuel (this1 :: ancestors) item
            else Exec.ret item).
  rewrite Hm. cbn [ItemContainer.m_children] in *.
  destruct (mapM_map_Forall2_w
              (fun item =>
                 if ItemContainer.isListedVisible false item && Item.isContainer item
                 then ItemContainer.updateSeparators_recursive fuel
                        (this1 :: ancestors) item
                 else Exec.ret item)
              f (fun a b => Invariant.layout b = Invariant.layout a) cs)
    as (bs & wbs & Hbs & Hwbs & Hall).
  { intros a Hin. destruct (Hf a) as (Hla & Hva & Hia & _).
    destruct (ItemContainer.isListedVisible false (f a) && Item.isContainer (f a)) eqn:E.
    - apply andb_prop in E. destruct E as [_ E].
      destruct (IH (this1 :: ancestors) (f a) E) as (b & wb & Hb & Hwb & Hlb).
      { rewrite Hva. pose proof (levels_child a cs Hin). cbn in Hfuel. lia. }
      exists b, wb. split; [exact Hb|]. split; [exact Hwb|congruence].
    - exists (f a), []. split; [reflexivity|]. split; [constructor|exact Hla]. }
  rewrite Hbs, bind_inr_ret. eexists _, (w1 ++ wbs). split; [reflexivity|].
  split; [apply OnlyInvalidPercentages_app; assumption|].
  destruct this1 as [d1|d1 c1 cs1]; [discriminate|].
  cbn [ItemContainer.withChildren Invariant.layout] in Hl1 |- *.
  injection Hl1 as E1 E2 E3 E4 E5. rewrite E1, E2, E3, E4, E5. f_equal.
  apply (Forall2_map_eq _ _ _ _ _ Hall). auto.
Qed.

(** X4. [updateSeparators_recursive] on a container, with fuel for the
    levels of the tree, returns; the only warnings it can log are those of
    [updateChildPercentages] about an invalid percentage. It leaves the
    orientations, geometries, sizes and visibility of the tree as they were,
    and whatever the separators were before, afterwards every container that
    has a host widget and is reached through visible children has
    [max 0 (visible_count - 1)] separators, separator [i] standing right
    after the trailing edge of visible child [i] in root coordinates. *)
Theorem updateSeparators_recursive_returns (fuel : nat) (ancestors : list Item)
  (d : ItemData) (c : ContainerData) (cs : list Item) :
  (Item.levels (Container d c cs) <= fuel)%nat ->
  exists this' w,
    ItemContainer.updateSeparators_recursive fuel ancestors (Container d c cs)
    = inr (this', w)
    /\ Forall (fun msg => msg = "Invalid percentage"%string) w
    /\ Invariant.layout this' = Invariant.layout (Container d c cs)
    /\ Invariant.SeparatorsDerived ancestors this'.
Proof.
  intros Hfuel.
  destruct (updateSeparators_recursive_total fuel ancestors (Container d c cs) eq_refl Hfuel)
    as (this' & w & H & Hw & Hl).
  exists this', w. split; [exact H|]. split; [exact Hw|]. split; [exact Hl|].
  apply (updateSeparators_recursive_establishes fuel ancestors _ _ _ H).
Qed.

(** X4 on the layout of S3, whose separators are first removed. *)
Lemma updateSeparators_recursive_returns_witness :
  exists this',
    ItemContainer.updateSeparators_recursive 2 []
      (ItemContainer.deleteSeparators_recursive Scenario.nested)
    = inr (this', [])
    /\ Invariant.layout this' = Invariant.layout Scenario.nested
    /\ Invariant.SeparatorsDerived [] this'.
Proof.
  assert (Hfuel : (Item.levels (ItemContainer.deleteSeparators_recursive Scenario.nested)
                   <= 2)%nat) by (vm_compute; lia).
  destruct (updateSeparators_recursive_returns 2 [] _ _ _ Hfuel)
    as (this' & w & H & _ & Hl & Hd).
  exists this'. split; [|split; [exact Hl|exact Hd]].
  pose proof H as Hc. vm_compute in Hc. injection Hc as _ Hw.
  subst w. exact H.
Defined.

(** X5. [updateChildPercentages_recursive] on a container, with fuel for the
    levels of the tree, returns, and the only warnings it can log are about
    an invalid percentage; it leaves the orientations, geometries, sizes and
    visibility of the tree as they were; and when no container of the tree
    blocks the update, afterwards every child of every container holds the
    percentage computed from its length: the length over the usable length
    of its parent for a visible child that is not being inserted, 0 for the
    others. *)
Theorem updateChildPercentages_recursive_returns (fuel : nat) (d : ItemData)
  (c : ContainerData) (cs : list Item) :
  (Item.levels (Container d c cs) <= fuel)%nat ->
  exists this' w,
    Serialization.updateChildPercentages_recursive fuel (Container d c cs)
    = inr (this', w)
    /\ Forall (fun msg => msg = "Invalid percentage"%string) w
    /\ Invariant.layout this' = Invariant.layout (Container d c cs)
    /\ (Unblocked (Container d c cs) -> Invariant.PercentagesRecomputed this').
Proof.
  intros Hfuel.
  destruct (updateChildPercentages_recursive_spec fuel (Container d c cs) eq_refl Hfuel)
    as (this' & w & H & Hw & _ & _ & _ & _ & Hl & _ & Hp & _).
  exists this', w. auto.
Qed.

(** X5 on the layout of S2 made 1001 wide, whose percentages are stale. *)
Lemma updateChildPercentages_recursive_returns_witness :
  exists this',
    Serialization.updateChildPercentages_recursive 1
      (ItemContainer.withChildren
         [Scenario.leaf 101 (Some 100) Scenario.host true
            (QRect.make 0 0 498 600) (Double.ratio 498 995);
          Scenario.leaf 102 (Some 100) Scenario.host true
            (QRect.make 503 0 498 600) (Double.ratio 497 995)]
         (Item.setSize (mkQSize 1001 600) (Scenario.sideBySide 498)))
    = inr (this', [])
    /\ Invariant.percentages this' = [0.5%float; 0.5%float].
Proof.
  match goal with
  | |- exists this', Serialization.updateChildPercentages_recursive 1 ?t = _ /\ _ =>
      assert (Hfuel : (Item.levels t <= 1)%nat) by (vm_compute; lia);
      destruct (updateChildPercentages_recursive_returns 1 _ _ _ Hfuel)
        as (this' & w & H & _ & _ & _)
  end.
  pose proof H as Hc. vm_compute in Hc. injection Hc as Ht Hw.
  subst w. exists this'. split; [exact H|].
  rewrite <- Ht. vm_compute. reflexivity.
Defined.

(** ** The maps of sizes and rectangles *)

(** X6. A rectangle, a size and a [SizingInfo] are read back from the map
    they were written to; of a [SizingInfo] the geometry and the minimum and
    maximum sizes come back, while the percentage and the being-inserted
    flag are reset to their defaults. A key that is missing reads as 0: a
    map without minSize gives the minimum size 0x0, below the hard-coded
    minimum, and a map without geometry gives an empty rectangle at the
    origin. *)
Theorem variant_maps_read_back (s : SizingInfo) (r : QRect) (sz : QSize)
  (m : QVariantMap.t) :
  Serialization.mapToRect (Serialization.rectToMap r) = r
  /\ Serialization.mapToSize (Serialization.sizeToMap sz) = sz
  /\ Serialization.SizingInfo_fromVariantMap (Serialization.SizingInfo_toVariantMap s)
     = mkSizingInfo (geometry s) (minSize s) (maxSize s) 0%float false
  /\ (QVariantMap.value "minSize" m = VInvalid ->
      minSize (Serialization.SizingInfo_fromVariantMap m) = mkQSize 0 0)
  /\ (QVariantMap.value "geometry" m = VInvalid ->
      geometry (Serialization.SizingInfo_fromVariantMap m) = QRect.make 0 0 0 0
      /\ QRect.isEmpty (geometry (Serialization.SizingInfo_fromVariantMap m)) = true).
Proof.
  split; [apply mapToRect_rectToMap|]. split; [apply mapToSize_sizeToMap|].
  split; [apply SizingInfo_roundtrip|]. split.
  - intros H. unfold Serialization.SizingInfo_fromVariantMap. cbn [minSize].
    rewrite H. reflexivity.
  - intros H. unfold Serialization.SizingInfo_fromVariantMap. cbn [geometry].
    rewrite H. split; reflexivity.
Qed.

(** ** The default length in the other modes *)

(** X7. The default length of an inserted item in the mode [FairButFloor] is
    the smaller of its default lengths in the modes [Fair] and [ItemSize];
    in the mode [ItemSize] it is the length of the item, but no less than
    its minimum length. *)
Theorem defaultLengthFor_other_modes (q item : Item) :
  ItemContainer.defaultLengthFor q item FairButFloor
  = Z.min (ItemContainer.defaultLengthFor q item Fair)
      (ItemContainer.defaultLengthFor q item ItemSize)
  /\ ItemContainer.defaultLengthFor q item ItemSize
     = Z.max (Item.minLength item (ItemContainer.orientation q))
         (Item.length item (ItemContainer.orientation q)).
Proof.
  unfold ItemContainer.defaultLengthFor. split; [lia|reflexivity].
Qed.

(** ** What [contains] and [contains_recursive] find *)

Lemma locate_from (path : list nat) :
  forall (this item : Item) (ancestors ancestors' : list Item),
    ItemContainer.locate this ancestors path = Some (item, ancestors') ->
    forall other : list Item,
    exists others, ItemContainer.locate this other path = Some (item, others).
Proof.
  induction path as [|i rest IH]; intros this item ancestors ancestors' H other.
  - injection H as <- _. exists other. reflexivity.
  - cbn [ItemContainer.locate] in H |- *.
    destruct (nth_error (ItemContainer.m_children this) i) as [c|]; [|discriminate].
    apply (IH c item (this :: ancestors) ancestors' H).
Qed.

(** X8. [contains] answers whether the pointer is that of a direct child,
    [contains_recursive] whether it is that of an item anywhere below the
    container: at a path of one or more child indices. So what [contains]
    finds, [contains_recursive] finds too. *)
Theorem contains_recursive_finds_descendants (this : Item) (item : Z) :
  (ItemContainer.contains this item = true
   <-> exists (i : nat) (child : Item),
         nth_error (ItemContainer.m_children this) i = Some child
         /\ Item.ptr child = item)
  /\ (ItemContainer.contains_recursive this item = true
      <-> exists (path : list nat) (found : Item) (ancestors : list Item),
            path <> []
            /\ ItemContainer.locate this [] path = Some (found, ancestors)
            /\ Item.ptr found = item)
  /\ (ItemContainer.contains this item = true ->
      ItemContainer.contains_recursive this item = true).
Proof.
  assert (Hdirect :
            ItemContainer.contains this item = true
            <-> exists (i : nat) (child : Item),
                  nth_error (ItemContainer.m_children this) i = Some child
                  /\ Item.ptr child = item).
  { unfold ItemContainer.contains. rewrite existsb_exists. split.
    - intros (child & Hin & Hp). apply In_nth_error in Hin. destruct Hin as (i & Hi).
      exists i, child. split; [exact Hi|]. apply Z.eqb_eq. exact Hp.
    - intros (i & child & Hi & Hp). exists child.
      split; [apply (nth_error_In _ _ Hi)|]. apply Z.eqb_eq. exact Hp. }
  assert (Hrec :
            forall this : Item,
              ItemContainer.contains_recursive this item = true
              <-> exists (path : list nat) (found : Item) (ancestors : list Item),
                    path <> []
                    /\ ItemContainer.locate this [] path = Some (found, ancestors)
                    /\ Item.ptr found = item).
  { clear. intros this. split.
    - induction this as [d|d c cs IH] using Item_tree_ind; [discriminate|].
      cbn [ItemContainer.contains_recursive]. rewrite existsb_exists.
      intros (child & Hin & Hc). rewrite Forall_forall in IH.
      destruct (In_nth_error _ _ Hin) as (i & Hi).
      apply orb_true_iff in Hc. destruct Hc as [Hc|Hc].
      + exists [i], child, [Container d c cs]. split; [discriminate|].
        split; [cbn; rewrite Hi; reflexivity|]. apply Z.eqb_eq. exact Hc.
      + destruct (IH child Hin Hc) as (path & found & ancestors & Hne & Hloc & Hp).
        destruct (locate_from path child found [] ancestors Hloc [Container d c cs])
          as (others & Hloc').
        exists (i :: path), found, others. split; [discriminate|].
        split; [cbn; rewrite Hi; exact Hloc'|exact Hp].
    - intros (path & found & ancestors & Hne & Hloc & Hp).
      revert this ancestors Hne Hloc.
      generalize (@nil Item) as start.
      induction path as [|i rest IH]; intros start this ancestors Hne Hloc;
        [contradiction|].
      cbn [ItemContainer.locate] in Hloc.
      destruct (nth_error (ItemContainer.m_children this) i) as [child|] eqn:Hi;
        [|discriminate].
      destruct this as [d|d c cs]; [destruct i; discriminate|].
      cbn [ItemContainer.contains_recursive ItemContainer.m_children] in *.
      rewrite existsb_exists. exists child. split; [apply (nth_error_In _ _ Hi)|].
      apply orb_true_iff. destruct rest as [|j rest'].
      + left. injection Hloc as <- _. apply Z.eqb_eq. exact Hp.
      + right. apply (IH (Container d c cs :: start) child ancestors); [discriminate|].
        exact Hloc. }
  split; [exact Hdirect|]. split; [apply Hrec|].
  intros H. apply Hrec. apply Hdirect in H. destruct H as (i & child & Hi & Hp).
  exists [i], child, [this]. split; [discriminate|].
  split; [cbn; rewrite Hi; reflexivity|exact Hp].
Qed.

(** ** Counting and listing the leaves *)

Lemma fold_left_sum {A} (g : A -> Z) (l : list A) :
  forall acc, fold_left (fun count item => count + g item) l acc
              = acc + QVector.sum (map g l).
Proof.
  induction l as [|a l IH]; intros acc; cbn [fold_left map].
  - unfold QVector.sum. cbn. lia.
  - rewrite IH. unfold QVector.sum. cbn [fold_right]. lia.
Qed.

Lemma fold_left_append {A B} (g : A -> list B) (l : list A) :
  forall acc, fold_left (fun items item => items ++ g item) l acc
              = acc ++ flat_map g l.
Proof.
  induction l as [|a l IH]; intros acc; cbn [fold_left flat_map].
  - rewrite app_nil_r. reflexivity.
  - rewrite IH, app_assoc. reflexivity.
Qed.

Lemma fold_left_ext {A B} (f g : A -> B -> A) (l : list B) :
  (forall a b, f a b = g a b) -> forall acc, fold_left f l acc = fold_left g l acc.
Proof.
  intros H. induction l as [|b l IH]; intros acc; cbn [fold_left]; [reflexivity|].
  rewrite H. apply IH.
Qed.

Lemma count_recursive_eq (d : ItemData) (c : ContainerData) (cs : list Item) :
  Walk.count_recursive (Container d c cs)
  = QVector.sum
      (map (fun item => if Item.isContainer item then Walk.count_recursive item else 1)
         cs).
Proof.
  cbn [Walk.count_recursive].
  rewrite (fold_left_ext _
             (fun count item =>
                count + (if Item.isContainer item then Walk.count_recursive item else 1))).
  - rewrite fold_left_sum. lia.
  - intros a b. destruct (Item.isContainer b); reflexivity.
Qed.

Lemma items_recursive_eq (d : ItemData) (c : ContainerData) (cs : list Item) :
  Walk.items_recursive (Container d c cs)
  = flat_map
      (fun item => if Item.isContainer item then Walk.items_recursive item else [item])
      cs.
Proof.
  cbn [Walk.items_recursive].
  rewrite (fold_left_ext _
             (fun items item =>
                items ++ (if Item.isContainer item then Walk.items_recursive item
                          else [item]))).
  - rewrite fold_left_append. reflexivity.
  - intros a b. destruct (Item.isContainer b); reflexivity.
Qed.

Lemma visibleCount_recursive_eq (d : ItemData) (c : ContainerData) (cs : list Item) :
  Walk.visibleCount_recursive (Container d c cs)
  = QVector.sum (map Walk.visibleCount_recursive cs).
Proof.
  cbn [Walk.visibleCount_recursive]. rewrite fold_left_sum. lia.
Qed.

Lemma sum_app (l l' : list Z) : QVector.sum (l ++ l') = QVector.sum l + QVector.sum l'.
Proof.
  unfold QVector.sum. induction l as [|a l IH]; cbn [app fold_right]; [lia|].
  rewrite IH. lia.
Qed.

Lemma visibleCount_recursive_items (it : Item) :
  Walk.visibleCount_recursive it
  = if Item.isContainer it
    then QVector.count (filter (Item.isVisible false) (Walk.items_recursive it))
    else if Item.isVisible false it then 1 else 0.
Proof.
  induction it as [d|d c cs IH] using Item_tree_ind; [reflexivity|].
  cbn [Item.isContainer]. rewrite visibleCount_recursive_eq, items_recursive_eq.
  induction IH as [|a l Ha _ IHl]; [reflexivity|].
  cbn [map flat_map]. rewrite filter_app. unfold QVector.count in *.
  rewrite length_app, Nat2Z.inj_add, <- IHl.
  unfold QVector.sum. cbn [fold_right]. fold (QVector.sum (map Walk.visibleCount_recursive l)).
  rewrite Ha. destruct (Item.isContainer a); [reflexivity|].
  cbn [filter]. destruct (Item.isVisible false a); reflexivity.
Qed.

(** X9. [count_recursive] is the number of leaves below the container, the
    ones that [items_recursive] lists (it lists no container);
    [visibleCount_recursive] is the number of those leaves that are visible,
    so it lies between 0 and [count_recursive]; and the container is visible
    exactly when that number is positive. *)
Theorem count_recursive_counts_leaves (d : ItemData) (c : ContainerData)
  (cs : list Item) :
  let this := Container d c cs in
  Walk.count_recursive this = QVector.count (Walk.items_recursive this)
  /\ (forall item, In item (Walk.items_recursive this) -> Item.isContainer item = false)
  /\ Walk.visibleCount_recursive this
     = QVector.count (filter (Item.isVisible false) (Walk.items_recursive this))
  /\ 0 <= Walk.visibleCount_recursive this <= Walk.count_recursive this
  /\ (Item.isVisible false this = true <-> 0 < Walk.visibleCount_recursive this).
Proof.
  intros this.
  assert (Hcount : forall it, Item.isContainer it = true ->
                     Walk.count_recursive it = QVector.count (Walk.items_recursive it)).
  { clear. induction it as [d|d c cs IH] using Item_tree_ind; intros Hc; [discriminate|].
    rewrite count_recursive_eq, items_recursive_eq. clear Hc.
    induction IH as [|a l Ha _ IHl]; [reflexivity|].
    cbn [map flat_map]. unfold QVector.count in *.
    rewrite length_app, Nat2Z.inj_add, <- IHl.
    unfold QVector.sum. cbn [fold_right]. f_equal.
    destruct (Item.isContainer a); [apply Ha; reflexivity|reflexivity]. }
  assert (Hleaves : forall it item, In item (Walk.items_recursive it) ->
                      Item.isContainer item = false).
  { clear. induction it as [d|d c cs IH] using Item_tree_ind; intros item Hin;
      [contradiction|].
    rewrite items_recursive_eq in Hin. apply in_flat_map in Hin.
    destruct Hin as (a & Ha & Hin). rewrite Forall_forall in IH.
    destruct (Item.isContainer a) eqn:E.
    - apply (IH a Ha item Hin).
    - destruct Hin as [<-|[]]. exact E. }
  assert (Hvis : Walk.visibleCount_recursive this
                 = QVector.count (filter (Item.isVisible false)
                                    (Walk.items_recursive this)))
    by (apply (visibleCount_recursive_items this)).
  assert (Hpos : forall it, Item.isVisible false it = true
                            <-> 0 < Walk.visibleCount_recursive it).
  { clear. induction it as [d|d c cs IH] using Item_tree_ind.
    - cbn [Walk.visibleCount_recursive]. destruct (Item.isVisible false (Leaf d));
        split; intros; try lia; try reflexivity; discriminate.
    - rewrite visibleCount_recursive_eq. cbn [Item.isVisible].
      assert (Hnn : forall it, 0 <= Walk.visibleCount_recursive it).
      { intros it. rewrite visibleCount_recursive_items. unfold QVector.count.
        destruct (Item.isContainer it); [lia|].
        destruct (Item.isVisible false it); lia. }
      induction IH as [|a l Ha _ IHl].
      + cbn. split; [discriminate|lia].
      + cbn [existsb map]. unfold QVector.sum in *. cbn [fold_right].
        rewrite orb_true_iff, Ha, IHl.
        assert (0 <= fold_right Z.add 0 (map Walk.visibleCount_recursive l)).
        { clear - Hnn. induction l as [|x l' IHx]; cbn; [lia|]. specialize (Hnn x). lia. }
        specialize (Hnn a). lia. }
  split; [apply Hcount; reflexivity|]. split; [apply Hleaves|].
  split; [exact Hvis|]. split; [|apply Hpos].
  rewrite Hvis, (Hcount this eq_refl). unfold QVector.count.
  pose proof (filter_length_le (Item.isVisible false) (Walk.items_recursive this)).
  lia.
Qed.

(** ** Paths from the root *)

Lemma indexOf_nth_error (cs : list Item) :
  forall (i : nat) (child : Item),
    NoDup (map Item.ptr cs) ->
    nth_error cs i = Some child ->
    ItemContainer.indexOf cs (Item.ptr child) = Some i.
Proof.
  induction cs as [|a l IH]; intros [|i] child Hnd Hi; try discriminate.
  - injection Hi as <-. cbn. rewrite Z.eqb_refl. reflexivity.
  - cbn [nth_error] in Hi. cbn [map] in Hnd. inversion Hnd as [|x xs Hnotin Hnd']; subst.
    cbn [ItemContainer.indexOf].
    destruct (Item.ptr a =? Item.ptr child) eqn:E.
    + exfalso. apply Hnotin. apply Z.eqb_eq in E. rewrite E.
      apply in_map. apply (nth_error_In _ _ Hi).
    + rewrite (IH i child Hnd' Hi). reflexivity.
Qed.

Lemma pathFromRoot_locate (path : list nat) :
  forall (root this : Item) (start ancestors : list Item),
    ItemContainer.locate root start path = Some (this, ancestors) ->
    Walk.UniqueSiblings root ->
    Walk.pathFromRoot this ancestors
    = Walk.pathFromRoot root start ++ map Z.of_nat path.
Proof.
  induction path as [|i rest IH]; intros root this start ancestors Hloc Hu.
  - injection Hloc as <- <-. rewrite app_nil_r. reflexivity.
  - cbn [ItemContainer.locate] in Hloc.
    destruct (nth_error (ItemContainer.m_children root) i) as [child|] eqn:Hi;
      [|discriminate].
    destruct root as [d|d c cs]; [destruct i; discriminate|].
    inversion Hu as [|d' c' cs' Hnd Hchildren]; subst.
    cbn [ItemContainer.m_children] in Hi.
    rewrite (IH child this (Container d c cs :: start) ancestors Hloc
               (Hchildren child (nth_error_In _ _ Hi))).
    cbn [Walk.pathFromRoot ItemContainer.m_children map].
    unfold Walk.indexOfInt. rewrite (indexOf_nth_error cs i child Hnd Hi).
    rewrite <- app_assoc. reflexivity.
Qed.

Lemma itemFromPath_locate (path : list nat) :
  forall (root this : Item) (start ancestors : list Item),
    ItemContainer.locate root start path = Some (this, ancestors) ->
    Walk.itemFromPathLoop root (map Z.of_nat path) = inr (Some this, []).
Proof.
  induction path as [|i rest IH]; intros root this start ancestors Hloc.
  - injection Hloc as <- _. reflexivity.
  - cbn [ItemContainer.locate] in Hloc.
    destruct (nth_error (ItemContainer.m_children root) i) as [child|] eqn:Hi;
      [|discriminate].
    cbn [map Walk.itemFromPathLoop].
    assert (Hlt : (i < List.length (ItemContainer.m_children root))%nat)
      by (apply nth_error_Some; rewrite Hi; discriminate).
    replace ((Z.of_nat i <? 0)
             || (Z.of_nat i >=? QVector.count (ItemContainer.m_children root)))
      with false
      by (symmetry; apply orb_false_iff; unfold QVector.count; split; lia).
    unfold QVector.at_.
    replace (Z.of_nat i <? 0) with false by (symmetry; lia).
    rewrite Nat2Z.id, Hi.
    destruct rest as [|j rest'].
    + injection Hloc as <- _. reflexivity.
    + cbn [map].
      assert (Hc : Item.isContainer child = true).
      { cbn [ItemContainer.locate] in Hloc.
        destruct child as [d|d c cs]; [destruct j; discriminate|reflexivity]. }
      rewrite Hc. apply (IH child this (root :: start) ancestors Hloc).
Qed.

(** X10. In a tree where no container holds the same pointer twice among its
    children, an item is found again by its path: [pathFromRoot] of the item
    at a path of child indices below the root is that path, and
    [itemFromPath] of the root on it answers the item and logs nothing. *)
Theorem itemFromPath_pathFromRoot (root this : Item) (ancestors : list Item)
  (path : list nat) :
  ItemContainer.locate root [] path = Some (this, ancestors) ->
  Walk.UniqueSiblings root ->
  Walk.pathFromRoot this ancestors = map Z.of_nat path
  /\ Walk.itemFromPath root (Walk.pathFromRoot this ancestors) = inr (Some this, []).
Proof.
  intros Hloc Hu.
  pose proof (pathFromRoot_locate path root this [] ancestors Hloc Hu) as Hp.
  cbn [Walk.pathFromRoot app] in Hp. split; [exact Hp|].
  rewrite Hp. apply (itemFromPath_locate path root this [] ancestors Hloc).
Qed.

Lemma nested_unique_siblings : Walk.UniqueSiblings Scenario.nested.
Proof.
  constructor.
  - cbn. repeat constructor; cbn; intuition discriminate.
  - intros child [<-|[<-|[]]].
    + constructor.
      * cbn. repeat constructor; cbn; intuition discriminate.
      * intros leaf [<-|[<-|[]]]; constructor.
    + constructor.
Qed.

(** X10 on the leaf L2 of the layout of S3, the second child of the first
    child of the root. *)
Lemma itemFromPath_pathFromRoot_witness :
  exists (this : Item) (ancestors : list Item),
    ItemContainer.locate Scenario.nested [] [0; 1]%nat = Some (this, ancestors)
    /\ Item.ptr this = 102
    /\ Walk.pathFromRoot this ancestors = [0; 1]
    /\ Walk.itemFromPath Scenario.nested [0; 1] = inr (Some this, []).
Proof.
  do 2 eexists. split; [vm_compute; reflexivity|]. split; [reflexivity|].
  match goal with
  | |- Walk.pathFromRoot ?t ?a = _ /\ _ =>
      destruct (itemFromPath_pathFromRoot Scenario.nested t a [0; 1]%nat eq_refl
                  nested_unique_siblings) as [Hp Hi]
  end.
  split; [exact Hp|]. rewrite Hp in Hi. exact Hi.
Defined.

(** [itemFromPath] on an index that is out of range, or on a path that goes
    through a leaf, logs the invalid index and answers null. *)
Lemma itemFromPath_invalid_index :
  Walk.itemFromPath Scenario.nested [2] = inr (None, ["Invalid index"%string])
  /\ Walk.itemFromPath Scenario.nested [-1] = inr (None, ["Invalid index"%string])
  /\ Walk.itemFromPath Scenario.nested [1; 0] = inr (None, ["Invalid index"%string]).
Proof. repeat split. Qed.

(** ** The maximum size of a container *)

Lemma maxSize_fold (vertical : bool) (listed : list (bool * QSize)) :
  forall maxW maxH count,
    let '(maxW', maxH', _) :=
      fold_left
        (fun (acc : Z * Z * Z) (e : bool * QSize) =>
           let '(maxW, maxH, count) := acc in
           if fst e
           then
             if vertical
             then (Z.min maxW (wd (snd e)), maxH + ht (snd e), count + 1)
             else (maxW + wd (snd e), Z.min maxH (ht (snd e)), count + 1)
           else acc)
        listed (maxW, maxH, count) in
    if vertical
    then maxW' <= maxW
         /\ ((forall e, In e listed -> fst e = true -> maxW <= wd (snd e)) ->
             maxW' = maxW)
    else maxH' <= maxH
         /\ ((forall e, In e listed -> fst e = true -> maxH <= ht (snd e)) ->
             maxH' = maxH).
Proof.
  induction listed as [|[b sz] l IH]; intros maxW maxH count.
  - cbn. destruct vertical; split; auto; lia.
  - cbn [fold_left fst snd]. destruct b.
    + destruct vertical.
      * specialize (IH (Z.min maxW (wd sz)) (maxH + ht sz) (count + 1)).
        destruct (fold_left _ l _) as [[w h] n]. destruct IH as [Hle Heq].
        split; [lia|]. intros Hall.
        assert (maxW <= wd sz) by (apply (Hall (true, sz)); [left|]; reflexivity).
        rewrite Heq; [lia|]. intros e Hin He.
        specialize (Hall e (or_intror Hin) He). lia.
      * specialize (IH (maxW + wd sz) (Z.min maxH (ht sz)) (count + 1)).
        destruct (fold_left _ l _) as [[w h] n]. destruct IH as [Hle Heq].
        split; [lia|]. intros Hall.
        assert (maxH <= ht sz) by (apply (Hall (true, sz)); [left|]; reflexivity).
        rewrite Heq; [lia|]. intros e Hin He.
        specialize (Hall e (or_intror Hin) He). lia.
    + specialize (IH maxW maxH count).
      destruct (fold_left _ l _) as [[w h] n].
      destruct vertical; destruct IH as [Hle Heq]; (split; [exact Hle|]);
        intros Hall; apply Heq; intros e Hin He; apply (Hall e (or_intror Hin) He).
Qed.

(** X11. [ItemContainer::maxSize] never answers a positive maximum across
    the axis of the container: the loop takes the smallest of 0 and the
    maxima of the visible children, so the width of a vertical container's
    maximum size (the height of a horizontal one's) is at most 0, and it is
    0 whenever none of those maxima is negative. *)
Theorem maxSize_across_is_not_positive (d : ItemData) (c : ContainerData)
  (cs : list Item) :
  let this := Container d c cs in
  let across (sz : QSize) : Z :=
    if Layouting.isVerticalO (m_orientation c) then wd sz else ht sz in
  across (Walk.maxSize this) <= 0
  /\ ((forall item, In item cs -> ItemContainer.isListedVisible false item = true ->
                    0 <= across (Walk.maxSize item)) ->
      across (Walk.maxSize this) = 0).
Proof.
  cbv zeta. cbn [Walk.maxSize].
  destruct (ItemContainer.isEmpty (Container d c cs)).
  { destruct (Layouting.isVerticalO (m_orientation c)); cbn; split; auto; lia. }
  pose proof (maxSize_fold (Layouting.isVerticalO (m_orientation c))
                (map (fun item => (ItemContainer.isListedVisible false item,
                                   Walk.maxSize item)) cs) 0 0 0) as H.
  destruct (fold_left _ _ _) as [[w h] n].
  destruct (Layouting.isVerticalO (m_orientation c)); cbn [wd ht];
    destruct H as [Hle Heq]; (split; [exact Hle|]);
    intros Hall; apply Heq; intros e Hin He; apply in_map_iff in Hin;
    destruct Hin as (item & <- & Hin); apply (Hall item Hin He).
Qed.

(** ** Mapping rectangles and coordinates *)

Lemma QRect_eq (a b : QRect) :
  x1 a = x1 b -> y1 a = y1 b -> x2 a = x2 b -> y2 a = y2 b -> a = b.
Proof. destruct a, b; cbn; intros; subst; reflexivity. Qed.

(** X12. Mapping a rectangle to the root or from the root moves it without
    changing its size, wherever the root sits. For an item whose root sits at
    the origin the two mappings undo each other on rectangles, and so do
    [mapToRoot] and [mapFromRoot] on a coordinate along either axis. *)
Theorem mapToRoot_rect_and_coordinate (this : Item) (ancestors : list Item)
  (r : QRect) (p : Z) (o : Orientation) :
  QRect.size (Mapping.mapToRootRect this ancestors r) = QRect.size r
  /\ QRect.size (Mapping.mapFromRootRect this ancestors r) = QRect.size r
  /\ (Item.pos (Item.root this ancestors) = QPoint.origin ->
      Mapping.mapFromRootRect this ancestors (Mapping.mapToRootRect this ancestors r) = r
      /\ Mapping.mapToRootRect this ancestors (Mapping.mapFromRootRect this ancestors r) = r
      /\ Item.mapFromRoot1 this ancestors (Item.mapToRoot1 this ancestors p o) o = p
      /\ Item.mapToRoot1 this ancestors (Item.mapFromRoot1 this ancestors p o) o = p).
Proof.
  unfold Mapping.mapToRootRect, Mapping.mapFromRootRect, Item.mapFromRoot1,
    Item.mapToRoot1.
  split; [|split].
  - generalize (Item.mapToRoot this ancestors (QRect.topLeft r)).
    intros [sx sy]; destruct r as [a b c d].
    unfold QRect.moveTopLeft, QRect.moveTop, QRect.moveLeft, QRect.size,
      QRect.width, QRect.height.
    cbn [px py x1 y1 x2 y2]. f_equal; lia.
  - generalize (Item.mapFromRoot this ancestors (QRect.topLeft r)).
    intros [sx sy]; destruct r as [a b c d].
    unfold QRect.moveTopLeft, QRect.moveTop, QRect.moveLeft, QRect.size,
      QRect.width, QRect.height.
    cbn [px py x1 y1 x2 y2]. f_equal; lia.
  - intros Hroot.
    destruct (Layouting.isVerticalO o);
      rewrite !mapToRoot_sum, !mapFromRoot_sum, !sumPos_split, Hroot;
      generalize (Invariant.sumPos (removelast (this :: ancestors)));
      intros [sx sy]; destruct r as [a b c d];
      unfold QRect.moveTopLeft, QRect.moveTop, QRect.moveLeft, QRect.topLeft,
        QRect.size, QRect.width, QRect.height, QPoint.add, QPoint.sub, QPoint.origin;
      cbn [px py x1 y1 x2 y2];
      repeat split; try (f_equal; lia); lia.
Qed.

(** X12 at the leaf B of [sameOrientationNest], 290 to the right of the
    root's left edge. *)
Lemma mapToRoot_rect_and_coordinate_witness :
  exists (this : Item) (ancestors : list Item),
    ItemContainer.locate Scenario.sameOrientationNest [] [1; 0; 1]%nat
    = Some (this, ancestors)
    /\ Mapping.mapToRootRect this ancestors (QRect.make 0 0 310 600)
       = QRect.make 290 0 310 600
    /\ Mapping.mapFromRootRect this ancestors
         (Mapping.mapToRootRect this ancestors (QRect.make 0 0 310 600))
       = QRect.make 0 0 310 600.
Proof.
  do 2 eexists. split; [vm_compute; reflexivity|]. split; [reflexivity|].
  match goal with
  | |- Mapping.mapFromRootRect ?t ?a _ = _ =>
      apply (proj2 (proj2 (mapToRoot_rect_and_coordinate t a (QRect.make 0 0 310 600)
                             0 Horizontal))
               eq_refl)
  end.
Defined.

(** ** Positioning the children *)

Lemma placed_sizing (o : Orientation) (l nextPos : Z) (s : SizingInfo) :
  let across := Layouting.oppositeOrientation o in
  let s' := SizingInfo.setPos nextPos o
              (SizingInfo.setPos 0 across (SizingInfo.setLength l across s)) in
  SizingInfo.position s' o = nextPos
  /\ SizingInfo.length s' o = SizingInfo.length s o
  /\ SizingInfo.position s' across = 0
  /\ SizingInfo.length s' across = l
  /\ minSize s' = minSize s
  /\ isBeingInserted s' = isBeingInserted s.
Proof.
  destruct s as [[a b c d] mn mx pc ins]. cbv zeta.
  unfold Layouting.oppositeOrientation, SizingInfo.position, SizingInfo.length,
    SizingInfo.pos, SizingInfo.size, SizingInfo.setPos, SizingInfo.setLength,
    SizingInfo.withGeometry, Layouting.pos, Layouting.length.
  destruct (Layouting.isVerticalO o) eqn:E; cbn [Layouting.isVerticalO Z.eqb Horizontal
    Vertical Pos.eqb]; unfold QRect.topLeft, QRect.size, QRect.width, QRect.height,
    QRect.moveTop, QRect.moveLeft, QRect.setHeight, QRect.setWidth;
    cbn; repeat split; lia.
Qed.

Lemma positionItemsFrom_nth (this : Item) (sizes : list SizingInfo) :
  forall (nextPos : Z) (i : nat) (s : SizingInfo),
    let o := ItemContainer.orientation this in
    let across := Layouting.oppositeOrientation o in
    nth_error sizes i = Some s ->
    exists s',
      nth_error (ItemContainer.positionItemsFrom this nextPos sizes) i = Some s'
      /\ (isBeingInserted s = true -> s' = s)
      /\ (isBeingInserted s = false ->
          SizingInfo.position s' o
          = nextPos + QVector.sum (map (advance o) (firstn i sizes))
          /\ SizingInfo.length s' o = SizingInfo.length s o
          /\ SizingInfo.position s' across = 0
          /\ SizingInfo.length s' across = Layouting.length (Item.size this) across
          /\ minSize s' = minSize s
          /\ isBeingInserted s' = false).
Proof.
  cbv zeta. induction sizes as [|a l IH]; intros nextPos [|i] s Hi; try discriminate.
  - injection Hi as ->. cbn [ItemContainer.positionItemsFrom].
    destruct (isBeingInserted s) eqn:Hb.
    + exists s. split; [reflexivity|]. split; [reflexivity|discriminate].
    + eexists. split; [reflexivity|]. split; [discriminate|]. intros _.
      unfold QVector.sum. cbn [firstn map fold_right].
      destruct (placed_sizing (ItemContainer.orientation this)
                  (Layouting.length (Item.size this)
                     (Layouting.oppositeOrientation (ItemContainer.orientation this)))
                  nextPos s) as (H1 & H2 & H3 & H4 & H5 & H6).
      rewrite H1, H2, H3, H4, H5, H6. repeat split; try assumption. lia.
  - cbn [nth_error] in Hi. cbn [ItemContainer.positionItemsFrom].
    destruct (isBeingInserted a) eqn:Hb.
    + destruct (IH (nextPos + Layouting.separatorThickness) i s Hi)
        as (s' & Hs' & Hin & Hout).
      exists s'. split; [exact Hs'|]. split; [exact Hin|].
      intros Hns. destruct (Hout Hns) as (H1 & Hrest).
      split; [|exact Hrest]. rewrite H1.
      unfold QVector.sum. cbn [firstn map fold_right]. unfold advance at 2.
      rewrite Hb. fold (QVector.sum (map (advance (ItemContainer.orientation this))
                                       (firstn i l))). lia.
    + match goal with
      | |- context [ItemContainer.positionItemsFrom this ?p l] =>
          destruct (IH p i s Hi) as (s' & Hs' & Hin & Hout)
      end.
      exists s'. split; [exact Hs'|]. split; [exact Hin|].
      intros Hns. destruct (Hout Hns) as (H1 & Hrest).
      split; [|exact Hrest]. rewrite H1.
      unfold QVector.sum. cbn [firstn map fold_right]. unfold advance at 2.
      rewrite Hb. fold (QVector.sum (map (advance (ItemContainer.orientation this))
                                       (firstn i l))).
      assert (Hlen : forall o sz (s0 : SizingInfo),
                 SizingInfo.length
                   (SizingInfo.setPos nextPos o
                      (SizingInfo.setPos 0 (Layouting.oppositeOrientation o)
                         (SizingInfo.setLength sz (Layouting.oppositeOrientation o) s0)))
                   o
                 = SizingInfo.length s0 o)
        by (intros o sz s0; apply (placed_sizing o sz nextPos s0)).
      rewrite Hlen. lia.
Qed.

Lemma edge_position (s : SizingInfo) (o : Orientation) :
  SizingInfo.edge s o = SizingInfo.position s o + SizingInfo.length s o - 1.
Proof.
  destruct s as [[a b c d] mn mx pc ins].
  unfold SizingInfo.edge, SizingInfo.position, SizingInfo.length, SizingInfo.pos,
    SizingInfo.size, Layouting.pos, Layouting.length.
  destruct (Layouting.isVerticalO o);
    unfold QRect.bottom, QRect.right, QRect.topLeft, QRect.size, QRect.width,
      QRect.height; cbn; lia.
Qed.

Lemma sum_firstn_S {A} (g : A -> Z) (l : list A) :
  forall (i : nat) (a : A),
    nth_error l i = Some a ->
    QVector.sum (map g (firstn (S i) l)) = QVector.sum (map g (firstn i l)) + g a.
Proof.
  unfold QVector.sum.
  induction l as [|x l IH]; intros [|i] a Hi; try discriminate.
  - injection Hi as ->. cbn. lia.
  - cbn [nth_error] in Hi. specialize (IH i a Hi).
    change (firstn (S (S i)) (x :: l)) with (x :: firstn (S i) l).
    change (firstn (S i) (x :: l)) with (x :: firstn i l).
    cbn [map fold_right]. rewrite IH. lia.
Qed.

(** X13. [positionItems] lays the entries of the vector of sizes out one
    after the other along the axis of the container: an entry that is not
    being inserted keeps its length, starts where the lengths and the
    separators of the entries before it end (an entry being inserted counts
    for a separator only), lies at 0 across the axis and gets the container's
    length across it; so between two consecutive entries that are not
    being inserted there is exactly one separator thickness, no gap and no
    overlap. *)
Theorem positionItems_places_consecutively (this : Item) (sizes : list SizingInfo)
  (i : nat) (s : SizingInfo) :
  let o := ItemContainer.orientation this in
  let across := Layouting.oppositeOrientation o in
  let placed := ItemContainer.positionItemsSizes this sizes in
  nth_error sizes i = Some s ->
  isBeingInserted s = false ->
  exists s',
    nth_error placed i = Some s'
    /\ SizingInfo.position s' o = QVector.sum (map (advance o) (firstn i sizes))
    /\ SizingInfo.length s' o = SizingInfo.length s o
    /\ SizingInfo.position s' across = 0
    /\ SizingInfo.length s' across = Layouting.length (Item.size this) across
    /\ forall next : SizingInfo,
         nth_error sizes (S i) = Some next ->
         isBeingInserted next = false ->
         exists next',
           nth_error placed (S i) = Some next'
           /\ SizingInfo.position next' o
              = SizingInfo.edge s' o + 1 + Layouting.separatorThickness.
Proof.
  cbv zeta. intros Hi Hb. unfold ItemContainer.positionItemsSizes.
  destruct (positionItemsFrom_nth this sizes 0 i s Hi) as (s' & Hs' & _ & Hout).
  destruct (Hout Hb) as (H1 & H2 & H3 & H4 & _).
  exists s'. split; [exact Hs'|]. split; [rewrite H1; lia|].
  split; [exact H2|]. split; [exact H3|]. split; [exact H4|].
  intros next Hn Hnb.
  destruct (positionItemsFrom_nth this sizes 0 (S i) next Hn) as (n' & Hn' & _ & Hnout).
  destruct (Hnout Hnb) as (N1 & _).
  exists n'. split; [exact Hn'|].
  rewrite N1, (sum_firstn_S _ sizes i s Hi), edge_position, H1, H2.
  unfold advance. rewrite Hb. lia.
Qed.

(** X13 on the three children in a row, put out of place first. *)
Lemma positionItems_places_consecutively_witness :
  exists s',
    nth_error (ItemContainer.positionItemsSizes (Scenario.sideBySide 498)
                 (map (SizingInfo.setPos 7 Horizontal) Scenario.threeInARow)) 2
    = Some s'
    /\ geometry s' = QRect.make 610 0 390 600.
Proof.
  destruct (positionItems_places_consecutively (Scenario.sideBySide 498)
              (map (SizingInfo.setPos 7 Horizontal) Scenario.threeInARow) 2
              (SizingInfo.setPos 7 Horizontal
                 (mkSizingInfo (QRect.make 610 0 390 600) (mkQSize 80 90)
                    (mkQSize 16777215 16777215) 0%float false))
              eq_refl eq_refl) as (s' & Hs' & _).
  exists s'. split; [exact Hs'|].
  vm_compute in Hs'. injection Hs' as <-. reflexivity.
Defined.

(** ** Squeezing the neighbours *)

Lemma takeInOrder_length (avs : list Z) :
  forall needed, List.length (takeInOrder needed avs) = List.length avs.
Proof. induction avs as [|a avs IH]; intros needed; simpl; [|rewrite IH]; reflexivity. Qed.

Lemma takeInOrder_zero (avs : list Z) :
  Forall (fun a => 0 <= a) avs -> takeInOrder 0 avs = repeat 0 (List.length avs).
Proof.
  induction 1 as [|a avs Ha _ IH]; cbn [takeInOrder List.length repeat];
    [reflexivity|].
  replace (Z.min 0 a) with 0 by lia. change (0 - 0) with 0. rewrite IH. reflexivity.
Qed.

Lemma takeInOrder_sum (avs : list Z) :
  forall needed,
    Forall (fun a => 0 <= a) avs -> 0 <= needed ->
    QVector.sum (takeInOrder needed avs) = Z.min needed (QVector.sum avs).
Proof.
  induction avs as [|a avs IH]; intros needed Hav Hn; simpl.
  - unfold QVector.sum; simpl. lia.
  - inversion Hav as [|? ? Ha Hrest]; subst.
    pose proof (sum_nonneg avs Hrest) as Hs.
    unfold QVector.sum in *. simpl. rewrite IH by (assumption || lia). lia.
Qed.

Lemma takeInOrder_bounded (avs : list Z) :
  forall needed,
    Forall (fun a => 0 <= a) avs -> 0 <= needed ->
    Forall2 (fun took a => 0 <= took <= a) (takeInOrder needed avs) avs.
Proof.
  induction avs as [|a avs IH]; intros needed Hav Hn; simpl; constructor.
  - inversion Hav; subst. lia.
  - inversion Hav; subst. apply IH; [assumption|lia].
Qed.

Lemma takeInOrder_le_needed (avs : list Z) :
  forall needed i,
    Forall (fun a => 0 <= a) avs -> 0 <= needed ->
    nth i (takeInOrder needed avs) 0 <= needed.
Proof.
  induction avs as [|a avs IH]; intros needed i Hav Hn; simpl.
  - destruct i; lia.
  - inversion Hav as [|? ? Ha Hrest]; subst. destruct i as [|i]; [lia|].
    assert (Hle : 0 <= needed - Z.min needed a) by lia.
    specialize (IH (needed - Z.min needed a) i Hrest Hle). lia.
Qed.

(** A donor gives something only when the donors asked before it gave all
    they had. *)
Lemma takeInOrder_greedy (avs : list Z) :
  forall needed i j,
    Forall (fun a => 0 <= a) avs -> 0 <= needed ->
    (i < j)%nat ->
    0 < nth j (takeInOrder needed avs) 0 ->
    nth i (takeInOrder needed avs) 0 = nth i avs 0.
Proof.
  induction avs as [|a avs IH]; intros needed i j Hav Hn Hij Hj; simpl in *.
  - destruct j; lia.
  - inversion Hav as [|? ? Ha Hrest]; subst. destruct j as [|j]; [lia|].
    assert (Hle : 0 <= needed - Z.min needed a) by lia.
    destruct i as [|i].
    + pose proof (takeInOrder_le_needed avs (needed - Z.min needed a) j Hrest Hle).
      lia.
    + apply (IH _ i j); try assumption; lia.
Qed.

Lemma update_app_middle {A} (f : A -> A) (pre : list A) (a : A) (post : list A) :
  forall n, n = List.length pre ->
    QVector.update n f (pre ++ a :: post) = pre ++ f a :: post.
Proof.
  induction pre as [|x pre IH]; intros n ->; simpl; [reflexivity|].
  rewrite IH; reflexivity.
Qed.

Lemma nth_app_middle {A} (d : A) (pre : list A) (a : A) (post : list A) :
  forall n, n = List.length pre -> nth n (pre ++ a :: post) d = a.
Proof. intros n ->. apply nth_middle. Qed.

(** The loop of [ImmediateNeighboursFirst], from the first donor on. *)
Lemma squeezeImmediate_forward (count : nat) (rest : list Z) :
  forall pre_av pre_sq missing,
    List.length pre_sq = List.length pre_av ->
    Forall (fun a => 0 <= a) rest ->
    0 <= missing ->
    ItemContainer.squeezeImmediate false count
      (seq (List.length pre_av) (List.length rest))
      (pre_av ++ rest) (pre_sq ++ repeat 0 (List.length rest)) missing
    = (pre_sq ++ takeInOrder missing rest,
       missing - QVector.sum (takeInOrder missing rest)).
Proof.
  induction rest as [|a rest IH]; intros pre_av pre_sq missing Hlen Hav Hm.
  - simpl. unfold QVector.sum. simpl. rewrite Z.sub_0_r. reflexivity.
  - inversion Hav as [|? ? Ha Hrest]; subst.
    cbn [List.length seq repeat ItemContainer.squeezeImmediate takeInOrder].
    rewrite (nth_app_middle 0 pre_av a rest _ eq_refl).
    rewrite (update_app_middle _ pre_sq 0 _ _ (eq_sym Hlen)).
    assert (Hstep :
      (if a >? 0
       then (pre_sq ++ (0 + Z.min missing a) :: repeat 0 (List.length rest),
             missing - Z.min missing a)
       else (pre_sq ++ 0 :: repeat 0 (List.length rest), missing))
      = (pre_sq ++ Z.min missing a :: repeat 0 (List.length rest),
         missing - Z.min missing a)).
    { destruct (a >? 0) eqn:Ea; [reflexivity|].
      replace (Z.min missing a) with 0 by lia. rewrite Z.sub_0_r. reflexivity. }
    rewrite Hstep. clear Hstep.
    unfold QVector.sum. cbn [fold_right]. fold (QVector.sum (takeInOrder (missing - Z.min missing a) rest)).
    destruct (missing - Z.min missing a =? 0) eqn:E0.
    + apply Z.eqb_eq in E0. rewrite E0, (takeInOrder_zero rest Hrest), sum_repeat_zero.
      f_equal. lia.
    + specialize (IH (pre_av ++ [a]) (pre_sq ++ [Z.min missing a])
                    (missing - Z.min missing a)).
      rewrite !length_app in IH. simpl in IH.
      rewrite !Nat.add_1_r, <- !app_assoc in IH. simpl in IH.
      rewrite IH by (assumption || lia). f_equal. lia.
Qed.

(** The loop of [ImmediateNeighboursFirst] with [reversed], from the last
    donor on. *)
Lemma squeezeImmediate_backward (rest : list Z) :
  forall post_av post_sq missing,
    List.length post_sq = List.length post_av ->
    Forall (fun a => 0 <= a) rest ->
    0 <= missing ->
    ItemContainer.squeezeImmediate true (List.length rest + List.length post_av)
      (seq (List.length post_av) (List.length rest))
      (rest ++ post_av) (repeat 0 (List.length rest) ++ post_sq) missing
    = (rev (takeInOrder missing (rev rest)) ++ post_sq,
       missing - QVector.sum (takeInOrder missing (rev rest))).
Proof.
  induction rest as [|a rest IH] using rev_ind; intros post_av post_sq missing Hlen Hav Hm.
  - simpl. unfold QVector.sum. simpl. rewrite Z.sub_0_r. reflexivity.
  - apply Forall_app in Hav. destruct Hav as [Hrest Ha].
    inversion Ha as [|? ? Ha0 _]; subst.
    rewrite length_app, rev_app_distr. simpl List.length. rewrite Nat.add_1_r.
    cbn [seq repeat ItemContainer.squeezeImmediate takeInOrder rev app].
    replace (S (List.length rest) + List.length post_av - 1 - List.length post_av)%nat
      with (List.length rest) by lia.
    rewrite <- app_assoc. cbn [app].
    rewrite (nth_app_middle 0 rest a post_av _ eq_refl).
    assert (Hz : 0 :: repeat 0 (List.length rest) ++ post_sq
                 = repeat 0 (List.length rest) ++ 0 :: post_sq).
    { change (0 :: repeat 0 (List.length rest) ++ post_sq)
        with ((0 :: repeat 0 (List.length rest)) ++ post_sq).
      rewrite repeat_cons, <- app_assoc. reflexivity. }
    rewrite Hz. clear Hz.
    rewrite (update_app_middle _ (repeat 0 (List.length rest)) 0 post_sq _
               (eq_sym (repeat_length 0 (List.length rest)))).
    assert (Hstep :
      (if a >? 0
       then (repeat 0 (List.length rest) ++ (0 + Z.min missing a) :: post_sq,
             missing - Z.min missing a)
       else (repeat 0 (List.length rest) ++ 0 :: post_sq, missing))
      = (repeat 0 (List.length rest) ++ Z.min missing a :: post_sq,
         missing - Z.min missing a)).
    { destruct (a >? 0) eqn:Ea; [reflexivity|].
      replace (Z.min missing a) with 0 by lia. rewrite Z.sub_0_r. reflexivity. }
    rewrite Hstep. clear Hstep.
    unfold QVector.sum. cbn [fold_right].
    fold (QVector.sum (takeInOrder (missing - Z.min missing a) (rev rest))).
    rewrite <- app_assoc. cbn [app].
    assert (Hrev : Forall (fun a => 0 <= a) (rev rest)).
    { apply Forall_forall. intros x Hx. apply in_rev in Hx.
      exact (proj1 (Forall_forall _ _) Hrest x Hx). }
    destruct (missing - Z.min missing a =? 0) eqn:E0.
    + apply Z.eqb_eq in E0.
      rewrite E0, (takeInOrder_zero _ Hrev), sum_repeat_zero, length_rev, rev_repeat.
      f_equal. lia.
    + specialize (IH (a :: post_av) (Z.min missing a :: post_sq)
                    (missing - Z.min missing a)).
      simpl List.length in IH.
      replace (List.length rest + S (List.length post_av))%nat
        with (S (List.length rest) + List.length post_av)%nat in IH by lia.
      rewrite IH by (simpl; assumption || lia). f_equal. lia.
Qed.

Lemma sum_rev (l : list Z) : QVector.sum (rev l) = QVector.sum l.
Proof.
  induction l as [|a l IH]; [reflexivity|].
  cbn [rev]. rewrite sum_app, IH. unfold QVector.sum. simpl. lia.
Qed.

Lemma Forall2_rev {A B} (P : A -> B -> Prop) (l : list A) (l' : list B) :
  Forall2 P l l' -> Forall2 P (rev l) (rev l').
Proof.
  induction 1 as [|a b l l' Hab _ IH]; [constructor|].
  cbn [rev]. apply Forall2_app; [exact IH|]. constructor; [exact Hab|constructor].
Qed.

Lemma Forall2_of_nth (P : Z -> Z -> Prop) (l : list Z) :
  forall l',
    List.length l = List.length l' ->
    (forall i, P (nth i l 0) (nth i l' 0)) ->
    Forall2 P l l'.
Proof.
  induction l as [|a l IH]; intros [|b l'] Hlen Hnth; try discriminate; constructor.
  - exact (Hnth O).
  - apply IH; [simpl in Hlen; lia|]. intros i. exact (Hnth (S i)).
Qed.

Lemma Forall2_map_r {A B C} (P : A -> C -> Prop) (f : B -> C) (l : list A) :
  forall l', Forall2 P l (map f l') -> Forall2 (fun a b => P a (f b)) l l'.
Proof.
  induction l as [|a l IH]; intros [|b l'] H; inversion H; subst; constructor; auto.
Qed.

Lemma availabilities_nonneg (o : Orientation) (range : list SizingInfo) :
  Forall (fun a => 0 <= a)
    (map (fun it => SizingInfo.availableLength it o) range).
Proof.
  apply Forall_forall. intros a Hin. apply in_map_iff in Hin.
  destruct Hin as (it & <- & _). unfold SizingInfo.availableLength. lia.
Qed.

Lemma calculateSqueezes_immediate (this : Item) (range : list SizingInfo)
  (needed : Z) (reversed : bool) :
  let availabilities :=
    map (fun it => SizingInfo.availableLength it (ItemContainer.orientation this))
      range in
  0 <= needed ->
  ItemContainer.calculateSqueezes this range needed ImmediateNeighboursFirst reversed
  = ItemContainer.Squeezes
      (if reversed then rev (takeInOrder needed (rev availabilities))
       else takeInOrder needed availabilities).
Proof.
  intros availabilities Hn. unfold ItemContainer.calculateSqueezes.
  fold availabilities.
  pose proof (availabilities_nonneg (ItemContainer.orientation this) range) as Hav.
  fold availabilities in Hav.
  destruct reversed.
  - pose proof (squeezeImmediate_backward availabilities [] [] needed eq_refl Hav Hn)
      as H.
    cbn [List.length] in H. rewrite Nat.add_0_r, !app_nil_r in H.
    rewrite H. reflexivity.
  - pose proof (squeezeImmediate_forward (List.length availabilities) availabilities
                  [] [] needed eq_refl Hav Hn) as H.
    cbn [List.length app] in H. rewrite H. reflexivity.
Qed.

(** X14. [calculateSqueezes] with [ImmediateNeighboursFirst], for a needed
    amount that is not negative: the donors are asked one after the other,
    from the first one on, or from the last one on with [reversed], and each
    gives what is still needed up to what it has available. So the squeezes
    add up to the needed amount, or to all that is available when that is
    less; none is negative or above the availability of its donor; and a
    donor gives something only when every donor asked before it gave all it
    had. *)
Theorem calculateSqueezes_ImmediateNeighboursFirst_in_order
  (this : Item) (range : list SizingInfo) (needed : Z) (reversed : bool) :
  let o := ItemContainer.orientation this in
  let availabilities := map (fun it => SizingInfo.availableLength it o) range in
  let asked := if reversed then rev availabilities else availabilities in
  let given := takeInOrder needed asked in
  0 <= needed ->
  ItemContainer.calculateSqueezes this range needed ImmediateNeighboursFirst reversed
  = ItemContainer.Squeezes (if reversed then rev given else given)
  /\ List.length given = List.length range
  /\ QVector.sum given = Z.min needed (QVector.sum availabilities)
  /\ (forall i : nat, 0 <= nth i given 0 <= nth i asked 0)
  /\ (forall i j : nat,
         (i < j)%nat -> 0 < nth j given 0 -> nth i given 0 = nth i asked 0).
Proof.
  intros o availabilities asked given Hn.
  pose proof (availabilities_nonneg o range) as Hav. fold availabilities in Hav.
  assert (Hasked : Forall (fun a => 0 <= a) asked).
  { unfold asked. destruct reversed; [|exact Hav].
    apply Forall_forall. intros x Hx. apply in_rev in Hx.
    exact (proj1 (Forall_forall _ _) Hav x Hx). }
  split.
  { rewrite (calculateSqueezes_immediate this range needed reversed Hn).
    unfold given, asked, availabilities, o. destruct reversed; reflexivity. }
  split.
  { unfold given. rewrite takeInOrder_length. unfold asked.
    destruct reversed; [rewrite length_rev|]; unfold availabilities;
      apply length_map. }
  split.
  { unfold given. rewrite (takeInOrder_sum asked needed Hasked Hn).
    unfold asked. destruct reversed; [rewrite sum_rev|]; reflexivity. }
  split.
  { intros i. pose proof (takeInOrder_bounded asked needed Hasked Hn) as Hb.
    fold given in Hb.
    destruct (Nat.lt_ge_cases i (List.length given)) as [Hi|Hi].
    - destruct (nth_error given i) as [g|] eqn:Eg;
        [|apply nth_error_None in Eg; lia].
      destruct (Forall2_nth_error _ _ _ Hb i g Eg) as (a & Ea & Hga).
      rewrite (nth_error_nth _ _ 0 Eg), (nth_error_nth _ _ 0 Ea). exact Hga.
    - rewrite (nth_overflow given 0 Hi).
      pose proof (Forall2_length Hb) as Hl.
      rewrite (nth_overflow asked 0) by lia. lia. }
  intros i j Hij Hj.
  exact (takeInOrder_greedy asked needed i j Hasked Hn Hij Hj).
Qed.

(** X14 on three donors with 10, 0 and 25 available, asked for 30 from the
    last one on. *)
Lemma calculateSqueezes_ImmediateNeighboursFirst_witness :
  ItemContainer.calculateSqueezes (Scenario.sideBySide 498)
    (map (fun w => mkSizingInfo (QRect.make 0 0 w 600) (mkQSize 80 90)
                     (mkQSize 16777215 16777215) 0%float false)
       [90; 80; 105])
    30 ImmediateNeighboursFirst true
  = ItemContainer.Squeezes [5; 0; 25].
Proof.
  destruct (calculateSqueezes_ImmediateNeighboursFirst_in_order
              (Scenario.sideBySide 498)
              (map (fun w => mkSizingInfo (QRect.make 0 0 w 600) (mkQSize 80 90)
                               (mkQSize 16777215 16777215) 0%float false)
                 [90; 80; 105])
              30 true ltac:(lia)) as (H & _).
  exact H.
Defined.

Lemma incrementLength_length (o : Orientation) (k : Z) (s : SizingInfo) :
  SizingInfo.length (SizingInfo.incrementLength k o s) o = SizingInfo.length s o + k.
Proof.
  destruct s as [[a b c d] mn mx pc ins].
  unfold SizingInfo.incrementLength, SizingInfo.setLength, SizingInfo.length,
    SizingInfo.size, Layouting.length.
  destruct (Layouting.isVerticalO o);
    unfold SizingInfo.withGeometry, QRect.setHeight, QRect.setWidth, QRect.size,
      QRect.width, QRect.height; cbn; lia.
Qed.

Lemma incrementLength_rest (o : Orientation) (k : Z) (s : SizingInfo) :
  let s' := SizingInfo.incrementLength k o s in
  SizingInfo.length s' (Layouting.oppositeOrientation o)
  = SizingInfo.length s (Layouting.oppositeOrientation o)
  /\ SizingInfo.pos s' = SizingInfo.pos s
  /\ minSize s' = minSize s
  /\ isBeingInserted s' = isBeingInserted s.
Proof.
  destruct s as [[a b c d] mn mx pc ins].
  unfold SizingInfo.incrementLength, SizingInfo.setLength, SizingInfo.length,
    SizingInfo.size, SizingInfo.pos, Layouting.length, Layouting.oppositeOrientation.
  destruct (Layouting.isVerticalO o);
    unfold SizingInfo.withGeometry, QRect.setHeight, QRect.setWidth, QRect.size,
      QRect.width, QRect.height, QRect.topLeft; cbn; repeat split; lia.
Qed.

Lemma incrementLength_zero (o : Orientation) (s : SizingInfo) :
  SizingInfo.incrementLength 0 o s = s.
Proof.
  destruct s as [[a b c d] mn mx pc ins].
  unfold SizingInfo.incrementLength, SizingInfo.setLength, SizingInfo.length,
    SizingInfo.size, Layouting.length.
  destruct (Layouting.isVerticalO o);
    unfold SizingInfo.withGeometry, QRect.setHeight, QRect.setWidth, QRect.size,
      QRect.width, QRect.height; cbn; f_equal; f_equal; lia.
Qed.

(** What the two loops of [shrinkNeighbours] do to one entry. *)
Lemma shrink_by_squeeze (o : Orientation) (squeeze : Z) (s : SizingInfo) :
  SizingInfo.setSize
    (QRect.size (Layouting.adjustedRect (geometry s) o 0 (- squeeze))) s
  = SizingInfo.incrementLength (- squeeze) o s
  /\ SizingInfo.setSize
       (QRect.size (Layouting.adjustedRect (geometry s) o squeeze 0)) s
     = SizingInfo.incrementLength (- squeeze) o s.
Proof.
  destruct s as [[a b c d] mn mx pc ins].
  unfold SizingInfo.incrementLength, SizingInfo.setLength, SizingInfo.length,
    SizingInfo.size, SizingInfo.setSize, Layouting.length, Layouting.adjustedRect.
  destruct (Layouting.isVerticalO o);
    unfold SizingInfo.withGeometry, QRect.setHeight, QRect.setWidth, QRect.size,
      QRect.setSize, QRect.adjust, QRect.width, QRect.height; cbn;
    split; f_equal; f_equal; lia.
Qed.

Lemma applySqueezes_spec (o : Orientation) (side : Side) (squeezes : list Z) :
  forall pre mid post,
    List.length squeezes = List.length mid ->
    ItemContainer.applySqueezes o side (List.length pre) squeezes (pre ++ mid ++ post)
    = pre ++ shrinkEach o squeezes mid ++ post.
Proof.
  induction squeezes as [|k squeezes IH]; intros pre [|m mid] post Hlen;
    try discriminate; [reflexivity|].
  cbn [ItemContainer.applySqueezes app].
  rewrite (update_app_middle _ pre m (mid ++ post) _ eq_refl).
  specialize (IH (pre ++ [SizingInfo.incrementLength (- k) o m]) mid post).
  rewrite length_app, Nat.add_1_r, <- app_assoc in IH. cbn [List.length app] in IH.
  destruct (shrink_by_squeeze o k m) as [H1 H2].
  destruct side; [rewrite H1|rewrite H2]; (rewrite IH by (simpl in Hlen; lia));
    rewrite <- app_assoc; reflexivity.
Qed.

Lemma shrinkEach_length (o : Orientation) (squeezes : list Z) (sizes : list SizingInfo) :
  List.length squeezes = List.length sizes ->
  List.length (shrinkEach o squeezes sizes) = List.length sizes.
Proof.
  intros H. unfold shrinkEach. rewrite length_map, length_combine. lia.
Qed.

Lemma shrinkEach_total (o : Orientation) (squeezes : list Z) :
  forall sizes,
    List.length squeezes = List.length sizes ->
    totalLength o (shrinkEach o squeezes sizes)
    = totalLength o sizes - QVector.sum squeezes.
Proof.
  unfold totalLength, shrinkEach, QVector.sum.
  induction squeezes as [|k squeezes IH]; intros [|s sizes] Hlen; try discriminate;
    [reflexivity|].
  cbn [combine map fold_right fst snd]. rewrite incrementLength_length.
  rewrite IH by (simpl in Hlen; lia). lia.
Qed.

Lemma shrinkEach_Squeezed (o : Orientation) (squeezes : list Z)
  (sizes : list SizingInfo) :
  Forall2 (fun k s => 0 <= k <= SizingInfo.availableLength s o) squeezes sizes ->
  Forall2 (Squeezed o) sizes (shrinkEach o squeezes sizes).
Proof.
  induction 1 as [|k s squeezes sizes Hk _ IH]; [constructor|].
  constructor; [|exact IH]. exists k. split; [exact Hk|reflexivity].
Qed.

Lemma shrinkEach_zero (o : Orientation) (sizes : list SizingInfo) :
  shrinkEach o (repeat 0 (List.length sizes)) sizes = sizes.
Proof.
  unfold shrinkEach. induction sizes as [|s sizes IH]; [reflexivity|].
  cbn [List.length repeat combine map fst snd]. rewrite IH.
  change (- 0) with 0. rewrite incrementLength_zero. reflexivity.
Qed.

Lemma zeros_within (o : Orientation) (sizes : list SizingInfo) :
  Forall2 (fun k s => 0 <= k <= SizingInfo.availableLength s o)
    (repeat 0 (List.length sizes)) sizes.
Proof.
  induction sizes as [|s sizes IH]; constructor; [|exact IH].
  unfold SizingInfo.availableLength. lia.
Qed.

Lemma Squeezed_facts (o : Orientation) (s s' : SizingInfo) :
  Squeezed o s s' ->
  minSize s' = minSize s
  /\ SizingInfo.length s' o <= SizingInfo.length s o
  /\ (atLeastMin o s -> atLeastMin o s').
Proof.
  intros (k & Hk & ->).
  destruct (incrementLength_rest o (- k) s) as (_ & _ & Hmin & _).
  pose proof (incrementLength_length o (- k) s) as Hl.
  unfold atLeastMin, SizingInfo.minLength, SizingInfo.availableLength in *.
  rewrite Hmin, Hl. unfold SizingInfo.minLength in Hk. repeat split; lia.
Qed.

(** Enough is available: both strategies of [calculateSqueezes] find
    squeezes that add up to the needed amount. *)
Lemma calculateSqueezes_enough (this : Item) (range : list SizingInfo) (needed : Z)
  (strategy : NeighbourSqueezeStrategy) (reversed : bool) :
  let o := ItemContainer.orientation this in
  0 <= needed <= totalAvailable o range ->
  exists squeezes,
    ItemContainer.calculateSqueezes this range needed strategy reversed
    = ItemContainer.Squeezes squeezes
    /\ Forall2 (fun k s => 0 <= k <= SizingInfo.availableLength s o) squeezes range
    /\ QVector.sum squeezes = needed.
Proof.
  intros o [Hn Hle]. unfold totalAvailable in Hle.
  pose proof (availabilities_nonneg o range) as Hav.
  set (availabilities := map (fun it => SizingInfo.availableLength it o) range) in *.
  destruct strategy.
  - pose proof (squeezeAllNeighbours_spec (Z.to_nat needed) availabilities
                  (repeat 0 (List.length availabilities)) needed
                  (eq_sym (repeat_length 0 _)) Hav Hn (Nat.le_refl _)) as H.
    unfold ItemContainer.calculateSqueezes. fold o. fold availabilities.
    destruct (ItemContainer.squeezeAllNeighbours _ _ _ _) as [sq| |];
      [|lia|contradiction].
    destruct H as (_ & Hlen & Hsum & Hnth).
    exists sq. split; [reflexivity|]. split.
    + apply (Forall2_map_r (fun k a => 0 <= k <= a)
                 (fun s => SizingInfo.availableLength s o)). fold availabilities.
      apply Forall2_of_nth.
      * rewrite Hlen, repeat_length. reflexivity.
      * intros i. specialize (Hnth i). rewrite nth_repeat_zero in Hnth. lia.
    + rewrite Hsum, sum_repeat_zero. lia.
  - rewrite (calculateSqueezes_immediate this range needed reversed Hn).
    fold o. fold availabilities.
    destruct reversed.
    + assert (Hrev : Forall (fun a => 0 <= a) (rev availabilities)).
      { apply Forall_forall. intros x Hx. apply in_rev in Hx.
        exact (proj1 (Forall_forall _ _) Hav x Hx). }
      eexists. split; [reflexivity|]. split.
      * apply (Forall2_map_r (fun k a => 0 <= k <= a)
                 (fun s => SizingInfo.availableLength s o)). fold availabilities.
        rewrite <- (rev_involutive availabilities) at 2.
        apply Forall2_rev. apply takeInOrder_bounded; assumption.
      * rewrite sum_rev, takeInOrder_sum, sum_rev by assumption. lia.
    + eexists. split; [reflexivity|]. split.
      * apply (Forall2_map_r (fun k a => 0 <= k <= a)
                 (fun s => SizingInfo.availableLength s o)). fold availabilities.
        apply takeInOrder_bounded; assumption.
      * rewrite takeInOrder_sum by assumption. lia.
Qed.

Lemma firstn_exact {A} (pre post : list A) :
  forall n, n = List.length pre -> firstn n (pre ++ post) = pre.
Proof.
  induction pre as [|x pre IH]; intros n ->; simpl; [reflexivity|].
  rewrite IH; reflexivity.
Qed.

Lemma skipn_after {A} (pre : list A) (a : A) (post : list A) :
  forall n, n = List.length pre -> skipn (S n) (pre ++ a :: post) = post.
Proof.
  induction pre as [|x pre IH]; intros n ->; [reflexivity|].
  cbn [List.length app]. rewrite skipn_cons. apply IH. reflexivity.
Qed.

(** The two loops of [shrinkNeighbours], on a vector cut at the index of the
    item that grows. *)
Lemma shrinkNeighbours_spec (this : Item) (pre : list SizingInfo) (it : SizingInfo)
  (post : list SizingInfo) (a1 a2 : Z) (strategy : NeighbourSqueezeStrategy) :
  let o := ItemContainer.orientation this in
  0 <= a1 <= totalAvailable o pre ->
  0 <= a2 <= totalAvailable o post ->
  exists sq1 sq2,
    ItemContainer.shrinkNeighbours this (List.length pre) (pre ++ it :: post)
      a1 a2 strategy
    = inr (shrinkEach o sq1 pre ++ it :: shrinkEach o sq2 post, [])
    /\ Forall2 (fun k s => 0 <= k <= SizingInfo.availableLength s o) sq1 pre
    /\ Forall2 (fun k s => 0 <= k <= SizingInfo.availableLength s o) sq2 post
    /\ QVector.sum sq1 = a1
    /\ QVector.sum sq2 = a2.
Proof.
  intros o H1 H2.
  assert (Hside1 : exists sq1,
    (if a1 >? 0
     then
       squeezes <-
         ItemContainer.squeezesOf
           (ItemContainer.calculateSqueezes this
              (firstn (List.length pre) (pre ++ it :: post)) a1 strategy
              match strategy with
              | ImmediateNeighboursFirst => true
              | AllNeighbours => false
              end) ;;
       Exec.ret (ItemContainer.applySqueezes o Side1 0 squeezes (pre ++ it :: post))
     else Exec.ret (pre ++ it :: post))
    = Exec.ret (shrinkEach o sq1 pre ++ it :: post)
    /\ Forall2 (fun k s => 0 <= k <= SizingInfo.availableLength s o) sq1 pre
    /\ QVector.sum sq1 = a1).
  { destruct (a1 >? 0) eqn:E1.
    - rewrite (firstn_exact pre (it :: post) _ eq_refl).
      destruct (calculateSqueezes_enough this pre a1 strategy
                  match strategy with
                  | ImmediateNeighboursFirst => true
                  | AllNeighbours => false
                  end H1) as (sq & Hsq & Hb & Hs).
      exists sq. rewrite Hsq. cbn [ItemContainer.squeezesOf]. rewrite bind_ret_l.
      pose proof (applySqueezes_spec o Side1 sq [] pre (it :: post)
                    (Forall2_length Hb)) as Happ.
      cbn [List.length app] in Happ. rewrite Happ. auto.
    - exists (repeat 0 (List.length pre)). rewrite shrinkEach_zero.
      split; [reflexivity|]. split; [apply zeros_within|].
      rewrite sum_repeat_zero. lia. }
  destruct Hside1 as (sq1 & Hrun1 & Hb1 & Hs1).
  set (pre' := shrinkEach o sq1 pre) in *.
  assert (Hlen' : List.length pre = List.length pre').
  { unfold pre'. rewrite shrinkEach_length; [reflexivity|].
    exact (Forall2_length Hb1). }
  assert (Hside2 : exists sq2,
    (if a2 >? 0
     then
       squeezes <-
         ItemContainer.squeezesOf
           (ItemContainer.calculateSqueezes this
              (skipn (S (List.length pre)) (pre' ++ it :: post)) a2 strategy false) ;;
       Exec.ret (ItemContainer.applySqueezes o Side2 (S (List.length pre)) squeezes
                   (pre' ++ it :: post))
     else Exec.ret (pre' ++ it :: post))
    = Exec.ret (pre' ++ it :: shrinkEach o sq2 post)
    /\ Forall2 (fun k s => 0 <= k <= SizingInfo.availableLength s o) sq2 post
    /\ QVector.sum sq2 = a2).
  { destruct (a2 >? 0) eqn:E2.
    - rewrite (skipn_after pre' it post _ Hlen').
      destruct (calculateSqueezes_enough this post a2 strategy false H2)
        as (sq & Hsq & Hb & Hs).
      exists sq. rewrite Hsq. cbn [ItemContainer.squeezesOf]. rewrite bind_ret_l.
      pose proof (applySqueezes_spec o Side2 sq (pre' ++ [it]) post []
                    (Forall2_length Hb)) as Happ.
      rewrite length_app, Nat.add_1_r, !app_nil_r, <- !app_assoc in Happ.
      cbn [List.length app] in Happ. rewrite <- Hlen' in Happ.
      rewrite Happ. auto.
    - exists (repeat 0 (List.length post)). rewrite shrinkEach_zero.
      split; [reflexivity|]. split; [apply zeros_within|].
      rewrite sum_repeat_zero. lia. }
  destruct Hside2 as (sq2 & Hrun2 & Hb2 & Hs2).
  exists sq1, sq2. split; [|auto].
  unfold ItemContainer.shrinkNeighbours. fold o.
  rewrite Hrun1, bind_ret_l. exact Hrun2.
Qed.

(** X15. [shrinkNeighbours], for an index in range and amounts that are not
    negative and not above what the entries before the index, and the
    entries after it, have available: every entry comes out shorter along
    the axis by no more than it has available and is otherwise unchanged,
    the entry at the index is untouched, and the entries before the index
    lose exactly [side1Amount] in total, the entries after it exactly
    [side2Amount]. No warning is emitted. *)
Theorem shrinkNeighbours_takes_the_amounts (this : Item) (index : nat)
  (sizes : list SizingInfo) (side1Amount side2Amount : Z)
  (strategy : NeighbourSqueezeStrategy) :
  let o := ItemContainer.orientation this in
  (index < List.length sizes)%nat ->
  0 <= side1Amount <= totalAvailable o (firstn index sizes) ->
  0 <= side2Amount <= totalAvailable o (skipn (S index) sizes) ->
  exists sizes',
    ItemContainer.shrinkNeighbours this index sizes side1Amount side2Amount strategy
    = inr (sizes', [])
    /\ Forall2 (Squeezed o) sizes sizes'
    /\ nth_error sizes' index = nth_error sizes index
    /\ totalLength o (firstn index sizes')
       = totalLength o (firstn index sizes) - side1Amount
    /\ totalLength o (skipn (S index) sizes')
       = totalLength o (skipn (S index) sizes) - side2Amount.
Proof.
  intros o Hindex H1 H2.
  destruct (nth_error sizes index) as [it|] eqn:Eit;
    [|apply nth_error_None in Eit; lia].
  destruct (nth_error_split sizes index Eit) as (pre & post & -> & Hpre).
  subst index.
  rewrite (firstn_exact pre (it :: post) _ eq_refl) in H1.
  rewrite (skipn_after pre it post _ eq_refl) in H2.
  destruct (shrinkNeighbours_spec this pre it post side1Amount side2Amount strategy
              H1 H2) as (sq1 & sq2 & Hrun & Hb1 & Hb2 & Hs1 & Hs2).
  fold o in Hrun, Hb1, Hb2.
  assert (Hl1 : List.length pre = List.length (shrinkEach o sq1 pre)).
  { rewrite shrinkEach_length; [reflexivity|exact (Forall2_length Hb1)]. }
  eexists. split; [exact Hrun|]. split.
  { apply Forall2_app; [apply shrinkEach_Squeezed; exact Hb1|].
    constructor; [|apply shrinkEach_Squeezed; exact Hb2].
    exists 0. split; [unfold SizingInfo.availableLength; lia|].
    change (- 0) with 0. rewrite incrementLength_zero. reflexivity. }
  split.
  { rewrite nth_error_app2 by lia. rewrite <- Hl1, Nat.sub_diag. reflexivity. }
  split.
  { rewrite (firstn_exact _ _ _ Hl1), (firstn_exact pre (it :: post) _ eq_refl),
      shrinkEach_total, Hs1; [reflexivity|exact (Forall2_length Hb1)]. }
  rewrite (skipn_after _ _ _ _ Hl1), (skipn_after pre it post _ eq_refl),
    shrinkEach_total, Hs2; [reflexivity|exact (Forall2_length Hb2)].
Qed.

(** X15 on the three children in a row: 40 taken before the last one,
    nearest neighbour first. *)
Lemma shrinkNeighbours_takes_the_amounts_witness :
  ItemContainer.shrinkNeighbours (Scenario.sideBySide 498) 2 Scenario.threeInARow
    40 0 ImmediateNeighboursFirst
  = inr (map (fun geo => mkSizingInfo geo (mkQSize 80 90) (mkQSize 16777215 16777215)
                           0%float false)
           [QRect.make 0 0 300 600; QRect.make 305 0 260 600;
            QRect.make 610 0 390 600], []).
Proof.
  destruct (shrinkNeighbours_takes_the_amounts (Scenario.sideBySide 498) 2
              Scenario.threeInARow 40 0 ImmediateNeighboursFirst)
    as (sizes' & Hrun & _).
  - vm_compute. lia.
  - vm_compute. split; discriminate.
  - vm_compute. split; discriminate.
  - rewrite Hrun. vm_compute in Hrun. injection Hrun as <-. reflexivity.
Defined.

Lemma fold_left_lengthOnSide (f g : SizingInfo -> Z) (l : list SizingInfo) :
  forall acc,
    fold_left
      (fun (result : LengthOnSide) (size : SizingInfo) =>
         mkLengthOnSide (los_length result + f size) (los_minLength result + g size))
      l acc
    = mkLengthOnSide (los_length acc + QVector.sum (map f l))
        (los_minLength acc + QVector.sum (map g l)).
Proof.
  unfold QVector.sum.
  induction l as [|s l IH]; intros [len mn]; cbn [fold_left map fold_right].
  - cbn. f_equal; lia.
  - rewrite IH. cbn. f_equal; lia.
Qed.

(** [lengthOnSide] on the two sides of the entry at which a vector is cut. *)
Lemma lengthOnSide_cut (o : Orientation) (pre : list SizingInfo) (it : SizingInfo)
  (post : list SizingInfo) :
  ItemContainer.lengthOnSide (pre ++ it :: post) (Z.of_nat (List.length pre) - 1)
    Side1 o
  = mkLengthOnSide (totalLength o pre) (totalMinLength o pre)
  /\ ItemContainer.lengthOnSide (pre ++ it :: post) (Z.of_nat (List.length pre) + 1)
       Side2 o
     = mkLengthOnSide (totalLength o post) (totalMinLength o post).
Proof.
  unfold ItemContainer.lengthOnSide, QVector.count, totalLength, totalMinLength.
  rewrite length_app. cbn [List.length]. split.
  - destruct (Z.of_nat (List.length pre) - 1 <? 0) eqn:E0.
    + apply Z.ltb_lt in E0. destruct pre; [reflexivity|cbn [List.length] in E0; lia].
    + apply Z.ltb_ge in E0.
      destruct (Z.of_nat (List.length pre) - 1
                >=? Z.of_nat (List.length pre + S (List.length post))) eqn:E1.
      * rewrite Z.geb_leb in E1. apply Z.leb_le in E1. lia.
      * replace (S (Z.to_nat (Z.of_nat (List.length pre) - 1)))
          with (List.length pre) by lia.
        rewrite (firstn_exact pre (it :: post) _ eq_refl), fold_left_lengthOnSide.
        reflexivity.
  - destruct (Z.of_nat (List.length pre) + 1 <? 0) eqn:E0;
      [apply Z.ltb_lt in E0; lia|].
    destruct (Z.of_nat (List.length pre) + 1
              >=? Z.of_nat (List.length pre + S (List.length post))) eqn:E1.
    + rewrite Z.geb_leb in E1. apply Z.leb_le in E1.
      destruct post; [reflexivity|cbn [List.length] in E1; lia].
    + replace (Z.to_nat (Z.of_nat (List.length pre) + 1))
        with (S (List.length pre)) by lia.
      rewrite (skipn_after pre it post _ eq_refl), fold_left_lengthOnSide.
      reflexivity.
Qed.

Lemma available_le_total (o : Orientation) (sizes : list SizingInfo) :
  Z.max 0 (totalLength o sizes - totalMinLength o sizes) <= totalAvailable o sizes.
Proof.
  unfold totalLength, totalMinLength, totalAvailable, QVector.sum.
  induction sizes as [|s sizes IH]; cbn [map fold_right]; [lia|].
  unfold SizingInfo.availableLength at 1. lia.
Qed.

Lemma growOwnLength_cut (this : Item) (pre : list SizingInfo) (it : SizingInfo)
  (post : list SizingInfo) (missing : Z) :
  let o := ItemContainer.orientation this in
  ItemContainer.growOwnLength this (List.length pre) missing (pre ++ it :: post)
  = pre
    ++ SizingInfo.setOppositeLength (ItemContainer.oppositeLength this) o
         (SizingInfo.setLength (SizingInfo.length it o + missing) o it)
    :: post.
Proof.
  intros o. unfold ItemContainer.growOwnLength.
  rewrite (update_app_middle _ pre it post _ eq_refl). reflexivity.
Qed.

(** [growItem] with [BothSidesEqually], on a vector cut at the index of the
    item that grows. *)
Lemma growItem_spec (this : Item) (pre : list SizingInfo) (it : SizingInfo)
  (post : list SizingInfo) (missing : Z) (squeeze : NeighbourSqueezeStrategy)
  (account : bool) :
  let o := ItemContainer.orientation this in
  let toSteal := ItemContainer.toStealFor missing account in
  let it' :=
    SizingInfo.setOppositeLength (ItemContainer.oppositeLength this) o
      (SizingInfo.setLength (SizingInfo.length it o + missing) o it) in
  0 < toSteal ->
  toSteal <= Z.max 0 (totalLength o pre - totalMinLength o pre)
             + Z.max 0 (totalLength o post - totalMinLength o post) ->
  exists sq1 sq2,
    ItemContainer.growItem this (Z.of_nat (List.length pre)) (pre ++ it :: post)
      missing BothSidesEqually squeeze account
    = inr (shrinkEach o sq1 pre ++ it' :: shrinkEach o sq2 post, [])
    /\ Forall2 (fun k s => 0 <= k <= SizingInfo.availableLength s o) sq1 pre
    /\ Forall2 (fun k s => 0 <= k <= SizingInfo.availableLength s o) sq2 post
    /\ QVector.sum sq1 + QVector.sum sq2 = toSteal.
Proof.
  intros o toSteal it' Hpos Hle.
  unfold ItemContainer.growItem. fold toSteal. fold o.
  destruct (toSteal =? 0) eqn:E0; [apply Z.eqb_eq in E0; lia|].
  unfold QVector.at_.
  destruct (Z.of_nat (List.length pre) <? 0) eqn:En; [apply Z.ltb_lt in En; lia|].
  rewrite Nat2Z.id, nth_error_app2, Nat.sub_diag by lia. cbn [nth_error].
  rewrite (growOwnLength_cut this pre it post missing). fold o. fold it'.
  destruct (lengthOnSide_cut o pre it' post) as [Hs1 Hs2]. rewrite Hs1, Hs2.
  unfold LengthOnSide.available. cbn [los_length los_minLength].
  set (a1 := Z.max 0 (totalLength o pre - totalMinLength o pre)) in *.
  set (a2 := Z.max 0 (totalLength o post - totalMinLength o post)) in *.
  unfold ItemContainer.growthFor.
  assert (Hcount : (QVector.count (pre ++ it' :: post) =? 1) = false).
  { apply Z.eqb_neq. unfold QVector.count. rewrite length_app. cbn [List.length].
    intros Hone.
    assert (pre = [])
      by (destruct pre; [reflexivity|cbn [List.length] in Hone; lia]).
    assert (post = [])
      by (destruct post; [reflexivity|cbn [List.length] in Hone; lia]).
    subst. unfold a1, a2, totalLength, totalMinLength, QVector.sum in Hle.
    simpl in Hle. lia. }
  rewrite Hcount.
  destruct (growBothSides_first toSteal a1 a2 ltac:(lia) ltac:(lia) Hpos Hle)
    as (s1 & s2 & Hgrow & Hsum & Hb1 & Hb2 & _).
  rewrite Hgrow, bind_ret_l.
  pose proof (available_le_total o pre) as Hp1. fold a1 in Hp1.
  pose proof (available_le_total o post) as Hp2. fold a2 in Hp2.
  destruct (shrinkNeighbours_spec this pre it' post s1 s2 squeeze
              ltac:(fold o; lia) ltac:(fold o; lia))
    as (sq1 & sq2 & Hrun & Hq1 & Hq2 & Hsum1 & Hsum2).
  exists sq1, sq2. split; [exact Hrun|]. split; [exact Hq1|]. split; [exact Hq2|].
  lia.
Qed.

Lemma totalLength_app (o : Orientation) (l l' : list SizingInfo) :
  totalLength o (l ++ l') = totalLength o l + totalLength o l'.
Proof. unfold totalLength. rewrite map_app, sum_app. reflexivity. Qed.

Lemma totalLength_cons (o : Orientation) (s : SizingInfo) (l : list SizingInfo) :
  totalLength o (s :: l) = SizingInfo.length s o + totalLength o l.
Proof. reflexivity. Qed.

Lemma totalMinLength_app (o : Orientation) (l l' : list SizingInfo) :
  totalMinLength o (l ++ l') = totalMinLength o l + totalMinLength o l'.
Proof. unfold totalMinLength. rewrite map_app, sum_app. reflexivity. Qed.

Lemma totalMinLength_cons (o : Orientation) (s : SizingInfo) (l : list SizingInfo) :
  totalMinLength o (s :: l) = SizingInfo.minLength s o + totalMinLength o l.
Proof. reflexivity. Qed.

(** Step #1 of [growItem] on the entry that grows. *)
Lemma grown_facts (o : Orientation) (across missing : Z) (s : SizingInfo) :
  let s' :=
    SizingInfo.setOppositeLength across o
      (SizingInfo.setLength (SizingInfo.length s o + missing) o s) in
  SizingInfo.length s' o = SizingInfo.length s o + missing
  /\ SizingInfo.length s' (Layouting.oppositeOrientation o) = across
  /\ minSize s' = minSize s.
Proof.
  destruct s as [[a b c d] mn mx pc ins].
  unfold SizingInfo.setOppositeLength, SizingInfo.setLength, SizingInfo.length,
    SizingInfo.size, Layouting.length, Layouting.oppositeOrientation.
  destruct (Layouting.isVerticalO o);
    unfold SizingInfo.withGeometry, QRect.setHeight, QRect.setWidth, QRect.size,
      QRect.width, QRect.height; cbn; repeat split; lia.
Qed.

(** X16. [growItem] with [BothSidesEqually], for an index in range, a
    positive amount to steal and neighbours that have it available
    ([toSteal <= available1 + available2], the condition the source asserts):
    it returns without a warning, whatever the squeeze strategy; the entry at
    the index is longer by [missing], takes the container's length across the
    axis and keeps its minimum size; every other entry is shorter by no more
    than it has available and is otherwise unchanged; and the lengths of the
    vector add up to what they did before, plus [missing], minus [toSteal]:
    the same total, or one separator thickness less when a new separator is
    accounted for. *)
Theorem growItem_BothSidesEqually_conserves
  (this : Item) (index : Z) (sizes : list SizingInfo) (missing : Z)
  (squeeze : NeighbourSqueezeStrategy) (account : bool) :
  let o := ItemContainer.orientation this in
  let across := Layouting.oppositeOrientation o in
  let toSteal := ItemContainer.toStealFor missing account in
  let sizes1 := ItemContainer.growOwnLength this (Z.to_nat index) missing sizes in
  let available1 :=
    LengthOnSide.available (ItemContainer.lengthOnSide sizes1 (index - 1) Side1 o) in
  let available2 :=
    LengthOnSide.available (ItemContainer.lengthOnSide sizes1 (index + 1) Side2 o) in
  0 <= index < QVector.count sizes ->
  0 < toSteal ->
  toSteal <= available1 + available2 ->
  exists sizes',
    ItemContainer.growItem this index sizes missing BothSidesEqually squeeze account
    = inr (sizes', [])
    /\ List.length sizes' = List.length sizes
    /\ totalLength o sizes' = totalLength o sizes + missing - toSteal
    /\ (forall s,
          nth_error sizes (Z.to_nat index) = Some s ->
          exists s',
            nth_error sizes' (Z.to_nat index) = Some s'
            /\ SizingInfo.length s' o = SizingInfo.length s o + missing
            /\ SizingInfo.length s' across = ItemContainer.oppositeLength this
            /\ minSize s' = minSize s)
    /\ (forall j s,
          j <> Z.to_nat index ->
          nth_error sizes j = Some s ->
          exists s', nth_error sizes' j = Some s' /\ Squeezed o s s').
Proof.
  intros o across toSteal sizes1 available1 available2 Hindex Hpos Hle.
  unfold QVector.count in Hindex.
  destruct (nth_error sizes (Z.to_nat index)) as [it|] eqn:Eit;
    [|apply nth_error_None in Eit; lia].
  destruct (nth_error_split sizes (Z.to_nat index) Eit) as (pre & post & -> & Hpre).
  assert (Hidx : index = Z.of_nat (List.length pre)) by lia.
  unfold available1, available2, sizes1 in Hle.
  clear Eit available1 available2 sizes1. subst index. rewrite Nat2Z.id in *.
  rewrite (growOwnLength_cut this pre it post missing) in Hle. fold o in Hle.
  match type of Hle with
  | context [ItemContainer.lengthOnSide (pre ++ ?x :: post) _ Side1 o] =>
      destruct (lengthOnSide_cut o pre x post) as [Hs1 Hs2]
  end.
  rewrite Hs1, Hs2 in Hle. unfold LengthOnSide.available in Hle.
  cbn [los_length los_minLength] in Hle.
  destruct (growItem_spec this pre it post missing squeeze account Hpos Hle)
    as (sq1 & sq2 & Hrun & Hb1 & Hb2 & Hsum).
  fold o in Hrun, Hb1, Hb2. fold toSteal in Hsum.
  pose proof (Forall2_length Hb1) as Hq1. pose proof (Forall2_length Hb2) as Hq2.
  pose proof (shrinkEach_length o sq1 pre Hq1) as Hl1.
  pose proof (shrinkEach_length o sq2 post Hq2) as Hl2.
  destruct (grown_facts o (ItemContainer.oppositeLength this) missing it)
    as (Hg1 & Hg2 & Hg3).
  eexists. split; [exact Hrun|]. split.
  { rewrite !length_app. cbn [List.length]. lia. }
  split.
  { rewrite !totalLength_app, !totalLength_cons, Hg1,
      (shrinkEach_total o sq1 pre Hq1), (shrinkEach_total o sq2 post Hq2). lia. }
  split.
  { intros s Hs. injection Hs as <-. eexists. split.
    - rewrite nth_error_app2 by lia. rewrite Hl1, Nat.sub_diag. reflexivity.
    - fold across in Hg2. auto. }
  intros j s Hj Hs.
  destruct (Nat.lt_ge_cases j (List.length pre)) as [Hlt|Hge].
  - rewrite nth_error_app1 in Hs by lia.
    destruct (Forall2_nth_error _ _ _ (shrinkEach_Squeezed o sq1 pre Hb1) j s Hs)
      as (s' & Hs' & HR).
    exists s'. rewrite nth_error_app1 by lia. auto.
  - rewrite nth_error_app2 in Hs by lia.
    destruct (j - List.length pre)%nat as [|m] eqn:Ej; [lia|].
    cbn [nth_error] in Hs.
    destruct (Forall2_nth_error _ _ _ (shrinkEach_Squeezed o sq2 post Hb2) m s Hs)
      as (s' & Hs' & HR).
    exists s'. rewrite nth_error_app2 by lia. rewrite Hl1, Ej. auto.
Qed.

(** X16 on the three children in a row: the first one grows by 30 and a new
    separator is accounted for. *)
Lemma growItem_BothSidesEqually_conserves_witness :
  exists sizes',
    ItemContainer.growItem (Scenario.sideBySide 498) 0 Scenario.threeInARow 30
      BothSidesEqually AllNeighbours true
    = inr (sizes', [])
    /\ map (fun s => SizingInfo.length s Horizontal) sizes' = [330; 282; 373].
Proof.
  destruct (growItem_BothSidesEqually_conserves (Scenario.sideBySide 498) 0
              Scenario.threeInARow 30 AllNeighbours true)
    as (sizes' & Hrun & _).
  - vm_compute. split; [discriminate|reflexivity].
  - vm_compute. reflexivity.
  - vm_compute. discriminate.
  - exists sizes'. split; [exact Hrun|].
    vm_compute in Hrun. injection Hrun as <-. reflexivity.
Defined.

(** X17. The early returns of [growItem]. With nothing to steal
    ([toSteal = 0]) the vector is returned as it is, whatever the index.
    On a vector of one entry [BothSidesEqually] has no neighbour to shrink:
    the entry, already longer by [missing] after step #1, is incremented by
    [missing] once more, so it ends [2 * missing] longer than it was, with
    the container's length across the axis. *)
Theorem growItem_early_returns (this : Item) (missing : Z)
  (squeeze : NeighbourSqueezeStrategy) (account : bool) :
  let o := ItemContainer.orientation this in
  let across := Layouting.oppositeOrientation o in
  let toSteal := ItemContainer.toStealFor missing account in
  (forall index sizes growth,
      toSteal = 0 ->
      ItemContainer.growItem this index sizes missing growth squeeze account
      = inr (sizes, []))
  /\ (forall s,
         toSteal <> 0 ->
         exists s',
           ItemContainer.growItem this 0 [s] missing BothSidesEqually squeeze account
           = inr ([s'], [])
           /\ SizingInfo.length s' o = SizingInfo.length s o + 2 * missing
           /\ SizingInfo.length s' across = ItemContainer.oppositeLength this
           /\ minSize s' = minSize s).
Proof.
  intros o across toSteal. split.
  - intros index sizes growth H0. unfold ItemContainer.growItem. fold toSteal.
    rewrite H0. reflexivity.
  - intros s Hne. unfold ItemContainer.growItem. fold toSteal. fold o.
    destruct (toSteal =? 0) eqn:E0; [apply Z.eqb_eq in E0; contradiction|].
    cbn [QVector.at_ Z.ltb Z.compare Z.to_nat nth_error ItemContainer.growOwnLength
         QVector.update ItemContainer.growthFor QVector.count List.length Z.of_nat
         Pos.of_succ_nat Z.eqb Pos.eqb].
    rewrite bind_ret_l. cbn [QVector.update]. fold o.
    eexists. split; [reflexivity|].
    destruct (grown_facts o (ItemContainer.oppositeLength this) missing s)
      as (Hg1 & Hg2 & Hg3).
    match goal with
    | |- context [SizingInfo.incrementLength missing o ?x] =>
        pose proof (incrementLength_length o missing x) as Hi1;
        destruct (incrementLength_rest o missing x) as (Hi2 & _ & Hi3 & _)
    end.
    fold across in Hg2, Hi2. rewrite Hi1, Hi2, Hi3, Hg1, Hg2, Hg3.
    repeat split; lia.
Qed.

Lemma shrinkEach_minSize (o : Orientation) (squeezes : list Z) :
  forall sizes,
    List.length squeezes = List.length sizes ->
    map minSize (shrinkEach o squeezes sizes) = map minSize sizes.
Proof.
  unfold shrinkEach.
  induction squeezes as [|k squeezes IH]; intros [|s sizes] Hlen; try discriminate;
    [reflexivity|].
  cbn [combine map fst snd].
  destruct (incrementLength_rest o (- k) s) as (_ & _ & Hmin & _).
  rewrite Hmin, IH by (simpl in Hlen; lia). reflexivity.
Qed.

Lemma Squeezed_keeps_atLeastMin (o : Orientation) (l l' : list SizingInfo) :
  Forall2 (Squeezed o) l l' -> Forall (atLeastMin o) l -> Forall (atLeastMin o) l'.
Proof.
  induction 1 as [|s s' l l' Hs _ IH]; intros Hall; [constructor|].
  inversion Hall as [|? ? Hok Hrest]; subst.
  constructor; [|exact (IH Hrest)].
  exact (proj2 (proj2 (Squeezed_facts o s s' Hs)) Hok).
Qed.

Lemma totalMinLength_minSize (o : Orientation) (l l' : list SizingInfo) :
  map minSize l = map minSize l' -> totalMinLength o l = totalMinLength o l'.
Proof.
  unfold totalMinLength, SizingInfo.minLength. intros H.
  rewrite <- (map_map minSize (fun m => Layouting.length m o) l),
    <- (map_map minSize (fun m => Layouting.length m o) l'), H.
  reflexivity.
Qed.

(** The loop of step #2 of [setSize_recursive], from the entry after [done]
    on. *)
Lemma fixMissing_spec (this : Item) (n : nat) :
  let o := ItemContainer.orientation this in
  forall todo done,
    List.length todo = n ->
    Forall (atLeastMin o) done ->
    totalMinLength o (done ++ todo) <= totalLength o (done ++ todo) ->
    exists sizes',
      ItemContainer.fixMissing this (seq (List.length done) (List.length todo))
        (done ++ todo)
      = inr (sizes', [])
      /\ map minSize sizes' = map minSize (done ++ todo)
      /\ totalLength o sizes' = totalLength o (done ++ todo)
      /\ Forall (atLeastMin o) sizes'.
Proof.
  intros o. induction n as [|n IH]; intros [|s todo] done Hn Hdone Htotal;
    try discriminate.
  - exists done. rewrite app_nil_r. repeat split; auto.
  - injection Hn as Hn. cbn [List.length seq ItemContainer.fixMissing].
    rewrite nth_error_app2, Nat.sub_diag by lia. cbn [nth_error]. fold o.
    destruct (SizingInfo.missingLength s o >? 0) eqn:Em.
    + assert (Hmissing : SizingInfo.missingLength s o
                         = SizingInfo.minLength s o - SizingInfo.length s o
                         /\ 0 < SizingInfo.missingLength s o).
      { unfold SizingInfo.missingLength in *. lia. }
      destruct Hmissing as [Hm Hpos].
      rewrite totalMinLength_app, totalLength_app, totalMinLength_cons,
        totalLength_cons in Htotal.
      assert (Henough :
        SizingInfo.missingLength s o
        <= Z.max 0 (totalLength o done - totalMinLength o done)
           + Z.max 0 (totalLength o todo - totalMinLength o todo)) by lia.
      destruct (growItem_spec this done s todo (SizingInfo.missingLength s o)
                  AllNeighbours false Hpos Henough)
        as (sq1 & sq2 & Hrun & Hb1 & Hb2 & Hsum).
      fold o in Hrun, Hb1, Hb2.
      change (ItemContainer.toStealFor (SizingInfo.missingLength s o) false)
        with (SizingInfo.missingLength s o) in Hsum.
      rewrite Hrun, bind_pure.
      pose proof (Forall2_length Hb1) as Hq1. pose proof (Forall2_length Hb2) as Hq2.
      pose proof (shrinkEach_length o sq1 done Hq1) as Hl1.
      pose proof (shrinkEach_length o sq2 todo Hq2) as Hl2.
      destruct (grown_facts o (ItemContainer.oppositeLength this)
                  (SizingInfo.missingLength s o) s) as (Hg1 & _ & Hg3).
      set (s' := SizingInfo.setOppositeLength (ItemContainer.oppositeLength this) o
                   (SizingInfo.setLength
                      (SizingInfo.length s o + SizingInfo.missingLength s o) o s))
        in *.
      set (done' := shrinkEach o sq1 done) in *.
      set (todo' := shrinkEach o sq2 todo) in *.
      assert (Hmins : map minSize ((done' ++ [s']) ++ todo')
                      = map minSize (done ++ s :: todo)).
      { rewrite <- app_assoc. cbn [app]. rewrite !map_app. cbn [map].
        unfold done', todo'.
        rewrite (shrinkEach_minSize o sq1 done Hq1),
          (shrinkEach_minSize o sq2 todo Hq2), Hg3. reflexivity. }
      assert (Hlens : totalLength o ((done' ++ [s']) ++ todo')
                      = totalLength o (done ++ s :: todo)).
      { rewrite <- app_assoc. cbn [app].
        rewrite !totalLength_app, !totalLength_cons, Hg1. unfold done', todo'.
        rewrite (shrinkEach_total o sq1 done Hq1), (shrinkEach_total o sq2 todo Hq2).
        lia. }
      destruct (IH todo' (done' ++ [s'])) as (sizes' & Hrest & Hmin' & Hlen' & Hall').
      * lia.
      * apply Forall_app. split.
        -- exact (Squeezed_keeps_atLeastMin o done done'
                    (shrinkEach_Squeezed o sq1 done Hb1) Hdone).
        -- constructor; [|constructor]. unfold atLeastMin, SizingInfo.minLength.
           rewrite Hg3, Hg1. unfold SizingInfo.minLength in Hm. lia.
      * rewrite (totalMinLength_minSize o _ _ Hmins), Hlens.
        rewrite totalMinLength_app, totalLength_app, totalMinLength_cons,
          totalLength_cons. lia.
      * rewrite length_app, Nat.add_1_r, <- app_assoc in Hrest.
        cbn [List.length app] in Hrest. rewrite Hl1 in Hrest.
        fold todo' in Hl2. rewrite Hl2 in Hrest.
        exists sizes'. split; [exact Hrest|].
        rewrite Hmin', Hmins, Hlen', Hlens. auto.
    + rewrite bind_ret_l.
      destruct (IH todo (done ++ [s])) as (sizes' & Hrest & Hmin' & Hlen' & Hall').
      * exact Hn.
      * apply Forall_app. split; [exact Hdone|]. constructor; [|constructor].
        unfold atLeastMin. unfold SizingInfo.missingLength in Em. lia.
      * rewrite <- app_assoc. exact Htotal.
      * rewrite length_app, Nat.add_1_r, <- app_assoc in Hrest.
        cbn [List.length app] in Hrest, Hmin', Hlen'.
        rewrite <- app_assoc in Hmin', Hlen'. exists sizes'. auto.
Qed.

(** X18. Step #2 of [setSize_recursive], the loop that calls [growItem] for
    every entry below its minimum: when the lengths of the entries add up to
    at least the sum of their minimum lengths, the loop returns without a
    warning and every entry then has at least its minimum length; the
    minimum sizes and the sum of the lengths are what they were. *)
Theorem fixMissing_reaches_minimum (this : Item) (childSizes : list SizingInfo) :
  let o := ItemContainer.orientation this in
  totalMinLength o childSizes <= totalLength o childSizes ->
  exists sizes',
    ItemContainer.fixMissing this (seq 0 (List.length childSizes)) childSizes
    = inr (sizes', [])
    /\ map minSize sizes' = map minSize childSizes
    /\ totalLength o sizes' = totalLength o childSizes
    /\ Forall (fun sizing =>
                 SizingInfo.minLength sizing o <= SizingInfo.length sizing o)
         sizes'.
Proof.
  intros o Htotal.
  exact (fixMissing_spec this (List.length childSizes) childSizes [] eq_refl
           (Forall_nil _) Htotal).
Qed.

(** X18 on three entries of which the first and the last are below their
    minimum of 80. *)
Lemma fixMissing_reaches_minimum_witness :
  exists sizes',
    ItemContainer.fixMissing (Scenario.sideBySide 498) (seq 0 3)
      (map (fun w => mkSizingInfo (QRect.make 0 0 w 600) (mkQSize 80 90)
                       (mkQSize 16777215 16777215) 0%float false)
         [50; 300; 60])
    = inr (sizes', [])
    /\ map (fun s => SizingInfo.length s Horizontal) sizes' = [80; 250; 80].
Proof.
  destruct (fixMissing_reaches_minimum (Scenario.sideBySide 498)
              (map (fun w => mkSizingInfo (QRect.make 0 0 w 600) (mkQSize 80 90)
                               (mkQSize 16777215 16777215) 0%float false)
                 [50; 300; 60]))
    as (sizes' & Hrun & _).
  - vm_compute. discriminate.
  - exists sizes'. split; [exact Hrun|].
    vm_compute in Hrun. injection Hrun as <-. reflexivity.
Defined.

(** ** Resizing the children with their container *)

(** What the [Percentage] branch of [resizeChildren] does to one entry. *)
Lemma resized_facts (this : Item) (n : Z) (s : SizingInfo) :
  let o := ItemContainer.orientation this in
  let s' :=
    if ItemContainer.isVertical this
    then SizingInfo.setSize (mkQSize (Item.width this) n) s
    else SizingInfo.setSize (mkQSize n (Item.height this)) s in
  SizingInfo.length s' o = n
  /\ SizingInfo.length s' (Layouting.oppositeOrientation o)
     = ItemContainer.oppositeLength this.
Proof.
  destruct s as [[a b c d] mn mx pc ins].
  unfold ItemContainer.isVertical, ItemContainer.oppositeLength, SizingInfo.length,
    SizingInfo.size, SizingInfo.setSize, Layouting.length,
    Layouting.oppositeOrientation, ItemContainer.isVertical.
  destruct (Layouting.isVerticalO (ItemContainer.orientation this));
    unfold SizingInfo.withGeometry, QRect.setSize, QRect.size, QRect.width,
      QRect.height; cbn; split; lia.
Qed.

(** The loop of the [Percentage] branch. *)
Lemma resizeByPercentage_spec (this : Item) (lengthChanged : bool) (total : Z) :
  let o := ItemContainer.orientation this in
  let across := Layouting.oppositeOrientation o in
  forall childSizes percentages remaining,
    (List.length childSizes <= List.length percentages)%nat ->
    exists sizes' w,
      ItemContainer.resizeByPercentage this lengthChanged total remaining
        childSizes percentages
      = inr (sizes', w)
      /\ List.length sizes' = List.length childSizes
      /\ (w = [] \/ w = ["Invalid resize newItemLength"%string])
      /\ (w = [] ->
          Forall (fun s => 0 < SizingInfo.length s o
                           /\ SizingInfo.length s across
                              = ItemContainer.oppositeLength this) sizes'
          /\ (lengthChanged = true -> childSizes <> [] ->
              totalLength o sizes' = remaining)
          /\ (lengthChanged = false ->
              map (fun s => SizingInfo.length s o) sizes'
              = map (fun s => SizingInfo.length s o) childSizes)).
Proof.
  intros o across.
  induction childSizes as [|itemSize rest IH]; intros percentages remaining Hlen.
  - exists [], []. split; [reflexivity|]. split; [reflexivity|]. split; [auto|].
    intros _. split; [constructor|].
    split; [intros _ Hne; exfalso; apply Hne; reflexivity|reflexivity].
  - destruct percentages as [|childPercentage ps]; [simpl in Hlen; lia|].
    cbn [ItemContainer.resizeByPercentage]. fold o.
    set (newItemLength :=
           if lengthChanged
           then
             if match rest with [] => true | _ :: _ => false end
             then remaining
             else Double.toInt (PrimFloat.mul childPercentage (Double.ofInt total))
           else SizingInfo.length itemSize o).
    destruct (newItemLength <=? 0) eqn:Epos.
    + exists (itemSize :: rest), ["Invalid resize newItemLength"%string].
      split; [reflexivity|]. split; [reflexivity|]. split; [auto|].
      intros H. discriminate.
    + apply Z.leb_gt in Epos.
      destruct (IH ps (remaining - newItemLength)) as (rest' & w & Hrun & Hl & Hw & Hok).
      { simpl in Hlen. lia. }
      rewrite Hrun, bind_inr_ret.
      destruct (resized_facts this newItemLength itemSize) as [Hr1 Hr2].
      fold o in Hr1, Hr2. fold across in Hr2.
      eexists _, w. split; [reflexivity|]. split; [simpl; rewrite Hl; reflexivity|].
      split; [exact Hw|]. intros Hnil.
      destruct (Hok Hnil) as (Hall & Hsum & Hsame). split; [|split].
      * constructor; [|exact Hall]. rewrite Hr1. auto.
      * intros Hc _. rewrite totalLength_cons, Hr1.
        destruct rest as [|r rest].
        -- destruct rest'; [|discriminate]. unfold newItemLength. rewrite Hc.
           unfold totalLength, QVector.sum. simpl. lia.
        -- rewrite (Hsum Hc) by discriminate. lia.
      * intros Hc. cbn [map]. rewrite Hr1, (Hsame Hc). unfold newItemLength.
        rewrite Hc. reflexivity.
Qed.

(** X19. [resizeChildren] with the [Percentage] strategy, given a percentage
    for every entry: it returns with at most the warning about an invalid
    new length, and when there is no warning every entry has a positive
    length along the axis and the container's length across it; if the
    container's length changed, the lengths of the entries add up to exactly
    [usableLength()], because the last entry gets what the truncated shares
    of the others leave; if it did not change, every entry keeps its
    length. *)
Theorem resizeChildren_Percentage_fills_usableLength (this : Item)
  (oldSize newSize : QSize) (childSizes : list SizingInfo) :
  let o := ItemContainer.orientation this in
  let across := Layouting.oppositeOrientation o in
  let lengthChanged :=
    (ItemContainer.isVertical this && negb (ht oldSize =? ht newSize))
    || (ItemContainer.isHorizontal this && negb (wd oldSize =? wd newSize)) in
  (List.length childSizes <= List.length (ItemContainer.childPercentages this))%nat ->
  exists sizes' w,
    ItemContainer.resizeChildren this oldSize newSize childSizes Percentage
    = inr (sizes', w)
    /\ List.length sizes' = List.length childSizes
    /\ (w = [] \/ w = ["Invalid resize newItemLength"%string])
    /\ (w = [] ->
        Forall (fun s => 0 < SizingInfo.length s o
                         /\ SizingInfo.length s across
                            = ItemContainer.oppositeLength this) sizes'
        /\ (lengthChanged = true -> childSizes <> [] ->
            totalLength o sizes' = ItemContainer.usableLength this)
        /\ (lengthChanged = false ->
            map (fun s => SizingInfo.length s o) sizes'
            = map (fun s => SizingInfo.length s o) childSizes)).
Proof.
  intros o across lengthChanged Hlen.
  unfold ItemContainer.resizeChildren.
  exact (resizeByPercentage_spec this lengthChanged (ItemContainer.usableLength this)
           childSizes (ItemContainer.childPercentages this)
           (ItemContainer.usableLength this) Hlen).
Qed.

Lemma totalAvailable_nonneg (o : Orientation) (sizes : list SizingInfo) :
  0 <= totalAvailable o sizes.
Proof. apply sum_nonneg, availabilities_nonneg. Qed.

Lemma totalAvailable_cons (o : Orientation) (s : SizingInfo) (l : list SizingInfo) :
  totalAvailable o (s :: l) = SizingInfo.availableLength s o + totalAvailable o l.
Proof. reflexivity. Qed.

Lemma totalLength_rev (o : Orientation) (l : list SizingInfo) :
  totalLength o (rev l) = totalLength o l.
Proof. unfold totalLength. rewrite map_rev, sum_rev. reflexivity. Qed.

Lemma totalAvailable_rev (o : Orientation) (l : list SizingInfo) :
  totalAvailable o (rev l) = totalAvailable o l.
Proof. unfold totalAvailable. rewrite map_rev, sum_rev. reflexivity. Qed.

Lemma Squeezed_refl (o : Orientation) (l : list SizingInfo) :
  Forall2 (Squeezed o) l l.
Proof.
  induction l as [|s l IH]; constructor; [|exact IH].
  exists 0. split; [unfold SizingInfo.availableLength; lia|].
  change (- 0) with 0. rewrite incrementLength_zero. reflexivity.
Qed.

(** The loop of the [SeparatorMove] branches when the container shrinks. *)
Lemma resizeBySeparatorMove_shrinking (o : Orientation) (visited : list SizingInfo) :
  forall remaining,
    0 <= remaining ->
    Forall2 (Squeezed o) visited
      (ItemContainer.resizeBySeparatorMove o false remaining visited)
    /\ totalLength o (ItemContainer.resizeBySeparatorMove o false remaining visited)
       = totalLength o visited - Z.min remaining (totalAvailable o visited).
Proof.
  induction visited as [|s rest IH]; intros remaining Hr.
  - split; [constructor|]. cbn. unfold totalAvailable, QVector.sum. simpl. lia.
  - cbn [ItemContainer.resizeBySeparatorMove].
    pose proof (totalAvailable_nonneg o rest) as Hrest.
    assert (Ha : 0 <= SizingInfo.availableLength s o)
      by (unfold SizingInfo.availableLength; lia).
    set (took := Z.min (SizingInfo.availableLength s o) remaining).
    assert (Hs : Squeezed o s (SizingInfo.incrementLength (- took) o s)).
    { exists took. split; [unfold took; lia|reflexivity]. }
    destruct (remaining - took =? 0) eqn:E0.
    + apply Z.eqb_eq in E0. split.
      * constructor; [exact Hs|apply Squeezed_refl].
      * rewrite !totalLength_cons, totalAvailable_cons, incrementLength_length.
        unfold took in *. lia.
    + apply Z.eqb_neq in E0.
      destruct (IH (remaining - took)) as [HF Hsum]; [unfold took; lia|]. split.
      * constructor; [exact Hs|exact HF].
      * rewrite !totalLength_cons, totalAvailable_cons, incrementLength_length, Hsum.
        unfold took in *. lia.
Qed.

Lemma resizeBySeparatorMove_length (o : Orientation) (isGrowing : bool)
  (visited : list SizingInfo) :
  forall remaining,
    List.length (ItemContainer.resizeBySeparatorMove o isGrowing remaining visited)
    = List.length visited.
Proof.
  induction visited as [|s rest IH]; intros remaining; [reflexivity|].
  cbn [ItemContainer.resizeBySeparatorMove].
  destruct isGrowing; [reflexivity|].
  destruct (_ =? 0); cbn [List.length]; [reflexivity|].
  rewrite IH. reflexivity.
Qed.

(** X20. [resizeChildren] with one of the two [SeparatorMove] strategies never
    warns and keeps the number of entries. When the container does not grow
    along its axis, every entry comes out shorter by no more than it has
    available and is otherwise unchanged, and together the entries lose what
    the container lost, or all they have available when that is less. When
    the container grows, one entry takes the whole growth: the first one
    with [Side1SeparatorMove], the last one with [Side2SeparatorMove]. *)
Theorem resizeChildren_SeparatorMove_gives_and_takes (this : Item)
  (oldSize newSize : QSize) (childSizes : list SizingInfo) (side1 : bool) :
  let o := ItemContainer.orientation this in
  let strategy := if side1 then Side1SeparatorMove else Side2SeparatorMove in
  let delta := Layouting.length (QSize.sub newSize oldSize) o in
  exists sizes',
    ItemContainer.resizeChildren this oldSize newSize childSizes strategy
    = inr (sizes', [])
    /\ List.length sizes' = List.length childSizes
    /\ (delta <= 0 ->
        Forall2 (Squeezed o) childSizes sizes'
        /\ totalLength o sizes'
           = totalLength o childSizes
             - Z.min (- delta) (totalAvailable o childSizes))
    /\ (0 < delta ->
        forall front s back,
          childSizes = front ++ s :: back ->
          (if side1 then front = [] else back = []) ->
          sizes' = front ++ SizingInfo.incrementLength delta o s :: back).
Proof.
  intros o strategy delta.
  unfold ItemContainer.resizeChildren. fold o. fold delta.
  destruct (delta >? 0) eqn:Eg.
  - assert (Hd : 0 < delta) by lia.
    replace (Z.abs delta) with delta by lia.
    destruct side1; cbn [strategy andb negb]; eexists; (split; [reflexivity|]);
      (split; [rewrite ?length_rev, resizeBySeparatorMove_length, ?length_rev;
               reflexivity|]);
      (split; [lia|]); intros _ front s back -> Hside; subst.
    + reflexivity.
    + rewrite ?rev_app_distr. cbn [rev app ItemContainer.resizeBySeparatorMove].
      rewrite ?rev_app_distr, ?rev_involutive. reflexivity.
  - assert (Hd : delta <= 0) by lia.
    replace (Z.abs delta) with (- delta) by lia.
    destruct side1; cbn [strategy andb negb]; eexists; (split; [reflexivity|]);
      (split; [rewrite ?length_rev, resizeBySeparatorMove_length, ?length_rev;
               reflexivity|]);
      (split; [intros _|lia]).
    + destruct (resizeBySeparatorMove_shrinking o (rev childSizes) (- delta))
        as [HF Hsum]; [lia|].
      split.
      * rewrite <- (rev_involutive childSizes) at 1. apply Forall2_rev. exact HF.
      * rewrite totalLength_rev, Hsum, totalLength_rev, totalAvailable_rev.
        reflexivity.
    + destruct (resizeBySeparatorMove_shrinking o childSizes (- delta))
        as [HF Hsum]; [lia|].
      split; assumption.
Qed.

(** X19 on two leaves side by side, when their container went from 800 to
    1000 wide. *)
Lemma resizeChildren_Percentage_fills_usableLength_witness :
  exists sizes',
    ItemContainer.resizeChildren (Scenario.sideBySide 498) (mkQSize 800 600)
      (mkQSize 1000 600) (snd (ItemContainer.sizes false (Scenario.sideBySide 498)))
      Percentage
    = inr (sizes', [])
    /\ totalLength Horizontal sizes' = 995.
Proof.
  destruct (resizeChildren_Percentage_fills_usableLength (Scenario.sideBySide 498)
              (mkQSize 800 600) (mkQSize 1000 600)
              (snd (ItemContainer.sizes false (Scenario.sideBySide 498))))
    as (sizes' & w & Hrun & _).
  - vm_compute. apply le_n.
  - pose proof Hrun as Hc. vm_compute in Hc. injection Hc as Hs Hw.
    exists sizes'. split.
    + rewrite Hrun, <- Hw. reflexivity.
    + rewrite <- Hs. vm_compute. reflexivity.
Defined.

(** ** Deleting the separators *)

Lemma separators_recursive_eq (d : ItemData) (c : ContainerData) (cs : list Item) :
  Walk.separators_recursive (Container d c cs)
  = m_separators c
    ++ flat_map
         (fun item =>
            if Item.isContainer item then Walk.separators_recursive item else [])
         cs.
Proof.
  cbn [Walk.separators_recursive].
  rewrite (fold_left_ext _
             (fun separators item =>
                separators ++ (if Item.isContainer item
                               then Walk.separators_recursive item else []))).
  - rewrite fold_left_append. reflexivity.
  - intros a b. destruct (Item.isContainer b); [reflexivity|].
    rewrite app_nil_r. reflexivity.
Qed.

Lemma deleteSeparators_recursive_isContainer (it : Item) :
  Item.isContainer (ItemContainer.deleteSeparators_recursive it) = Item.isContainer it.
Proof. destruct it; reflexivity. Qed.

(** X21. [deleteSeparators_recursive] leaves no separator anywhere in the
    tree, also below hidden children: [separators_recursive()] is empty
    afterwards. The items
    themselves are untouched: [items_recursive()] answers the same leaves and
    the orientations, geometries, size constraints and visibility flags of
    the tree are the same. Deleting twice is deleting once. *)
Theorem deleteSeparators_recursive_leaves_none (this : Item) :
  let this' := ItemContainer.deleteSeparators_recursive this in
  Walk.separators_recursive this' = []
  /\ Walk.items_recursive this' = Walk.items_recursive this
  /\ Invariant.layout this' = Invariant.layout this
  /\ ItemContainer.deleteSeparators_recursive this' = this'.
Proof.
  induction this as [d|d c cs IH] using Item_tree_ind; [repeat split|].
  cbv zeta in IH. cbv zeta.
  change (ItemContainer.deleteSeparators_recursive (Container d c cs))
    with (Container d
            (mkContainerData (m_orientation c) [] (m_blockUpdatePercentages c)
               (m_isDeserializing c) (m_convertingItemToContainer c)
               (m_checkSanityScheduled c))
            (map ItemContainer.deleteSeparators_recursive cs)).
  rewrite Forall_forall in IH.
  split; [|split; [|split]].
  - rewrite separators_recursive_eq. cbn [m_separators app].
    rewrite flat_map_concat_map, map_map.
    apply concat_nil_Forall, Forall_forall. intros l Hl.
    apply in_map_iff in Hl. destruct Hl as (item & <- & Hin).
    destruct (Item.isContainer _); [|reflexivity].
    exact (proj1 (IH item Hin)).
  - rewrite !items_recursive_eq, !flat_map_concat_map, map_map. f_equal.
    apply map_ext_in. intros item Hin.
    rewrite deleteSeparators_recursive_isContainer.
    destruct item as [d'|d' c' cs'] eqn:E; [reflexivity|].
    rewrite <- E in *. replace (Item.isContainer item) with true by (subst; reflexivity).
    exact (proj1 (proj2 (IH item Hin))).
  - cbn [Invariant.layout m_orientation]. f_equal. rewrite map_map.
    apply map_ext_in. intros item Hin. exact (proj1 (proj2 (proj2 (IH item Hin)))).
  - change (ItemContainer.deleteSeparators_recursive (Container ?d0 ?c0 ?cs0))
      with (Container d0
              (mkContainerData (m_orientation c0) [] (m_blockUpdatePercentages c0)
                 (m_isDeserializing c0) (m_convertingItemToContainer c0)
                 (m_checkSanityScheduled c0))
              (map ItemContainer.deleteSeparators_recursive cs0)).
    cbn [m_orientation m_blockUpdatePercentages m_isDeserializing
         m_convertingItemToContainer m_checkSanityScheduled].
    f_equal. rewrite map_map. apply map_ext_in. intros item Hin.
    exact (proj2 (proj2 (proj2 (IH item Hin)))).
Qed.

(** ** The first two steps of [setSize_recursive] together *)

Lemma positionItemsFrom_keeps (this : Item) (sizes : list SizingInfo) :
  forall nextPos,
    map (fun s => SizingInfo.length s (ItemContainer.orientation this))
      (ItemContainer.positionItemsFrom this nextPos sizes)
    = map (fun s => SizingInfo.length s (ItemContainer.orientation this)) sizes
    /\ map minSize (ItemContainer.positionItemsFrom this nextPos sizes)
       = map minSize sizes.
Proof.
  induction sizes as [|s sizes IH]; intros nextPos; [split; reflexivity|].
  cbn [ItemContainer.positionItemsFrom].
  destruct (isBeingInserted s).
  - destruct (IH (nextPos + Layouting.separatorThickness)) as [H1 H2].
    cbn [map]. rewrite H1, H2. split; reflexivity.
  - destruct (placed_sizing (ItemContainer.orientation this)
                (Layouting.length (Item.size this)
                   (Layouting.oppositeOrientation (ItemContainer.orientation this)))
                nextPos s) as (_ & Hl & _ & _ & Hm & _).
    cbv zeta in Hl, Hm. cbv zeta. cbn [map]. rewrite Hl, Hm.
    match goal with
    | |- context [ItemContainer.positionItemsFrom this ?p sizes] =>
        destruct (IH p) as [H1 H2]
    end.
    rewrite H1, H2. split; reflexivity.
Qed.

Lemma resizeByPercentage_minSize (this : Item) (lengthChanged : bool) (total : Z) :
  forall childSizes percentages remaining sizes' w,
    ItemContainer.resizeByPercentage this lengthChanged total remaining
      childSizes percentages
    = inr (sizes', w) ->
    map minSize sizes' = map minSize childSizes.
Proof.
  induction childSizes as [|itemSize rest IH];
    intros percentages remaining sizes' w Hrun.
  - cbn in Hrun. injection Hrun as <- _. reflexivity.
  - destruct percentages as [|childPercentage ps]; [discriminate|].
    cbn [ItemContainer.resizeByPercentage] in Hrun.
    destruct (_ <=? 0) in Hrun.
    + cbn in Hrun. injection Hrun as <- _. reflexivity.
    + destruct (ItemContainer.resizeByPercentage this lengthChanged total _ rest ps)
        as [f|[rest' w']] eqn:Hrec; [discriminate|].
      rewrite bind_inr_ret in Hrun. injection Hrun as <- _.
      cbn [map]. rewrite (IH _ _ _ _ Hrec). f_equal.
      destruct (ItemContainer.isVertical this); reflexivity.
Qed.

(** X22. Steps #1 and #2 of [setSize_recursive] together, for the
    [Percentage] strategy, a container whose length changed and whose usable
    length is at least the sum of the minimum lengths of its children: if
    [resizeChildren] returned without a warning, then after
    [positionItems(sizes)] and the loop over [growItem] the lengths of the
    entries still add up to exactly [usableLength()], every entry has at
    least its minimum length, and the minimum sizes are those of the
    start. The loop emits no warning. *)
Theorem setSize_steps_fill_and_respect_minimum (this : Item)
  (oldSize newSize : QSize) (childSizes sizes1 : list SizingInfo) :
  let o := ItemContainer.orientation this in
  let lengthChanged :=
    (ItemContainer.isVertical this && negb (ht oldSize =? ht newSize))
    || (ItemContainer.isHorizontal this && negb (wd oldSize =? wd newSize)) in
  lengthChanged = true ->
  childSizes <> [] ->
  totalMinLength o childSizes <= ItemContainer.usableLength this ->
  ItemContainer.resizeChildren this oldSize newSize childSizes Percentage
  = inr (sizes1, []) ->
  exists sizes3,
    ItemContainer.fixMissing this (seq 0 (List.length childSizes))
      (ItemContainer.positionItemsSizes this sizes1)
    = inr (sizes3, [])
    /\ totalLength o sizes3 = ItemContainer.usableLength this
    /\ Forall (fun sizing =>
                 SizingInfo.minLength sizing o <= SizingInfo.length sizing o)
         sizes3
    /\ map minSize sizes3 = map minSize childSizes.
Proof.
  intros o lengthChanged Hchanged Hne Hmin Hrun.
  unfold ItemContainer.resizeChildren in Hrun. fold lengthChanged in Hrun.
  pose proof (resizeByPercentage_minSize this lengthChanged _ _ _ _ _ _ Hrun)
    as Hmins.
  assert (Hlenp : (List.length childSizes
                   <= List.length (ItemContainer.childPercentages this))%nat).
  { clear - Hrun. revert Hrun.
    generalize (ItemContainer.usableLength this) at 2.
    generalize (ItemContainer.childPercentages this).
    revert sizes1.
    induction childSizes as [|s rest IH]; intros sizes1 ps remaining Hrun;
      [simpl; lia|].
    destruct ps as [|p ps]; [discriminate|].
    cbn [ItemContainer.resizeByPercentage] in Hrun.
    destruct (_ <=? 0) in Hrun; [cbn in Hrun; discriminate|].
    destruct (ItemContainer.resizeByPercentage this lengthChanged _ _ rest ps)
      as [f|[rest' w']] eqn:Hrec; [discriminate|].
    rewrite bind_inr_ret in Hrun. injection Hrun as _ ->.
    specialize (IH _ _ _ Hrec). simpl. lia. }
  destruct (resizeByPercentage_spec this lengthChanged
              (ItemContainer.usableLength this) childSizes
              (ItemContainer.childPercentages this)
              (ItemContainer.usableLength this) Hlenp)
    as (sizes' & w & Hrun' & Hlen & _ & Hok).
  rewrite Hrun in Hrun'. injection Hrun' as <- <-.
  destruct (Hok eq_refl) as (_ & Hsum & _). specialize (Hsum Hchanged Hne).
  fold o in Hsum.
  destruct (positionItemsFrom_keeps this sizes1 0) as [Hpl Hpm].
  fold o in Hpl. fold (ItemContainer.positionItemsSizes this sizes1) in Hpl, Hpm.
  set (sizes2 := ItemContainer.positionItemsSizes this sizes1) in *.
  assert (Hl2 : List.length sizes2 = List.length childSizes).
  { rewrite <- Hlen, <- (length_map minSize sizes2), Hpm, length_map. reflexivity. }
  assert (Ht2 : totalLength o sizes2 = ItemContainer.usableLength this).
  { unfold totalLength. rewrite Hpl. exact Hsum. }
  assert (Hm2 : totalMinLength o sizes2 = totalMinLength o childSizes).
  { apply totalMinLength_minSize. rewrite Hpm. exact Hmins. }
  destruct (fixMissing_spec this (List.length sizes2) sizes2 [] eq_refl (Forall_nil _))
    as (sizes3 & Hfix & Hmin3 & Hlen3 & Hall3).
  { cbn [app]. fold o. rewrite Hm2, Ht2. exact Hmin. }
  cbn [List.length app] in Hfix, Hmin3, Hlen3. fold o in Hlen3, Hall3.
  rewrite Hl2 in Hfix.
  exists sizes3. split; [exact Hfix|]. split; [rewrite Hlen3; exact Ht2|].
  split; [exact Hall3|]. rewrite Hmin3, Hpm. exact Hmins.
Qed.

(** X22 on two leaves side by side whose container went from 800 to 1000
    wide. *)
Lemma setSize_steps_fill_and_respect_minimum_witness :
  exists sizes1 sizes3,
    ItemContainer.resizeChildren (Scenario.sideBySide 498) (mkQSize 800 600)
      (mkQSize 1000 600) (snd (ItemContainer.sizes false (Scenario.sideBySide 498)))
      Percentage
    = inr (sizes1, [])
    /\ ItemContainer.fixMissing (Scenario.sideBySide 498) (seq 0 2)
         (ItemContainer.positionItemsSizes (Scenario.sideBySide 498) sizes1)
       = inr (sizes3, [])
    /\ totalLength Horizontal sizes3 = 995.
Proof.
  destruct (ItemContainer.resizeChildren (Scenario.sideBySide 498) (mkQSize 800 600)
              (mkQSize 1000 600)
              (snd (ItemContainer.sizes false (Scenario.sideBySide 498))) Percentage)
    as [f|[sizes1 w]] eqn:Hrun; [vm_compute in Hrun; discriminate|].
  assert (Hw : w = []) by (vm_compute in Hrun; injection Hrun as _ <-; reflexivity).
  subst w.
  destruct (setSize_steps_fill_and_respect_minimum (Scenario.sideBySide 498)
              (mkQSize 800 600) (mkQSize 1000 600)
              (snd (ItemContainer.sizes false (Scenario.sideBySide 498))) sizes1)
    as (sizes3 & Hfix & Hsum & _).
  - reflexivity.
  - discriminate.
  - vm_compute. discriminate.
  - exact Hrun.
  - exists sizes1, sizes3. split; [reflexivity|]. split; [exact Hfix|exact Hsum].
Defined.

(** ** Mutations that end by updating the separators *)

(** X23. [insertItem] on the root keeps the separators derived. If, before
    the call, every container that has a host widget and is reached from the
    root through visible children has [max 0 (visible_count - 1)]
    separators, separator [i] standing right after the trailing edge of
    visible child [i] in root coordinates, then the same holds of the root
    that [insertItem] returns. A container without a host widget has none of
    this: [updateSeparators] leaves it alone. *)
Theorem insertItem_keeps_separators_derived (fuel : nat) (address : Z)
  (this item : Item) (loc : Location) (mode : DefaultSizeMode) (option : AddingOption)
  (this' : Item) (w : list string) :
  Invariant.SeparatorsDerived [] this ->
  ItemContainer.insertItem fuel address this item loc mode option = inr (this', w) ->
  Invariant.SeparatorsDerived [] this'.
Proof.
  intros Hinv H.
  apply insertItem_ends_with_updateSeparators in H.
  destruct H as [[_ ->]|(inserted & this2 & w' & H & ->)]; [exact Hinv|].
  apply SeparatorsDerived_scheduleCheckSanity.
  apply updateSeparators_recursive_establishes in H. apply H.
Qed.

Lemma rootWithL1_separators_derived (vertical scheduled : bool) :
  Invariant.SeparatorsDerived []
    (Scenario.rootWithL1 Scenario.host vertical scheduled).
Proof.
  constructor.
  - intros _. split; [reflexivity|]. intros [|i] separator Hi; discriminate.
  - intros item [<-|[]] _. constructor.
Qed.

(** X23 on the insertion of S2. *)
Lemma insertItem_keeps_separators_derived_witness :
  exists root' : Item,
    ItemContainer.insertItem 1 900 (Scenario.rootWithL1 Scenario.host true false)
      (Scenario.L2 Scenario.host) Location_OnRight Fair AddingOption_None
    = inr (root', [])
    /\ Invariant.SeparatorsDerived [] root'
    /\ map sep_position (ItemContainer.separators root') = [498].
Proof.
  eexists. split; [vm_compute; reflexivity|]. split; [|reflexivity].
  eapply (insertItem_keeps_separators_derived 1 900
            (Scenario.rootWithL1 Scenario.host true false)
            (Scenario.L2 Scenario.host) Location_OnRight Fair AddingOption_None).
  - apply rootWithL1_separators_derived.
  - vm_compute. reflexivity.
Defined.

(** The invariant I6 as the specification words it, for every container,
    does not hold of a layout without a host widget: there the insertion of
    S2 leaves a root with two visible children and no separator. *)
Lemma insertItem_without_host_makes_no_separator :
  exists root' : Item,
    ItemContainer.insertItem 1 900 (Scenario.rootWithL1 None true false)
      (Scenario.L2 None) Location_OnRight Fair AddingOption_None
    = inr (root', [])
    /\ ItemContainer.numVisibleChildren root' = 2
    /\ ItemContainer.separators root' = []
    /\ ~ Invariant.separatorsInPlace [] root'.
Proof.
  eexists. split; [vm_compute; reflexivity|].
  split; [reflexivity|]. split; [reflexivity|].
  intros [Hcount _]. vm_compute in Hcount. discriminate.
Qed.

Lemma SeparatorsDerived_withBlockUpdatePercentages (b : bool) (ancestors : list Item)
  (this : Item) :
  Invariant.SeparatorsDerived ancestors this ->
  Invariant.SeparatorsDerived ancestors (ItemContainer.withBlockUpdatePercentages b this).
Proof.
  intros H.
  inversion H as [anc d|anc d c cs Hplace Hchildren]; subst; [constructor|].
  set (c' := mkContainerData (m_orientation c) (m_separators c) b
               (m_isDeserializing c) (m_convertingItemToContainer c)
               (m_checkSanityScheduled c)).
  change (Invariant.SeparatorsDerived ancestors (Container d c' cs)).
  constructor.
  - intros Hh.
    apply separatorsInPlace_congr with (this := Container d c cs);
      [exact (Hplace Hh)|reflexivity..].
  - intros item Hin Hl.
    apply SeparatorsDerived_congr with (ancestors := Container d c cs :: ancestors).
    + apply Hchildren; assumption.
    + reflexivity.
Qed.

(** X24. [setSize_recursive] keeps the separators derived: if they are
    derived in the item before the call, they are in the item that the call
    returns. A call that is refused, or that asks for the size the container
    has, returns the container as it was; any other call ends in
    [positionItems], which ends in [updateSeparators_recursive]. *)
Theorem setSize_recursive_keeps_separators_derived (fuel : nat)
  (ancestors : list Item) (newSize : QSize) (strategy : ChildrenResizeStrategy)
  (this this' : Item) (w : list string) :
  Invariant.SeparatorsDerived ancestors this ->
  ItemContainer.setSize_recursive fuel ancestors newSize strategy this = inr (this', w) ->
  Invariant.SeparatorsDerived ancestors this'.
Proof.
  intros Hinv H. destruct this as [d|d c cs].
  - destruct fuel; cbn in H; injection H as <- _; constructor.
  - destruct fuel as [|fuel]; [discriminate|].
    cbn [ItemContainer.setSize_recursive] in H.
    unfold ItemContainer.setSize_recursive_container in H. cbv zeta in H.
    match type of H with
    | (if ?c1 then _ else _) = _ => destruct c1
    end.
    { injection H as <- _.
      exact (SeparatorsDerived_withBlockUpdatePercentages (m_blockUpdatePercentages c)
               ancestors _
               (SeparatorsDerived_withBlockUpdatePercentages true ancestors
                  (Container d c cs) Hinv)). }
    match type of H with
    | (if ?c2 then _ else _) = _ => destruct c2
    end.
    { injection H as <- _.
      exact (SeparatorsDerived_withBlockUpdatePercentages (m_blockUpdatePercentages c)
               ancestors _
               (SeparatorsDerived_withBlockUpdatePercentages true ancestors
                  (Container d c cs) Hinv)). }
    match type of H with
    | context [ItemContainer.sizes false ?t] =>
        destruct (ItemContainer.sizes false t) as [this2 childSizes]
    end.
    apply bind_inr in H. destruct H as (sizes1 & w1 & w2 & _ & H & _).
    apply bind_inr in H. destruct H as (sizes3 & w3 & w4 & _ & H & _).
    apply bind_inr in H. destruct H as (this3 & w5 & w6 & Hgeo & H & _).
    injection H as <- _.
    refine (SeparatorsDerived_withBlockUpdatePercentages (m_blockUpdatePercentages c)
              ancestors this3 _).
    unfold ItemContainer.applyGeometries in Hgeo.
    apply bind_inr in Hgeo. destruct Hgeo as (children & w7 & w8 & _ & Hpos & _).
    unfold ItemContainer.positionItems in Hpos.
    match type of Hpos with
    | context [ItemContainer.sizes false ?t] =>
        destruct (ItemContainer.sizes false t) as [this4 sizes4]
    end.
    apply bind_inr in Hpos. destruct Hpos as (this5 & w9 & w10 & _ & Hsep & _).
    apply updateSeparators_recursive_establishes in Hsep. apply Hsep.
Qed.

Lemma sideBySide_separators_derived :
  Invariant.SeparatorsDerived [] (Scenario.sideBySide 498).
Proof.
  constructor.
  - intros _. split; [reflexivity|].
    intros [|[|i]] separator Hi; try discriminate.
    injection Hi as <-. eexists. split; [reflexivity|]. reflexivity.
  - intros item [<-|[<-|[]]] _; constructor.
Qed.

(** X24 on the two leaves side by side, when the root grows from 1000 to 1200
    wide: the separator moves from 498 to 598. *)
Lemma setSize_recursive_keeps_separators_derived_witness :
  exists root' : Item,
    ItemContainer.setSize_recursive 2 [] (mkQSize 1200 600) Percentage
      (Scenario.sideBySide 498)
    = inr (root', [])
    /\ Invariant.SeparatorsDerived [] root'
    /\ map sep_position (ItemContainer.separators root') = [598].
Proof.
  eexists. split; [vm_compute; reflexivity|]. split; [|reflexivity].
  eapply (setSize_recursive_keeps_separators_derived 2 [] (mkQSize 1200 600)
            Percentage (Scenario.sideBySide 498)).
  - apply sideBySide_separators_derived.
  - vm_compute. reflexivity.
Defined.

(** *** What a resize keeps of the items *)

Lemma Alike_refl (c : Item) : Alike c c.
Proof. repeat split. Qed.

Lemma Alike_trans (a b c : Item) : Alike a b -> Alike b c -> Alike a c.
Proof. intros (H1 & H2) (K1 & K2). split; congruence. Qed.

Lemma Alike_of_Akin (a b : Item) : Akin a b -> Alike a b.
Proof.
  intros H. split; [exact (akin_visible H)|exact (akin_inserted H)].
Qed.

Lemma Forall2_Alike_refl (l : list Item) : Forall2 Alike l l.
Proof. induction l; constructor; auto using Alike_refl. Qed.

Lemma Forall2_Alike_trans (l1 l2 l3 : list Item) :
  Forall2 Alike l1 l2 -> Forall2 Alike l2 l3 -> Forall2 Alike l1 l3.
Proof.
  intros H. revert l3. induction H as [|a b l1 l2 Hab _ IH]; intros l3 H3;
    inversion H3; subst; constructor.
  - eapply Alike_trans; eassumption.
  - apply IH. assumption.
Qed.

Lemma Forall2_Alike_existsb (l l' : list Item) :
  Forall2 Alike l l' ->
  existsb (Item.isVisible false) l' = existsb (Item.isVisible false) l.
Proof.
  induction 1 as [|a b l l' H _ IH]; simpl; [reflexivity|].
  rewrite IH, (proj1 H). reflexivity.
Qed.

Lemma Alike_withSizingInfo (s : SizingInfo) (it : Item) :
  isBeingInserted s = Item.isBeingInserted it ->
  Alike it (Item.withSizingInfo s it).
Proof.
  intros H. destruct it as [d|d c cs]; repeat split; exact H.
Qed.

Lemma Alike_setGeometry (r : QRect) (it : Item) : Alike it (Item.setGeometry r it).
Proof. apply Alike_withSizingInfo. reflexivity. Qed.

Lemma Alike_setLength (len : Z) (o : Orientation) (it : Item) :
  Alike it (Item.setLength len o it).
Proof.
  unfold Item.setLength, Item.setSize.
  destruct (Layouting.isVerticalO o); apply Alike_setGeometry.
Qed.

(** Two containers with children alike are alike when they agree on being
    inserted. *)
Lemma Alike_of_children (this this' : Item) :
  Item.isContainer this' = Item.isContainer this ->
  Item.data this' = Item.data this ->
  Forall2 Alike (ItemContainer.m_children this) (ItemContainer.m_children this') ->
  Alike this this'.
Proof.
  intros Hc Hd Hcs.
  destruct this as [d|d c cs], this' as [d'|d' c' cs']; try discriminate;
    cbn in Hd; subst d'; repeat split.
  cbn. apply Forall2_Alike_existsb. exact Hcs.
Qed.

Lemma m_children_withChildren (R : Item -> Item -> Prop) (this : Item)
  (cs : list Item) :
  Forall2 R (ItemContainer.m_children this) cs ->
  ItemContainer.m_children (ItemContainer.withChildren cs this) = cs.
Proof.
  destruct this as [d|d c l]; cbn; intros H; [inversion H|]; reflexivity.
Qed.

Lemma data_withChildren (this : Item) (cs : list Item) :
  Item.data (ItemContainer.withChildren cs this) = Item.data this
  /\ Item.isContainer (ItemContainer.withChildren cs this) = Item.isContainer this.
Proof. destruct this; split; reflexivity. Qed.

Lemma forEachVisible_alike (body : SizingInfo -> Item -> Exec Item) :
  (forall sizing item item' w, body sizing item = inr (item', w) -> Alike item item') ->
  forall children sizes children' w,
    ItemContainer.forEachVisible body children sizes = inr (children', w) ->
    Forall2 Alike children children'.
Proof.
  intros Hb. induction children as [|item rest IH]; intros sizes children' w H;
    cbn [ItemContainer.forEachVisible] in H.
  - injection H as <- _. constructor.
  - destruct (ItemContainer.isListedVisible false item).
    + destruct sizes as [|sizing sizes']; [discriminate|].
      apply bind_inr in H. destruct H as (item' & w1 & w2 & H1 & H & _).
      apply bind_inr in H. destruct H as (rest' & w3 & w4 & H2 & H & _).
      injection H as <- _. constructor; eauto.
    + apply bind_inr in H. destruct H as (rest' & w3 & w4 & H2 & H & _).
      injection H as <- _. constructor; [apply Alike_refl|eauto].
Qed.

(** [sizes()] refreshes minimum sizes only. *)
Lemma sizes_alike (b : bool) (this : Item) :
  Item.data (fst (ItemContainer.sizes b this)) = Item.data this
  /\ Item.isContainer (fst (ItemContainer.sizes b this)) = Item.isContainer this
  /\ Forall2 Alike (ItemContainer.m_children this)
       (ItemContainer.m_children (fst (ItemContainer.sizes b this))).
Proof.
  unfold ItemContainer.sizes. cbn [fst].
  match goal with
  | |- context [ItemContainer.withChildren (map ?g _) _] => set (refresh := g)
  end.
  assert (Hall : Forall2 Alike (ItemContainer.m_children this)
                   (map refresh (ItemContainer.m_children this))).
  { induction (ItemContainer.m_children this) as [|a l IH]; constructor; [|exact IH].
    unfold refresh.
    destruct (ItemContainer.isListedVisible b a && Item.isContainer a);
      [apply Alike_withSizingInfo; reflexivity|apply Alike_refl]. }
  destruct (data_withChildren this (map refresh (ItemContainer.m_children this)))
    as [Hd Hc].
  split; [exact Hd|]. split; [exact Hc|].
  rewrite (m_children_withChildren Alike _ _ Hall). exact Hall.
Qed.

Section ResizeKeeps.
Variable fuel : nat.
Variable f : list Item -> QSize -> ChildrenResizeStrategy -> Item -> Exec Item.
Hypothesis f_alike :
  forall ancestors sz strategy item item' w,
    f ancestors sz strategy item = inr (item', w) -> Alike item item'.

Lemma setLength_recursive_child_alike (ancestors : list Item) (len : Z)
  (o : Orientation) (item item' : Item) (w : list string) :
  ItemContainer.setLength_recursive_child f ancestors len o item = inr (item', w) ->
  Alike item item'.
Proof.
  destruct item as [d|d c cs]; cbn [ItemContainer.setLength_recursive_child].
  - intros H. injection H as <- _. apply Alike_setLength.
  - apply f_alike.
Qed.

Lemma positionItems_effect (ancestors : list Item) (this this' : Item)
  (w : list string) :
  ItemContainer.positionItems fuel f ancestors this = inr (this', w) ->
  Item.data this' = Item.data this
  /\ Item.isContainer this' = Item.isContainer this
  /\ Forall2 Alike (ItemContainer.m_children this) (ItemContainer.m_children this')
  /\ Invariant.SeparatorsDerived ancestors this'.
Proof.
  unfold ItemContainer.positionItems.
  destruct (sizes_alike false this) as (Hd1 & Hc1 & Ha1).
  destruct (ItemContainer.sizes false this) as [this1 sizes1]. cbn [fst] in *.
  intros H.
  apply bind_inr in H. destruct H as (this2 & w1 & w2 & Hpos & Hsep & _).
  unfold ItemContainer.applyPositions in Hpos.
  apply bind_inr in Hpos. destruct Hpos as (children & w3 & w4 & Hfe & Hpos & _).
  injection Hpos as <- _.
  apply forEachVisible_alike in Hfe.
  2:{ intros sizing item item' w' Hb.
      destruct (isBeingInserted sizing).
      - injection Hb as <- _. apply Alike_refl.
      - apply bind_inr in Hb. destruct Hb as (item1 & w5 & w6 & Hlen & Hb & _).
        injection Hb as <- _.
        eapply Alike_trans; [exact (setLength_recursive_child_alike _ _ _ _ _ _ Hlen)|].
        apply Alike_setGeometry. }
  destruct (data_withChildren this1 children) as [Hd2 Hc2].
  pose proof (m_children_withChildren Alike _ _ Hfe) as Hm.
  apply updateSeparators_recursive_establishes in Hsep.
  destruct Hsep as (Hd3 & Hc3 & _ & Hk & Hder).
  split; [congruence|]. split; [congruence|]. split; [|exact Hder].
  eapply Forall2_Alike_trans; [exact Ha1|].
  eapply Forall2_Alike_trans; [exact Hfe|].
  rewrite Hm in Hk.
  clear -Hk. induction Hk; constructor; auto using Alike_of_Akin.
Qed.

Lemma applyGeometries_effect (ancestors : list Item) (this : Item)
  (sizes : list SizingInfo) (strategy : ChildrenResizeStrategy) (this' : Item)
  (w : list string) :
  ItemContainer.applyGeometries fuel f ancestors this sizes strategy = inr (this', w) ->
  Item.data this' = Item.data this
  /\ Item.isContainer this' = Item.isContainer this
  /\ Forall2 Alike (ItemContainer.m_children this) (ItemContainer.m_children this')
  /\ Invariant.SeparatorsDerived ancestors this'.
Proof.
  unfold ItemContainer.applyGeometries. intros H.
  apply bind_inr in H. destruct H as (children & w1 & w2 & Hfe & Hpos & _).
  apply forEachVisible_alike in Hfe.
  2:{ intros sizing item item' w' Hb. exact (f_alike _ _ _ _ _ _ Hb). }
  destruct (data_withChildren this children) as [Hd Hc].
  pose proof (m_children_withChildren Alike _ _ Hfe) as Hm.
  apply positionItems_effect in Hpos.
  destruct Hpos as (Hd2 & Hc2 & Ha & Hder).
  split; [congruence|]. split; [congruence|]. split; [|exact Hder].
  rewrite Hm in Ha. eapply Forall2_Alike_trans; eassumption.
Qed.
End ResizeKeeps.

Lemma Alike_withBlockUpdatePercentages (b : bool) (this : Item) :
  Alike this (ItemContainer.withBlockUpdatePercentages b this).
Proof. destruct this; split; reflexivity. Qed.

Lemma Alike_sizes (b : bool) (this : Item) :
  Alike this (fst (ItemContainer.sizes b this)).
Proof.
  destruct (sizes_alike b this) as (Hd & Hc & Ha).
  apply Alike_of_children; assumption.
Qed.

(** [setSize_recursive] changes neither what is visible nor what is being
    inserted. *)
Lemma setSize_recursive_alike (fuel : nat) :
  forall ancestors newSize strategy this this' w,
    ItemContainer.setSize_recursive fuel ancestors newSize strategy this
    = inr (this', w) ->
    Alike this this'.
Proof.
  induction fuel as [|fuel IH]; intros ancestors newSize strategy this this' w H;
    destruct this as [d|d c cs];
    cbn [ItemContainer.setSize_recursive] in H;
    try discriminate;
    try discriminate;
    try (unfold Exec.ret in H; injection H as <- _; split; reflexivity).
  unfold ItemContainer.setSize_recursive_container in H. cbv zeta in H.
  match type of H with
  | (if ?c1 then _ else _) = _ => destruct c1
  end.
  { injection H as <- _. split; reflexivity. }
  match type of H with
  | (if ?c2 then _ else _) = _ => destruct c2
  end.
  { injection H as <- _. split; reflexivity. }
  match type of H with
  | context [ItemContainer.sizes false ?t] =>
      pose proof (Alike_sizes false t) as Hs;
      destruct (ItemContainer.sizes false t) as [this2 childSizes]
  end.
  cbn [fst] in Hs.
  apply bind_inr in H. destruct H as (sizes1 & w1 & w2 & _ & H & _).
  apply bind_inr in H. destruct H as (sizes3 & w3 & w4 & _ & H & _).
  apply bind_inr in H. destruct H as (this3 & w5 & w6 & Hgeo & H & _).
  injection H as <- _.
  apply (applyGeometries_effect (S fuel) (ItemContainer.setSize_recursive fuel) IH)
    in Hgeo.
  destruct Hgeo as (Hd & Hc & Ha & _).
  eapply Alike_trans; [|apply Alike_withBlockUpdatePercentages].
  eapply Alike_trans; [|apply Alike_of_children; eassumption].
  eapply Alike_trans; [|exact Hs].
  split; reflexivity.
Qed.

(** [growItem(Item *, ...)] leaves the container's own data alone, changes
    neither what is visible nor what is being inserted below it, and ends
    with the separators derived. *)
Lemma growItemPtr_effect (fuel : nat) (ancestors : list Item) (this : Item)
  (item amount : Z) (growthStrategy : GrowthStrategy)
  (neighbourSqueezeStrategy : NeighbourSqueezeStrategy)
  (accountForNewSeparator : bool) (childResizeStrategy : ChildrenResizeStrategy)
  (this' : Item) (w : list string) :
  ItemContainer.growItemPtr fuel ancestors this item amount growthStrategy
    neighbourSqueezeStrategy accountForNewSeparator childResizeStrategy
  = inr (this', w) ->
  Item.data this' = Item.data this
  /\ Item.isContainer this' = Item.isContainer this
  /\ Alike this this'
  /\ Invariant.SeparatorsDerived ancestors this'.
Proof.
  unfold ItemContainer.growItemPtr. cbv zeta.
  destruct (sizes_alike false this) as (Hd1 & Hc1 & Ha1).
  destruct (ItemContainer.sizes false this) as [this1 sizes1]. cbn [fst] in *.
  intros H.
  apply bind_inr in H. destruct H as (sizes' & w1 & w2 & _ & Hgeo & _).
  apply (applyGeometries_effect fuel (ItemContainer.setSize_recursive fuel)
           (setSize_recursive_alike fuel)) in Hgeo.
  destruct Hgeo as (Hd & Hc & Ha & Hder).
  assert (Hdata : Item.data this' = Item.data this) by congruence.
  assert (Hcont : Item.isContainer this' = Item.isContainer this) by congruence.
  split; [exact Hdata|]. split; [exact Hcont|]. split; [|exact Hder].
  apply Alike_of_children; [exact Hcont|exact Hdata|].
  eapply Forall2_Alike_trans; eassumption.
Qed.

(** *** Replacing a container inside the tree *)

Lemma update_Forall2 {A} (R : A -> A -> Prop) (f : A -> A) :
  (forall a, R a a) ->
  forall (l : list A) (i : nat) (a : A),
    nth_error l i = Some a -> R a (f a) -> Forall2 R l (QVector.update i f l).
Proof.
  intros Hrefl. induction l as [|b l IH]; intros [|i] a Hi Hr; try discriminate.
  - injection Hi as ->. cbn. constructor; [exact Hr|].
    clear -Hrefl. induction l; constructor; auto.
  - cbn. constructor; [apply Hrefl|]. eapply IH; eassumption.
Qed.

Lemma In_update {A} (f : A -> A) (x : A) :
  forall (l : list A) (i : nat),
    In x (QVector.update i f l) ->
    In x l \/ exists a, nth_error l i = Some a /\ x = f a.
Proof.
  induction l as [|b l IH]; intros [|i] H; cbn in H; try contradiction.
  - destruct H as [<-|H]; [right; exists b; split; reflexivity|left; right; exact H].
  - destruct H as [<-|H]; [left; left; reflexivity|].
    destruct (IH i H) as [Hin|(a & Ha & ->)]; [left; right; exact Hin|].
    right. exists a. split; [exact Ha|reflexivity].
Qed.

Lemma separatorsInPlace_akin (ancestors : list Item) (this this' : Item) :
  Invariant.separatorsInPlace ancestors this ->
  Item.data this' = Item.data this ->
  ItemContainer.orientation this' = ItemContainer.orientation this ->
  ItemContainer.separators this' = ItemContainer.separators this ->
  Forall2 Akin (ItemContainer.m_children this) (ItemContainer.m_children this') ->
  Invariant.separatorsInPlace ancestors this'.
Proof.
  intros [Hcount Hpos] Hd Ho Hs Hcs. split.
  - rewrite (numVisibleChildren_Akin this this' Hcs), Hs. exact Hcount.
  - intros i separator Hi. rewrite Hs in Hi.
    destruct (Hpos i separator Hi) as (child & Hc & Hw).
    destruct (Forall2_nth_error _ _ _ (Forall2_Akin_filter _ _ Hcs) i _ Hc)
      as (child' & Hc' & Hk).
    exists child'. split; [exact Hc'|]. rewrite Hw.
    apply wantedPosition_congr.
    + reflexivity.
    + apply data_pos. symmetry. exact Hd.
    + symmetry. exact Ho.
    + symmetry. exact (akin_geometry Hk).
Qed.

(** A container of the tree may be replaced by one with the same data and
    the same visibility whose own separators are derived: the separators of
    the tree stay derived. *)
Lemma replaceAt_derived (new : Item) :
  forall (path : list nat) (cur : Item) (anc : list Item) (this : Item)
         (ancestors : list Item),
    ItemContainer.locate cur anc path = Some (this, ancestors) ->
    Item.data new = Item.data this ->
    Item.isVisible false new = Item.isVisible false this ->
    (Invariant.SeparatorsDerived ancestors this ->
     Invariant.SeparatorsDerived ancestors new) ->
    Item.data (ItemContainer.replaceAt path new cur) = Item.data cur
    /\ Item.isVisible false (ItemContainer.replaceAt path new cur)
       = Item.isVisible false cur
    /\ (Invariant.SeparatorsDerived anc cur ->
        Invariant.SeparatorsDerived anc (ItemContainer.replaceAt path new cur)).
Proof.
  induction path as [|i rest IH]; intros cur anc this ancestors Hloc Hd Hv Hder.
  - cbn in Hloc. injection Hloc as <- <-. cbn. auto.
  - cbn [ItemContainer.locate] in Hloc.
    destruct (nth_error (ItemContainer.m_children cur) i) as [child|] eqn:Ei;
      [|discriminate].
    destruct cur as [d|d c cs]; [destruct i; discriminate|].
    cbn [ItemContainer.m_children] in Ei.
    destruct (IH child (Container d c cs :: anc) this ancestors Hloc Hd Hv Hder)
      as (Hd' & Hv' & Hder').
    set (child' := ItemContainer.replaceAt rest new child) in *.
    assert (Hk : Akin child child').
    { constructor; [| |exact Hv'];
        unfold Item.isBeingInserted, Item.sizingInfo; rewrite Hd'; reflexivity. }
    cbn [ItemContainer.replaceAt ItemContainer.withChildren ItemContainer.m_children].
    set (cs' := QVector.update i (ItemContainer.replaceAt rest new) cs).
    assert (Hcs : Forall2 Akin cs cs')
      by (exact (update_Forall2 Akin (ItemContainer.replaceAt rest new) Akin_refl cs i
                   child Ei Hk)).
    split; [reflexivity|]. split.
    { cbn. apply Forall2_Akin_existsb. exact Hcs. }
    intros Hall.
    inversion Hall as [|anc0 d0 c0 cs0 Hplace Hchildren]; subst.
    constructor.
    + intros Hh.
      apply separatorsInPlace_akin with (this := Container d c cs);
        [exact (Hplace Hh)|reflexivity..|exact Hcs].
    + intros item Hin Hl.
      apply SeparatorsDerived_congr with (ancestors := Container d c cs :: anc);
        [|reflexivity].
      destruct (In_update _ _ _ _ Hin) as [Hold|(a & Ha & ->)].
      * apply Hchildren; assumption.
      * assert (a = child) as -> by congruence.
        apply Hder'. apply Hchildren; [exact (nth_error_In _ _ Ei)|].
        rewrite <- (Akin_listed child child' false Hk). exact Hl.
Qed.

(** X25. [requestSeparatorMove] keeps the separators derived, on whatever
    container of the tree it is called: if they are derived in the tree
    before the call, they are in the tree that the call returns. A request
    that is refused leaves the tree as it was; a move goes through
    [growItem] on the container, which ends in [updateSeparators_recursive]
    there and leaves the container's own geometry alone, and what the
    container cannot take is moved further up in the same way. *)
Theorem requestSeparatorMove_keeps_separators_derived (hops fuel : nat)
  (root : Item) (path : list nat) (separator : option nat) (delta : Z)
  (root' : Item) (w : list string) :
  Invariant.SeparatorsDerived [] root ->
  ItemContainer.requestSeparatorMove hops fuel root path separator delta
  = inr (root', w) ->
  Invariant.SeparatorsDerived [] root'.
Proof.
  revert root path separator delta root' w.
  induction hops as [|hops IH]; intros root path separator delta root' w Hinv H;
    cbn [ItemContainer.requestSeparatorMove] in H.
  all: destruct (ItemContainer.locate root [] path) as [[this ancestors]|] eqn:Eloc;
    [|discriminate].
  all: cbv zeta in H.
  all: destruct (ItemContainer.indexOfSeparator this separator =? -1);
    [unfold Exec.bind, Exec.warn, Exec.ret in H; injection H as <- _; exact Hinv|].
  all: destruct (delta =? 0); [injection H as <- _; exact Hinv|].
  all: apply bind_inr in H; destruct H as (min & w1 & w2 & _ & H & _).
  all: apply bind_inr in H; destruct H as (pos & w3 & w4 & _ & H & _).
  all: apply bind_inr in H; destruct H as (max & w5 & w6 & _ & H & _).
  all: destruct ((pos + delta <? min) || (pos + delta >? max));
    [unfold Exec.bind, Exec.warn, Exec.ret in H; injection H as <- _; exact Hinv|].
  all: match type of H with
       | (if ?c then _ else _) = _ => destruct c
       end;
    [unfold Exec.bind, Exec.warn, Exec.ret in H; injection H as <- _; exact Hinv|].
  all: apply bind_inr in H; destruct H as ([this' took] & w7 & w8 & Hmoved & H & _).
  all: cbn [fst snd] in H.
  all: assert (Hkept : Item.data this' = Item.data this
                       /\ Item.isVisible false this' = Item.isVisible false this
                       /\ (Invariant.SeparatorsDerived ancestors this ->
                           Invariant.SeparatorsDerived ancestors this'));
    [destruct (delta <? 0);
     match type of Hmoved with
     | match ?a with _ => _ end = _ => destruct a as [neighbour|]; [|discriminate]
     end;
     apply bind_inr in Hmoved; destruct Hmoved as (grown & w9 & w10 & Hgrow & Hmoved & _);
     injection Hmoved as <- _ _;
     match type of Hgrow with
     | (if ?c then _ else _) = _ => destruct c
     end;
     try (injection Hgrow as <- _; auto);
     apply growItemPtr_effect in Hgrow;
     destruct Hgrow as (Hd & _ & Ha & Hder);
     (split; [exact Hd|]; split; [exact (proj1 Ha)|]; intros _; exact Hder)|].
  all: destruct Hkept as (Hd & Hv & Hder).
  all: destruct (replaceAt_derived this' path root [] this ancestors Eloc Hd Hv Hder)
    as (_ & _ & Hroot).
  all: specialize (Hroot Hinv).
  all: match type of H with
       | (if ?c then _ else _) = _ => destruct c
       end;
    [|injection H as <- _; exact Hroot].
  all: match type of H with
       | match ?l with _ => _ end = _ => destruct l as [[this1 [|parent up]]|]
       end;
    try (unfold Exec.bind, Exec.warn, Exec.ret in H; injection H as <- _; exact Hroot).
  all: match type of H with
       | match ?n with _ => _ end = _ => destruct n as [[levels nextSeparator]|]
       end;
    [|discriminate].
  - discriminate.
  - eapply IH; eassumption.
Qed.

Lemma nested_separators_derived : Invariant.SeparatorsDerived [] Scenario.nested.
Proof.
  constructor.
  - intros _. split; [reflexivity|].
    intros [|[|i]] separator Hi; try discriminate.
    injection Hi as <-. eexists. split; reflexivity.
  - intros item [<-|[<-|[]]] _; constructor.
    + intros _. split; [reflexivity|].
      intros [|[|i]] separator Hi; try discriminate.
      injection Hi as <-. eexists. split; reflexivity.
    + intros item [<-|[<-|[]]] _; constructor.
Qed.

(** X25 on the layout of S3, when the separator between L1 and L2 inside the
    container at 900 moves left by 50: it goes from 498 to 448, and the
    separator of the root stays at 298. *)
Lemma requestSeparatorMove_keeps_separators_derived_witness :
  exists root' : Item,
    ItemContainer.requestSeparatorMove 1 3 Scenario.nested [0%nat] (Some 0%nat) (-50)
    = inr (root', [])
    /\ Invariant.SeparatorsDerived [] root'
    /\ map sep_position (ItemContainer.separators root') = [298]
    /\ map (fun child => map sep_position (ItemContainer.separators child))
         (ItemContainer.m_children root')
       = [[448]; []].
Proof.
  eexists. split; [vm_compute; reflexivity|].
  split; [|split; reflexivity].
  eapply (requestSeparatorMove_keeps_separators_derived 1 3 Scenario.nested
            [0%nat] (Some 0%nat) (-50)).
  - apply nested_separators_derived.
  - vm_compute. reflexivity.
Defined.
